(* ===== verification/_CoqProject ===== *)
-Q . S2P
Prelude.v
Tree.v
Types.v
SaState.v
Proposals.v
Negotiate.v
Policy.v
Ibuf.v
Build.v
Parse.v
ParseSa.v
ParsePld.v
ParseNotify.v
ParseEap.v
ParseSk.v
Samples.v
ParseTop.v
ParseFrag.v
SaRoundtrip.v
Queue.v
Encrypt.v
Crypto.v
ParseAlloc.v
Recv.v
Send.v
Protect.v
FragSend.v
Keys.v
NtruInt.v
NtruCode.v
NtruSort.v
NtruPoly.v
NtruRing.v
NtruRecip.v
NtruCore.v
NtruKem.v
Curve25519.v
Dh.v
Chap.v
Dsa.v
Payload.v
AddrPool.v
Auth.v
Ident.v
IkeAuth.v
AuthFrame.v
AuthSafe.v
AuthTrust.v
