(* ===== verification/Prelude.v ===== *)
(** * OpenIKED: a Rocq model of the IKEv2 daemon's core

    OpenIKED is a daemon that negotiates IPsec security associations with
    IKEv2 (RFC 7296). Its core receives datagrams, finds the IKE SA they belong
    to, checks message ids, decrypts and parses payloads, runs the exchange they
    belong to and answers. This development models that core as executable
    functions and proves what they promise to each other and to the peer.

    ** Parts of the program and where they are modelled

    - [Prelude]: outcomes, the state and fault monad, machine integers, bytes;
      the tactics and hints of the development.
    - [Tree]: the red-black trees of [compat/sys/tree.h].
    - [Types]: constants, wire formats and structures of [ikev2.h], [iked.h],
      [eap.h], [types.h].
    - [SaState]: [sa_state], [sa_stateflags], [sa_stateok] of [policy.c], as
      functions and as a step relation.
    - [Proposals], [Negotiate]: the proposal lists of [config.c], and
      [proposals_match] and [proposals_negotiate] of [policy.c].
    - [Policy]: [policy_test], the skip steps and the order of flows of
      [policy.c], [sockaddr_cmp] of [util.c].
    - [Ibuf], [Build], [SaRoundtrip]: message buffers ([imsg-buffer.c],
      [imsg_util.c]), and the functions of [ikev2.c] that write headers,
      notifications and SA payloads into them.
    - [Parse], [ParseSa], [ParsePld], [ParseNotify], [ParseEap], [ParseSk],
      [ParseTop], [ParseFrag], [ParseAlloc]: the payload parser [ikev2_pld.c],
      the EAP parser of [eap.c], and [ikev2_msg_decrypt].
    - [Queue]: [ikev2_msg_send], the queues of requests and responses and
      their timers ([ikev2_msg.c]).
    - [Recv]: [ikev2_recv] and the front of [ikev2_init_recv] and
      [ikev2_resp_recv] ([ikev2.c]).
    - [Encrypt], [Send], [Protect], [FragSend]: [ikev2_msg_send_encrypt],
      encryption, checksums and fragments ([ikev2_msg.c]), and what the other
      end makes of them.
    - [Crypto], [Keys]: the algorithm tables of [crypto.c],
      [ikev2_sa_negotiate_common], [ikev2_prfplus] and [ikev2_sa_keys] of
      [ikev2.c].
    - [Samples]: concrete values the theorems are applied to.

    ** How the code is represented

    A C function is a function of the same name. A function that changes
    state is in the monad [M] over the record of what it works on: [pstate] for
    the parser, [bstate] for a buffer being built, [node] for an SA and its
    queues, [rstate] for the reception of a message. A run ends in [Ok] or in a
    [fault]: an access outside an object, a null pointer, a call of [fatalx],
    want of fuel, or a null pointer because an unchecked allocation failed.
    Machine integers are [Z] and are reduced where the code's arithmetic wraps;
    pointers into a buffer are offsets; a queue is a list and a pointer to an
    entry its position. The outcomes of allocations, of [sendtofrom] and of
    random numbers are lists in the state, so a theorem over all states covers
    all of them. Logging is left out, except where it reads the message.

    ** What is proved

    - Parsing. On any datagram and with any outcome of allocations
      [ikev2_pld_parse] stays inside its buffers, ends, and changes of the SA
      only what it may; a datagram that does not authenticate changes nothing
      but what a message in clear may. Fragments are reassembled in any order of
      arrival. Some payloads are followed to the last field.
    - Round trips. SA payloads, numbers, protected messages and fragmented
      messages are read back as they were written, the latter two through
      encryption at one end and decryption at the other.
    - Negotiation. The result of [proposals_negotiate] is characterised
      exactly, and what [ikev2_sa_negotiate_common] leaves in the SA is a suite
      as encryption and decryption need it.
    - Keys. [ikev2_sa_keys] computes the key material of RFC 7296, and the two
      ends agree on it.
    - Messages. A message is kept for retransmission exactly as it was sent; an
      unanswered request is sent again with growing timeouts until the SA is
      given up; requests are processed at most once and in order, and repeated
      ones are answered from the queue; AES-GCM vectors do not repeat.
    - Structures. Red-black trees implement sorted sets within their depth
      bound; buffers implement byte strings; the states of an SA respect the
      flags its policy requires; the walk of [policy_test] along skip steps is a
      scan of the policies, under the condition it needs.
    - Errors. Where the code does not do what it means to, a theorem or an
      example shows it: see [policy_skip_hides], [policy_af_hides],
      [rejected_response_drops_request], [cp_debug_overread],
      [decrypt_oom_null], [fragment_datagram_size].

    ** Fuel

    Loops over a message get one unit of fuel per byte, since every round
    consumes a header; the loops of [policy.c] one per policy; the removal of a
    tree node one per level and two more; prf+ at most 255 rounds, as the code.
    The theorems that say that a run returns show that this is enough.

    ** What is not modelled

    Cryptography (OpenSSL, [smult_curve25519_ref.c], [sntrup761.c],
    [chap_ms.c]) is behind interfaces ([External], [Encrypter] and those of
    [Keys]) whose laws are the documented ones. The exchanges behind
    [ikev2_recv] (authentication, child SAs, rekeying, deletion) are behind the
    interface [Exchanges]. The remaining payload builders, the functions that
    build EAP messages, and the lookup of SAs are not modelled yet. The
    configuration grammar, the kernel interface, certificates, process control,
    the control program and routing are input and output around this core. *)

From Stdlib Require Export ZArith Lia Strings.Byte.
From stdpp Require Export base tactics option list numbers relations.

#[global] Open Scope Z_scope.

(** ** Outcomes of C code

    A call either returns or hits behaviour the C program must never show:
    a load outside the object it points into, a null dereference, a call to
    [fatalx], or a loop that runs out of the fuel its model was given. [Foom]
    is the null dereference of code that does not look whether an allocation
    succeeded. *)
Inductive fault : Type := Foob | Fnull | Ffatal | Ffuel | Foom.

Inductive out (A : Type) : Type :=
  | Ok (a : A)
  | Fault (f : fault).
Arguments Ok {A} a.
Arguments Fault {A} f.

#[global] Instance out_ret : MRet out := λ A a, Ok a.
#[global] Instance out_bind : MBind out := λ A B k m,
  match m with Ok a => k a | Fault f => Fault f end.

(** State-passing code that may fault. *)
Definition M (S A : Type) : Type := S → out (A * S).

#[global] Instance M_ret {S} : MRet (M S) := λ A a s, Ok (a, s).
#[global] Instance M_bind {S} : MBind (M S) := λ A B k m s,
  match m s with Ok (a, s') => k a s' | Fault f => Fault f end.

Definition gets {S A} (f : S → A) : M S A := λ s, Ok (f s, s).
Definition modify {S} (f : S → S) : M S unit := λ s, Ok (tt, f s).
Definition fail {S A} (f : fault) : M S A := λ _, Fault f.
Definition lift {S A} (o : out A) : M S A := λ s,
  match o with Ok a => Ok (a, s) | Fault f => Fault f end.

(** ** Weakest preconditions

    [wp F m Q s]: run from [s], [m] either ends with [Q] or faults, and then
    [F] holds of the fault. [never] is total correctness; [oom_only] leaves out
    the runs that end for want of memory, and [any] is partial correctness. *)
Definition never : fault → Prop := λ _, False.
Definition oom_only : fault → Prop := λ f, f = Foom.
Definition any : fault → Prop := λ _, True.

Definition wp {S A} (F : fault → Prop) (m : M S A) (Q : A → S → Prop) (s : S) : Prop :=
  match m s with Ok (a, s') => Q a s' | Fault f => F f end.

(** The same for outcomes without a state. *)
Definition wpo {A} (F : fault → Prop) (o : out A) (Q : A → Prop) : Prop :=
  match o with Ok a => Q a | Fault f => F f end.

Section wp_rules.
Context {S : Type} (F : fault → Prop).
Implicit Types s : S.

Lemma wp_ret {A} (a : A) (Q : A → S → Prop) s : Q a s → wp F (mret a) Q s.
Proof. done. Qed.

Lemma wp_bind {A B} (m : M S A) (k : A → M S B) Q s :
  wp F m (λ a s', wp F (k a) Q s') s → wp F (m ≫= k) Q s.
Proof. unfold wp, mbind, M_bind. destruct (m s) as [[a s']|f]; done. Qed.

Lemma wp_gets {A} (f : S → A) (Q : A → S → Prop) s : Q (f s) s → wp F (gets f) Q s.
Proof. done. Qed.

Lemma wp_modify (f : S → S) (Q : unit → S → Prop) s : Q tt (f s) → wp F (modify f) Q s.
Proof. done. Qed.

Lemma wp_fail {A} f (Q : A → S → Prop) s : F f → wp F (fail f) Q s.
Proof. done. Qed.

Lemma wp_lift {A} (o : out A) (Q : A → S → Prop) s :
  wpo F o (λ a, Q a s) → wp F (lift o) Q s.
Proof. unfold wp, wpo, lift. by destruct o. Qed.

Lemma wp_mono {A} (m : M S A) (Q Q' : A → S → Prop) s :
  wp F m Q s → (∀ a s', Q a s' → Q' a s') → wp F m Q' s.
Proof. unfold wp. destruct (m s) as [[a s']|f]; eauto. Qed.

Lemma wp_and {A} (m : M S A) (Q Q' : A → S → Prop) s :
  wp F m Q s → wp F m Q' s → wp F m (λ a s', Q a s' ∧ Q' a s') s.
Proof. unfold wp. destruct (m s) as [[a s']|f]; eauto. Qed.
End wp_rules.

Lemma wpo_bind {A B} F (o : out A) (k : A → out B) Q :
  wpo F o (λ a, wpo F (k a) Q) → wpo F (o ≫= k) Q.
Proof. by destruct o. Qed.

Lemma wpo_mono {A} F (o : out A) (Q Q' : A → Prop) :
  wpo F o Q → (∀ a, Q a → Q' a) → wpo F o Q'.
Proof. destruct o; simpl; eauto. Qed.

(** A run, one step at a time. *)
Lemma bind_run {S A B} (m : M S A) (k : A → M S B) s a s' :
  m s = Ok (a, s') → (m ≫= k) s = k a s'.
Proof. intros H. unfold mbind, M_bind. by rewrite H. Qed.

(** A total-correctness judgement is an equation about the run. *)
Lemma wp_total {S A} (m : M S A) Q s :
  wp never m Q s ↔ ∃ a s', m s = Ok (a, s') ∧ Q a s'.
Proof.
  unfold wp. destruct (m s) as [[a s']|f]; split.
  - eauto.
  - intros (a' & s'' & [= -> ->] & H). done.
  - done.
  - intros (a' & s'' & ? & _). done.
Qed.

Lemma wp_oom_only {S A} (m : M S A) Q s :
  wp oom_only m Q s ↔ (∃ a s', m s = Ok (a, s') ∧ Q a s') ∨ m s = Fault Foom.
Proof.
  unfold wp, oom_only. destruct (m s) as [[a s']|f]; split.
  - eauto.
  - by intros [(a' & s'' & [= -> ->] & H)|H].
  - intros ->. by right.
  - by intros [(a' & s'' & H & _)|[= ->]].
Qed.

Lemma wp_partial {S A} (m : M S A) Q s :
  wp any m Q s ↔ ∀ a s', m s = Ok (a, s') → Q a s'.
Proof.
  unfold wp. destruct (m s) as [[a s']|f]; split; try done.
  - by intros H ?? [= -> ->].
  - intros H. by apply H.
Qed.

Lemma wp_weaken {S A} (F F' : fault → Prop) (m : M S A) Q s :
  wp F m Q s → (∀ f, F f → F' f) → wp F' m Q s.
Proof. unfold wp. destruct (m s) as [[a s']|f]; eauto. Qed.

(** ** Machine integers

    [size_t] and [uint64_t] arithmetic wraps at 64 bits, the narrower types
    at theirs; every C operation on them is written with its wrap. *)
Definition size_max : Z := 2 ^ 64.
Definition sz_add (a b : Z) : Z := (a + b) mod size_max.
Definition sz_sub (a b : Z) : Z := (a - b) mod size_max.
Definition to_u8 (a : Z) : Z := a mod 2 ^ 8.
Definition to_u16 (a : Z) : Z := a mod 2 ^ 16.
Definition to_u32 (a : Z) : Z := a mod 2 ^ 32.
Definition to_u64 (a : Z) : Z := a mod 2 ^ 64.

Declare Scope sz_scope.
Delimit Scope sz_scope with sz.
Infix "+" := sz_add : sz_scope.
Infix "-" := sz_sub : sz_scope.

Lemma sz_add_id a b : 0 ≤ a → 0 ≤ b → a + b < size_max → sz_add a b = a + b.
Proof. intros. unfold sz_add. apply Z.mod_small. lia. Qed.

Lemma sz_sub_id a b : 0 ≤ b → b ≤ a → a < size_max → sz_sub a b = a - b.
Proof. intros. unfold sz_sub. apply Z.mod_small. lia. Qed.

(** ** Bytes *)
Abbreviation bytes := (list byte).

#[global] Instance byte_eq_dec : EqDecision byte := Byte.byte_eq_dec.

Definition Zb (b : byte) : Z := Z.of_N (Byte.to_N b).
Definition bZ (z : Z) : byte := default x00 (Byte.of_N (Z.to_N (z mod 256))).

Lemma Zb_range b : 0 ≤ Zb b < 256.
Proof. unfold Zb. pose proof (Byte.to_N_bounded b). lia. Qed.

Lemma Zb_bZ z : Zb (bZ z) = z mod 256.
Proof.
  unfold Zb, bZ. pose proof (Z.mod_pos_bound z 256 ltac:(lia)).
  destruct (Byte.of_N (Z.to_N (z mod 256))) as [b|] eqn:E; simpl.
  - apply Byte.to_of_N in E. lia.
  - apply Byte.of_N_None_iff in E. lia.
Qed.

Lemma bZ_Zb b : bZ (Zb b) = b.
Proof.
  unfold bZ. rewrite Z.mod_small by apply Zb_range.
  unfold Zb. by rewrite N2Z.id, Byte.of_to_N.
Qed.

Lemma Zb_inj a b : Zb a = Zb b → a = b.
Proof. intros H. by rewrite <- (bZ_Zb a), <- (bZ_Zb b), H. Qed.

(** Big-endian numbers: [betoh16], [betoh32], [betoh64] of a packed field
    read the bytes in network order, [htobe16] and its kin write them. *)
Fixpoint be_decode (acc : Z) (l : bytes) : Z :=
  match l with [] => acc | b :: l => be_decode (acc * 256 + Zb b) l end.

Fixpoint be_encode (n : nat) (z : Z) : bytes :=
  match n with
  | O => []
  | S n => be_encode n (z / 256) ++ [bZ z]
  end.

Lemma be_decode_app acc l1 l2 :
  be_decode acc (l1 ++ l2) = be_decode (be_decode acc l1) l2.
Proof. revert acc. induction l1; simpl; auto. Qed.

Lemma be_decode_range acc (l : bytes) :
  0 ≤ acc → acc * 256 ^ Z.of_nat (length l) ≤ be_decode acc l < (acc + 1) * 256 ^ Z.of_nat (length l).
Proof.
  revert acc. induction l as [|b l IH]; intros acc Hacc; simpl be_decode.
  - simpl. lia.
  - pose proof (Zb_range b).
    specialize (IH (acc * 256 + Zb b) ltac:(lia)).
    replace (256 ^ Z.of_nat (length (b :: l))) with (256 * 256 ^ Z.of_nat (length l))
      by (rewrite <- Z.pow_succ_r by lia; f_equal; simpl length; lia).
    nia.
Qed.

Lemma length_be_encode n z : length (be_encode n z) = n.
Proof.
  revert z. induction n as [|n IH]; intros z; [done|].
  simpl. rewrite length_app, IH. simpl. lia.
Qed.

Lemma be_decode_encode n z :
  0 ≤ z < 256 ^ Z.of_nat n → be_decode 0 (be_encode n z) = z.
Proof.
  revert z. induction n as [|n IH]; intros z Hz.
  - simpl in *. lia.
  - rewrite Nat2Z.inj_succ, Z.pow_succ_r in Hz by lia.
    simpl. rewrite be_decode_app, IH by (pose proof (Z.div_mod z 256); split;
      [apply Z.div_pos; lia | apply Z.div_lt_upper_bound; lia]).
    simpl. rewrite Zb_bZ. pose proof (Z.div_mod z 256). lia.
Qed.

(** Fields of a packed struct, by byte offset. *)
Definition sub_bytes (off len : Z) (l : bytes) : bytes :=
  take (Z.to_nat len) (drop (Z.to_nat off) l).
Definition fld8 (l : bytes) (i : Z) : Z := be_decode 0 (sub_bytes i 1 l).
Definition fld16 (l : bytes) (i : Z) : Z := be_decode 0 (sub_bytes i 2 l).
Definition fld32 (l : bytes) (i : Z) : Z := be_decode 0 (sub_bytes i 4 l).
Definition fld64 (l : bytes) (i : Z) : Z := be_decode 0 (sub_bytes i 8 l).

Definition blen (l : bytes) : Z := Z.of_nat (length l).

Lemma blen_nonneg l : 0 ≤ blen l.
Proof. unfold blen. lia. Qed.

Lemma blen_app l k : blen (l ++ k) = blen l + blen k.
Proof. unfold blen. rewrite length_app. lia. Qed.

Lemma length_sub_bytes_le off len l : (length (sub_bytes off len l) ≤ Z.to_nat len)%nat.
Proof. unfold sub_bytes. rewrite length_take. lia. Qed.

Lemma be_decode_bound l n :
  (length l ≤ n)%nat → 0 ≤ be_decode 0 l < 256 ^ Z.of_nat n.
Proof.
  intros Hl. pose proof (be_decode_range 0 l ltac:(lia)).
  assert (256 ^ Z.of_nat (length l) ≤ 256 ^ Z.of_nat n)
    by (apply Z.pow_le_mono_r; lia). lia.
Qed.

Lemma fld8_range l i : 0 ≤ fld8 l i < 256.
Proof. exact (be_decode_bound _ 1 (length_sub_bytes_le i 1 l)). Qed.
Lemma fld16_range l i : 0 ≤ fld16 l i < 65536.
Proof. exact (be_decode_bound _ 2 (length_sub_bytes_le i 2 l)). Qed.
Lemma fld32_range l i : 0 ≤ fld32 l i < 2 ^ 32.
Proof. exact (be_decode_bound _ 4 (length_sub_bytes_le i 4 l)). Qed.
Lemma fld64_range l i : 0 ≤ fld64 l i < 2 ^ 64.
Proof. exact (be_decode_bound _ 8 (length_sub_bytes_le i 8 l)). Qed.

Lemma blen_sub_bytes off len l :
  0 ≤ off → 0 ≤ len → off + len ≤ blen l → blen (sub_bytes off len l) = len.
Proof.
  unfold blen, sub_bytes. intros. rewrite length_take, length_drop. lia.
Qed.

Lemma sub_bytes_app_l off len l k :
  0 ≤ off → 0 ≤ len → off + len ≤ blen l →
  sub_bytes off len (l ++ k) = sub_bytes off len l.
Proof.
  unfold sub_bytes, blen. intros.
  rewrite drop_app_le by lia. rewrite take_app_le; [done|].
  rewrite length_drop. lia.
Qed.

Lemma sub_bytes_app_r off len l k :
  blen l ≤ off → sub_bytes off len (l ++ k) = sub_bytes (off - blen l) len k.
Proof.
  unfold sub_bytes, blen. intros.
  rewrite drop_app_ge by lia. repeat f_equal. lia.
Qed.

Lemma sub_bytes_sub o n off len l :
  0 ≤ o → 0 ≤ n → o + n ≤ len → 0 ≤ off →
  sub_bytes o n (sub_bytes off len l) = sub_bytes (off + o) n l.
Proof.
  unfold sub_bytes. intros. rewrite (take_drop_commute _ (Z.to_nat n) (Z.to_nat o)), take_take, Nat.min_l by lia.
  rewrite <- take_drop_commute, drop_drop. repeat f_equal. lia.
Qed.

Lemma sub_bytes_all l : sub_bytes 0 (blen l) l = l.
Proof. unfold sub_bytes, blen. rewrite drop_0, Nat2Z.id, take_ge; done. Qed.

(** ** Memory

    [rd buf off len] loads [len] bytes at [buf + off]; a load that leaves
    the buffer faults. *)
Definition rd (buf : bytes) (off len : Z) : out bytes :=
  if (0 <=? off) && (0 <=? len) && (off + len <=? blen buf)
  then Ok (sub_bytes off len buf) else Fault Foob.

Lemma wpo_rd F buf off len (Q : bytes → Prop) :
  0 ≤ off → 0 ≤ len → off + len ≤ blen buf →
  Q (sub_bytes off len buf) → wpo F (rd buf off len) Q.
Proof.
  intros. unfold rd.
  rewrite (proj2 (Z.leb_le _ _)), (proj2 (Z.leb_le _ _)), (proj2 (Z.leb_le _ _)) by done.
  done.
Qed.

(** ** Records

    [upd eta f r v] is the record [r] with field [f] replaced by [v];
    [eta] spells out the record's constructor on its own projections. *)
Ltac upd eta f r v :=
  let t := eval cbv beta delta [eta] in (eta r) in
  let t' := eval pattern (f r) in t in
  match t' with ?g _ => let b := eval cbv beta in (g v) in exact b end.

(** ** Automation *)

(** One symbolic-execution step of a [wp] or [wpo] goal: the control
    structure only; calls are left to the caller's lemmas. *)
Ltac wp_step :=
  lazymatch goal with
  | |- wp _ (mbind _ _) _ _ => apply wp_bind
  | |- wp _ (mret _) _ _ => apply wp_ret
  | |- wp _ (gets _) _ _ => apply wp_gets
  | |- wp _ (modify _) _ _ => apply wp_modify
  | |- wp _ (lift _) _ _ => apply wp_lift
  | |- wpo _ (mbind _ _) _ => apply wpo_bind
  | |- wpo _ (mret _) _ => hnf
  | |- wpo _ (Ok _) _ => hnf
  | |- wp _ (if ?b then _ else _) _ _ => destruct b eqn:?
  | |- wpo _ (if ?b then _ else _) _ => destruct b eqn:?
  end.

(** Boolean tests of the code as arithmetic facts. *)
Ltac bool_facts :=
  repeat match goal with
  | H : (_ && _)%bool = true |- _ => apply andb_true_iff in H; destruct H
  | H : (_ || _)%bool = false |- _ => apply orb_false_iff in H; destruct H
  | H : negb _ = true |- _ => apply negb_true_iff in H
  | H : negb _ = false |- _ => apply negb_false_iff in H
  | H : (_ <? _) = true |- _ => apply Z.ltb_lt in H
  | H : (_ <? _) = false |- _ => apply Z.ltb_ge in H
  | H : (_ <=? _) = true |- _ => apply Z.leb_le in H
  | H : (_ <=? _) = false |- _ => apply Z.leb_gt in H
  | H : (_ =? _) = true |- _ => apply Z.eqb_eq in H
  | H : (_ =? _) = false |- _ => apply Z.eqb_neq in H
  end.
