(* ===== verification/Tree.v ===== *)
(** * Red-black trees: the [RB_] macros of [compat/sys/tree.h]

    The tables of the daemon (SAs, flows, users, address pools) are trees
    generated by [RB_GENERATE]. A node of a tree is modelled by the subtree it
    roots and the path of its parents up to [rbh_root], so that following a
    parent pointer is popping the path. Following a null pointer is a fault;
    the theorems show that insertion and removal never do, keep the tree
    balanced and change its elements as a sorted set. *)

From S2P Require Import Prelude.
From stdpp Require Import sorting.
#[local] Open Scope Z_scope.

Inductive rb_color := RB_BLACK | RB_RED.

Inductive rbtree (A : Type) :=
  | Null
  | Node (c : rb_color) (l : rbtree A) (x : A) (r : rbtree A).
Arguments Null {A}.
Arguments Node {A} c l x r.

(** A parent on the way up: the side the path comes from, the node itself and
    its other child. *)
Record rb_frame (A : Type) := mk_frame {
  f_left : bool; f_color : rb_color; f_elm : A; f_sib : rbtree A }.
Arguments mk_frame {A} _ _ _ _.
Arguments f_left {A} _.
Arguments f_color {A} _.
Arguments f_elm {A} _.
Arguments f_sib {A} _.

Section tree.
Context {A : Type} (cmp : A → A → Z).
Implicit Types t : rbtree A.
Implicit Types p : list (rb_frame A).

Definition fill (f : rb_frame A) t : rbtree A :=
  if f_left f then Node (f_color f) t (f_elm f) (f_sib f)
  else Node (f_color f) (f_sib f) (f_elm f) t.

Fixpoint plug t p : rbtree A :=
  match p with [] => t | f :: p => plug (fill f t) p end.

(** [RB_COLOR] as a value, and as the conditions the code builds with it. *)
Definition RB_COLOR t : out rb_color :=
  match t with Null => Fault Fnull | Node c _ _ _ => Ok c end.
Definition is_red t : bool :=
  match t with Node RB_RED _ _ _ => true | _ => false end.
Definition paint (c : rb_color) t : rbtree A :=
  match t with Null => Null | Node _ l x r => Node c l x r end.

Definition RB_ROTATE_LEFT t : out (rbtree A) :=
  match t with
  | Node c l x (Node c' l' y r') => Ok (Node c' (Node c l x l') y r')
  | _ => Fault Fnull
  end.
Definition RB_ROTATE_RIGHT t : out (rbtree A) :=
  match t with
  | Node c (Node c' l' y r') x r => Ok (Node c' l' y (Node c r' x r))
  | _ => Fault Fnull
  end.
Definition rotate (left : bool) t : out (rbtree A) :=
  if left then RB_ROTATE_LEFT t else RB_ROTATE_RIGHT t.

(** ** Lookup and iteration *)

Fixpoint RB_FIND t (elm : A) : option A :=
  match t with
  | Null => None
  | Node _ l x r =>
      let comp := cmp elm x in
      if comp <? 0 then RB_FIND l elm
      else if 0 <? comp then RB_FIND r elm
      else Some x
  end.

(** Down the left children, or the right ones, from a node that is not null:
    the last node, with its path. *)
Fixpoint descend (left : bool) t p : option (rbtree A * list (rb_frame A)) :=
  match t with
  | Null => None
  | Node c l x r =>
      let child := if left then l else r in
      match descend left child (mk_frame left c x (if left then r else l) :: p) with
      | None => Some (t, p)
      | Some z => Some z
      end
  end.

Definition RB_MIN t : option (rbtree A * list (rb_frame A)) := descend true t [].

(** Up while coming from the right, then to the parent. *)
Fixpoint climb t p : option (rbtree A * list (rb_frame A)) :=
  match p with
  | [] => None
  | f :: p => if f_left f then Some (fill f t, p) else climb (fill f t) p
  end.

Definition RB_NEXT t p : out (option (rbtree A * list (rb_frame A))) :=
  match t with
  | Null => Fault Fnull
  | Node c l x r =>
      match r with
      | Null => Ok (climb t p)
      | _ => Ok (descend true r (mk_frame false c x l :: p))
      end
  end.

(** [RB_FOREACH]: the elements in the order they are visited. *)
Fixpoint visit (fuel : nat) (z : option (rbtree A * list (rb_frame A))) : out (list A) :=
  match fuel with
  | O => Fault Ffuel
  | S fuel =>
      match z with
      | None => Ok []
      | Some (Null, _) => Fault Fnull
      | Some (Node c l x r, p) =>
          z ← RB_NEXT (Node c l x r) p;
          xs ← visit fuel z;
          Ok (x :: xs)
      end
  end.

Fixpoint size t : nat :=
  match t with Null => O | Node _ l _ r => S (size l + size r) end.

Definition RB_FOREACH t : out (list A) := visit (S (size t)) (RB_MIN t).

(** ** Insertion *)

(** [RB_INSERT_COLOR]: [t] is the tree at [elm], [p] the way to the root. The
    loop ends after a rotation, which leaves the parent of [elm] black. *)
Fixpoint RB_INSERT_COLOR t p : out (rbtree A) :=
  match p with
  | [] => Ok (paint RB_BLACK t)
  | f :: p' =>
      match f_color f with
      | RB_BLACK => Ok (paint RB_BLACK (plug t p))
      | RB_RED =>
          match p' with
          | [] => Fault Fnull
          | g :: p'' =>
              let parent := fill f t in
              if is_red (f_sib g) then
                RB_INSERT_COLOR
                  (fill (mk_frame (f_left g) RB_RED (f_elm g) (paint RB_BLACK (f_sib g)))
                     (paint RB_BLACK parent)) p''
              else
                parent ← (if Bool.eqb (f_left f) (f_left g) then Ok parent
                          else rotate (f_left g) parent);
                top ← rotate (negb (f_left g))
                        (fill (mk_frame (f_left g) RB_RED (f_elm g) (f_sib g))
                           (paint RB_BLACK parent));
                Ok (paint RB_BLACK (plug top p''))
          end
      end
  end.

(** The way to the node with the key of [elm], or to where it belongs. *)
Fixpoint seek t (elm : A) p : rbtree A * list (rb_frame A) :=
  match t with
  | Null => (Null, p)
  | Node c l x r =>
      let comp := cmp elm x in
      if comp <? 0 then seek l elm (mk_frame true c x r :: p)
      else if 0 <? comp then seek r elm (mk_frame false c x l :: p)
      else (t, p)
  end.

(** The element that was there before, if any, and the tree. *)
Definition RB_INSERT t (elm : A) : out (option A * rbtree A) :=
  match seek t elm [] with
  | (Node _ _ x _, _) => Ok (Some x, t)
  | (Null, p) => t ← RB_INSERT_COLOR (Node RB_RED Null elm Null) p; Ok (None, t)
  end.

(** ** Removal *)

(** The sibling is red: it becomes the grandparent. *)
Definition lift_sibling (f : rb_frame A) p : rb_frame A * list (rb_frame A) :=
  match f_sib f with
  | Null => (f, p)
  | Node _ l y r =>
      let near := if f_left f then l else r in
      let far := if f_left f then r else l in
      (mk_frame (f_left f) RB_RED (f_elm f) near,
       mk_frame (f_left f) RB_BLACK y far :: p)
  end.

(** The last case: rotate the sibling [tmp] if its far child is black, then
    the parent. *)
Definition remove_rotate (f : rb_frame A) t (l : rbtree A) (y : A) (r : rbtree A) : out (rbtree A) :=
  let left := f_left f in
  tmp ← (if negb (is_red (if left then r else l)) then
           rotate (negb left)
             (Node RB_RED (if left then paint RB_BLACK l else l) y
                (if left then r else paint RB_BLACK r))
         else Ok (Node RB_BLACK l y r));
  match tmp with
  | Null => Fault Fnull
  | Node _ l y r =>
      let tmp := Node (f_color f) (if left then l else paint RB_BLACK l) y
                   (if left then paint RB_BLACK r else r) in
      rotate left (fill (mk_frame left RB_BLACK (f_elm f) tmp) t)
  end.

(** [RB_REMOVE_COLOR]: the tree [t] at [elm] is short of a black node. *)
Fixpoint RB_REMOVE_COLOR (fuel : nat) t p : out (rbtree A) :=
  match fuel with
  | O => Fault Ffuel
  | S fuel =>
      match p with
      | [] => Ok (paint RB_BLACK t)
      | f :: p =>
          if is_red t then Ok (plug (paint RB_BLACK t) (f :: p))
          else
            c ← RB_COLOR (f_sib f);
            let '(f, p) := match c with RB_RED => lift_sibling f p | RB_BLACK => (f, p) end in
            match f_sib f with
            | Null => Fault Fnull
            | Node c l y r =>
                if negb (is_red l) && negb (is_red r) then
                  RB_REMOVE_COLOR fuel
                    (fill (mk_frame (f_left f) (f_color f) (f_elm f) (Node RB_RED l y r)) t) p
                else
                  top ← remove_rotate f t l y r;
                  Ok (paint RB_BLACK (plug top p))
            end
      end
  end.

(** The node at the hole of [p] goes, its only child [t] takes its place. *)
Definition remove_color (color : rb_color) t p : out (rbtree A) :=
  match color with
  | RB_BLACK => RB_REMOVE_COLOR (S (S (length p))) t p
  | RB_RED => Ok (plug t p)
  end.

Definition RB_REMOVE t p : out (rbtree A) :=
  match t with
  | Null => Fault Fnull
  | Node c l x r =>
      match l, r with
      | Null, _ => remove_color c r p
      | _, Null => remove_color c l p
      | _, _ =>
          match descend true r [] with
          | Some (Node ce _ y child, q) =>
              remove_color ce child (q ++ mk_frame false c y l :: p)
          | _ => Fault Fnull
          end
      end
  end.

(** As it is used: with the element that was looked up. *)
Definition rb_remove t (elm : A) : out (rbtree A) :=
  let '(t, p) := seek t elm [] in RB_REMOVE t p.
End tree.

(** ** The order of the elements *)

(** What a comparison function owes its tree. *)
Class RbOrder {A} (cmp : A → A → Z) := {
  cmp_opp x y : Z.sgn (cmp y x) = - Z.sgn (cmp x y);
  cmp_trans x y z : cmp x y < 0 → cmp y z < 0 → cmp x z < 0;
  cmp_eq_lt x y z : cmp x y = 0 → cmp y z < 0 → cmp x z < 0 }.

(** Concatenations, in one normal form. *)
Ltac list_norm := repeat first [rewrite <- app_assoc | progress simpl]; rewrite ?app_nil_r.

Section elements.
Context {A : Type} (cmp : A → A → Z).
Implicit Types t : rbtree A.
Implicit Types p : list (rb_frame A).

Fixpoint elements t : list A :=
  match t with Null => [] | Node _ l x r => elements l ++ x :: elements r end.

Fixpoint before p : list A :=
  match p with
  | [] => []
  | f :: p => before p ++ (if f_left f then [] else elements (f_sib f) ++ [f_elm f])
  end.
Fixpoint after p : list A :=
  match p with
  | [] => []
  | f :: p => (if f_left f then f_elm f :: elements (f_sib f) else []) ++ after p
  end.

Lemma elements_fill f t :
  elements (fill f t) = (if f_left f then [] else elements (f_sib f) ++ [f_elm f]) ++ elements t ++
    (if f_left f then f_elm f :: elements (f_sib f) else []).
Proof. unfold fill. destruct (f_left f); simpl; by rewrite ?app_nil_r, <- ?app_assoc. Qed.

Lemma elements_plug t p : elements (plug t p) = before p ++ elements t ++ after p.
Proof.
  revert t. induction p as [|f p IH]; intros t; simpl; [by rewrite app_nil_r|].
  by rewrite IH, elements_fill, <- !app_assoc.
Qed.

Lemma elements_paint c t : elements (paint c t) = elements t.
Proof. by destruct t. Qed.

Lemma elements_rotate d t t' : rotate d t = Ok t' → elements t' = elements t.
Proof.
  destruct d; simpl.
  - destruct t as [|c l x [|c' l' y r']]; intros [= <-]. simpl. by rewrite <- app_assoc.
  - destruct t as [|c [|c' l' y r'] x r]; intros [= <-]. simpl. by rewrite <- app_assoc.
Qed.

Lemma plug_app t p q : plug t (p ++ q) = plug (plug t p) q.
Proof. revert t. induction p as [|f p IH]; simpl; auto. Qed.

Lemma before_app p q : before (p ++ q) = before q ++ before p.
Proof. induction p as [|f p IH]; simpl; [by rewrite app_nil_r|]. by rewrite IH, app_assoc. Qed.

Lemma after_app p q : after (p ++ q) = after p ++ after q.
Proof. induction p as [|f p IH]; simpl; [done|]. by rewrite IH, app_assoc. Qed.

Lemma seek_plug t x p : let '(t', p') := seek cmp t x p in plug t' p' = plug t p.
Proof.
  revert p. induction t as [|c l IHl y r IHr]; intros p; simpl; [done|].
  destruct (cmp x y <? 0); [apply IHl|]. destruct (0 <? cmp x y); [apply IHr|done].
Qed.

Lemma descend_spec c l x r p :
  ∃ ce y child q, descend true (Node c l x r) p = Some (Node ce Null y child, q ++ p) ∧
    plug (Node ce Null y child) q = Node c l x r ∧ before q = [].
Proof.
  revert c x r p. induction l as [|cl ll IH y lr _]; intros c x r p; simpl.
  - exists c, x, r, []. done.
  - destruct (IH cl y lr (mk_frame true c x r :: p)) as (ce & z & child & q & E & Hp & Hb).
    simpl in E. rewrite E. exists ce, z, child, (q ++ [mk_frame true c x r]).
    by rewrite <- app_assoc, plug_app, Hp, before_app, Hb.
Qed.

(** ** Where an element belongs *)

Definition sorted (l : list A) : Prop := StronglySorted (λ a b, cmp a b < 0) l.

Context `{!RbOrder cmp}.

Lemma cmp_gt x y : 0 < cmp x y ↔ cmp y x < 0.
Proof. pose proof (cmp_opp x y). lia. Qed.

Lemma cmp_refl x : cmp x x = 0.
Proof. pose proof (cmp_opp x x). lia. Qed.

Lemma cmp_lt_eq x y z : cmp x y < 0 → cmp y z = 0 → cmp x z < 0.
Proof.
  intros H E. assert (E' : cmp z y = 0) by (pose proof (cmp_opp y z); lia).
  destruct (Z.lt_trichotomy (cmp x z) 0) as [?|[Hz|Hz]]; [done| |].
  - assert (E2 : cmp z x = 0) by (pose proof (cmp_opp x z); lia).
    pose proof (cmp_eq_lt z x y E2 H). lia.
  - apply cmp_gt in Hz. pose proof (cmp_trans z x y Hz H). lia.
Qed.

Lemma sorted_app l1 l2 :
  sorted (l1 ++ l2) ↔ sorted l1 ∧ sorted l2 ∧ ∀ a b, a ∈ l1 → b ∈ l2 → cmp a b < 0.
Proof.
  unfold sorted. induction l1 as [|x l1 IH]; simpl.
  - split; [intros H; split; [constructor|split; [done|]]|tauto].
    intros a b Ha. by apply elem_of_nil in Ha.
  - split.
    + intros H. apply StronglySorted_inv in H as [H1 H2].
      apply IH in H1 as (S1 & S2 & S3). apply Forall_app in H2 as [F1 F2].
      split; [by constructor|split; [done|]]. intros a b Ha Hb.
      apply elem_of_cons in Ha as [->|Ha]; [|by apply S3].
      rewrite Forall_forall in F2. by apply F2.
    + intros (H1 & H2 & H3). apply StronglySorted_inv in H1 as [S1 F1]. constructor.
      * apply IH. split; [done|split; [done|]]. intros a b Ha Hb. apply H3; [by right|done].
      * apply Forall_app. split; [done|]. apply Forall_forall. intros b Hb. apply H3; [by left|done].
Qed.

Definition fits (x : A) p : Prop :=
  (∀ y, y ∈ before p → cmp y x < 0) ∧ (∀ y, y ∈ after p → cmp x y < 0).

Lemma seek_fits t x p :
  sorted (elements (plug t p)) → fits x p →
  let '(t', p') := seek cmp t x p in
  fits x p' ∧ match t' with Null => True | Node _ _ y _ => cmp x y = 0 end.
Proof.
  revert p. induction t as [|c l IHl y r IHr]; intros p Hs Hf; simpl; [done|].
  destruct (Z.ltb_spec (cmp x y) 0) as [Hl|Hl]; [|destruct (Z.ltb_spec 0 (cmp x y)) as [Hr|Hr]].
  - apply IHl; [done|]. destruct Hf as [Hb Ha]. split; simpl; [by rewrite app_nil_r|].
    rewrite elements_plug in Hs. simpl in Hs.
    intros z [->|[Hz|Hz]%elem_of_app]%elem_of_cons; [done| |by apply Ha].
    apply sorted_app in Hs as (_ & Hs & _). rewrite <- app_assoc in Hs.
    apply sorted_app in Hs as (_ & Hs & _). apply StronglySorted_inv in Hs as [_ Hs].
    rewrite Forall_forall in Hs. apply (cmp_trans _ y); [done|]. apply Hs. apply elem_of_app. by left.
  - apply IHr; [done|]. destruct Hf as [Hb Ha]. split; simpl; [|done].
    rewrite elements_plug in Hs. simpl in Hs.
    intros z [Hz|[Hz| ->%list_elem_of_singleton]%elem_of_app]%elem_of_app;
      [by apply Hb| |by apply cmp_gt].
    apply sorted_app in Hs as (_ & Hs & _). rewrite <- app_assoc in Hs.
    apply sorted_app in Hs as (_ & _ & Hs). apply (cmp_trans _ y).
    + apply Hs; [done|left].
    + by apply cmp_gt.
  - split; [done|lia].
Qed.
End elements.

(** ** Balance *)

(** [rb t c n]: a tree with a root of colour [c] (null is black) and [n] black
    nodes on every path down, in which no red node has a red child. *)
Inductive rb {A} : rbtree A → rb_color → nat → Prop :=
  | rb_null : rb Null RB_BLACK 0
  | rb_node_red l x r n : rb l RB_BLACK n → rb r RB_BLACK n → rb (Node RB_RED l x r) RB_RED n
  | rb_node_black l x r cl cr n :
      rb l cl n → rb r cr n → rb (Node RB_BLACK l x r) RB_BLACK (S n).

(** [rbp p c n]: such a tree with root [c] and [n] black nodes completes [p]
    to one with a black root. *)
Inductive rbp {A} : list (rb_frame A) → rb_color → nat → Prop :=
  | rbp_nil n : rbp [] RB_BLACK n
  | rbp_red d x s p n :
      rb s RB_BLACK n → rbp p RB_RED n → rbp (mk_frame d RB_RED x s :: p) RB_BLACK n
  | rbp_black d x s p c cs n :
      rb s cs n → rbp p RB_BLACK (S n) → rbp (mk_frame d RB_BLACK x s :: p) c n.

Create HintDb rb.
#[export] Hint Constructors rb rbp : rb.

Section balance.
Context {A : Type}.
Implicit Types t : rbtree A.
Implicit Types p : list (rb_frame A).

Lemma rbp_weaken p c n : rbp p c n → rbp p RB_BLACK n.
Proof. destruct 1; eauto with rb. Qed.

Lemma plug_rb t p c n : rb t c n → rbp p c n → ∃ m, rb (plug t p) RB_BLACK m.
Proof.
  intros Ht Hp. revert t Ht. induction Hp as [n|d x s p n Hs Hp IH|d x s p c cs n Hs Hp IH];
    intros t Ht; simpl; [eauto| |]; apply IH; destruct d; unfold fill; simpl; eauto with rb.
Qed.

Lemma unplug_rb t p m : rb (plug t p) RB_BLACK m → ∃ c n, rb t c n ∧ rbp p c n.
Proof.
  revert t m. induction p as [|[d c x s] p IH]; intros t m H; simpl in H; [eauto with rb|].
  apply IH in H as (c' & n & H & Hp). destruct d; unfold fill in H; simpl in H;
    inversion H; subst; eauto with rb.
Qed.

Lemma rbp_elm q d c x y s p c' n :
  rbp (q ++ mk_frame d c x s :: p) c' n → rbp (q ++ mk_frame d c y s :: p) c' n.
Proof.
  revert c' n. induction q as [|[d' cf z s'] q IH]; intros c' n H; simpl in *;
    inversion H; subst; eauto with rb.
Qed.

Lemma paint_root t n : rb t RB_BLACK n → paint RB_BLACK t = t.
Proof. by inversion 1. Qed.

Lemma paint_rb t c n : rb t c n → ∃ m, rb (paint RB_BLACK t) RB_BLACK m.
Proof. inversion 1; subst; simpl; eauto with rb. Qed.

Lemma is_red_rb t c n : rb t c n → is_red t = match c with RB_RED => true | RB_BLACK => false end.
Proof. by inversion 1. Qed.

(** ** Insertion *)

Lemma insert_color_run t p n :
  rb t RB_RED n → rbp p RB_BLACK n →
  ∃ t' m, RB_INSERT_COLOR t p = Ok t' ∧ rb t' RB_BLACK m ∧
    elements t' = before p ++ elements t ++ after p.
Proof.
  remember (length p) as k eqn:Hk. revert t p n Hk.
  induction (lt_wf k) as [k _ IH]; intros t p n -> Ht Hp.
  inversion Hp as [n0|d x s p0 n0 Hs Hp0|d x s p0 c cs n0 Hs Hp0]; subst; clear Hp; [|rename Hp0 into Hp..].
  - destruct (paint_rb _ _ _ Ht) as [m Hm]. exists (paint RB_BLACK t), m.
    simpl. by rewrite elements_paint, app_nil_r.
  - inversion Hp as [| |d' y u q c' cu n' Hu Hq E1 E2 E3]; subst. simpl.
    rewrite (is_red_rb _ _ _ Hu). destruct cu.
    + assert (∃ top, (parent ← (if Bool.eqb d d' then Ok (fill (mk_frame d RB_RED x s) t)
                    else rotate d' (fill (mk_frame d RB_RED x s) t));
            rotate (negb d') (fill (mk_frame d' RB_RED y u) (paint RB_BLACK parent))) = Ok top ∧
          rb top RB_BLACK (S n)) as (top & E & Htop).
      { inversion Ht; subst. destruct d, d'; simpl; eexists; (split; [reflexivity|]); simpl; eauto 8 with rb. }
      destruct (plug_rb _ _ _ _ Htop Hq) as [m Hm]. exists (plug top q), m.
      destruct (if Bool.eqb d d' then _ else _) as [parent|] eqn:Ep; [|done]. simpl in E |- *.
      rewrite E. simpl. rewrite (paint_root _ _ Hm). split; [done|split; [done|]].
      apply elements_rotate in E. rewrite elements_plug, E, elements_fill, elements_paint; simpl.
      assert (elements parent = elements (fill (mk_frame d RB_RED x s) t)) as ->.
      { destruct (Bool.eqb d d'); [by injection Ep as <-|]. by apply elements_rotate in Ep. }
      rewrite elements_fill. simpl. by destruct d, d'; simpl; rewrite <- ?app_assoc, ?app_nil_r.
    + destruct (IH (length q)) with (t := fill (mk_frame d' RB_RED y (paint RB_BLACK u))
        (paint RB_BLACK (fill (mk_frame d RB_RED x s) t))) (p := q) (n := S n)
        as (t' & m & E & Hm & He); [simpl; lia|done| |done|].
      { inversion Hu; subst. destruct d, d'; unfold fill; simpl; eauto 6 with rb. }
      exists t', m. split; [done|split; [done|]]. rewrite He, elements_fill, elements_paint; simpl.
      rewrite elements_fill, elements_paint. simpl. by destruct d, d'; simpl; rewrite <- ?app_assoc, ?app_nil_r.
  - destruct (plug_rb t (mk_frame d RB_BLACK x s :: p0) RB_RED n) as [m Hm]; [done|eauto with rb|].
    exists (plug t (mk_frame d RB_BLACK x s :: p0)), m.
    split; [|split; [done|by rewrite elements_plug]]. simpl in *. by rewrite (paint_root _ _ Hm).
Qed.

(** ** Removal *)

(** A subtree that lost a black node: painting it black restores it, or it is
    black and one short. *)
Definition short t (n : nat) : Prop :=
  (is_red t = true ∧ rb (paint RB_BLACK t) RB_BLACK (S n)) ∨ (is_red t = false ∧ rb t RB_BLACK n).

Lemma short_child t c n : rb t c n → short t n.
Proof. unfold short. inversion 1; subst; simpl; eauto with rb. Qed.

Lemma remove_rotate_run d c x s t l y r cl cr n :
  rb t RB_BLACK n → rb l cl n → rb r cr n → is_red l || is_red r = true →
  ∃ top, remove_rotate (mk_frame d c x s) t l y r = Ok top ∧
    rb top c (match c with RB_RED => S n | RB_BLACK => S (S n) end) ∧
    elements top = elements (fill (mk_frame d c x (Node RB_BLACK l y r)) t).
Proof.
  intros Ht Hl Hr Hred. unfold remove_rotate, fill.
  destruct d; inversion Hl; subst; inversion Hr; subst; try done; simpl;
    eexists; (split; [reflexivity|]);
    (split; [destruct c; simpl; eauto 8 with rb|by list_norm]).
Qed.

(** The sibling once it is black. *)
Lemma black_sibling d c x s p n :
  rbp (mk_frame d c x s :: p) RB_BLACK (S n) →
  ∃ c', RB_COLOR s = Ok c' ∧
  let '(f, q) := match c' with RB_RED => lift_sibling (mk_frame d c x s) p
                 | RB_BLACK => (mk_frame d c x s, p) end in
  ∃ cf xf l y r cl cr, f = mk_frame d cf xf (Node RB_BLACK l y r) ∧ rb l cl n ∧ rb r cr n ∧
    rbp q cf (match cf with RB_RED => S n | RB_BLACK => S (S n) end) ∧
    (q = p ∨ (length q = S (length p) ∧ cf = RB_RED)) ∧
    before (f :: q) = before (mk_frame d c x s :: p) ∧ after (f :: q) = after (mk_frame d c x s :: p).
Proof.
  intros Hp. inversion Hp as [|d' x' s' p' n' Hs Hq|d' x' s' p' c' cs n' Hs Hq]; subst.
  - inversion Hs; subst. exists RB_BLACK. split; [done|].
    eexists RB_RED, x, _, _, _, _, _. split; [done|]. split; [eassumption|]. split; [eassumption|]. auto.
  - destruct cs.
    + inversion Hs; subst. exists RB_BLACK. split; [done|].
      eexists RB_BLACK, x, _, _, _, _, _. split; [done|]. split; [eassumption|]. split; [eassumption|]. auto.
    + inversion Hs as [|l y r n' Hl Hr|]; subst. exists RB_RED. split; [done|].
      unfold lift_sibling. simpl.
      destruct d; [inversion Hl as [| |l1 y1 r1 ?? n' H1 H2]|inversion Hr as [| |l1 y1 r1 ?? n' H1 H2]];
        subst; (eexists RB_RED, x, _, _, _, _, _);
        (split; [reflexivity|split; [exact H1|split; [exact H2|split]]]).
      all: try by apply (rbp_black _ _ _ _ _ RB_BLACK).
      all: (split; [by right|]); simpl; by list_norm.
Qed.

Lemma remove_color_run fuel t p n :
  short t n → rbp p RB_BLACK (S n) → (length p + (if is_red t then 1 else 2) ≤ fuel)%nat →
  ∃ t' m, RB_REMOVE_COLOR fuel t p = Ok t' ∧ rb t' RB_BLACK m ∧
    elements t' = before p ++ elements t ++ after p.
Proof.
  revert t p n. induction fuel as [|fuel IH]; intros t p n Ht Hp Hf; [destruct (is_red t); lia|].
  destruct p as [|[d c x s] p]; simpl.
  { exists (paint RB_BLACK t). destruct Ht as [[_ H]|[_ H]];
      [eexists; split; [done|]; split; [exact H|]|eexists; split; [done|]; split;
       [rewrite (paint_root _ _ H); exact H|]]; by rewrite elements_paint, app_nil_r. }
  destruct Ht as [[Er Ht]|[Er Ht]]; rewrite Er in *.
  { destruct (plug_rb _ _ _ _ Ht Hp) as [m Hm]. eexists _, m. split; [done|]. split; [exact Hm|].
    change (plug (fill ?f ?u) p) with (plug u (f :: p)). by rewrite elements_plug, elements_paint. }
  destruct (black_sibling _ _ _ _ _ _ Hp) as (c' & Ec & Hs). rewrite Ec. simpl.
  destruct (match c' with RB_RED => _ | RB_BLACK => _ end) as [f q] eqn:Ef.
  destruct Hs as (cf & xf & l & y & r & cl & cr & -> & Hl & Hr & Hq & Hlen & Hb & Ha). simpl.
  assert (He : before (mk_frame d c x s :: p) ++ elements t ++ after (mk_frame d c x s :: p) =
      before q ++ elements (fill (mk_frame d cf xf (Node RB_BLACK l y r)) t) ++ after q).
  { rewrite <- Hb, <- Ha, elements_fill. simpl. by rewrite <- !app_assoc. }
  simpl in He. rewrite He.
  destruct (negb (is_red l) && negb (is_red r)) eqn:Eb.
  - apply andb_prop in Eb as [El Er']. rewrite (is_red_rb _ _ _ Hl) in El.
    rewrite (is_red_rb _ _ _ Hr) in Er'. destruct cl, cr; try done.
    destruct (IH (fill (mk_frame d cf xf (Node RB_RED l y r)) t) q
      (match cf with RB_RED => n | RB_BLACK => S n end)) as (t' & m & E & Hm & He').
    + unfold short, fill. destruct cf; [right|left]; destruct d; simpl; eauto 6 with rb.
    + destruct cf; [done|by apply rbp_weaken in Hq].
    + unfold fill. destruct Hlen as [->|[-> ->]]; destruct d; simpl in *; try lia; destruct cf; lia.
    + exists t', m. split; [done|split; [done|]]. rewrite He', !elements_fill. by destruct d.
  - destruct (remove_rotate_run d cf xf (Node RB_BLACK l y r) t l y r cl cr n)
      as (top & E & Ht' & Et); [done..|by destruct (is_red l), (is_red r)|].
    rewrite E. simpl. destruct (plug_rb _ _ _ _ Ht' Hq) as [m Hm].
    exists (plug top q), m. by rewrite (paint_root _ _ Hm), elements_plug, Et.
Qed.
End balance.

(** ** The operations on a whole tree *)

Section operations.
Context {A : Type} (cmp : A → A → Z) `{!RbOrder cmp}.
Implicit Types t : rbtree A.
Implicit Types p : list (rb_frame A).

(** A tree the code may work with: balanced, with a black root, and sorted. *)
Definition rb_ok t : Prop := (∃ n, rb t RB_BLACK n) ∧ sorted cmp (elements t).

(** Every position of the tree, between what is before and after it. *)
Lemma seek_run t x :
  rb_ok t →
  ∃ t' p c n, seek cmp t x [] = (t', p) ∧ plug t' p = t ∧ rb t' c n ∧ rbp p c n ∧
    elements t = before p ++ elements t' ++ after p ∧ fits cmp x p ∧
    match t' with Null => True | Node _ _ y _ => cmp x y = 0 end.
Proof.
  intros [[n Hn] Hs]. pose proof (seek_plug cmp t x []) as Hp.
  pose proof (seek_fits cmp t x [] Hs) as Hf.
  destruct (seek cmp t x []) as [t' p]. simpl in Hp. subst t.
  destruct (unplug_rb _ _ _ Hn) as (c & m & H1 & H2). rewrite elements_plug.
  exists t', p, c, m. do 5 (split; [done|]). apply Hf. split; intros y Hy; by apply elem_of_nil in Hy.
Qed.

Lemma find_run t x :
  rb_ok t →
  RB_FIND cmp t x = match (seek cmp t x []).1 with Null => None | Node _ _ y _ => Some y end.
Proof.
  intros _. generalize (@nil (rb_frame A)). induction t as [|c l IHl y r IHr]; intros p; simpl; [done|].
  destruct (cmp x y <? 0); [apply IHl|]. by destruct (0 <? cmp x y).
Qed.

(** A node with at most one child. *)
Lemma remove_cut ce lc y child q k :
  rb (Node ce lc y child) ce k → rbp q ce k → lc = Null ∨ child = Null →
  ∃ t' n, remove_color ce (match lc with Null => child | _ => lc end) q = Ok t' ∧
    rb t' RB_BLACK n ∧ elements t' = before q ++ (elements lc ++ elements child) ++ after q.
Proof.
  intros Hn Hq Hnull. set (t := match lc with Null => child | _ => lc end).
  assert (elements lc ++ elements child = elements t) as ->.
  { unfold t. destruct lc, Hnull as [E|E]; subst; try done; simpl; by rewrite app_nil_r. }
  inversion Hn as [|? ? ? ? H1 H2|? ? ? cl cr k' H1 H2]; subst.
  - destruct (plug_rb t q RB_BLACK k) as [n Hm]; [unfold t; by destruct lc|by apply rbp_weaken in Hq|].
    exists (plug t q), n. by rewrite elements_plug.
  - apply remove_color_run with (n := k'); [|done|destruct (is_red t); lia].
    unfold t. destruct lc; eapply short_child; eassumption.
Qed.

Lemma remove_run c l x r p m :
  rb (plug (Node c l x r) p) RB_BLACK m →
  ∃ t' n, RB_REMOVE (Node c l x r) p = Ok t' ∧ rb t' RB_BLACK n ∧
    elements t' = before p ++ (elements l ++ elements r) ++ after p.
Proof.
  intros H. destruct (unplug_rb _ _ _ H) as (c' & k & Hn & Hp).
  assert (c' = c) as -> by (by inversion Hn).
  destruct l as [|cl ll xl lr]; [exact (remove_cut _ _ _ _ _ _ Hn Hp (or_introl eq_refl))|].
  destruct r as [|cr rl xr rr]; [exact (remove_cut _ _ _ _ _ _ Hn Hp (or_intror eq_refl))|].
  destruct (descend_spec cr rl xr rr []) as (ce & y & child & q & E & Hq & Hb).
  unfold RB_REMOVE. rewrite E, app_nil_r. set (l := Node cl ll xl lr) in *.
  change (plug (Node c l x (Node cr rl xr rr)) p)
    with (plug (Node cr rl xr rr) (mk_frame false c x l :: p)) in H.
  rewrite <- Hq, <- plug_app in H. apply unplug_rb in H as (c' & k' & Hn' & Hp').
  assert (c' = ce) as -> by (by inversion Hn'). apply (rbp_elm _ _ _ _ y) in Hp'.
  destruct (remove_cut _ _ _ _ _ _ Hn' Hp' (or_introl eq_refl)) as (t' & n & E' & Hn2 & He).
  exists t', n. split; [exact E'|]. split; [done|]. rewrite He, before_app, after_app, Hb.
  rewrite <- Hq, elements_plug, Hb. by list_norm.
Qed.

(** ** Refinement of a sorted set *)

Lemma rb_insert_run t x :
  rb_ok t →
  ∃ o t', RB_INSERT cmp t x = Ok (o, t') ∧ rb_ok t' ∧
    match o with
    | Some y => y ∈ elements t ∧ cmp x y = 0 ∧ t' = t
    | None => (∀ y, y ∈ elements t → cmp x y ≠ 0) ∧
        ∃ l1 l2, elements t = l1 ++ l2 ∧ elements t' = l1 ++ x :: l2
    end.
Proof.
  intros Hok. destruct (seek_run t x Hok) as (u & p & c & n & E & Hplug & Hu & Hp & He & Hf & Hx).
  unfold RB_INSERT. rewrite E. destruct u as [|cu l y r].
  - inversion Hu; subst. destruct (insert_color_run (Node RB_RED Null x Null) p 0)
      as (t' & m & E' & Hm & He'); [eauto with rb|done|]. rewrite E'. exists None, t'.
    split; [done|]. simpl in He, He'. destruct Hf as [Hb Ha]. destruct Hok as [_ Hs].
    rewrite He in Hs. apply sorted_app in Hs as (Hs1 & Hs2 & Hs3). split; [|split].
    + split; [by exists m|]. rewrite He'. apply sorted_app.
      split; [done|]. split.
      * constructor; [done|]. by apply Forall_forall.
      * intros a b Ha' [->|Hb']%elem_of_cons; [by apply Hb|by apply Hs3].
    + rewrite He. intros z [Hz|Hz]%elem_of_app; [apply Hb in Hz|apply Ha in Hz; lia].
      pose proof (cmp_opp x z). lia.
    + by exists (before p), (after p).
  - exists (Some y), t. split; [done|]. split; [done|]. split; [|done].
    rewrite He. simpl. set_solver.
Qed.

(** C25: [RB_INSERT] into a well-formed tree never follows a null pointer and
    leaves a well-formed tree. It returns the element with the same key when
    there is one, without touching the tree, and otherwise puts the new element
    at its place among the others. *)
Theorem rb_insert_refines t x :
  rb_ok t →
  ∃ o t', RB_INSERT cmp t x = Ok (o, t') ∧ rb_ok t' ∧
    match o with
    | Some y => y ∈ elements t ∧ cmp x y = 0 ∧ t' = t
    | None => (∀ y, y ∈ elements t → cmp x y ≠ 0) ∧
        ∃ l1 l2, elements t = l1 ++ l2 ∧ elements t' = l1 ++ x :: l2
    end.
Proof. apply rb_insert_run. Qed.

Lemma rb_remove_run t x :
  rb_ok t → x ∈ elements t →
  ∃ y t' l1 l2, rb_remove cmp t x = Ok t' ∧ rb_ok t' ∧ cmp x y = 0 ∧
    elements t = l1 ++ y :: l2 ∧ elements t' = l1 ++ l2.
Proof.
  intros Hok Hin. destruct (seek_run t x Hok) as (u & p & c & n & E & Hplug & Hu & Hp & He & Hf & Hx).
  unfold rb_remove. rewrite E. destruct u as [|cu l y r].
  - exfalso. rewrite He in Hin. destruct Hf as [Hb Ha]. simpl in Hin.
    pose proof (cmp_refl cmp x) as Hr. apply elem_of_app in Hin as [Hz|Hz];
      [apply Hb in Hz|apply Ha in Hz]; lia.
  - destruct Hok as [[m Hm] Hs]. rewrite <- Hplug in Hm.
    destruct (remove_run _ _ _ _ _ _ Hm) as (t' & k & E' & Hk & He').
    exists y, t', (before p ++ elements l), (elements r ++ after p).
    split; [done|]. simpl in He. split.
    + split; [by exists k|]. rewrite He'. rewrite He in Hs.
      replace (before p ++ (elements l ++ y :: elements r) ++ after p)
        with ((before p ++ elements l) ++ [y] ++ (elements r ++ after p)) in Hs by by list_norm.
      replace (before p ++ (elements l ++ elements r) ++ after p)
        with ((before p ++ elements l) ++ (elements r ++ after p)) by by list_norm.
      apply sorted_app in Hs as (S1 & S2 & S3). apply sorted_app in S2 as (_ & S4 & _).
      apply sorted_app. split; [done|]. split; [done|].
      intros a b Ha Hb. apply S3; [done|]. simpl. by right.
    + split; [done|]. rewrite He, He'. by list_norm.
Qed.

(** C24: [RB_REMOVE] of an element of a well-formed tree never follows a null
    pointer, ends, and leaves a well-formed tree with the other elements in
    their order. *)
Theorem rb_remove_refines t x :
  rb_ok t → x ∈ elements t →
  ∃ y t' l1 l2, rb_remove cmp t x = Ok t' ∧ rb_ok t' ∧ cmp x y = 0 ∧
    elements t = l1 ++ y :: l2 ∧ elements t' = l1 ++ l2.
Proof. apply rb_remove_run. Qed.

(** ** Lookup *)

Fixpoint height t : nat :=
  match t with Null => O | Node _ l _ r => S (Nat.max (height l) (height r)) end.

Lemma rb_height t c n :
  rb t c n → (height t ≤ 2 * n + match c with RB_RED => 1 | RB_BLACK => 0 end)%nat.
Proof. induction 1; simpl; [lia| |]; repeat match goal with c : rb_color |- _ => destruct c end; lia. Qed.

Lemma rb_size t c n : rb t c n → (2 ^ n ≤ S (length (elements t)))%nat.
Proof. induction 1; simpl; rewrite ?length_app; simpl; lia. Qed.

(** [RB_FIND] in a well-formed tree finds the element with the given key
    exactly when there is one, and the way down is at most twice the logarithm
    of the number of elements. *)
Theorem rb_find_bound t x :
  rb_ok t →
  (∀ y, RB_FIND cmp t x = Some y ↔ y ∈ elements t ∧ cmp x y = 0) ∧
  Z.of_nat (height t) ≤ 2 * Z.log2 (Z.of_nat (S (length (elements t)))).
Proof.
  intros Hok. split.
  - intros y. destruct (seek_run t x Hok) as (u & p & c & n & E & Hplug & Hu & Hp & He & Hf & Hx).
    rewrite (find_run t x Hok), E. simpl. rewrite He. split.
    + destruct u as [|cu l z r]; intros [= <-]. simpl. split; [set_solver|done].
    + intros [Hy Ey]. destruct u as [|cu l z r].
      * destruct Hf as [Hb Ha]. simpl in Hy. apply elem_of_app in Hy as [Hy|Hy];
          [apply Hb in Hy|apply Ha in Hy; lia]. pose proof (cmp_opp x y). lia.
      * f_equal. destruct Hok as [_ Hs]. rewrite He in Hs. simpl in Hs, Hy.
        replace (before p ++ (elements l ++ z :: elements r) ++ after p)
          with ((before p ++ elements l) ++ z :: (elements r ++ after p)) in Hs, Hy by by list_norm.
        apply sorted_app in Hs as (_ & Hs & Hlt). apply StronglySorted_inv in Hs as [_ Hs].
        rewrite Forall_forall in Hs. apply elem_of_app in Hy as [Hy|[->|Hy]%elem_of_cons]; [|done|].
        -- pose proof (Hlt y z Hy ltac:(left)) as Hyz. pose proof (cmp_eq_lt x y z Ey Hyz). lia.
        -- apply Hs in Hy. pose proof (cmp_eq_lt x z y Hx Hy). lia.
  - destruct Hok as [[n Hn] _]. pose proof (rb_height _ _ _ Hn) as Hh. cbv beta iota in Hh.
    pose proof (rb_size _ _ _ Hn) as Hz.
    enough (Z.of_nat n ≤ Z.log2 (Z.of_nat (S (length (elements t))))) by lia.
    apply Z.log2_le_pow2; [lia|]. rewrite <- (Nat2Z.inj_pow 2). lia.
Qed.

(** ** Iteration *)

Lemma climb_spec t p :
  match climb t p with
  | None => after p = []
  | Some (Null, _) => False
  | Some (Node _ _ y r, q) => after p = y :: elements r ++ after q
  end.
Proof.
  revert t. induction p as [|[d c x s] p IH]; intros t; simpl; [done|].
  destruct d; simpl; [done|]. apply IH.
Qed.

Lemma visit_run fuel c l x r p :
  (length (elements r ++ after p) < fuel)%nat →
  visit (S fuel) (Some (Node c l x r, p)) = Ok (x :: elements r ++ after p).
Proof.
  revert c l x r p. induction fuel as [|fuel IH]; intros c l x r p Hf; [lia|].
  destruct r as [|cr rl xr rr].
  - pose proof (climb_spec (Node c l x Null) p) as Hc.
    change (visit (S (S fuel)) (Some (Node c l x Null, p)))
      with (xs ← visit (S fuel) (climb (Node c l x Null) p); Ok (x :: xs)).
    assert (visit (S fuel) (climb (Node c l x Null) p) = Ok (after p)) as ->; [|done].
    destruct (climb (Node c l x Null) p) as [[[|c' l' y r'] q]|]; [done| |by rewrite Hc].
    simpl in Hf. rewrite Hc in Hf |- *. apply IH. simpl in Hf. lia.
  - destruct (descend_spec cr rl xr rr (mk_frame false c x l :: p)) as (ce & y & child & q & E & Hq & Hb).
    assert (Hr : elements (Node cr rl xr rr) = y :: elements child ++ after q).
    { by rewrite <- Hq, elements_plug, Hb. }
    change (visit (S (S fuel)) (Some (Node c l x (Node cr rl xr rr), p)))
      with (xs ← visit (S fuel) (descend true (Node cr rl xr rr) (mk_frame false c x l :: p));
            Ok (x :: xs)).
    rewrite E, Hr. rewrite Hr in Hf. rewrite IH; rewrite after_app; [by list_norm|].
    revert Hf. list_norm. lia.
Qed.

Lemma rb_foreach_run t : RB_FOREACH t = Ok (elements t).
Proof.
  unfold RB_FOREACH, RB_MIN. destruct t as [|c l x r]; [done|].
  destruct (descend_spec c l x r []) as (ce & y & child & q & E & Hq & Hb).
  assert (He : elements (Node c l x r) = y :: elements child ++ after q).
  { by rewrite <- Hq, elements_plug, Hb. }
  rewrite E, app_nil_r, He. apply visit_run.
  assert (∀ u : rbtree A, size u = length (elements u)) as Hsz.
  { clear. induction u as [|c l IHl x r IHr]; simpl; [done|]. rewrite length_app. simpl. lia. }
  rewrite Hsz, He. simpl. lia.
Qed.

(** C31: [RB_FOREACH] ends and visits the elements of any tree once each, in
    their order. *)
Theorem rb_foreach_elements t : RB_FOREACH t = Ok (elements t).
Proof. apply rb_foreach_run. Qed.
End operations.

(** ** Trees ordered by a number

    A comparison function need only be an order on the elements that occur:
    those in [P], where it compares their keys. *)
Section by_key.
Context {A : Type} (cmp : A → A → Z) (key : A → Z) (P : A → Prop).
Context (Hcmp : ∀ x y, P x → P y → Z.sgn (cmp x y) = Z.sgn (key x - key y)).
Implicit Types t : rbtree A.

Definition key_cmp (x y : A) : Z := key x - key y.
#[export] Instance key_order : RbOrder key_cmp.
Proof. unfold key_cmp. split; lia. Qed.

Definition key_ok t : Prop := rb_ok key_cmp t ∧ Forall P (elements t).

Lemma cmp_key x y : P x → P y → (cmp x y <? 0) = (key_cmp x y <? 0) ∧ (0 <? cmp x y) = (0 <? key_cmp x y).
Proof. intros Hx Hy. pose proof (Hcmp x y Hx Hy) as E. unfold key_cmp. split; [destruct (Z.ltb_spec (cmp x y) 0), (Z.ltb_spec (key x - key y) 0)|destruct (Z.ltb_spec 0 (cmp x y)), (Z.ltb_spec 0 (key x - key y))]; lia. Qed.
Lemma seek_key t x p : P x → Forall P (elements t) → seek cmp t x p = seek key_cmp t x p.
Proof.
  intros Hx. revert p. induction t as [|c l IHl y r IHr]; intros p Ht; [done|]. simpl in *.
  apply Forall_app in Ht as [Hl [Hy Hr]%Forall_cons]. destruct (cmp_key x y Hx Hy) as [-> ->]. by rewrite IHl, IHr.
Qed.
Lemma find_key t x : P x → Forall P (elements t) → RB_FIND cmp t x = RB_FIND key_cmp t x.
Proof.
  intros Hx. induction t as [|c l IHl y r IHr]; intros Ht; [done|]. simpl in *.
  apply Forall_app in Ht as [Hl [Hy Hr]%Forall_cons]. destruct (cmp_key x y Hx Hy) as [-> ->]. by rewrite IHl, IHr.
Qed.

Lemma key_find t x y : key_ok t → P x → RB_FIND cmp t x = Some y ↔ y ∈ elements t ∧ key x = key y.
Proof.
  intros [Hok Ht] Hx. rewrite find_key by done. rewrite (proj1 (rb_find_bound key_cmp t x Hok)). unfold key_cmp.
  split; intros [? ?]; split; [done|lia|done|lia].
Qed.
Lemma key_find_none t x : key_ok t → P x → RB_FIND cmp t x = None ↔ ∀ y, y ∈ elements t → key x ≠ key y.
Proof.
  intros Hok Hx. rewrite eq_None_not_Some. split.
  - intros H y Hy E. apply H. exists y. by apply key_find.
  - intros H [y [Hy E]%(key_find t x y Hok Hx)]. by apply (H y).
Qed.
Lemma key_insert t x :
  key_ok t → P x → (∀ y, y ∈ elements t → key x ≠ key y) →
  ∃ t', RB_INSERT cmp t x = Ok (None, t') ∧ key_ok t' ∧ elements t' ≡ₚ x :: elements t.
Proof.
  intros [Hok Ht] Hx Hn. destruct (rb_insert_run key_cmp t x Hok) as (o & t' & E & Hok' & H).
  unfold RB_INSERT in *. rewrite seek_key by done. rewrite E. destruct o as [y|].
  - destruct H as (Hy & Ey & _). unfold key_cmp in Ey. destruct (Hn y Hy). lia.
  - destruct H as [_ (l1 & l2 & E1 & E2)]. exists t'. split; [done|].
    assert (elements t' ≡ₚ x :: elements t) as Hp by (rewrite E1, E2; by rewrite Permutation_middle).
    split; [|done]. split; [done|]. rewrite Hp. by constructor.
Qed.
Lemma key_remove t x :
  key_ok t → x ∈ elements t → ∃ t', rb_remove cmp t x = Ok t' ∧ key_ok t' ∧ elements t ≡ₚ x :: elements t'.
Proof.
  intros [Hok Ht] Hx. assert (P x) as Px by (rewrite Forall_forall in Ht; by apply Ht).
  destruct (rb_remove_run key_cmp t x Hok Hx) as (y & t' & l1 & l2 & E & Hok' & Ey & E1 & E2).
  unfold rb_remove in *. rewrite seek_key by done. exists t'. split; [done|].
  assert (y = x) as ->.
  { destruct (rb_find_bound key_cmp t x Hok) as [Hf _]. assert (y ∈ elements t) as Hy by (rewrite E1; set_solver).
    assert (RB_FIND key_cmp t x = Some y) as F by (by apply Hf).
    assert (RB_FIND key_cmp t x = Some x) as F' by (apply Hf; split; [done|unfold key_cmp; lia]). congruence. }
  assert (elements t ≡ₚ x :: elements t') as Hp by (rewrite E1, E2; by rewrite Permutation_middle).
  split; [|done]. split; [done|]. rewrite Hp in Ht. by apply Forall_cons in Ht as [_ ?].
Qed.
Lemma key_inj t x y : key_ok t → x ∈ elements t → y ∈ elements t → key x = key y → x = y.
Proof.
  intros [Hok Ht] Hx Hy E. destruct (rb_find_bound key_cmp t x Hok) as [Hf _].
  assert (RB_FIND key_cmp t x = Some y) as F by (apply Hf; split; [done|unfold key_cmp; lia]).
  assert (RB_FIND key_cmp t x = Some x) as F' by (apply Hf; split; [done|unfold key_cmp; lia]). congruence.
Qed.
Lemma key_nodup t : key_ok t → NoDup (elements t).
Proof.
  intros [[_ Hs] _]. induction Hs as [|x l Hs IH Hx]; constructor; [|done]. intros H. rewrite Forall_forall in Hx.
  apply Hx in H. unfold key_cmp in H. lia.
Qed.
End by_key.

#[global] Instance sub_order : RbOrder Z.sub.
Proof. split; lia. Qed.

Definition demo_tree : rbtree Z :=
  Node RB_BLACK (Node RB_RED Null 1 Null) 2 (Node RB_RED Null 3 Null).

Lemma demo_tree_ok : rb_ok Z.sub demo_tree.
Proof.
  split; [unfold demo_tree; eauto 6 with rb|]. unfold sorted. simpl. repeat (constructor; try lia).
Qed.

Lemma rb_insert_refines_witness :
  ∃ o t', RB_INSERT Z.sub demo_tree 4 = Ok (o, t') ∧ rb_ok Z.sub t' ∧
    match o with
    | Some y => y ∈ elements demo_tree ∧ 4 - y = 0 ∧ t' = demo_tree
    | None => (∀ y, y ∈ elements demo_tree → 4 - y ≠ 0) ∧
        ∃ l1 l2, elements demo_tree = l1 ++ l2 ∧ elements t' = l1 ++ 4 :: l2
    end.
Proof. apply (rb_insert_refines Z.sub demo_tree 4). apply demo_tree_ok. Defined.

Lemma rb_remove_refines_witness :
  ∃ y t' l1 l2, rb_remove Z.sub demo_tree 2 = Ok t' ∧ rb_ok Z.sub t' ∧ 2 - y = 0 ∧
    elements demo_tree = l1 ++ y :: l2 ∧ elements t' = l1 ++ l2.
Proof.
  apply (rb_remove_refines Z.sub demo_tree 2); [apply demo_tree_ok|]. simpl. set_solver.
Defined.

Lemma rb_find_bound_witness :
  (∀ y, RB_FIND Z.sub demo_tree 3 = Some y ↔ y ∈ elements demo_tree ∧ 3 - y = 0) ∧
  Z.of_nat (height demo_tree) ≤ 2 * Z.log2 (Z.of_nat (S (length (elements demo_tree)))).
Proof. apply (rb_find_bound Z.sub demo_tree 3). apply demo_tree_ok. Defined.
