(* ===== verification/Types.v ===== *)
(** * Wire formats and data structures of iked

    The constants and packed structs of [ikev2.h], [eap.h], [iked.h] and
    [types.h] that the modelled components use, and the run-time records
    ([iked_message], [iked_sa], ...) with one setter per mutable field. A
    pointer that may be [NULL] is an [option], a buffer ([struct ibuf]) its
    readable bytes, a queue a list; 16-, 32- and 64-bit wire fields are held
    in host order, that is, after [betoh16] and its kin. *)

From S2P Require Import Prelude.
#[local] Open Scope Z_scope.

(** ** Constants *)

(** SA states ([ikev2.h]). *)
Definition IKEV2_STATE_INIT : Z := 0.
Definition IKEV2_STATE_COOKIE : Z := 1.
Definition IKEV2_STATE_SA_INIT : Z := 2.
Definition IKEV2_STATE_EAP : Z := 3.
Definition IKEV2_STATE_EAP_SUCCESS : Z := 4.
Definition IKEV2_STATE_AUTH_REQUEST : Z := 5.
Definition IKEV2_STATE_AUTH_SUCCESS : Z := 6.
Definition IKEV2_STATE_VALID : Z := 7.
Definition IKEV2_STATE_EAP_VALID : Z := 8.
Definition IKEV2_STATE_ESTABLISHED : Z := 9.
Definition IKEV2_STATE_CLOSING : Z := 10.
Definition IKEV2_STATE_CLOSED : Z := 11.

(** Exchanges and header flags. *)
Definition IKEV2_EXCHANGE_IKE_SA_INIT : Z := 34.
Definition IKEV2_EXCHANGE_IKE_AUTH : Z := 35.
Definition IKEV2_EXCHANGE_CREATE_CHILD_SA : Z := 36.
Definition IKEV2_EXCHANGE_INFORMATIONAL : Z := 37.
Definition IKEV2_FLAG_INITIATOR : Z := 8.
Definition IKEV2_FLAG_RESPONSE : Z := 32.
Definition IKEV2_VERSION : Z := 32.

(** Payload types. *)
Definition IKEV2_PAYLOAD_NONE : Z := 0.
Definition IKEV2_PAYLOAD_SA : Z := 33.
Definition IKEV2_PAYLOAD_KE : Z := 34.
Definition IKEV2_PAYLOAD_IDi : Z := 35.
Definition IKEV2_PAYLOAD_IDr : Z := 36.
Definition IKEV2_PAYLOAD_CERT : Z := 37.
Definition IKEV2_PAYLOAD_CERTREQ : Z := 38.
Definition IKEV2_PAYLOAD_AUTH : Z := 39.
Definition IKEV2_PAYLOAD_NONCE : Z := 40.
Definition IKEV2_PAYLOAD_NOTIFY : Z := 41.
Definition IKEV2_PAYLOAD_DELETE : Z := 42.
Definition IKEV2_PAYLOAD_TSi : Z := 44.
Definition IKEV2_PAYLOAD_TSr : Z := 45.
Definition IKEV2_PAYLOAD_SK : Z := 46.
Definition IKEV2_PAYLOAD_CP : Z := 47.
Definition IKEV2_PAYLOAD_EAP : Z := 48.
Definition IKEV2_PAYLOAD_SKF : Z := 53.

(** Set in the payload selector once a payload was decrypted ([types.h]). *)
Definition IKED_E : Z := 4096.

(** SA payload. *)
Definition IKEV2_SAPROTO_NONE : Z := 0.
Definition IKEV2_SAPROTO_IKE : Z := 1.
Definition IKEV2_SAPROTO_AH : Z := 2.
Definition IKEV2_SAPROTO_ESP : Z := 3.
Definition IKEV2_XFORM_LAST : Z := 0.
Definition IKEV2_XFORM_MORE : Z := 3.
Definition IKEV2_XFORMTYPE_ENCR : Z := 1.
Definition IKEV2_XFORMTYPE_PRF : Z := 2.
Definition IKEV2_XFORMTYPE_INTEGR : Z := 3.
Definition IKEV2_XFORMTYPE_DH : Z := 4.
Definition IKEV2_XFORMTYPE_ESN : Z := 5.
Definition IKEV2_XFORMTYPE_MAX : Z := 6.
Definition IKEV2_XFORMENCR_3DES : Z := 3.
Definition IKEV2_XFORMENCR_AES_CBC : Z := 12.
Definition IKEV2_XFORMENCR_AES_GCM_12 : Z := 19.
Definition IKEV2_XFORMENCR_AES_GCM_16 : Z := 20.
Definition IKEV2_XFORMDH_NONE : Z := 0.
Definition IKEV2_ATTRAF_TV : Z := 32768.
Definition IKEV2_ATTRTYPE_KEY_LENGTH : Z := 14.
Definition IKEV1_PAYLOAD_NONE : Z := 0.
Definition IKEV1_PAYLOAD_PROPOSAL : Z := 2.

(** Notifications. *)
Definition IKEV2_N_NO_PROPOSAL_CHOSEN : Z := 14.
Definition IKEV2_N_INVALID_KE_PAYLOAD : Z := 17.
Definition IKEV2_N_AUTHENTICATION_FAILED : Z := 24.
Definition IKEV2_N_NO_ADDITIONAL_SAS : Z := 35.
Definition IKEV2_N_TEMPORARY_FAILURE : Z := 43.
Definition IKEV2_N_CHILD_SA_NOT_FOUND : Z := 44.
Definition IKEV2_N_IPCOMP_SUPPORTED : Z := 16387.
Definition IKEV2_N_NAT_DETECTION_SOURCE_IP : Z := 16388.
Definition IKEV2_N_NAT_DETECTION_DESTINATION_IP : Z := 16389.
Definition IKEV2_N_COOKIE : Z := 16390.
Definition IKEV2_N_USE_TRANSPORT_MODE : Z := 16391.
Definition IKEV2_N_REKEY_SA : Z := 16393.
Definition IKEV2_N_MOBIKE_SUPPORTED : Z := 16396.
Definition IKEV2_N_UPDATE_SA_ADDRESSES : Z := 16400.
Definition IKEV2_N_COOKIE2 : Z := 16401.
Definition IKEV2_N_FRAGMENTATION_SUPPORTED : Z := 16430.
Definition IKEV2_N_SIGNATURE_HASH_ALGORITHMS : Z := 16431.
Definition IKEV2_SIGHASH_SHA2_256 : Z := 2.

(** Identities, certificates, traffic selectors, configuration. *)
Definition IKEV2_ID_NONE : Z := 0.
Definition IKEV2_ID_IPV4 : Z := 1.
Definition IKEV2_ID_FQDN : Z := 2.
Definition IKEV2_ID_UFQDN : Z := 3.
Definition IKEV2_ID_IPV6 : Z := 5.
Definition IKEV2_ID_ASN1_DN : Z := 9.
Definition IKEV2_CERT_NONE : Z := 0.
Definition IKEV2_CERT_X509_CERT : Z := 4.
Definition IKEV2_CERT_BUNDLE : Z := 254.
Definition IKEV2_AUTH_SHARED_KEY_MIC : Z := 2.
Definition IKEV2_TS_IPV4_ADDR_RANGE : Z := 7.
Definition IKEV2_TS_IPV6_ADDR_RANGE : Z := 8.
Definition IKEV2_CFG_INTERNAL_IP4_ADDRESS : Z := 1.
Definition IKEV2_CFG_INTERNAL_IP4_DNS : Z := 3.
Definition IKEV2_CFG_INTERNAL_IP6_ADDRESS : Z := 8.
Definition IKEV2_CFG_INTERNAL_IP6_DNS : Z := 10.

(** Limits and flags of [iked.h] and [types.h]. *)
Definition SHA_DIGEST_LENGTH : Z := 20.
Definition IKED_COOKIE_MIN : Z := 1.
Definition IKED_COOKIE_MAX : Z := 64.
Definition IKED_COOKIE2_MIN : Z := 8.
Definition IKED_COOKIE2_MAX : Z := 64.
Definition IKED_ID_SIZE : Z := 1024.
Definition IKED_MSGBUF_MAX : Z := 8192.
Definition IKED_SCERT_MAX : nat := 3.
Definition IKED_FRAG_TOTAL_MAX : Z := 111.
Definition IKED_MSG_NAT_SRC_IP : Z := 1.
Definition IKED_MSG_NAT_DST_IP : Z := 2.
Definition IKED_MSG_FLAGS_FRAGMENTATION : Z := 1.
Definition IKED_MSG_FLAGS_MOBIKE : Z := 2.
Definition IKED_MSG_FLAGS_SIGSHA2 : Z := 4.
Definition IKED_MSG_FLAGS_CHILD_SA_NOT_FOUND : Z := 8.
Definition IKED_MSG_FLAGS_NO_ADDITIONAL_SAS : Z := 16.
Definition IKED_MSG_FLAGS_AUTHENTICATION_FAILED : Z := 32.
Definition IKED_MSG_FLAGS_INVALID_KE : Z := 64.
Definition IKED_MSG_FLAGS_IPCOMP_SUPPORTED : Z := 128.
Definition IKED_MSG_FLAGS_USE_TRANSPORT : Z := 256.
Definition IKED_MSG_FLAGS_TEMPORARY_FAILURE : Z := 512.
Definition IKED_MSG_FLAGS_NO_PROPOSAL_CHOSEN : Z := 1024.
Definition IKED_POLICY_DEFAULT : Z := 1.
Definition IKED_POLICY_REFCNT : Z := 4.
Definition IKED_POLICY_QUICK : Z := 8.
Definition IKED_POLICY_SKIP : Z := 16.
Definition IKED_POLICY_TRANSPORT : Z := 64.
Definition IKED_POLICY_NATT_FORCE : Z := 256.
Definition IKED_REQ_CERT : Z := 1.
Definition IKED_REQ_CERTVALID : Z := 2.
Definition IKED_REQ_CERTREQ : Z := 4.
Definition IKED_REQ_AUTH : Z := 8.
Definition IKED_REQ_AUTHVALID : Z := 16.
Definition IKED_REQ_SA : Z := 32.
Definition IKED_REQ_EAPVALID : Z := 64.
Definition IKED_REQ_CHILDSA : Z := 128.
Definition IKED_REQ_INF : Z := 256.

(** EAP ([eap.h], [iked.h]). *)
Definition EAP_CODE_REQUEST : Z := 1.
Definition EAP_CODE_RESPONSE : Z := 2.
Definition EAP_CODE_SUCCESS : Z := 3.
Definition EAP_CODE_FAILURE : Z := 4.
Definition EAP_TYPE_IDENTITY : Z := 1.
Definition EAP_TYPE_MSCHAP_V2 : Z := 26.
Definition EAP_MSCHAP_CHALLENGE_SZ : Z := 16.
Definition EAP_MSCHAP_RESPONSE_SZ : Z := 49.
Definition EAP_MSCHAP_NTRESPONSE_SZ : Z := 24.
Definition EAP_MSOPCODE_CHALLENGE : Z := 1.
Definition EAP_MSOPCODE_RESPONSE : Z := 2.
Definition EAP_MSOPCODE_SUCCESS : Z := 3.
Definition EAP_MSOPCODE_FAILURE : Z := 4.
Definition EAP_STATE_IDENTITY : Z := 1.
Definition EAP_STATE_MSCHAPV2_CHALLENGE : Z := 2.
Definition EAP_STATE_MSCHAPV2_SUCCESS : Z := 3.
Definition EAP_STATE_SUCCESS : Z := 4.

(** Address families as the C library numbers them here. *)
Definition AF_UNSPEC : Z := 0.
Definition AF_INET : Z := 2.
Definition AF_INET6 : Z := 10.

(** [flags & bit] as a C condition. *)
Definition has_bit (flags bit : Z) : bool := negb (Z.land flags bit =? 0).

(** ** Packed wire structs

    Each struct is decoded from the bytes [memcpy] copies into it; its
    [sizeof] is the number of those bytes. *)

Record ike_header := mk_ike_header {
  ike_ispi : Z; ike_rspi : Z; ike_nextpayload : Z; ike_version : Z;
  ike_exchange : Z; ike_flags : Z; ike_msgid : Z; ike_length : Z }.
Definition sizeof_ike_header : Z := 28.
Definition dec_ike_header (b : bytes) : ike_header :=
  mk_ike_header (fld64 b 0) (fld64 b 8) (fld8 b 16) (fld8 b 17) (fld8 b 18)
    (fld8 b 19) (fld32 b 20) (fld32 b 24).

Record ikev2_payload := mk_payload {
  pld_nextpayload : Z; pld_reserved : Z; pld_length : Z }.
Definition sizeof_payload : Z := 4.
Definition dec_payload (b : bytes) : ikev2_payload :=
  mk_payload (fld8 b 0) (fld8 b 1) (fld16 b 2).

Record ikev2_frag_payload := mk_frag_payload { frag_num : Z; frag_total_w : Z }.
Definition sizeof_frag_payload : Z := 4.
Definition dec_frag_payload (b : bytes) : ikev2_frag_payload :=
  mk_frag_payload (fld16 b 0) (fld16 b 2).

Record ikev2_sa_proposal := mk_sap {
  sap_more : Z; sap_reserved : Z; sap_length : Z; sap_proposalnr : Z;
  sap_protoid : Z; sap_spisize : Z; sap_transforms : Z }.
Definition sizeof_sap : Z := 8.
Definition dec_sap (b : bytes) : ikev2_sa_proposal :=
  mk_sap (fld8 b 0) (fld8 b 1) (fld16 b 2) (fld8 b 4) (fld8 b 5) (fld8 b 6) (fld8 b 7).

Record ikev2_transform := mk_xfrm {
  xfrm_more : Z; xfrm_reserved : Z; xfrm_length : Z; xfrm_type : Z;
  xfrm_reserved1 : Z; xfrm_id : Z }.
Definition sizeof_xfrm : Z := 8.
Definition dec_xfrm (b : bytes) : ikev2_transform :=
  mk_xfrm (fld8 b 0) (fld8 b 1) (fld16 b 2) (fld8 b 4) (fld8 b 5) (fld16 b 6).

Record ikev2_attribute := mk_attr { attr_type : Z; attr_length : Z }.
Definition sizeof_attr : Z := 4.
Definition dec_attr (b : bytes) : ikev2_attribute := mk_attr (fld16 b 0) (fld16 b 2).

Record ikev2_keyexchange := mk_kex { kex_dhgroup : Z; kex_reserved : Z }.
Definition sizeof_kex : Z := 4.
Definition dec_kex (b : bytes) : ikev2_keyexchange := mk_kex (fld16 b 0) (fld16 b 2).

Record ikev2_notify := mk_notify { n_protoid : Z; n_spisize : Z; n_type : Z }.
Definition sizeof_notify : Z := 4.
Definition dec_notify (b : bytes) : ikev2_notify :=
  mk_notify (fld8 b 0) (fld8 b 1) (fld16 b 2).

Record ikev2_delete := mk_delete { del_protoid : Z; del_spisize : Z; del_nspi : Z }.
Definition sizeof_delete : Z := 4.
Definition dec_delete (b : bytes) : ikev2_delete :=
  mk_delete (fld8 b 0) (fld8 b 1) (fld16 b 2).

(** The ID, CERT, AUTH, TS and CP headers start with the one byte the code
    looks at; the rest is reserved. *)
Definition sizeof_id : Z := 4.
Definition sizeof_cert : Z := 1.
Definition sizeof_auth : Z := 4.
Definition sizeof_tsp : Z := 4.
Definition sizeof_cp : Z := 4.

Record ikev2_ts := mk_ts {
  ts_type : Z; ts_protoid : Z; ts_length : Z; ts_startport : Z; ts_endport : Z }.
Definition sizeof_ts : Z := 8.
Definition dec_ts (b : bytes) : ikev2_ts :=
  mk_ts (fld8 b 0) (fld8 b 1) (fld16 b 2) (fld16 b 4) (fld16 b 6).

Record ikev2_cfg := mk_cfg { cfg_type : Z; cfg_length : Z }.
Definition sizeof_cfg : Z := 4.
Definition dec_cfg (b : bytes) : ikev2_cfg := mk_cfg (fld16 b 0) (fld16 b 2).

Record eap_header := mk_eap_header { eap_code : Z; eap_id : Z; eap_length : Z }.
Definition sizeof_eap_header : Z := 4.
Definition dec_eap_header (b : bytes) : eap_header :=
  mk_eap_header (fld8 b 0) (fld8 b 1) (fld16 b 2).
Definition sizeof_eap_message : Z := 5.
Definition sizeof_eap_mschap : Z := 1.
Definition sizeof_eap_mschap_challenge : Z := 21.
Definition sizeof_eap_mschap_response : Z := 54.
Definition sizeof_eap_mschap_success : Z := 4.
Definition sizeof_eap_mschap_failure : Z := 4.

(** ** Addresses *)

(** A socket address: family, port (as the raw field) and the 4 or 16
    address bytes. *)
Record sockaddr := mk_sockaddr { sa_family : Z; sin_port : Z; sin_addr : bytes }.

Record iked_addr := mk_iked_addr {
  addr_af : Z; addr : sockaddr; addr_mask : Z; addr_net : bool; addr_port : Z }.

(** ** Proposals *)

Record iked_transform := mk_transform {
  xform_type : Z; xform_id : Z; xform_length : Z; xform_keylength : Z;
  xform_score : Z }.

Record iked_spi := mk_spi { spi : Z; spi_size : Z; spi_protoid : Z }.
Definition spi_zero : iked_spi := mk_spi 0 0 0.

Record iked_proposal := mk_proposal {
  prop_id : Z; prop_protoid : Z;
  prop_localspi : iked_spi; prop_peerspi : iked_spi;
  prop_xforms : list iked_transform }.
Definition eta_prop (p : iked_proposal) : iked_proposal :=
  mk_proposal (prop_id p) (prop_protoid p) (prop_localspi p) (prop_peerspi p) (prop_xforms p).
Definition set_prop_localspi (v : iked_spi) (p : iked_proposal) : iked_proposal :=
  ltac:(upd eta_prop prop_localspi p v).
Definition set_prop_peerspi (v : iked_spi) (p : iked_proposal) : iked_proposal :=
  ltac:(upd eta_prop prop_peerspi p v).
Definition set_prop_xforms (v : list iked_transform) (p : iked_proposal) : iked_proposal :=
  ltac:(upd eta_prop prop_xforms p v).

#[global] Instance spi_eq_dec : EqDecision iked_spi.
Proof. solve_decision. Defined.
#[global] Instance transform_eq_dec : EqDecision iked_transform.
Proof. solve_decision. Defined.
#[global] Instance proposal_eq_dec : EqDecision iked_proposal.
Proof. solve_decision. Defined.
#[global] Instance sockaddr_eq_dec : EqDecision sockaddr.
Proof. solve_decision. Defined.
#[global] Instance iked_addr_eq_dec : EqDecision iked_addr.
Proof. solve_decision. Defined.

(** ** Messages *)

Record iked_id := mk_id { id_type : Z; id_offset : Z; id_buf : option bytes }.
Definition id_zero : iked_id := mk_id 0 0 None.

Record iked_certreq := mk_certreq { cr_data : bytes; cr_type : Z }.

Record eap_msg := mk_eap_msg {
  eam_identity : option bytes;
  eam_user : option bytes;
  eam_type : Z;
  eam_id : Z;
  eam_msrid : Z;
  eam_success : bool;
  eam_found : bool;
  eam_response : bool;
  eam_challenge : bytes;
  eam_ntresponse : bytes;
  eam_state : Z }.
Definition eta_eap_msg (r : eap_msg) : eap_msg :=
  mk_eap_msg (eam_identity r) (eam_user r) (eam_type r) (eam_id r) (eam_msrid r)
    (eam_success r) (eam_found r) (eam_response r) (eam_challenge r) (eam_ntresponse r)
    (eam_state r).
Definition set_eam_identity (v : option bytes) (r : eap_msg) : eap_msg := ltac:(upd eta_eap_msg eam_identity r v).
Definition set_eam_user (v : option bytes) (r : eap_msg) : eap_msg := ltac:(upd eta_eap_msg eam_user r v).
Definition set_eam_type (v : Z) (r : eap_msg) : eap_msg := ltac:(upd eta_eap_msg eam_type r v).
Definition set_eam_id (v : Z) (r : eap_msg) : eap_msg := ltac:(upd eta_eap_msg eam_id r v).
Definition set_eam_msrid (v : Z) (r : eap_msg) : eap_msg := ltac:(upd eta_eap_msg eam_msrid r v).
Definition set_eam_success (v : bool) (r : eap_msg) : eap_msg := ltac:(upd eta_eap_msg eam_success r v).
Definition set_eam_found (v : bool) (r : eap_msg) : eap_msg := ltac:(upd eta_eap_msg eam_found r v).
Definition set_eam_response (v : bool) (r : eap_msg) : eap_msg := ltac:(upd eta_eap_msg eam_response r v).
Definition set_eam_challenge (v : bytes) (r : eap_msg) : eap_msg := ltac:(upd eta_eap_msg eam_challenge r v).
Definition set_eam_ntresponse (v : bytes) (r : eap_msg) : eap_msg := ltac:(upd eta_eap_msg eam_ntresponse r v).
Definition set_eam_state (v : Z) (r : eap_msg) : eap_msg := ltac:(upd eta_eap_msg eam_state r v).
Definition eap_msg_zero : eap_msg :=
  mk_eap_msg None None 0 0 0 false false false
    (replicate 16 x00) (replicate 24 x00) 0.

(** [struct iked_message]. [msg_policy] holds the flags of the policy the
    message points to, [msg_prop] the position in the parent's
    [msg_proposals] of the proposal it points to; [msg_group] and [msg_cpi]
    keep the two raw bytes copied from the wire. *)
Record iked_message := mk_message {
  msg_data : bytes;
  msg_offset : Z;
  msg_peer : sockaddr;
  msg_local : sockaddr;
  msg_response : bool;
  msg_natt_rcvd : bool;
  msg_nat_detected : Z;
  msg_error : Z;
  msg_e : bool;
  msg_policy : option Z;
  msg_proposals : list iked_proposal;
  msg_certreqs : list iked_certreq;
  msg_rekey : iked_spi;
  msg_nonce : option bytes;
  msg_dhgroup : Z;
  msg_ke : option bytes;
  msg_auth : iked_id;
  msg_peerid : iked_id;
  msg_localid : iked_id;
  msg_cert : iked_id;
  msg_scert : list iked_id;
  msg_cookie : option bytes;
  msg_group : bytes;
  msg_cpi : bytes;
  msg_transform : Z;
  msg_flags : Z;
  msg_eap : eap_msg;
  msg_del_spisize : Z;
  msg_del_cnt : Z;
  msg_del_buf : option bytes;
  msg_del_protoid : Z;
  msg_cp : Z;
  msg_cp_addr : option iked_addr;
  msg_cp_addr6 : option iked_addr;
  msg_cp_dns : option iked_addr;
  msg_frag_num : Z;
  msg_update_sa_addresses : bool;
  msg_cookie2 : option bytes;
  msg_prop : option nat;
  msg_attrlength : Z }.
Definition eta_msg (r : iked_message) : iked_message :=
  mk_message (msg_data r) (msg_offset r) (msg_peer r) (msg_local r) (msg_response r)
    (msg_natt_rcvd r) (msg_nat_detected r) (msg_error r) (msg_e r) (msg_policy r)
    (msg_proposals r) (msg_certreqs r) (msg_rekey r) (msg_nonce r) (msg_dhgroup r)
    (msg_ke r) (msg_auth r) (msg_peerid r) (msg_localid r) (msg_cert r) (msg_scert r)
    (msg_cookie r) (msg_group r) (msg_cpi r) (msg_transform r) (msg_flags r) (msg_eap r)
    (msg_del_spisize r) (msg_del_cnt r) (msg_del_buf r) (msg_del_protoid r) (msg_cp r)
    (msg_cp_addr r) (msg_cp_addr6 r) (msg_cp_dns r) (msg_frag_num r)
    (msg_update_sa_addresses r) (msg_cookie2 r) (msg_prop r) (msg_attrlength r).
Definition set_msg_data (v : bytes) (r : iked_message) : iked_message := ltac:(upd eta_msg msg_data r v).
Definition set_msg_response (v : bool) (r : iked_message) : iked_message := ltac:(upd eta_msg msg_response r v).
Definition set_msg_error (v : Z) (r : iked_message) : iked_message := ltac:(upd eta_msg msg_error r v).
Definition set_msg_policy (v : option Z) (r : iked_message) : iked_message := ltac:(upd eta_msg msg_policy r v).
Definition set_msg_natt_rcvd (v : bool) (r : iked_message) : iked_message := ltac:(upd eta_msg msg_natt_rcvd r v).
Definition set_msg_nat_detected (v : Z) (r : iked_message) : iked_message := ltac:(upd eta_msg msg_nat_detected r v).
Definition set_msg_e (v : bool) (r : iked_message) : iked_message := ltac:(upd eta_msg msg_e r v).
Definition set_msg_proposals (v : list iked_proposal) (r : iked_message) : iked_message := ltac:(upd eta_msg msg_proposals r v).
Definition set_msg_certreqs (v : list iked_certreq) (r : iked_message) : iked_message := ltac:(upd eta_msg msg_certreqs r v).
Definition set_msg_rekey (v : iked_spi) (r : iked_message) : iked_message := ltac:(upd eta_msg msg_rekey r v).
Definition set_msg_nonce (v : option bytes) (r : iked_message) : iked_message := ltac:(upd eta_msg msg_nonce r v).
Definition set_msg_dhgroup (v : Z) (r : iked_message) : iked_message := ltac:(upd eta_msg msg_dhgroup r v).
Definition set_msg_ke (v : option bytes) (r : iked_message) : iked_message := ltac:(upd eta_msg msg_ke r v).
Definition set_msg_auth (v : iked_id) (r : iked_message) : iked_message := ltac:(upd eta_msg msg_auth r v).
Definition set_msg_peerid (v : iked_id) (r : iked_message) : iked_message := ltac:(upd eta_msg msg_peerid r v).
Definition set_msg_localid (v : iked_id) (r : iked_message) : iked_message := ltac:(upd eta_msg msg_localid r v).
Definition set_msg_cert (v : iked_id) (r : iked_message) : iked_message := ltac:(upd eta_msg msg_cert r v).
Definition set_msg_scert (v : list iked_id) (r : iked_message) : iked_message := ltac:(upd eta_msg msg_scert r v).
Definition set_msg_cookie (v : option bytes) (r : iked_message) : iked_message := ltac:(upd eta_msg msg_cookie r v).
Definition set_msg_group (v : bytes) (r : iked_message) : iked_message := ltac:(upd eta_msg msg_group r v).
Definition set_msg_cpi (v : bytes) (r : iked_message) : iked_message := ltac:(upd eta_msg msg_cpi r v).
Definition set_msg_transform (v : Z) (r : iked_message) : iked_message := ltac:(upd eta_msg msg_transform r v).
Definition set_msg_flags (v : Z) (r : iked_message) : iked_message := ltac:(upd eta_msg msg_flags r v).
Definition set_msg_eap (v : eap_msg) (r : iked_message) : iked_message := ltac:(upd eta_msg msg_eap r v).
Definition set_msg_del_spisize (v : Z) (r : iked_message) : iked_message := ltac:(upd eta_msg msg_del_spisize r v).
Definition set_msg_del_cnt (v : Z) (r : iked_message) : iked_message := ltac:(upd eta_msg msg_del_cnt r v).
Definition set_msg_del_buf (v : option bytes) (r : iked_message) : iked_message := ltac:(upd eta_msg msg_del_buf r v).
Definition set_msg_del_protoid (v : Z) (r : iked_message) : iked_message := ltac:(upd eta_msg msg_del_protoid r v).
Definition set_msg_cp (v : Z) (r : iked_message) : iked_message := ltac:(upd eta_msg msg_cp r v).
Definition set_msg_cp_addr (v : option iked_addr) (r : iked_message) : iked_message := ltac:(upd eta_msg msg_cp_addr r v).
Definition set_msg_cp_addr6 (v : option iked_addr) (r : iked_message) : iked_message := ltac:(upd eta_msg msg_cp_addr6 r v).
Definition set_msg_cp_dns (v : option iked_addr) (r : iked_message) : iked_message := ltac:(upd eta_msg msg_cp_dns r v).
Definition set_msg_frag_num (v : Z) (r : iked_message) : iked_message := ltac:(upd eta_msg msg_frag_num r v).
Definition set_msg_update_sa_addresses (v : bool) (r : iked_message) : iked_message := ltac:(upd eta_msg msg_update_sa_addresses r v).
Definition set_msg_cookie2 (v : option bytes) (r : iked_message) : iked_message := ltac:(upd eta_msg msg_cookie2 r v).
Definition set_msg_prop (v : option nat) (r : iked_message) : iked_message := ltac:(upd eta_msg msg_prop r v).
Definition set_msg_attrlength (v : Z) (r : iked_message) : iked_message := ltac:(upd eta_msg msg_attrlength r v).

(** ** Security associations *)

Record iked_sahdr := mk_sahdr { sh_ispi : Z; sh_rspi : Z; sh_initiator : bool }.
Definition set_sh_initiator (v : bool) (h : iked_sahdr) : iked_sahdr :=
  mk_sahdr (sh_ispi h) (sh_rspi h) v.

(** Fragment reassembly state. *)
Record iked_frag_entry := mk_frag_entry { frag_data : option bytes; frag_size : Z }.
Record iked_frag := mk_frag {
  frag_arr : option (list (option iked_frag_entry));
  frag_count : Z;
  frag_total : Z;
  frag_total_size : Z;
  frag_nextpayload : Z }.
Definition eta_frag (r : iked_frag) : iked_frag :=
  mk_frag (frag_arr r) (frag_count r) (frag_total r) (frag_total_size r)
    (frag_nextpayload r).
Definition set_frag_arr (v : option (list (option iked_frag_entry))) (r : iked_frag) : iked_frag := ltac:(upd eta_frag frag_arr r v).
Definition set_frag_count (v : Z) (r : iked_frag) : iked_frag := ltac:(upd eta_frag frag_count r v).
Definition set_frag_total (v : Z) (r : iked_frag) : iked_frag := ltac:(upd eta_frag frag_total r v).
Definition set_frag_total_size (v : Z) (r : iked_frag) : iked_frag := ltac:(upd eta_frag frag_total_size r v).
Definition set_frag_nextpayload (v : Z) (r : iked_frag) : iked_frag := ltac:(upd eta_frag frag_nextpayload r v).
Definition frag_zero : iked_frag := mk_frag None 0 0 0 0.

(** Negotiated algorithms: the lengths [crypto.c] derives the layout of an
    encrypted payload from. *)
Record iked_hash := mk_hash {
  hash_id : Z; hash_length_f : Z; hash_trunc : Z; hash_isaead : bool;
  hash_type : Z; hash_fixedkey : Z }.
Record iked_cipher := mk_cipher {
  encr_id : Z; encr_length : Z; encr_ivlength : Z; encr_saltlength : Z;
  encr_fixedkey : Z; encr_authid : Z }.

(** One entry of a retransmit queue ([struct iked_msg_retransmit]): the
    message id, exchange and data of its fragments, and the tries so far. *)
Record queued_msg := mk_queued_msg {
  qm_msgid : Z; qm_exchange : Z; qm_response : bool; qm_data : bytes }.
Record iked_msg_retransmit := mk_mrt {
  mrt_frags : list queued_msg; mrt_tries : Z; mrt_timer : option Z }.

(** [struct dh_group]: the function pointers, applied to the group and its
    private key; [None] is the result -1. *)
Record dh_group := mk_dh_group {
  dh_id : Z;
  dh_getlen : Z;
  dh_secretlen : Z;
  dh_shared : bytes → option bytes;
  dh_shared2 : option (option bytes → option bytes) }.

(** [struct iked_sa], the fields the modelled code reads or writes. *)
Record iked_sa := mk_sa {
  sa_hdr : iked_sahdr;
  sa_reqid : Z;
  sa_fragments : iked_frag;
  sa_state : Z;
  sa_stateflags : Z;
  sa_stateinit : Z;
  sa_statevalid : Z;
  sa_prf : option iked_hash;
  sa_integr : option iked_hash;
  sa_encr : option iked_cipher;
  sa_key_iauth : option bytes;
  sa_key_rauth : option bytes;
  sa_key_iencr : option bytes;
  sa_key_rencr : option bytes;
  sa_sigsha2 : bool;
  sa_eapid : option bytes;
  sa_mobike : bool;
  sa_requests : list iked_msg_retransmit;
  sa_responses : list iked_msg_retransmit;
  sa_msgid : Z;
  sa_msgid_set : bool;
  sa_msgid_current : Z;
  sa_local : sockaddr;
  sa_natt : bool;
  sa_frag : bool;
  sa_1stmsg : option bytes;
  sa_2ndmsg : option bytes;
  sa_proposals : list iked_proposal;
  sa_inonce : option bytes;
  sa_rnonce : option bytes;
  sa_dhgroup : option dh_group;
  sa_dhiexchange : option bytes;
  sa_dhrexchange : option bytes;
  sa_dhpeer : option bytes;
  sa_key_d : option bytes;
  sa_key_iprf : option bytes;
  sa_key_rprf : option bytes }.
Definition eta_sa (r : iked_sa) : iked_sa :=
  mk_sa (sa_hdr r) (sa_reqid r) (sa_fragments r) (sa_state r) (sa_stateflags r)
    (sa_stateinit r) (sa_statevalid r) (sa_prf r) (sa_integr r) (sa_encr r)
    (sa_key_iauth r) (sa_key_rauth r) (sa_key_iencr r) (sa_key_rencr r) (sa_sigsha2 r)
    (sa_eapid r) (sa_mobike r) (sa_requests r) (sa_responses r) (sa_msgid r) (sa_msgid_set r)
    (sa_msgid_current r) (sa_local r) (sa_natt r) (sa_frag r) (sa_1stmsg r)
    (sa_2ndmsg r) (sa_proposals r) (sa_inonce r) (sa_rnonce r) (sa_dhgroup r) (sa_dhiexchange r)
    (sa_dhrexchange r) (sa_dhpeer r) (sa_key_d r) (sa_key_iprf r) (sa_key_rprf r).
Definition set_sa_hdr (v : iked_sahdr) (r : iked_sa) : iked_sa := ltac:(upd eta_sa sa_hdr r v).
Definition set_sa_reqid (v : Z) (r : iked_sa) : iked_sa := ltac:(upd eta_sa sa_reqid r v).
Definition set_sa_fragments (v : iked_frag) (r : iked_sa) : iked_sa := ltac:(upd eta_sa sa_fragments r v).
Definition set_sa_state (v : Z) (r : iked_sa) : iked_sa := ltac:(upd eta_sa sa_state r v).
Definition set_sa_stateflags (v : Z) (r : iked_sa) : iked_sa := ltac:(upd eta_sa sa_stateflags r v).
Definition set_sa_stateinit (v : Z) (r : iked_sa) : iked_sa := ltac:(upd eta_sa sa_stateinit r v).
Definition set_sa_statevalid (v : Z) (r : iked_sa) : iked_sa := ltac:(upd eta_sa sa_statevalid r v).
Definition set_sa_requests (v : list iked_msg_retransmit) (r : iked_sa) : iked_sa := ltac:(upd eta_sa sa_requests r v).
Definition set_sa_responses (v : list iked_msg_retransmit) (r : iked_sa) : iked_sa := ltac:(upd eta_sa sa_responses r v).
Definition set_sa_msgid (v : Z) (r : iked_sa) : iked_sa := ltac:(upd eta_sa sa_msgid r v).
Definition set_sa_msgid_set (v : bool) (r : iked_sa) : iked_sa := ltac:(upd eta_sa sa_msgid_set r v).
Definition set_sa_msgid_current (v : Z) (r : iked_sa) : iked_sa := ltac:(upd eta_sa sa_msgid_current r v).
Definition set_sa_prf (v : option iked_hash) (r : iked_sa) : iked_sa := ltac:(upd eta_sa sa_prf r v).
Definition set_sa_integr (v : option iked_hash) (r : iked_sa) : iked_sa := ltac:(upd eta_sa sa_integr r v).
Definition set_sa_encr (v : option iked_cipher) (r : iked_sa) : iked_sa := ltac:(upd eta_sa sa_encr r v).
Definition set_sa_key_iauth (v : option bytes) (r : iked_sa) : iked_sa := ltac:(upd eta_sa sa_key_iauth r v).
Definition set_sa_key_rauth (v : option bytes) (r : iked_sa) : iked_sa := ltac:(upd eta_sa sa_key_rauth r v).
Definition set_sa_key_iencr (v : option bytes) (r : iked_sa) : iked_sa := ltac:(upd eta_sa sa_key_iencr r v).
Definition set_sa_key_rencr (v : option bytes) (r : iked_sa) : iked_sa := ltac:(upd eta_sa sa_key_rencr r v).
Definition set_sa_local (v : sockaddr) (r : iked_sa) : iked_sa := ltac:(upd eta_sa sa_local r v).
Definition set_sa_natt (v : bool) (r : iked_sa) : iked_sa := ltac:(upd eta_sa sa_natt r v).
Definition set_sa_1stmsg (v : option bytes) (r : iked_sa) : iked_sa := ltac:(upd eta_sa sa_1stmsg r v).
Definition set_sa_2ndmsg (v : option bytes) (r : iked_sa) : iked_sa := ltac:(upd eta_sa sa_2ndmsg r v).
Definition set_sa_proposals (v : list iked_proposal) (r : iked_sa) : iked_sa := ltac:(upd eta_sa sa_proposals r v).
Definition set_sa_inonce (v : option bytes) (r : iked_sa) : iked_sa := ltac:(upd eta_sa sa_inonce r v).
Definition set_sa_rnonce (v : option bytes) (r : iked_sa) : iked_sa := ltac:(upd eta_sa sa_rnonce r v).
Definition set_sa_dhgroup (v : option dh_group) (r : iked_sa) : iked_sa := ltac:(upd eta_sa sa_dhgroup r v).
Definition set_sa_dhiexchange (v : option bytes) (r : iked_sa) : iked_sa := ltac:(upd eta_sa sa_dhiexchange r v).
Definition set_sa_dhrexchange (v : option bytes) (r : iked_sa) : iked_sa := ltac:(upd eta_sa sa_dhrexchange r v).
Definition set_sa_dhpeer (v : option bytes) (r : iked_sa) : iked_sa := ltac:(upd eta_sa sa_dhpeer r v).
Definition set_sa_key_d (v : option bytes) (r : iked_sa) : iked_sa := ltac:(upd eta_sa sa_key_d r v).
Definition set_sa_key_iprf (v : option bytes) (r : iked_sa) : iked_sa := ltac:(upd eta_sa sa_key_iprf r v).
Definition set_sa_key_rprf (v : option bytes) (r : iked_sa) : iked_sa := ltac:(upd eta_sa sa_key_rprf r v).
