(* ===== verification/SaState.v ===== *)
(** * The IKE SA state machine: [sa_state], [sa_stateflags], [sa_stateok]

    An SA moves between the states of [ikev2.h]; entering SA_INIT, VALID and
    EAP_VALID requires the flags that [sa_new] derives from the policy. The
    step relation interleaves state changes and flag updates in any order, and
    the invariants are proved over its reachable states. *)

From S2P Require Import Prelude Types.

Definition sa_stateok (sa : iked_sa) (state : Z) : bool :=
  if sa_state sa <? state then false
  else
    let require := if state =? IKEV2_STATE_SA_INIT then sa_stateinit sa else sa_statevalid sa in
    if (state =? IKEV2_STATE_SA_INIT) || (state =? IKEV2_STATE_VALID) ||
       (state =? IKEV2_STATE_EAP_VALID)
    then Z.land (sa_stateflags sa) require =? require
    else true.

Definition sa_stateflags_or (flags : Z) (sa : iked_sa) : iked_sa :=
  set_sa_stateflags (Z.lor (sa_stateflags sa) flags) sa.

(** The counters of [struct iked_stats] that [sa_state] keeps. *)
Record sa_stats := mk_sa_stats {
  established_total : Z; established_current : Z; established_failures : Z }.

(** [sa_state]: the counters and the SA after the call. *)
Definition sa_state_count (ostate state : Z) (st : sa_stats) : sa_stats :=
  if ostate =? state then st
  else if state =? IKEV2_STATE_ESTABLISHED then
    mk_sa_stats (to_u64 (established_total st + 1)) (to_u64 (established_current st + 1))
      (established_failures st)
  else if (state =? IKEV2_STATE_CLOSED) || (state =? IKEV2_STATE_CLOSING) then
    if ostate =? IKEV2_STATE_ESTABLISHED then
      mk_sa_stats (established_total st) (to_u64 (established_current st - 1))
        (established_failures st)
    else if (ostate =? IKEV2_STATE_CLOSED) || (ostate =? IKEV2_STATE_CLOSING) then st
    else mk_sa_stats (established_total st) (established_current st)
           (to_u64 (established_failures st + 1))
  else st.

Definition sa_state_set (state : Z) (sa : iked_sa) (st : sa_stats) : iked_sa * sa_stats :=
  let ostate := sa_state sa in
  let sa := set_sa_state state sa in
  let sa := if negb (ostate =? IKEV2_STATE_INIT) && negb (sa_stateok sa state)
            then set_sa_state ostate sa else sa in
  (sa, sa_state_count ostate (sa_state sa) st).

(** ** Behaviour of one call *)

(** The states whose entry is checked against the required flags. *)
Definition state_checked (state : Z) : bool :=
  (state =? IKEV2_STATE_SA_INIT) || (state =? IKEV2_STATE_VALID) ||
  (state =? IKEV2_STATE_EAP_VALID).

Definition state_require (sa : iked_sa) (state : Z) : Z :=
  if state =? IKEV2_STATE_SA_INIT then sa_stateinit sa else sa_statevalid sa.

Definition flags_complete (sa : iked_sa) (state : Z) : Prop :=
  Z.land (sa_stateflags sa) (state_require sa state) = state_require sa state.

#[global] Instance flags_complete_dec sa state : Decision (flags_complete sa state).
Proof. unfold flags_complete. apply _. Defined.

Lemma sa_state_set_spec state sa st :
  let sa' := fst (sa_state_set state sa st) in
  sa_stateflags sa' = sa_stateflags sa ∧ sa_stateinit sa' = sa_stateinit sa ∧
  sa_statevalid sa' = sa_statevalid sa ∧
  sa_state sa' = (if decide (sa_state sa = IKEV2_STATE_INIT ∨ state_checked state = false ∨
                             flags_complete sa state)
                  then state else sa_state sa).
Proof.
  unfold sa_state_set, sa_stateok, state_checked, flags_complete, state_require. simpl.
  rewrite Z.ltb_irrefl.
  destruct (Z.eqb_spec (sa_state sa) IKEV2_STATE_INIT) as [E|E]; simpl.
  { split_and!; try done. by rewrite decide_True by (by left). }
  destruct (_ || _); simpl; [|split_and!; try done; by rewrite decide_True by (right; by left)].
  destruct (Z.eqb_spec (Z.land (sa_stateflags sa)
    (if state =? IKEV2_STATE_SA_INIT then sa_stateinit sa else sa_statevalid sa))
    (if state =? IKEV2_STATE_SA_INIT then sa_stateinit sa else sa_statevalid sa)) as [F|F];
    simpl; split_and!; try done.
  - by rewrite decide_True by (right; by right).
  - rewrite decide_False by (intros [?|[?|?]]; done). done.
Qed.

(** ** Reachable states *)

(** The transitions the daemon asks for: an SA does not skip negotiation, and
    an established one only closes. *)
Definition sa_request (sa : iked_sa) (state : Z) : Prop :=
  (sa_state sa = IKEV2_STATE_INIT → state ≠ IKEV2_STATE_VALID ∧ state ≠ IKEV2_STATE_EAP_VALID) ∧
  (sa_state sa = IKEV2_STATE_ESTABLISHED →
     state = IKEV2_STATE_ESTABLISHED ∨ state = IKEV2_STATE_CLOSING ∨ state = IKEV2_STATE_CLOSED).

Inductive sa_step : iked_sa * sa_stats → iked_sa * sa_stats → Prop :=
  | step_state sa st state :
      sa_request sa state → sa_step (sa, st) (sa_state_set state sa st)
  | step_flags sa st flags :
      0 ≤ flags → sa_step (sa, st) (sa_stateflags_or flags sa, st).

(** In VALID and EAP_VALID the SA carries every flag its policy requires. *)
Definition sa_guarded (sa : iked_sa) : Prop :=
  sa_state sa = IKEV2_STATE_VALID ∨ sa_state sa = IKEV2_STATE_EAP_VALID →
  Z.land (sa_stateflags sa) (sa_statevalid sa) = sa_statevalid sa.

Lemma land_lor_incl f g r : Z.land f r = r → Z.land (Z.lor f g) r = r.
Proof.
  intros H. apply Z.bits_inj'. intros n Hn. pose proof (f_equal (λ z, Z.testbit z n) H) as Hb.
  simpl in Hb. rewrite Z.land_spec in *. rewrite Z.lor_spec.
  destruct (Z.testbit f n), (Z.testbit g n), (Z.testbit r n); done.
Qed.

Lemma sa_step_guarded x y : sa_step x y → sa_guarded (fst x) → sa_guarded (fst y).
Proof.
  intros [sa st state [Hi _]|sa st flags Hf] Hg; simpl in Hg.
  - destruct (sa_state_set_spec state sa st) as (E1 & _ & E3 & E4).
    cbv zeta in E1, E3, E4. unfold sa_guarded. rewrite E1, E3, E4. case_decide as Hd; [|exact Hg].
    intros Hv. destruct Hd as [Hd|[Hd|Hd]].
    + destruct (Hi Hd). destruct Hv; congruence.
    + unfold state_checked in Hd. destruct Hv; subst; done.
    + unfold flags_complete, state_require in Hd. destruct Hv; subst; exact Hd.
  - unfold sa_guarded, sa_stateflags_or. simpl. intros Hv. by apply land_lor_incl, Hg.
Qed.

Definition is_established (sa : iked_sa) : Z :=
  if sa_state sa =? IKEV2_STATE_ESTABLISHED then 1 else 0.

Lemma sa_step_counted x y :
  sa_step x y →
  to_u64 (established_current (snd y) - is_established (fst y)) =
  to_u64 (established_current (snd x) - is_established (fst x)).
Proof.
  intros [sa st state [_ He]|sa st flags Hf]; [|done].
  unfold sa_state_set. simpl. set (sa' := if _ && _ then _ else _).
  assert (Hs : sa_state sa' = state ∨ sa_state sa' = sa_state sa)
    by (unfold sa'; destruct (_ && _); [right|left]; done).
  unfold sa_state_count, is_established.
  destruct (Z.eqb_spec (sa_state sa) (sa_state sa')) as [<-|Hne]; [done|].
  destruct Hs as [Hs|Hs]; [|congruence]. rewrite Hs in *.
  destruct (Z.eqb_spec state IKEV2_STATE_ESTABLISHED) as [->|Hse].
  - destruct (Z.eqb_spec (sa_state sa) IKEV2_STATE_ESTABLISHED); [done|]. simpl.
    unfold to_u64. rewrite Zminus_mod_idemp_l. f_equal. lia.
  - destruct (Z.eqb_spec (sa_state sa) IKEV2_STATE_ESTABLISHED) as [E|E].
    + destruct (He E) as [?|[->| ->]]; [done|..]; simpl; unfold to_u64;
        rewrite Zminus_mod_idemp_l; f_equal; lia.
    + destruct (_ || _); [destruct (_ || _)|]; done.
Qed.

Lemma sa_steps_guarded x y : rtc sa_step x y → sa_guarded (fst x) → sa_guarded (fst y).
Proof. induction 1 as [|x y z Hs _ IH]; eauto using sa_step_guarded. Qed.

Lemma sa_steps_counted x y :
  rtc sa_step x y →
  to_u64 (established_current (snd y) - is_established (fst y)) =
  to_u64 (established_current (snd x) - is_established (fst x)).
Proof. induction 1 as [|x y z Hs _ IH]; [done|]. by rewrite IH, (sa_step_counted _ _ Hs). Qed.

(** An SA reaches VALID or EAP_VALID only with every flag its policy
    requires (authentication, certificate, proposals, EAP), whatever the order
    in which flags and state changes arrive. *)
Theorem sa_valid_requires_flags sa st sa' st' :
  sa_state sa = IKEV2_STATE_INIT → rtc sa_step (sa, st) (sa', st') →
  sa_state sa' = IKEV2_STATE_VALID ∨ sa_state sa' = IKEV2_STATE_EAP_VALID →
  Z.land (sa_stateflags sa') (sa_statevalid sa') = sa_statevalid sa'.
Proof.
  intros Hi Hr. apply (sa_steps_guarded _ _ Hr). unfold sa_guarded. simpl. rewrite Hi.
  by intros [?|?].
Qed.


Definition demo_sa : iked_sa :=
  mk_sa (mk_sahdr 1 2 true) 0 frag_zero IKEV2_STATE_INIT 0
    IKED_REQ_CERT (Z.lor IKED_REQ_AUTHVALID IKED_REQ_SA)
    None None None None None None None false None false [] [] 0 false 0
    (mk_sockaddr AF_INET 500 []) false false None
    None [] None None None None None None None None None.

Definition demo_stats : sa_stats := mk_sa_stats 0 7 0.

(** A life of an SA: SA_INIT once the certificate flag is there, then the
    flags of VALID, VALID, ESTABLISHED. *)
Definition demo_sa_valid : iked_sa :=
  set_sa_state IKEV2_STATE_VALID (sa_stateflags_or 48 (sa_stateflags_or 1 demo_sa)).

Lemma demo_valid_reached : rtc sa_step (demo_sa, demo_stats) (demo_sa_valid, demo_stats).
Proof.
  eapply rtc_l; [apply (step_flags _ _ 1); lia|].
  eapply rtc_l; [apply (step_state _ _ IKEV2_STATE_SA_INIT); split; done|].
  eapply rtc_l; [apply (step_flags _ _ 48); lia|].
  eapply rtc_l; [apply (step_state _ _ IKEV2_STATE_VALID); split; done|].
  apply rtc_refl.
Qed.

Lemma sa_valid_requires_flags_witness :
  Z.land (sa_stateflags demo_sa_valid) (sa_statevalid demo_sa_valid) = 48.
Proof.
  apply (sa_valid_requires_flags demo_sa demo_stats demo_sa_valid demo_stats).
  - reflexivity.
  - apply demo_valid_reached.
  - left. reflexivity.
Defined.

