(* ===== verification/Proposals.v ===== *)
(** * SA proposals: the proposal lists of [config.c]

    A proposal list is a [TAILQ] of proposals, a list here; the pointer
    [config_add_proposal] returns is the position of the proposal in it.
    [alloc] tells whether the allocation the code makes on that path
    succeeds. The invariant [prop_wf] is what the scoring of
    [proposals_match] relies on: no transform is listed twice, and the
    transforms of one type carry strictly increasing scores, so the score
    orders them by preference. *)

From S2P Require Import Prelude Types.

Section config.

Definition config_add_proposal (alloc : bool) (head : list iked_proposal) (id proto : Z)
  : option nat * list iked_proposal :=
  match list_find (λ pp, prop_protoid pp = proto ∧ prop_id pp = id) head with
  | Some (i, _) => (Some i, head)
  | None =>
      if alloc then
        (Some (length head),
         head ++ [mk_proposal (to_u8 id) (to_u8 proto) spi_zero spi_zero []])
      else (None, head)
  end.

Definition config_free_proposal (head : list iked_proposal) (prop : nat) : list iked_proposal :=
  delete prop head.

Definition config_free_proposals (head : list iked_proposal) (proto : Z) : list iked_proposal :=
  filter (λ prop, proto ≠ 0 ∧ prop_protoid prop ≠ proto) head.

(** The transform types [config_add_transform] knows a name map for. *)
Definition xformtype_known (type : Z) : bool :=
  (type =? IKEV2_XFORMTYPE_ENCR) || (type =? IKEV2_XFORMTYPE_PRF) ||
  (type =? IKEV2_XFORMTYPE_INTEGR) || (type =? IKEV2_XFORMTYPE_DH) ||
  (type =? IKEV2_XFORMTYPE_ESN).

Definition xform_is (type id length : Z) (x : iked_transform) : bool :=
  (xform_type x =? type) && (xform_id x =? id) && (xform_length x =? length).

(** The score penalty one earlier transform of the same type adds. *)
Definition xform_penalty (type : Z) : Z :=
  if (type =? IKEV2_XFORMTYPE_ENCR) || (type =? IKEV2_XFORMTYPE_INTEGR) then 3
  else if type =? IKEV2_XFORMTYPE_DH then 2
  else 1.

Definition xform_new_score (type : Z) (xs : list iked_transform) : Z :=
  fold_left (λ score x,
    if xform_type x =? type then score + xform_penalty type else score) xs 1.

(** Returns the C result and the updated proposal. *)
Definition config_add_transform (alloc : bool) (prop : iked_proposal)
    (type id length keylength : Z) : Z * iked_proposal :=
  if negb (xformtype_known type) then (-2, prop)
  else if existsb (xform_is type id length) (prop_xforms prop) then (0, prop)
  else if alloc then
    (0, set_prop_xforms (prop_xforms prop ++
      [mk_transform (to_u8 type) (to_u16 id) (to_u16 length) (to_u16 keylength)
         (to_u32 (xform_new_score type (prop_xforms prop)))]) prop)
  else (-1, prop).

Fixpoint find_xform (xs : list iked_transform) (type id : Z) : option iked_transform :=
  match xs with
  | [] => None
  | x :: xs =>
      if (0 <=? id) && negb (xform_id x =? id) then find_xform xs type id
      else if xform_type x =? type then Some x
      else find_xform xs type id
  end.

Fixpoint config_findtransform_ext (props : list iked_proposal) (type id proto : Z)
  : option iked_transform :=
  match props with
  | [] => None
  | prop :: props =>
      if negb (proto =? 0) && negb (prop_protoid prop =? proto)
      then config_findtransform_ext props type id proto
      else match find_xform (prop_xforms prop) type id with
           | Some x => Some x
           | None => config_findtransform_ext props type id proto
           end
  end.

Definition config_findtransform (props : list iked_proposal) (type proto : Z)
  : option iked_transform :=
  config_findtransform_ext props type (-1) proto.
End config.

(** ** The proposal invariant *)

(** Each transform scores one point plus its type's penalty for every
    earlier transform of that type. *)
Definition xforms_scored (xs : list iked_transform) : Prop :=
  ∀ i x, xs !! i = Some x → xform_score x = xform_new_score (xform_type x) (take i xs).

Definition xforms_unique (xs : list iked_transform) : Prop :=
  ∀ i j x y, xs !! i = Some x → xs !! j = Some y →
    xform_is (xform_type y) (xform_id y) (xform_length y) x = true → i = j.

Definition xforms_typed (xs : list iked_transform) : Prop :=
  ∀ x, x ∈ xs → xformtype_known (xform_type x) = true.

(** The fields hold what their C types can. *)
Definition xforms_width (xs : list iked_transform) : Prop :=
  ∀ x, x ∈ xs → 0 ≤ xform_id x < 2 ^ 16 ∧ 0 ≤ xform_length x < 2 ^ 16 ∧
    0 ≤ xform_keylength x < 2 ^ 16.

(** More transforms than a proposal can ever list; below it no score wraps. *)
Definition xforms_max : Z := 2 ^ 24.

Record prop_wf (p : iked_proposal) : Prop := {
  wf_scored : xforms_scored (prop_xforms p);
  wf_unique : xforms_unique (prop_xforms p);
  wf_typed : xforms_typed (prop_xforms p);
  wf_width : xforms_width (prop_xforms p);
  wf_length : Z.of_nat (length (prop_xforms p)) ≤ xforms_max }.

Section scores.
Implicit Types xs : list iked_transform.

Definition xform_count (type : Z) xs : Z :=
  Z.of_nat (length (filter (λ x, xform_type x = type) xs)).

Lemma xform_new_score_acc type xs n :
  fold_left (λ score x,
    if xform_type x =? type then score + xform_penalty type else score) xs n
  = n + xform_penalty type * xform_count type xs.
Proof.
  unfold xform_count. revert n. induction xs as [|x xs IH]; intros n; simpl; [lia|].
  rewrite IH, filter_cons. destruct (Z.eqb_spec (xform_type x) type); case_decide; simpl; lia.
Qed.

Lemma xform_new_score_count type xs :
  xform_new_score type xs = 1 + xform_penalty type * xform_count type xs.
Proof. apply xform_new_score_acc. Qed.

Lemma xform_penalty_range type : 1 ≤ xform_penalty type ≤ 3.
Proof. unfold xform_penalty. repeat case_match; lia. Qed.

Lemma xform_count_range type xs : 0 ≤ xform_count type xs ≤ Z.of_nat (length xs).
Proof. unfold xform_count. pose proof (length_filter (λ x, xform_type x = type) xs). lia. Qed.

Lemma xform_new_score_range type xs :
  1 ≤ xform_new_score type xs ≤ 1 + 3 * Z.of_nat (length xs).
Proof.
  rewrite xform_new_score_count.
  pose proof (xform_penalty_range type). pose proof (xform_count_range type xs). nia.
Qed.

Lemma xform_count_app type xs ys :
  xform_count type (xs ++ ys) = xform_count type xs + xform_count type ys.
Proof. unfold xform_count. rewrite list.filter_app, length_app. lia. Qed.

(** Scores order the transforms of a type by their position. *)
Lemma xforms_scored_lt xs i j x y :
  xforms_scored xs → xs !! i = Some x → xs !! j = Some y → (i < j)%nat →
  xform_type x = xform_type y → xform_score x < xform_score y.
Proof.
  intros Hs Hi Hj Hij Ht.
  rewrite (Hs _ _ Hi), (Hs _ _ Hj), Ht, !xform_new_score_count.
  assert (take j xs = take i xs ++ x :: drop (S i) (take j xs)) as ->.
  { rewrite <- (take_drop_middle (take j xs) i x) at 1.
    - by rewrite take_take, Nat.min_l by lia.
    - rewrite lookup_take_lt; done. }
  rewrite xform_count_app.
  assert (1 ≤ xform_count (xform_type y) (x :: drop (S i) (take j xs))).
  { unfold xform_count. rewrite filter_cons, decide_True by done. simpl. lia. }
  pose proof (xform_penalty_range (xform_type y)). nia.
Qed.

Lemma xforms_scored_range xs i x :
  xforms_scored xs → xs !! i = Some x → 1 ≤ xform_score x ≤ 1 + 3 * Z.of_nat (length xs).
Proof.
  intros Hs Hi. rewrite (Hs _ _ Hi).
  pose proof (xform_new_score_range (xform_type x) (take i xs)) as Hr.
  rewrite length_take in Hr. lia.
Qed.
End scores.

Lemma prop_wf_empty id proto ls ps : prop_wf (mk_proposal id proto ls ps []).
Proof.
  constructor; simpl.
  - intros i x. by rewrite lookup_nil.
  - intros i j x y. by rewrite lookup_nil.
  - intros x Hx. by apply elem_of_nil in Hx.
  - intros x Hx. by apply elem_of_nil in Hx.
  - unfold xforms_max. lia.
Qed.

Lemma xform_is_spec type id length x :
  xform_is type id length x = true ↔
  xform_type x = type ∧ xform_id x = id ∧ xform_length x = length.
Proof. unfold xform_is. rewrite !andb_true_iff, !Z.eqb_eq. tauto. Qed.

Lemma xformtype_known_range type : xformtype_known type = true → 1 ≤ type ≤ 5.
Proof.
  unfold xformtype_known, IKEV2_XFORMTYPE_ENCR, IKEV2_XFORMTYPE_PRF, IKEV2_XFORMTYPE_INTEGR,
    IKEV2_XFORMTYPE_DH, IKEV2_XFORMTYPE_ESN. rewrite !orb_true_iff, !Z.eqb_eq. lia.
Qed.

Lemma lookup_snoc_Some {A} (xs : list A) a i x :
  (xs ++ [a]) !! i = Some x ↔ xs !! i = Some x ∨ (i = length xs ∧ x = a).
Proof.
  rewrite lookup_app_Some. split.
  - intros [H|[H1 H2]]; [by left|right].
    apply list_lookup_singleton_Some in H2 as [H2 ->]. split; [lia|done].
  - intros [H|[-> ->]]; [by left|right]. split; [lia|]. by rewrite Nat.sub_diag.
Qed.

Lemma existsb_false_elem {A} (f : A → bool) l x :
  existsb f l = false → x ∈ l → f x = false.
Proof.
  intros H Hx. destruct (f x) eqn:E; [|done].
  assert (existsb f l = true) as H'; [|congruence].
  apply existsb_exists. exists x. split; [by apply list_elem_of_In|done].
Qed.

Lemma xforms_add_wf alloc p type id len keylen r p' :
  prop_wf p → 0 ≤ id < 2 ^ 16 → 0 ≤ len < 2 ^ 16 →
  Z.of_nat (length (prop_xforms p)) < xforms_max →
  config_add_transform alloc p type id len keylen = (r, p') → prop_wf p'.
Proof.
  intros [Hs Hu Ht Hw Hl] Hid Hlen Hmax. unfold config_add_transform.
  destruct (xformtype_known type) eqn:Hk; simpl; [|by intros [= <- <-]].
  destruct (existsb _ _) eqn:Hex; [by intros [= <- <-]|].
  destruct alloc; [|by intros [= <- <-]]. intros [= <- <-].
  pose proof (xformtype_known_range _ Hk) as Hty.
  assert (to_u8 type = type) as -> by (apply Z.mod_small; lia).
  unfold to_u16. rewrite (Z.mod_small id), (Z.mod_small len) by lia.
  pose proof (xform_new_score_range type (prop_xforms p)) as Hr.
  assert (to_u32 (xform_new_score type (prop_xforms p)) = xform_new_score type (prop_xforms p))
    as -> by (apply Z.mod_small; unfold xforms_max in *; lia).
  constructor; simpl.
  - intros i x [H|[-> ->]]%lookup_snoc_Some.
    + rewrite take_app_le by (apply lookup_lt_Some in H; lia). by apply Hs.
    + by rewrite take_app_length.
  - intros i j x y [Hi|[-> ->]]%lookup_snoc_Some [Hj|[-> ->]]%lookup_snoc_Some; simpl.
    + eauto.
    + intros Hx. rewrite (existsb_false_elem _ _ x Hex) in Hx; [done|by eapply list_elem_of_lookup_2].
    + intros (E1 & E2 & E3)%xform_is_spec. simpl in *.
      assert (xform_is type id len y = true) as Hy by (apply xform_is_spec; split_and!; congruence).
      rewrite (existsb_false_elem _ _ y Hex) in Hy; [done|by eapply list_elem_of_lookup_2].
    + done.
  - intros x [H|H%list_elem_of_singleton]%elem_of_app; [by apply Ht|by subst].
  - intros x [H|H%list_elem_of_singleton]%elem_of_app; [by apply Hw|subst]. simpl.
    pose proof (Z.mod_pos_bound keylen (2 ^ 16)). unfold to_u16. lia.
  - rewrite length_app. simpl. lia.
Qed.

(** A proposal built by adding transforms, as [parse.y] and the parser do. *)
Definition config_build (id proto : Z) (xs : list (Z * Z * Z * Z)) : iked_proposal :=
  fold_left (λ p '(type, xid, len, keylen),
    snd (config_add_transform true p type xid len keylen)) xs
    (mk_proposal id proto spi_zero spi_zero []).

Lemma xforms_add_length alloc p type id len keylen r p' :
  config_add_transform alloc p type id len keylen = (r, p') →
  (length (prop_xforms p') ≤ S (length (prop_xforms p)))%nat.
Proof.
  unfold config_add_transform. repeat case_match; intros; simplify_eq; simpl; try lia.
  rewrite length_app. simpl. lia.
Qed.

Lemma build_wf id proto xs :
  (∀ type xid len keylen, (type, xid, len, keylen) ∈ xs → 0 ≤ xid < 2 ^ 16 ∧ 0 ≤ len < 2 ^ 16) →
  Z.of_nat (length xs) ≤ xforms_max → prop_wf (config_build id proto xs).
Proof.
  unfold config_build. intros Hr Hl.
  assert (Hgen : ∀ p, prop_wf p →
    Z.of_nat (length (prop_xforms p)) + Z.of_nat (length xs) ≤ xforms_max →
    prop_wf (fold_left (λ p '(type, xid, len, keylen),
      snd (config_add_transform true p type xid len keylen)) xs p)); [|apply Hgen; [apply prop_wf_empty|simpl; lia]].
  clear Hl. induction xs as [|[[[type xid] len] keylen] xs IH]; intros p Hp Hl; simpl; [done|].
  destruct (config_add_transform _ _ _ _ _ _) as [r p'] eqn:E. simpl in Hl.
  destruct (Hr type xid len keylen ltac:(by left)) as [Hx Hln].
  pose proof (xforms_add_length _ _ _ _ _ _ _ _ E).
  apply IH; [intros; eapply Hr; by right| |simpl; lia].
  apply (xforms_add_wf _ _ _ _ _ _ _ _ Hp Hx Hln ltac:(lia) E).
Qed.

(** Proposals are built well formed: starting from an empty proposal,
    any sequence of [config_add_transform] calls keeps the transforms unique,
    of known types and scored in order of preference. *)
Theorem config_build_wf id proto xs :
  (∀ type xid len keylen, (type, xid, len, keylen) ∈ xs → 0 ≤ xid < 2 ^ 16 ∧ 0 ≤ len < 2 ^ 16) →
  Z.of_nat (length xs) ≤ xforms_max → prop_wf (config_build id proto xs).
Proof. apply build_wf. Qed.

Lemma config_build_wf_witness :
  prop_wf (config_build 1 IKEV2_SAPROTO_IKE
    [(IKEV2_XFORMTYPE_DH, 31, 0, 0); (IKEV2_XFORMTYPE_DH, 14, 0, 0)]).
Proof.
  apply config_build_wf; [|vm_compute; discriminate]. intros * H.
  repeat (apply elem_of_cons in H as [H|H]; [simplify_eq; lia|]). by apply elem_of_nil in H.
Defined.
