(* ===== verification/Negotiate.v ===== *)
(** * Proposal negotiation: [proposals_match] and [proposals_negotiate] of [policy.c]

    [proposals_match] scans the peer's transforms against the local ones and
    keeps the best local transform per type; [proposals_negotiate] picks the
    first local proposal that matches and its cheapest peer proposal. The
    theorems say what a positive score guarantees about the selection. *)

From S2P Require Import Prelude Types Proposals.

(** [encxf_noauth] of [parse.y]: the ciphers of [ikeencxfs] that authenticate. *)
Definition ikeencxfs : list (Z * bool) :=
  [(IKEV2_XFORMENCR_3DES, false); (IKEV2_XFORMENCR_3DES, false);
   (IKEV2_XFORMENCR_AES_CBC, false); (IKEV2_XFORMENCR_AES_CBC, false);
   (IKEV2_XFORMENCR_AES_CBC, false);
   (IKEV2_XFORMENCR_AES_GCM_16, true); (IKEV2_XFORMENCR_AES_GCM_16, true);
   (IKEV2_XFORMENCR_AES_GCM_12, true); (IKEV2_XFORMENCR_AES_GCM_12, true)].

Fixpoint encxf_noauth_in (xfs : list (Z * bool)) (id : Z) : bool :=
  match xfs with
  | [] => false
  | (i, noauth) :: xfs => if i =? id then noauth else encxf_noauth_in xfs id
  end.
Definition encxf_noauth (id : Z) : bool := encxf_noauth_in ikeencxfs id.

(** The local variables of [proposals_match] that its loops update. *)
Record match_st := mk_match {
  ms_xforms : list (option iked_transform);
  ms_peerxfs : list bool;
  ms_requiredh : bool;
  ms_nodh : bool;
  ms_dhforced : bool }.

Definition no_xforms : list (option iked_transform) := replicate 6 None.

Definition match_init : match_st :=
  mk_match no_xforms (replicate 6 false) false false false.

Definition xsel (xs : list (option iked_transform)) (type : Z) : option iked_transform :=
  default None (xs !! Z.to_nat type).

Section proposals_match.
Variables (local peer : iked_proposal) (rekey : bool) (dhgroup : Z).

Let protoid : Z := prop_protoid peer.

(** First loop: an AEAD among the peer's ciphers makes [noauth]. *)
Definition match_noauth : bool :=
  existsb (λ tpeer, (xform_type tpeer =? IKEV2_XFORMTYPE_ENCR) &&
    encxf_noauth (xform_id tpeer)) (prop_xforms peer).

(** The local DH transforms decide whether an ESP rekey needs a group. *)
Definition match_dhflags (tlocal : iked_transform) (st : match_st) : match_st :=
  let esp_dh := rekey && (protoid =? IKEV2_SAPROTO_ESP) &&
    (xform_type tlocal =? IKEV2_XFORMTYPE_DH) in
  let none := xform_id tlocal =? IKEV2_XFORMDH_NONE in
  mk_match (ms_xforms st) (ms_peerxfs st)
    (ms_requiredh st || (esp_dh && negb none))
    (ms_nodh st || (esp_dh && none))
    (ms_dhforced st).

Definition match_select (type : Z) (tlocal : iked_transform) (st : match_st) : match_st :=
  let better := match xsel (ms_xforms st) type with
                | None => true
                | Some x => xform_score tlocal <? xform_score x
                end in
  if better then
    mk_match (<[Z.to_nat type := Some tlocal]> (ms_xforms st)) (ms_peerxfs st)
      (ms_requiredh st) (ms_nodh st) (ms_dhforced st)
  else st.

(** One iteration of the inner loop over the local transforms. *)
Definition match_local (tpeer : iked_transform) (st : match_st) (tlocal : iked_transform)
  : match_st :=
  let st := match_dhflags tlocal st in
  if negb (xform_is (xform_type tlocal) (xform_id tlocal) (xform_length tlocal) tpeer)
  then st
  else
    let type := xform_type tpeer in
    if negb (ms_nodh st) && (0 <=? dhgroup) && (type =? IKEV2_XFORMTYPE_DH) then
      if ms_dhforced st then st
      else if xform_id tlocal =? dhgroup then
        match_select type tlocal
          (mk_match (<[Z.to_nat type := None]> (ms_xforms st)) (ms_peerxfs st)
             (ms_requiredh st) (ms_nodh st) true)
      else match_select type tlocal st
    else match_select type tlocal st.

(** The outer loop over the peer's transforms; [None] is [return (0)]. *)
Fixpoint match_peer (tpeers : list iked_transform) (st : match_st) : option match_st :=
  match tpeers with
  | [] => Some st
  | tpeer :: tpeers =>
      if IKEV2_XFORMTYPE_MAX <=? xform_type tpeer then match_peer tpeers st
      else if match_noauth && (xform_type tpeer =? IKEV2_XFORMTYPE_INTEGR) then None
      else
        let st := mk_match (ms_xforms st)
          (<[Z.to_nat (xform_type tpeer) := true]> (ms_peerxfs st))
          (ms_requiredh st) (ms_nodh st) (ms_dhforced st) in
        match_peer tpeers (fold_left (match_local tpeer) (prop_xforms local) st)
  end.

(** The transform types a protocol cannot do without. *)
Definition match_mandatory (st : match_st) (i : Z) : bool :=
  ((protoid =? IKEV2_SAPROTO_IKE) &&
     ((i =? IKEV2_XFORMTYPE_ENCR) || (i =? IKEV2_XFORMTYPE_PRF) ||
      (negb match_noauth && (i =? IKEV2_XFORMTYPE_INTEGR)) ||
      (i =? IKEV2_XFORMTYPE_DH))) ||
  ((protoid =? IKEV2_SAPROTO_AH) &&
     ((i =? IKEV2_XFORMTYPE_INTEGR) || (i =? IKEV2_XFORMTYPE_ESN))) ||
  ((protoid =? IKEV2_SAPROTO_ESP) &&
     ((i =? IKEV2_XFORMTYPE_ENCR) || (i =? IKEV2_XFORMTYPE_ESN) ||
      (ms_requiredh st && negb (ms_nodh st) && (i =? IKEV2_XFORMTYPE_DH)))).

(** The scoring loop from index [i] on, [n] indices to go. *)
Fixpoint match_score (st : match_st) (n : nat) (i score : Z) : Z :=
  match n with
  | O => score
  | S n =>
      match xsel (ms_xforms st) i with
      | None =>
          if match_mandatory st i || default false (ms_peerxfs st !! Z.to_nat i)
          then 0 else match_score st n (i + 1) score
      | Some x => match_score st n (i + 1) (to_u32 (score + xform_score x))
      end
  end.

(** Score and selected transforms. *)
Definition proposals_match : Z * list (option iked_transform) :=
  match match_peer (prop_xforms peer) match_init with
  | None => (0, no_xforms)
  | Some st => (match_score st (Z.to_nat IKEV2_XFORMTYPE_MAX) 0 0, ms_xforms st)
  end.
End proposals_match.

(** The candidate [proposals_negotiate] remembers: score, selection, and
    the peer and local proposals it came from. *)
Record candidate := mk_candidate {
  cd_score : Z; cd_xforms : list (option iked_transform);
  cd_peer : iked_proposal; cd_local : iked_proposal }.

Section proposals_negotiate.
Variables (rekey : bool) (groupid : Z).

(** The inner loop over the peer's proposals. *)
Fixpoint negotiate_peer (plocal : iked_proposal) (peers : list iked_proposal)
    (best : option candidate) : option candidate :=
  match peers with
  | [] => best
  | ppeer :: peers =>
      if negb (prop_protoid ppeer =? prop_protoid plocal)
      then negotiate_peer plocal peers best
      else
        let '(score, xforms) := proposals_match plocal ppeer rekey groupid in
        let better := negb (score =? 0) &&
          match best with None => true | Some c => score <? cd_score c end in
        negotiate_peer plocal peers
          (if better then Some (mk_candidate score xforms ppeer plocal) else best)
  end.

(** The outer loop stops at the first local proposal that matches. *)
Fixpoint negotiate_local (locals peers : list iked_proposal) : option candidate :=
  match locals with
  | [] => None
  | plocal :: locals =>
      match negotiate_peer plocal peers None with
      | Some c => Some c
      | None => negotiate_local locals peers
      end
  end.

(** The proposal written to [result]: its SPIs and transforms. *)
Definition negotiate_spis (c : candidate) (prop : iked_proposal) : iked_proposal :=
  let vpeer := cd_peer c in
  let vlocal := cd_local c in
  let prop :=
    if negb (spi_size (prop_localspi vpeer) =? 0) then
      set_prop_peerspi (prop_peerspi vpeer)
        (set_prop_localspi (mk_spi (spi (prop_localspi prop)) (spi_size (prop_localspi vpeer))
           (spi_protoid (prop_localspi prop))) prop)
    else prop in
  if negb (spi_size (prop_localspi vlocal) =? 0) then
    set_prop_localspi (mk_spi (spi (prop_localspi vlocal)) (spi_size (prop_localspi vlocal))
      (spi_protoid (prop_localspi prop))) prop
  else prop.

(** The transform loop stops at the first one that cannot be added. *)
Fixpoint negotiate_xforms (xforms : list (option iked_transform)) (prop : iked_proposal)
  : iked_proposal :=
  match xforms with
  | [] => prop
  | None :: xforms => negotiate_xforms xforms prop
  | Some x :: xforms =>
      let '(r, prop) := config_add_transform true prop (xform_type x) (xform_id x)
        (xform_length x) (xform_keylength x) in
      if r =? 0 then negotiate_xforms xforms prop else prop
  end.

(** Returns the C result and, when [result] is not [NULL], its new value. *)
Definition proposals_negotiate (result : option (list iked_proposal))
    (local peer : list iked_proposal) : Z * option (list iked_proposal) :=
  if decide (peer = []) then (-1, result)
  else match negotiate_local local peer with
       | None => (-1, result)
       | Some c =>
           match result with
           | None => (0, None)
           | Some res =>
               let res := config_free_proposals res (prop_protoid (cd_peer c)) in
               let '(pos, res) := config_add_proposal true res (prop_id (cd_peer c))
                 (prop_protoid (cd_peer c)) in
               (0, Some (alter (λ prop, negotiate_xforms (cd_xforms c) (negotiate_spis c prop))
                 (default 0%nat pos) res))
           end
       end.
End proposals_negotiate.

(** ** What a match guarantees *)

(** [tl] and [tp] name the same transform: type, id and key length. *)
Definition same_xform (tl tp : iked_transform) : Prop :=
  xform_type tl = xform_type tp ∧ xform_id tl = xform_id tp ∧ xform_length tl = xform_length tp.

Lemma xform_is_same tl tp :
  xform_is (xform_type tl) (xform_id tl) (xform_length tl) tp = true ↔ same_xform tl tp.
Proof. rewrite xform_is_spec. unfold same_xform. intuition congruence. Qed.

Lemma xsel_insert xs i v j :
  0 ≤ i → 0 ≤ j → Z.of_nat (length xs) = 6 → i < 6 →
  xsel (<[Z.to_nat i := v]> xs) j = if decide (i = j) then v else xsel xs j.
Proof.
  intros Hi Hj Hl Hi6. unfold xsel. case_decide as Hd; [subst j|].
  - by rewrite list_lookup_insert_eq by lia.
  - rewrite list_lookup_insert_ne; [done|]. intros E. apply Z2Nat.inj in E; lia.
Qed.

Lemma xsel_insert_ne xs i v j :
  0 ≤ i → 0 ≤ j → j ≠ i → xsel (<[Z.to_nat i := v]> xs) j = xsel xs j.
Proof.
  intros Hi Hj Hne. unfold xsel. rewrite list_lookup_insert_ne; [done|].
  intros E. apply Z2Nat.inj in E; lia.
Qed.

Section match_facts.
Variables (local peer : iked_proposal) (rekey : bool) (dhgroup : Z).

(** Is the type's choice dictated by a forced group? *)
Definition dh_special (type : Z) : bool :=
  (0 <=? dhgroup) && (type =? IKEV2_XFORMTYPE_DH).

Definition esp_dh (none : bool) (tl : iked_transform) : bool :=
  rekey && (prop_protoid peer =? IKEV2_SAPROTO_ESP) &&
  (xform_type tl =? IKEV2_XFORMTYPE_DH) &&
  Bool.eqb (xform_id tl =? IKEV2_XFORMDH_NONE) none.

(** The state after the comparisons listed in [d]: a (local, peer) pair
    per iteration of the inner loop, in order. *)
Record match_inv (d : list (iked_transform * iked_transform)) (st : match_st) : Prop := {
  mi_len : Z.of_nat (length (ms_xforms st)) = 6;
  mi_plen : Z.of_nat (length (ms_peerxfs st)) = 6;
  mi_typed : ∀ tl tp, (tl, tp) ∈ d → 0 ≤ xform_type tl < 6;
  mi_sound : ∀ i x, 0 ≤ i → xsel (ms_xforms st) i = Some x →
    xform_type x = i ∧ ∃ tp, (x, tp) ∈ d ∧ same_xform x tp;
  mi_some : ∀ tl tp, (tl, tp) ∈ d → same_xform tl tp →
    is_Some (xsel (ms_xforms st) (xform_type tl));
  mi_best : ∀ tl tp, (tl, tp) ∈ d → same_xform tl tp → dh_special (xform_type tl) = false →
    ∃ x, xsel (ms_xforms st) (xform_type tl) = Some x ∧ xform_score x ≤ xform_score tl;
  mi_requiredh : ms_requiredh st = existsb (esp_dh false) d.*1;
  mi_nodh : ms_nodh st = existsb (esp_dh true) d.*1;
  mi_forced : ms_nodh st = false → 0 ≤ dhgroup → ms_dhforced st = true →
    ∃ x, xsel (ms_xforms st) IKEV2_XFORMTYPE_DH = Some x ∧ xform_id x = dhgroup;
  mi_unforced : ms_nodh st = false → 0 ≤ dhgroup → ms_dhforced st = false →
    ∀ tl tp, (tl, tp) ∈ d → same_xform tl tp → xform_type tl = IKEV2_XFORMTYPE_DH →
    xform_id tl ≠ dhgroup }.

Lemma match_select_spec type tl st :
  0 ≤ type < 6 → Z.of_nat (length (ms_xforms st)) = 6 →
  let st' := match_select type tl st in
  (∃ y, xsel (ms_xforms st') type = Some y ∧
     (y = tl ∨ xsel (ms_xforms st) type = Some y) ∧ xform_score y ≤ xform_score tl ∧
     ∀ x, xsel (ms_xforms st) type = Some x → xform_score y ≤ xform_score x) ∧
  (∀ j, 0 ≤ j → j ≠ type → xsel (ms_xforms st') j = xsel (ms_xforms st) j) ∧
  Z.of_nat (length (ms_xforms st')) = 6 ∧ ms_peerxfs st' = ms_peerxfs st ∧
  ms_requiredh st' = ms_requiredh st ∧ ms_nodh st' = ms_nodh st ∧
  ms_dhforced st' = ms_dhforced st.
Proof.
  intros Ht Hl. unfold match_select.
  destruct (xsel (ms_xforms st) type) as [x|] eqn:Hx; simpl;
    [destruct (Z.ltb_spec (xform_score tl) (xform_score x)); simpl|].
  - split_and!; try done; [|intros; rewrite xsel_insert, decide_False by lia; done|by rewrite length_insert].
    exists tl. rewrite xsel_insert, decide_True by lia. split_and!; try done; [by left|].
    intros ? [= <-]. lia.
  - split_and!; try done. exists x. split_and!; try done; [by right|]. by intros ? [= <-].
  - split_and!; try done; [|intros; rewrite xsel_insert, decide_False by lia; done|by rewrite length_insert].
    exists tl. rewrite xsel_insert, decide_True by lia. split_and!; try done. by left.
Qed.

(** Facts that survive one more comparison whatever the branch. *)
Lemma flags_snoc none (d : list (iked_transform * iked_transform)) tl tp :
  existsb (esp_dh none) (d ++ [(tl, tp)]).*1 = existsb (esp_dh none) d.*1 || esp_dh none tl.
Proof. rewrite fmap_app, existsb_app. simpl. by rewrite orb_false_r. Qed.

Lemma match_dhflags_spec d tl tp st :
  match_inv d st →
  let st' := match_dhflags peer rekey tl st in
  ms_xforms st' = ms_xforms st ∧ ms_peerxfs st' = ms_peerxfs st ∧
  ms_dhforced st' = ms_dhforced st ∧
  ms_requiredh st' = existsb (esp_dh false) (d ++ [(tl, tp)]).*1 ∧
  ms_nodh st' = existsb (esp_dh true) (d ++ [(tl, tp)]).*1 ∧
  (ms_nodh st' = false → ms_nodh st = false).
Proof.
  intros H. unfold match_dhflags. simpl. rewrite !flags_snoc, (mi_requiredh _ _ H), (mi_nodh _ _ H).
  split_and!; try done.
  - apply (f_equal (orb _)). unfold esp_dh. by destruct (xform_id tl =? _).
  - intros [? _]%orb_false_iff. done.
Qed.

Lemma elem_snoc {A} (d : list A) a b : a ∈ d ++ [b] ↔ a ∈ d ∨ a = b.
Proof. by rewrite elem_of_app, list_elem_of_singleton. Qed.

(** A comparison that leaves the selection alone. *)
Lemma match_inv_skip d tl tp st :
  match_inv d st → 0 ≤ xform_type tl < 6 →
  (same_xform tl tp → ms_nodh (match_dhflags peer rekey tl st) = false ∧
     0 ≤ dhgroup ∧ xform_type tl = IKEV2_XFORMTYPE_DH ∧ ms_dhforced st = true) →
  match_inv (d ++ [(tl, tp)]) (match_dhflags peer rekey tl st).
Proof.
  intros H Hty Hsm.
  destruct (match_dhflags_spec d tl tp st H) as (E1 & E2 & E3 & E4 & E5 & E6).
  destruct H as [H1 H2 H3 H4 H5 H6 H7 H8 H9 H10].
  constructor; rewrite ?E1, ?E2, ?E3; try done.
  - intros a b [?|[= -> ->]]%elem_snoc; eauto.
  - intros i x Hi Hx. destruct (H4 i x Hi Hx) as (? & tq & ? & ?).
    split; [done|]. exists tq. rewrite elem_snoc. auto.
  - intros a b [?|[= -> ->]]%elem_snoc Hab; [eauto|].
    destruct (Hsm Hab) as (Hn & Hd & -> & Hf). destruct (H9 (E6 Hn) Hd Hf) as (x & -> & _). done.
  - intros a b [?|[= -> ->]]%elem_snoc Hab Hdh; [eauto|].
    destruct (Hsm Hab) as (_ & Hd & Ht & _). unfold dh_special in Hdh. rewrite Ht in Hdh.
    rewrite (proj2 (Z.leb_le _ _) Hd) in Hdh. done.
  - intros Hn. apply H9; auto.
  - intros Hn Hd Hf a b [?|[= -> ->]]%elem_snoc Hab; [eauto|].
    destruct (Hsm Hab) as (_ & _ & _ & ?). congruence.
Qed.

(** A comparison that selects, possibly after the forced-group reset. *)
Lemma match_inv_select d tl tp st st0 :
  match_inv d st → 0 ≤ xform_type tl < 6 → same_xform tl tp →
  let fl := match_dhflags peer rekey tl st in
  ms_peerxfs st0 = ms_peerxfs fl → ms_requiredh st0 = ms_requiredh fl →
  ms_nodh st0 = ms_nodh fl → Z.of_nat (length (ms_xforms st0)) = 6 →
  (∀ j, 0 ≤ j → j ≠ xform_type tl → xsel (ms_xforms st0) j = xsel (ms_xforms st) j) →
  (xsel (ms_xforms st0) (xform_type tl) = xsel (ms_xforms st) (xform_type tl) ∧
     ms_dhforced st0 = ms_dhforced st ∧
     (ms_nodh fl = false → dh_special (xform_type tl) = true →
        ms_dhforced st = false ∧ xform_id tl ≠ dhgroup) ∨
   xsel (ms_xforms st0) (xform_type tl) = None ∧ ms_dhforced st0 = true ∧
     dh_special (xform_type tl) = true ∧ xform_id tl = dhgroup) →
  match_inv (d ++ [(tl, tp)]) (match_select (xform_type tl) tl st0).
Proof.
  intros H Hty Hsm fl Ep Er En El Hoth Hcase.
  destruct (match_dhflags_spec d tl tp st H) as (E1 & E2 & E3 & E4 & E5 & E6).
  destruct (match_select_spec (xform_type tl) tl st0 Hty El)
    as ((y & Hy & Hyor & Hyle & Hymin) & Hj & Hl' & Hp' & Hr' & Hn' & Hf').
  destruct H as [H1 H2 H3 H4 H5 H6 H7 H8 H9 H10]. subst fl.
  assert (Hother : ∀ j, 0 ≤ j → j ≠ xform_type tl →
    xsel (ms_xforms (match_select (xform_type tl) tl st0)) j = xsel (ms_xforms st) j)
    by (intros; rewrite Hj, Hoth by done; done).
  assert (Hold : xsel (ms_xforms st0) (xform_type tl) = Some y →
    xsel (ms_xforms st) (xform_type tl) = Some y)
    by (intros Hs; destruct Hcase as [(Hc & _)|(Hc & _)]; congruence).
  constructor; rewrite ?Hp', ?Hr', ?Hn', ?Hf', ?Ep, ?Er, ?En, ?E2; try done.
  - intros a b [?|[= -> ->]]%elem_snoc; eauto.
  - intros i x Hi Hx. destruct (decide (i = xform_type tl)) as [->|Hne].
    + rewrite Hy in Hx. injection Hx as <-. destruct Hyor as [->|Ho].
      * split; [done|]. exists tp. rewrite elem_snoc. auto.
      * destruct (H4 _ _ Hi (Hold Ho)) as (? & tq & ? & ?).
        split; [done|]. exists tq. rewrite elem_snoc. auto.
    + rewrite Hother in Hx by done. destruct (H4 i x Hi Hx) as (? & tq & ? & ?).
      split; [done|]. exists tq. rewrite elem_snoc. auto.
  - intros a b [Hab|[= -> ->]]%elem_snoc Hs; [|by rewrite Hy].
    destruct (decide (xform_type a = xform_type tl)) as [->|Hne]; [by rewrite Hy|].
    rewrite Hother by (done || apply (H3 _ _ Hab)). eauto.
  - intros a b [Hab|[= -> ->]]%elem_snoc Hs Hdh; [|eauto].
    destruct (decide (xform_type a = xform_type tl)) as [Heq|Hne].
    + rewrite Heq in *. destruct Hcase as [(Hc & _)|(_ & _ & ? & _)]; [|congruence].
      destruct (H6 a b Hab Hs ltac:(by rewrite Heq)) as (x & Hx & Hle).
      rewrite Heq, <- Hc in Hx. specialize (Hymin _ Hx). exists y. split; [done|lia].
    + rewrite Hother by (done || apply (H3 _ _ Hab)). eauto.
  - intros Hn Hd Hf. destruct (decide (IKEV2_XFORMTYPE_DH = xform_type tl)) as [Heq|Hne].
    + destruct Hcase as [(Hc & Hfo & Hsp)|(Hc & _ & _ & Hid)].
      * destruct (Hsp Hn) as [? _]; [|congruence].
        unfold dh_special. rewrite <- Heq, (proj2 (Z.leb_le _ _) Hd). done.
      * exists y. rewrite Heq. split; [done|]. destruct Hyor as [->|?]; congruence.
    + rewrite Hother by done. apply H9; [auto|done|].
      destruct Hcase as [(_ & Hfo & _)|(_ & _ & Hsp & _)]; [congruence|].
      unfold dh_special in Hsp. bool_facts. congruence.
  - intros Hn Hd Hf a b [Hab|[= -> ->]]%elem_snoc Hs Ht.
    + destruct Hcase as [(_ & Hfo & _)|(_ & Hfo & _)]; [|congruence].
      apply (H10 (E6 Hn) Hd ltac:(congruence) a b Hab Hs Ht).
    + destruct Hcase as [(_ & _ & Hsp)|(_ & Hfo & _)]; [|congruence].
      apply Hsp; [done|]. unfold dh_special. rewrite Ht, (proj2 (Z.leb_le _ _) Hd). done.
Qed.

Lemma match_local_inv d tl tp st :
  match_inv d st → 0 ≤ xform_type tl < 6 →
  match_inv (d ++ [(tl, tp)]) (match_local peer rekey dhgroup tp st tl).
Proof.
  intros H Hty. destruct (match_dhflags_spec d tl tp st H) as (E1 & E2 & E3 & _).
  unfold match_local. set (fl := match_dhflags peer rekey tl st) in *.
  destruct (xform_is _ _ _ tp) eqn:Hs; cbn [negb].
  2: { apply match_inv_skip; [done..|]. intros Hs'%xform_is_same. congruence. }
  apply xform_is_same in Hs. pose proof Hs as (Et & _). rewrite <- Et.
  assert (Hsp : dh_special (xform_type tl) =
    (0 <=? dhgroup) && (xform_type tl =? IKEV2_XFORMTYPE_DH)) by done.
  rewrite <- (andb_assoc (negb _)), <- Hsp.
  destruct (negb (ms_nodh fl) && dh_special (xform_type tl)) eqn:Hc.
  - apply andb_true_iff in Hc as [Hn%negb_true_iff Hd].
    pose proof Hd as Hd'. rewrite Hsp in Hd'. bool_facts.
    destruct (ms_dhforced fl) eqn:Hf.
    + apply match_inv_skip; [done..|]. intros _. split_and!; congruence || done.
    + destruct (xform_id tl =? dhgroup) eqn:Hid; bool_facts.
      * eapply match_inv_select with (st := st); try done.
        -- cbn [ms_xforms]. rewrite length_insert, E1. apply H.
        -- intros j Hj Hne. cbn [ms_xforms]. rewrite E1. apply xsel_insert_ne; done || lia.
        -- right. cbn [ms_xforms ms_dhforced]. rewrite E1. split_and!; [|done..].
           rewrite xsel_insert, decide_True; try done || lia; apply H.
      * eapply match_inv_select with (st := st); try done.
        -- rewrite E1. apply H.
        -- left. rewrite E1. split_and!; [done|done|]. intros. split; [congruence|done].
  - eapply match_inv_select with (st := st); try done.
    + rewrite E1. apply H.
    + left. rewrite E1. split_and!; [done|done|]. intros Hn Hd.
      unfold fl in Hn. fold fl in Hn. rewrite Hn, Hd in Hc. done.
Qed.

Lemma match_locals_inv tp ls d st :
  match_inv d st → (∀ tl, tl ∈ ls → 0 ≤ xform_type tl < 6) →
  match_inv (d ++ ((λ tl, (tl, tp)) <$> ls)) (fold_left (match_local peer rekey dhgroup tp) ls st).
Proof.
  revert d st. induction ls as [|tl ls IH]; intros d st H Hty; cbn [fold_left].
  - by rewrite app_nil_r.
  - rewrite fmap_cons. replace (d ++ (tl, tp) :: ((λ tl, (tl, tp)) <$> ls))
      with ((d ++ [(tl, tp)]) ++ ((λ tl, (tl, tp)) <$> ls)) by (by rewrite <- app_assoc).
    apply IH; [|intros; apply Hty; by right].
    apply match_local_inv; [done|]. apply Hty. by left.
Qed.

Lemma match_local_peerxfs tp st tl :
  ms_peerxfs (match_local peer rekey dhgroup tp st tl) = ms_peerxfs st.
Proof. unfold match_local, match_select. repeat case_match; done. Qed.

Lemma match_locals_peerxfs tp ls st :
  ms_peerxfs (fold_left (match_local peer rekey dhgroup tp) ls st) = ms_peerxfs st.
Proof.
  revert st. induction ls as [|tl ls IH]; intros st; simpl; [done|].
  by rewrite IH, match_local_peerxfs.
Qed.

(** Every (local, peer) pair the loops compare, in order. *)
Definition compared (tps : list iked_transform) : list (iked_transform * iked_transform) :=
  tps ≫= λ tp, (λ tl, (tl, tp)) <$> prop_xforms local.

Lemma elem_of_compared tl tp tps :
  (tl, tp) ∈ compared tps ↔ tl ∈ prop_xforms local ∧ tp ∈ tps.
Proof.
  unfold compared. rewrite list_elem_of_bind. setoid_rewrite list_elem_of_fmap. split.
  - by intros (x & (y & [= -> ->] & Hy) & Hx).
  - intros [Hl Hp]. exists tp. split; [|done]. by exists tl.
Qed.

Lemma match_peer_inv tps d st st' :
  xforms_typed (prop_xforms local) → xforms_typed tps →
  match_inv d st → match_peer local peer rekey dhgroup tps st = Some st' →
  match_inv (d ++ compared tps) st' ∧
  (∀ k, ms_peerxfs st' !! k = Some true ↔
     ms_peerxfs st !! k = Some true ∨ ∃ tp, tp ∈ tps ∧ Z.to_nat (xform_type tp) = k) ∧
  (match_noauth peer = true → ∀ tp, tp ∈ tps → xform_type tp ≠ IKEV2_XFORMTYPE_INTEGR).
Proof.
  intros Hloc. revert d st. induction tps as [|tp tps IH]; intros d st Htys H; simpl.
  - intros [= <-]. rewrite app_nil_r. split_and!; [done| |by intros ?? ?%elem_of_nil].
    intros k. split; [by left|]. intros [?|(? & ?%elem_of_nil & _)]; done.
  - pose proof (xformtype_known_range _ (Htys tp ltac:(by left))) as Hty.
    destruct (Z.leb_spec IKEV2_XFORMTYPE_MAX (xform_type tp)) as [Hc|Hc];
      [unfold IKEV2_XFORMTYPE_MAX in Hc; lia|].
    destruct (match_noauth peer && (xform_type tp =? IKEV2_XFORMTYPE_INTEGR)) eqn:Hna; [done|].
    set (st1 := mk_match _ _ _ _ _). intros Hm.
    assert (H1 : match_inv d st1).
    { destruct H as [H1 H2 H3 H4 H5 H6 H7 H8 H9 H10]. constructor; try done.
      simpl. by rewrite length_insert. }
    destruct (IH (d ++ ((λ tl, (tl, tp)) <$> prop_xforms local)) _
      ltac:(intros x Hx; apply Htys; by right)
      ltac:(apply match_locals_inv; [exact H1|];
        intros tl Htl; pose proof (xformtype_known_range _ (Hloc _ Htl)); lia) Hm)
      as (I1 & I2 & I3).
    rewrite match_locals_peerxfs in I2. simpl in I2. pose proof (mi_plen _ _ H) as Hpl.
    split_and!.
    + by rewrite <- app_assoc in I1.
    + intros k. rewrite I2, list_lookup_insert_Some. split.
      * intros [[(<- & _ & _)|[_ ?]]|(x & ? & ?)]; [right|by left|right].
        -- exists tp. split; [by left|done].
        -- exists x. split; [by right|done].
      * intros [Hk|(x & [->|Hx]%elem_of_cons & <-)].
        -- left. destruct (decide (Z.to_nat (xform_type tp) = k)) as [<-|]; [left|by right].
           split_and!; [done|done|lia].
        -- left. left. split_and!; [done|done|lia].
        -- right. eauto.
    + intros Hno x [->|Hx]%elem_of_cons; [|by apply I3].
      rewrite Hno in Hna. simpl in Hna. by bool_facts.
Qed.
End match_facts.

(** ** Scores *)

Section score_facts.
Variables (peer : iked_proposal) (st : match_st).

(** No type the protocol or the peer needs is left unselected in [i, i+n). *)
Definition covered (i : Z) (n : nat) : Prop :=
  ∀ k, i ≤ k < i + Z.of_nat n → is_Some (xsel (ms_xforms st) k) ∨
    match_mandatory peer st k = false ∧ ms_peerxfs st !! Z.to_nat k ≠ Some true.

Lemma match_score_nonzero n i sc :
  match_score peer st n i sc ≠ 0 → covered i n.
Proof.
  revert i sc. induction n as [|n IH]; intros i sc Hs k Hk; [lia|]. simpl in Hs.
  destruct (decide (k = i)) as [->|Hne].
  - destruct (xsel (ms_xforms st) i); [by left|right].
    destruct (match_mandatory peer st i); [done|].
    destruct (ms_peerxfs st !! Z.to_nat i) as [[]|]; done.
  - destruct (xsel (ms_xforms st) i) as [x|].
    + eapply (IH (i + 1)); [done|lia].
    + destruct (_ || _); [done|]. eapply (IH (i + 1)); [done|lia].
Qed.

Lemma match_score_covered n i sc :
  covered i n → 0 ≤ sc →
  (∀ k x, xsel (ms_xforms st) k = Some x → 1 ≤ xform_score x ≤ 2 ^ 28) →
  sc + Z.of_nat n * 2 ^ 28 < 2 ^ 32 →
  sc ≤ match_score peer st n i sc ∧
  (∀ k, i ≤ k < i + Z.of_nat n → is_Some (xsel (ms_xforms st) k) →
     sc < match_score peer st n i sc).
Proof.
  revert i sc. induction n as [|n IH]; intros i sc Hc H0 Hr Hb; simpl; [split; lia|].
  assert (Hc' : covered (i + 1) n) by (intros k Hk; apply Hc; lia).
  destruct (xsel (ms_xforms st) i) as [x|] eqn:Hx.
  - pose proof (Hr _ _ Hx). unfold to_u32. rewrite Z.mod_small by lia.
    destruct (IH (i + 1) (sc + xform_score x) Hc' ltac:(lia) Hr ltac:(lia)) as [Hle _].
    split; lia.
  - destruct (Hc i ltac:(lia)) as [[? ?]|[-> Hp]]; [congruence|]. simpl.
    destruct (ms_peerxfs st !! Z.to_nat i) as [[]|]; [done|..]; simpl;
      destruct (IH (i + 1) sc Hc' H0 Hr ltac:(lia)) as [Hle Hlt]; (split; [done|]);
      intros k Hk [y Hy]; (destruct (decide (k = i)); [congruence|apply (Hlt k); [lia|eauto]]).
Qed.
End score_facts.

(** ** The contract of a match *)

(** A transform both sides list. *)
Definition common (local peer : iked_proposal) (tl : iked_transform) : Prop :=
  tl ∈ prop_xforms local ∧ ∃ tp, tp ∈ prop_xforms peer ∧ same_xform tl tp.

(** Must a transform of this type be chosen? The protocol's mandatory types,
    every type the peer offers, and a group for an ESP rekey with PFS. *)
Definition needed (local peer : iked_proposal) (rekey : bool) (type : Z) : Prop :=
  (∃ tp, tp ∈ prop_xforms peer ∧ xform_type tp = type) ∨
  (prop_protoid peer = IKEV2_SAPROTO_IKE ∧
     (type = IKEV2_XFORMTYPE_ENCR ∨ type = IKEV2_XFORMTYPE_PRF ∨ type = IKEV2_XFORMTYPE_DH ∨
      type = IKEV2_XFORMTYPE_INTEGR ∧ match_noauth peer = false)) ∨
  (prop_protoid peer = IKEV2_SAPROTO_AH ∧
     (type = IKEV2_XFORMTYPE_INTEGR ∨ type = IKEV2_XFORMTYPE_ESN)) ∨
  (prop_protoid peer = IKEV2_SAPROTO_ESP ∧
     (type = IKEV2_XFORMTYPE_ENCR ∨ type = IKEV2_XFORMTYPE_ESN ∨
      type = IKEV2_XFORMTYPE_DH ∧ rekey = true ∧
        (∃ tl, tl ∈ prop_xforms local ∧ xform_type tl = IKEV2_XFORMTYPE_DH ∧
           xform_id tl ≠ IKEV2_XFORMDH_NONE) ∧
        ¬ (∃ tl, tl ∈ prop_xforms local ∧ xform_type tl = IKEV2_XFORMTYPE_DH ∧
           xform_id tl = IKEV2_XFORMDH_NONE))).

(** When two proposals agree, independently of any preferred group. *)
Definition acceptable (local peer : iked_proposal) (rekey : bool) : Prop :=
  (∃ tl, common local peer tl) ∧
  (match_noauth peer = true →
     ∀ tp, tp ∈ prop_xforms peer → xform_type tp ≠ IKEV2_XFORMTYPE_INTEGR) ∧
  (∀ type, 0 ≤ type < 6 → needed local peer rekey type →
     ∃ tl, common local peer tl ∧ xform_type tl = type).

(** What a selection [xs] owes to the two proposals it came from. *)
Record selection (local peer : iked_proposal) (rekey : bool) (dhgroup : Z)
    (xs : list (option iked_transform)) : Prop := {
  sel_common : ∀ i x, 0 ≤ i → xsel xs i = Some x → xform_type x = i ∧ common local peer x;
  sel_needed : ∀ i, 0 ≤ i < 6 → needed local peer rekey i → is_Some (xsel xs i);
  sel_aead : match_noauth peer = true → xsel xs IKEV2_XFORMTYPE_INTEGR = None;
  sel_best : ∀ i x tl, 0 ≤ i → xsel xs i = Some x → dh_special dhgroup i = false →
    common local peer tl → xform_type tl = i → xform_score x ≤ xform_score tl }.

Section match_contract.
Variables (local peer : iked_proposal) (rekey : bool) (dhgroup : Z).
Hypotheses (Hlocal : xforms_typed (prop_xforms local)) (Hpeer : xforms_typed (prop_xforms peer)).

Lemma match_inv_init : match_inv peer rekey dhgroup [] match_init.
Proof.
  assert (Hx : ∀ i, xsel (ms_xforms match_init) i = None).
  { intros i. unfold xsel, match_init, no_xforms. cbn [ms_xforms].
    destruct (replicate 6 None !! Z.to_nat i) eqn:E; [|done].
    by apply lookup_replicate in E as [-> _]. }
  constructor; try done.
  - intros tl tp H. by apply elem_of_nil in H.
  - intros i x _. by rewrite Hx.
  - intros tl tp H. by apply elem_of_nil in H.
  - intros tl tp H. by apply elem_of_nil in H.
  - intros _ _ _ tl tp H. by apply elem_of_nil in H.
Qed.

Lemma existsb_elem {A} (f : A → bool) l :
  existsb f l = true ↔ ∃ x, x ∈ l ∧ f x = true.
Proof.
  rewrite existsb_exists. split; intros (x & H & ?); exists x; (split; [|done]);
    by apply list_elem_of_In.
Qed.

Lemma esp_dh_spec none tl :
  esp_dh peer rekey none tl = true ↔ rekey = true ∧
    prop_protoid peer = IKEV2_SAPROTO_ESP ∧ xform_type tl = IKEV2_XFORMTYPE_DH ∧
    (xform_id tl = IKEV2_XFORMDH_NONE ↔ none = true).
Proof.
  unfold esp_dh. rewrite !andb_true_iff, !Z.eqb_eq, Bool.eqb_true_iff.
  destruct (Z.eqb_spec (xform_id tl) IKEV2_XFORMDH_NONE), none; intuition congruence.
Qed.

Lemma compared_flag none :
  (∃ tp, tp ∈ prop_xforms peer) →
  existsb (esp_dh peer rekey none) (compared local (prop_xforms peer)).*1 = true ↔
  rekey = true ∧ prop_protoid peer = IKEV2_SAPROTO_ESP ∧
  ∃ tl, tl ∈ prop_xforms local ∧ xform_type tl = IKEV2_XFORMTYPE_DH ∧
    if none then xform_id tl = IKEV2_XFORMDH_NONE else xform_id tl ≠ IKEV2_XFORMDH_NONE.
Proof.
  intros [tp Htp]. rewrite existsb_elem. setoid_rewrite list_elem_of_fmap.
  setoid_rewrite esp_dh_spec. split.
  - intros (x & ([tl tp'] & -> & H) & ? & ? & ? & Hn). apply elem_of_compared in H as [H _].
    split_and!; [done|done|]. exists tl. destruct none; intuition congruence.
  - intros (? & ? & tl & H & ? & Hn). exists tl. split.
    + exists (tl, tp). split; [done|]. by apply elem_of_compared.
    + destruct none; intuition congruence.
Qed.

Lemma match_final st :
  match_peer local peer rekey dhgroup (prop_xforms peer) match_init = Some st →
  match_inv peer rekey dhgroup (compared local (prop_xforms peer)) st ∧
  (∀ k, ms_peerxfs st !! k = Some true ↔
     ∃ tp, tp ∈ prop_xforms peer ∧ Z.to_nat (xform_type tp) = k) ∧
  (match_noauth peer = true →
     ∀ tp, tp ∈ prop_xforms peer → xform_type tp ≠ IKEV2_XFORMTYPE_INTEGR).
Proof.
  intros Hm. destruct (match_peer_inv _ _ _ _ _ [] _ _ Hlocal Hpeer match_inv_init Hm)
    as (I1 & I2 & I3).
  split_and!; [done| |done]. intros k. rewrite I2. split; [|by right].
  intros [E|?]; [|done]. by apply lookup_replicate in E as [? _].
Qed.

Lemma match_needed st i :
  match_peer local peer rekey dhgroup (prop_xforms peer) match_init = Some st →
  (∃ tp, tp ∈ prop_xforms peer) → 0 ≤ i →
  needed local peer rekey i ↔
  match_mandatory peer st i = true ∨ ms_peerxfs st !! Z.to_nat i = Some true.
Proof.
  intros Hm Hne Hi. destruct (match_final _ Hm) as (I1 & I2 & _).
  assert (Hpx : ms_peerxfs st !! Z.to_nat i = Some true ↔
    ∃ tp, tp ∈ prop_xforms peer ∧ xform_type tp = i).
  { rewrite I2. split; intros (tp & Htp & E); exists tp; (split; [done|]); [|congruence].
    pose proof (xformtype_known_range _ (Hpeer _ Htp)). lia. }
  rewrite Hpx. unfold match_mandatory, needed.
  rewrite !orb_true_iff, !andb_true_iff, !orb_true_iff, !andb_true_iff, !negb_true_iff, !Z.eqb_eq.
  rewrite (mi_requiredh _ _ _ _ _ I1), (mi_nodh _ _ _ _ _ I1).
  rewrite (compared_flag false Hne), <- (not_true_iff_false (existsb _ _)), (compared_flag true Hne).
  destruct rekey; tauto.
Qed.

Lemma match_score_empty st n i sc :
  (∀ k, xsel (ms_xforms st) k = None) → match_score peer st n i sc = sc ∨
  match_score peer st n i sc = 0.
Proof.
  intros Hx. revert i sc. induction n as [|n IH]; intros i sc; simpl; [by left|].
  rewrite Hx. destruct (_ || _); [by right|apply IH].
Qed.

Lemma match_nonempty st :
  match_peer local peer rekey dhgroup (prop_xforms peer) match_init = Some st →
  match_score peer st 6 0 0 ≠ 0 → ∃ tp, tp ∈ prop_xforms peer.
Proof.
  destruct (prop_xforms peer) as [|tp tps]; [|by exists tp; left].
  intros [= <-] Hs. exfalso. apply Hs.
  destruct (match_score_empty match_init 6 0 0) as [E|E]; [|done|done].
  intros k. unfold xsel, match_init, no_xforms. cbn [ms_xforms].
  destruct (replicate 6 None !! Z.to_nat k) eqn:E; [|done].
  by apply lookup_replicate in E as [-> _].
Qed.

Lemma match_common st i x :
  match_peer local peer rekey dhgroup (prop_xforms peer) match_init = Some st →
  0 ≤ i → xsel (ms_xforms st) i = Some x → xform_type x = i ∧ common local peer x.
Proof.
  intros Hm Hi Hx. destruct (match_final _ Hm) as (I1 & _ & _).
  destruct (mi_sound _ _ _ _ _ I1 _ _ Hi Hx) as (? & tp & [Hl Hp]%elem_of_compared & Hsame).
  split; [done|]. split; [done|]. by exists tp.
Qed.

(** A positive score comes with a selection that honours both proposals. *)
Lemma match_selection score xs :
  proposals_match local peer rekey dhgroup = (score, xs) → score ≠ 0 →
  selection local peer rekey dhgroup xs.
Proof.
  unfold proposals_match.
  destruct (match_peer _ _ _ _ _ _) as [st|] eqn:Hm; intros Heq Hs; [|congruence].
  change (Z.to_nat _) with 6%nat in Heq.
  assert (score = match_score peer st 6 0 0) as -> by congruence.
  assert (xs = ms_xforms st) as -> by congruence.
  pose proof (match_nonempty _ Hm Hs) as Hne. destruct (match_final _ Hm) as (I1 & I2 & I3).
  constructor.
  - intros i x. by apply match_common.
  - intros i Hi Hn. apply (match_needed _ i Hm Hne (proj1 Hi)) in Hn.
    destruct (match_score_nonzero _ _ _ _ _ Hs i ltac:(lia)) as [?|[??]]; [done|].
    destruct Hn; congruence.
  - intros Hno. destruct (xsel _ _) as [x|] eqn:Hx; [|done].
    destruct (match_common _ IKEV2_XFORMTYPE_INTEGR _ Hm ltac:(done) Hx) as (E & _ & tp & Hp & Ht & _).
    destruct (I3 Hno _ Hp). congruence.
  - intros i x tl Hi Hx Hd (Hl & tp & Hp & Hsame) <-.
    destruct (mi_best _ _ _ _ _ I1 tl tp) as (y & Hy & ?); [by apply elem_of_compared|done..|].
    congruence.
Qed.
End match_contract.

Lemma common_score local peer x :
  prop_wf local → common local peer x → 1 ≤ xform_score x ≤ 2 ^ 28.
Proof.
  intros [Hs _ _ _ Hl] [[i Hi]%list_elem_of_lookup _].
  pose proof (xforms_scored_range _ _ _ Hs Hi). unfold xforms_max in Hl. lia.
Qed.

Lemma selection_local_order local peer rekey dhgroup xs i x a b tl :
  prop_wf local → selection local peer rekey dhgroup xs →
  0 ≤ i → xsel xs i = Some x → dh_special dhgroup i = false →
  prop_xforms local !! a = Some x → prop_xforms local !! b = Some tl →
  common local peer tl → xform_type tl = i → (a ≤ b)%nat.
Proof.
  intros Hwf Hsel Hi Hx Hd Ha Hb Hc Ht.
  pose proof (sel_best _ _ _ _ _ Hsel _ _ _ Hi Hx Hd Hc Ht) as Hle.
  destruct (sel_common _ _ _ _ _ Hsel _ _ Hi Hx) as [Hxt _].
  destruct (decide (b < a)%nat) as [Hlt|]; [|lia].
  pose proof (xforms_scored_lt _ _ _ _ _ (wf_scored _ Hwf) Hb Ha Hlt ltac:(congruence)). lia.
Qed.

(** A positive score guarantees the selection: every selected transform
    is a local one the peer offered, of its slot's type; every type the peer
    offers and every type the protocol needs is selected; with an AEAD cipher
    on offer no integrity transform is; and within a type the local
    proposal's order decides, unless a group is forced. *)
Theorem proposals_match_sound local peer rekey dhgroup score xs :
  prop_wf local → xforms_typed (prop_xforms peer) →
  proposals_match local peer rekey dhgroup = (score, xs) → score ≠ 0 →
  selection local peer rekey dhgroup xs ∧
  ∀ i x a b tl, 0 ≤ i → xsel xs i = Some x → dh_special dhgroup i = false →
    prop_xforms local !! a = Some x → prop_xforms local !! b = Some tl →
    common local peer tl → xform_type tl = i → (a ≤ b)%nat.
Proof.
  intros Hwf Hp Hm Hs.
  pose proof (match_selection _ _ _ _ (wf_typed _ Hwf) Hp _ _ Hm Hs) as Hsel.
  split; [done|]. intros *. by eapply selection_local_order.
Qed.

Lemma match_peer_some local peer rekey dhgroup tps st :
  (match_noauth peer = true → ∀ tp, tp ∈ tps → xform_type tp ≠ IKEV2_XFORMTYPE_INTEGR) →
  is_Some (match_peer local peer rekey dhgroup tps st).
Proof.
  revert st. induction tps as [|tp tps IH]; intros st H; simpl; [done|].
  destruct (_ <=? _); [apply IH; intros ???; apply H; [done|by right]|].
  destruct (match_noauth peer && _) eqn:E.
  - bool_facts. destruct (H ltac:(done) tp ltac:(by left)). done.
  - apply IH. intros ???; apply H; [done|by right].
Qed.

Lemma acceptable_score local peer rekey dhgroup :
  prop_wf local → xforms_typed (prop_xforms peer) →
  acceptable local peer rekey → fst (proposals_match local peer rekey dhgroup) ≠ 0.
Proof.
  intros Hwf Hp ((tl0 & Hl0 & tp0 & Hp0 & Hs0) & Hno & Hneed). unfold proposals_match.
  destruct (match_peer_some local peer rekey dhgroup _ match_init Hno) as [st Hm].
  rewrite Hm. cbn [fst]. change (Z.to_nat _) with 6%nat.
  destruct (match_final _ _ _ _ (wf_typed _ Hwf) Hp _ Hm) as (I1 & _ & _).
  assert (Hsome : ∀ tl tp, tl ∈ prop_xforms local → tp ∈ prop_xforms peer → same_xform tl tp →
    is_Some (xsel (ms_xforms st) (xform_type tl))).
  { intros tl tp ???. apply (mi_some _ _ _ _ _ I1 tl tp); [by apply elem_of_compared|done]. }
  pose proof (xformtype_known_range _ (wf_typed _ Hwf _ Hl0)) as Hr.
  assert (Hcov : covered peer st 0 6).
  { intros k Hk.
    pose proof (match_needed _ _ _ _ (wf_typed _ Hwf) Hp _ k Hm ltac:(by exists tp0) ltac:(lia)) as Hn.
    destruct (decide (match_mandatory peer st k = true ∨ ms_peerxfs st !! Z.to_nat k = Some true))
      as [Hd|Hd]; [left|right].
    - destruct (Hneed k ltac:(lia) (proj2 Hn Hd)) as (tl & (? & tp & ? & ?) & <-). eauto.
    - split; [apply not_true_is_false|]; tauto. }
  assert (Hrange : ∀ k x, xsel (ms_xforms st) k = Some x → 1 ≤ xform_score x ≤ 2 ^ 28).
  { intros k x Hx. apply (common_score local peer); [done|].
    assert (xsel (ms_xforms st) (Z.of_nat (Z.to_nat k)) = Some x) as Hx'
      by (unfold xsel in *; by rewrite Nat2Z.id).
    eapply (match_common _ _ _ _ (wf_typed _ Hwf) Hp _ _ _ Hm); [|exact Hx']. lia. }
  destruct (match_score_covered peer st 6 0 0 Hcov ltac:(lia) Hrange ltac:(lia)) as [_ Hlt].
  specialize (Hlt (xform_type tl0) ltac:(lia) (Hsome _ _ Hl0 Hp0 Hs0)). lia.
Qed.

Lemma score_acceptable local peer rekey dhgroup :
  prop_wf local → xforms_typed (prop_xforms peer) →
  fst (proposals_match local peer rekey dhgroup) ≠ 0 → acceptable local peer rekey.
Proof.
  intros Hwf Hp Hs. destruct (proposals_match local peer rekey dhgroup) as [score xs] eqn:Hpm. simpl in Hs.
  pose proof (match_selection _ _ _ _ (wf_typed _ Hwf) Hp _ _ Hpm Hs) as Hsel.
  unfold proposals_match in Hpm.
  destruct (match_peer _ _ _ _ _ _) as [st|] eqn:Hm; [|congruence].
  change (Z.to_nat _) with 6%nat in Hpm.
  destruct (match_final _ _ _ _ (wf_typed _ Hwf) Hp _ Hm) as (_ & _ & I3).
  assert (Hneed : ∀ type, 0 ≤ type < 6 → needed local peer rekey type →
    ∃ tl, common local peer tl ∧ xform_type tl = type).
  { intros type Ht Hn. destruct (sel_needed _ _ _ _ _ Hsel _ Ht Hn) as [x Hx].
    exists x. by destruct (sel_common _ _ _ _ _ Hsel _ _ (proj1 Ht) Hx). }
  split_and!; [|done|done].
  destruct (match_nonempty local peer rekey dhgroup Hp st Hm) as [tp Htp]; [congruence|].
  pose proof (xformtype_known_range _ (Hp _ Htp)).
  destruct (Hneed (xform_type tp) ltac:(lia)) as (tl & ? & _); [left; by exists tp|by exists tl].
Qed.

(** C22: completeness, and independence of the preferred group: a positive
    score is returned exactly when the proposals have a transform in common,
    share one of every needed type, and an AEAD offer carries no integrity
    transform. *)
Theorem proposals_match_iff local peer rekey dhgroup :
  prop_wf local → xforms_typed (prop_xforms peer) →
  fst (proposals_match local peer rekey dhgroup) ≠ 0 ↔ acceptable local peer rekey.
Proof. intros. split; [by apply score_acceptable|by apply acceptable_score]. Qed.

(** A preferred group wins: when both sides list the group of the KE
    payload and the local ESP proposal does not make groups optional, that
    group is the selected one, whatever its score. *)
Theorem proposals_match_forced_group local peer rekey dhgroup score xs tl :
  prop_wf local → xforms_typed (prop_xforms peer) → 0 ≤ dhgroup →
  proposals_match local peer rekey dhgroup = (score, xs) → score ≠ 0 →
  (∀ t, t ∈ prop_xforms local → esp_dh peer rekey true t = false) →
  common local peer tl → xform_type tl = IKEV2_XFORMTYPE_DH → xform_id tl = dhgroup →
  ∃ x, xsel xs IKEV2_XFORMTYPE_DH = Some x ∧ xform_id x = dhgroup.
Proof.
  intros Hwf Hp Hd Hm Hs Hnone (Hl & tp & Htp & Hsame) Hty Hid. unfold proposals_match in Hm.
  destruct (match_peer _ _ _ _ _ _) as [st|] eqn:Hpm; [|congruence].
  assert (xs = ms_xforms st) as -> by congruence.
  destruct (match_final _ _ _ _ (wf_typed _ Hwf) Hp _ Hpm) as (I1 & _ & _).
  assert (Hno : ms_nodh st = false).
  { rewrite (mi_nodh _ _ _ _ _ I1). apply not_true_is_false. rewrite existsb_elem.
    intros (t & ([t' ?] & -> & [? _]%elem_of_compared)%list_elem_of_fmap & E).
    simpl in E. by rewrite Hnone in E. }
  destruct (ms_dhforced st) eqn:Hf; [by apply (mi_forced _ _ _ _ _ I1)|].
  exfalso. eapply (mi_unforced _ _ _ _ _ I1 Hno Hd Hf tl tp); [|done..].
  by apply elem_of_compared.
Qed.

(** ** Negotiation over proposal lists *)

(** The transforms of a selection as [config_add_transform] stores them in
    a fresh proposal: the first of its type, hence score 1. *)
Definition rescore (x : iked_transform) : iked_transform :=
  mk_transform (xform_type x) (xform_id x) (xform_length x) (xform_keylength x) 1.

Definition chosen (xs : list (option iked_transform)) : list iked_transform :=
  rescore <$> omap id xs.

Lemma xform_new_score_fresh type xs :
  (∀ x, x ∈ xs → xform_type x ≠ type) → xform_new_score type xs = 1.
Proof.
  intros H. rewrite xform_new_score_count. unfold xform_count.
  destruct (filter _ xs) as [|y ys] eqn:E; [simpl; lia|]. exfalso.
  assert (y ∈ filter (λ x, xform_type x = type) xs) as Hy by (rewrite E; by left).
  apply list_elem_of_filter in Hy as [? Hy]. by apply (H y).
Qed.

Lemma negotiate_xforms_chosen xs prop k :
  (∀ x, x ∈ prop_xforms prop → xform_type x < k) →
  (∀ i x, xs !! i = Some (Some x) → xform_type x = k + Z.of_nat i ∧
     xformtype_known (xform_type x) = true ∧ xforms_width [x]) →
  negotiate_xforms xs prop = set_prop_xforms (prop_xforms prop ++ chosen xs) prop.
Proof.
  revert prop k. induction xs as [|[x|] xs IH]; intros prop k Hlt Hxs; simpl.
  - rewrite app_nil_r. by destruct prop.
  - destruct (Hxs 0%nat x eq_refl) as (Ht & Hkn & Hw).
    destruct (Hw x ltac:(by left)) as (? & ? & ?).
    unfold config_add_transform. rewrite Hkn. simpl.
    assert (existsb (xform_is (xform_type x) (xform_id x) (xform_length x)) (prop_xforms prop)
      = false) as ->.
    { apply not_true_is_false. rewrite existsb_elem. intros (y & Hy & E).
      apply xform_is_spec in E as (E & _). specialize (Hlt y Hy). lia. }
    simpl. rewrite xform_new_score_fresh by (intros y Hy; specialize (Hlt y Hy); lia).
    pose proof (xformtype_known_range _ Hkn).
    unfold to_u8, to_u16, to_u32. rewrite !Z.mod_small by lia.
    change (mk_transform _ _ _ _ 1) with (rescore x).
    rewrite (IH _ (k + 1)).
    + simpl. by rewrite <- app_assoc.
    + simpl. intros y [Hy| ->%list_elem_of_singleton]%elem_of_app;
        [specialize (Hlt y Hy); lia|simpl; lia].
    + intros i y Hy. destruct (Hxs (S i) y Hy) as (-> & ?). split; [lia|done].
  - apply (IH _ (k + 1)).
    + intros y Hy. specialize (Hlt y Hy). lia.
    + intros i y Hy. destruct (Hxs (S i) y Hy) as (-> & ?). split; [lia|done].
Qed.

Section negotiate_facts.
Variables (rekey : bool) (groupid : Z).

(** [c] came from matching [cd_local c] with [cd_peer c]. *)
Definition candidate_ok (c : candidate) : Prop :=
  prop_protoid (cd_peer c) = prop_protoid (cd_local c) ∧ cd_score c ≠ 0 ∧
  proposals_match (cd_local c) (cd_peer c) rekey groupid = (cd_score c, cd_xforms c).

Definition pair_score (pl pp : iked_proposal) : Z :=
  fst (proposals_match pl pp rekey groupid).

(** The inner loop returns the cheapest matching peer proposal. *)
Lemma negotiate_peer_spec pl peers best :
  match negotiate_peer rekey groupid pl peers best with
  | Some c => best = Some c ∨
      cd_local c = pl ∧ cd_peer c ∈ peers ∧ candidate_ok c
  | None => best = None
  end ∧
  (∀ pp, pp ∈ peers → prop_protoid pp = prop_protoid pl → pair_score pl pp ≠ 0 →
     ∃ c, negotiate_peer rekey groupid pl peers best = Some c ∧
       cd_score c ≤ pair_score pl pp) ∧
  (∀ c0, best = Some c0 → ∃ c, negotiate_peer rekey groupid pl peers best = Some c ∧
     cd_score c ≤ cd_score c0).
Proof.
  revert best. induction peers as [|pp peers IH]; intros best; simpl.
  { split_and!; [destruct best; auto|by intros ? ?%elem_of_nil|].
    intros c0 ->. exists c0. split; [done|lia]. }
  destruct (Z.eqb_spec (prop_protoid pp) (prop_protoid pl)) as [Hp|Hp]; simpl.
  2:{ destruct (IH best) as (I1 & I2 & I3). split_and!; [| |done].
      - destruct (negotiate_peer _ _ _ _ _); [|done].
        destruct I1 as [?|(? & ? & ?)]; [by left|right]. split_and!; [done|by right|done].
      - intros pp' [->|?]%elem_of_cons; [done|by apply I2]. }
  destruct (proposals_match pl pp rekey groupid) as [score xforms] eqn:Hm.
  set (better := negb _ && _).
  destruct (IH (if better then Some (mk_candidate score xforms pp pl) else best)) as (I1 & I2 & I3).
  assert (Hb : better = true → score ≠ 0) by (unfold better; intros; by bool_facts).
  split_and!.
  - destruct (negotiate_peer _ _ _ _ _) as [c|]; [|by destruct better].
    destruct I1 as [E|(? & ? & ?)]; [|right; split_and!; [done|by right|done]].
    destruct better; [|by left]. simplify_eq. right. split_and!; [done|by left|].
    unfold candidate_ok; simpl. split_and!; [done|by apply Hb|done].
  - intros pp' [->|?]%elem_of_cons; [|by apply I2]. unfold pair_score. rewrite Hm. simpl.
    intros _ Hs. destruct better eqn:E; [by apply (I3 (mk_candidate score xforms pp pl))|].
    unfold better in E. destruct (Z.eqb_spec score 0); [done|]. simpl in E.
    destruct best as [c0|]; [|done]. destruct (I3 c0 eq_refl) as (c & ? & ?).
    exists c. split; [done|]. bool_facts. lia.
  - intros c0 ->. destruct better eqn:E; [|by apply I3].
    destruct (I3 _ eq_refl) as (c & ? & Hle). exists c. split; [done|].
    unfold better in E. bool_facts. simpl in Hle. lia.
Qed.

Lemma negotiate_local_spec locals peers :
  match negotiate_local rekey groupid locals peers with
  | Some c => ∃ a, locals !! a = Some (cd_local c) ∧ cd_peer c ∈ peers ∧ candidate_ok c ∧
      (∀ b pl pp, (b < a)%nat → locals !! b = Some pl → pp ∈ peers →
         prop_protoid pp = prop_protoid pl → pair_score pl pp = 0) ∧
      (∀ pp, pp ∈ peers → prop_protoid pp = prop_protoid (cd_local c) →
         pair_score (cd_local c) pp ≠ 0 → cd_score c ≤ pair_score (cd_local c) pp)
  | None => ∀ pl pp, pl ∈ locals → pp ∈ peers →
      prop_protoid pp = prop_protoid pl → pair_score pl pp = 0
  end.
Proof.
  induction locals as [|pl locals IH]; simpl; [by intros ?? ?%elem_of_nil|].
  destruct (negotiate_peer_spec pl peers None) as (I1 & I2 & _).
  destruct (negotiate_peer rekey groupid pl peers None) as [c|].
  - destruct I1 as [?|(<- & ? & ?)]; [done|]. exists 0%nat.
    split_and!; [done..|intros; lia|]. intros pp ???.
    destruct (I2 pp) as (c' & ? & ?); [done..|]. by simplify_eq.
  - assert (Hz : ∀ pp, pp ∈ peers → prop_protoid pp = prop_protoid pl → pair_score pl pp = 0).
    { intros pp ??. destruct (decide (pair_score pl pp = 0)) as [|Hne]; [done|].
      by destruct (I2 pp) as (c' & ? & ?). }
    destruct (negotiate_local _ _ _ _) as [c|].
    + destruct IH as (a & ? & ? & ? & Hb & ?). exists (S a). split_and!; [done..| |done].
      intros [|b] pl' pp Hlt Hpl; simpl in Hpl; [simplify_eq; apply Hz|].
      intros. eapply (Hb b); [lia|done..].
    + intros pl' pp [->|?]%elem_of_cons; [apply Hz|by apply IH].
Qed.
End negotiate_facts.

Lemma free_add_proposal res id proto :
  0 ≤ id < 256 → 0 ≤ proto < 256 →
  config_add_proposal true (config_free_proposals res proto) id proto =
  (Some (length (config_free_proposals res proto)),
   config_free_proposals res proto ++ [mk_proposal id proto spi_zero spi_zero []]).
Proof.
  intros Hi Hp. unfold config_add_proposal.
  destruct (list_find _ _) as [[i pp]|] eqn:E.
  - apply list_find_Some in E as (E & [Hpr _] & _). apply list_elem_of_lookup_2 in E.
    apply list_elem_of_filter in E as [[_ ?] _]. done.
  - unfold to_u8. by rewrite !Z.mod_small by lia.
Qed.

Lemma match_xforms_len local peer rekey dhgroup score xs :
  prop_wf local → xforms_typed (prop_xforms peer) →
  proposals_match local peer rekey dhgroup = (score, xs) → length xs = 6%nat.
Proof.
  intros Hwf Hp. unfold proposals_match.
  destruct (match_peer _ _ _ _ _ _) as [st|] eqn:Hm; [|by intros [= <- <-]].
  intros H. assert (xs = ms_xforms st) as -> by congruence.
  destruct (match_final _ _ _ _ (wf_typed _ Hwf) Hp _ Hm) as (I1 & _).
  pose proof (mi_len _ _ _ _ _ I1). lia.
Qed.

Lemma chosen_added local peer rekey dhgroup xs prop :
  prop_wf local → selection local peer rekey dhgroup xs → prop_xforms prop = [] →
  negotiate_xforms xs prop = set_prop_xforms (chosen xs) prop.
Proof.
  intros Hwf Hsel He. rewrite (negotiate_xforms_chosen xs prop 0), He; [done| |].
  - intros x Hx. rewrite He in Hx. by apply elem_of_nil in Hx.
  - intros i x Hx. destruct (sel_common _ _ _ _ _ Hsel (Z.of_nat i) x) as (Ht & Hc & _); [lia| |].
    { unfold xsel. by rewrite Nat2Z.id, Hx. }
    split_and!; [lia|by apply (wf_typed _ Hwf)|].
    intros y Hy%list_elem_of_singleton. subst y. by apply (wf_width _ Hwf).
Qed.

Lemma negotiate_spis_keep c prop :
  prop_id (negotiate_spis c prop) = prop_id prop ∧
  prop_protoid (negotiate_spis c prop) = prop_protoid prop ∧
  prop_xforms (negotiate_spis c prop) = prop_xforms prop.
Proof. unfold negotiate_spis. by repeat case_match. Qed.

(** The transforms of the stored proposal are the policy's, up to the
    score. *)
Lemma negotiated_xforms rekey groupid res local peer res' prop x :
  (∀ pl, pl ∈ local → prop_wf pl) → (∀ pp, pp ∈ peer → xforms_typed (prop_xforms pp)) →
  (∀ pp, pp ∈ peer → 0 ≤ prop_id pp < 256 ∧ 0 ≤ prop_protoid pp < 256) →
  proposals_negotiate rekey groupid (Some res) local peer = (0, Some res') →
  prop ∈ res' → x ∈ prop_xforms prop →
  prop ∈ res ∨ ∃ pl tl, pl ∈ local ∧ tl ∈ prop_xforms pl ∧ x = rescore tl.
Proof.
  intros Hl Hp Hw. unfold proposals_negotiate. case_decide; [done|].
  pose proof (negotiate_local_spec rekey groupid local peer) as Hspec.
  destruct (negotiate_local _ _ _ _) as [c|]; [|done].
  destruct Hspec as (a & Ha & Hc & (Hpr & Hs & Hm) & _ & _). apply list_elem_of_lookup_2 in Ha.
  pose proof (Hl _ Ha) as Hwf.
  pose proof (match_selection _ _ _ _ (wf_typed _ Hwf) (Hp _ Hc) _ _ Hm Hs) as Hsel.
  destruct (Hw _ Hc). rewrite free_add_proposal by done. cbn [from_option id].
  rewrite alter_app_r_alt by lia. rewrite Nat.sub_diag. intros [= <-].
  intros [Hin|Hin]%elem_of_app; [left; by apply list_elem_of_filter in Hin as [_ ?]|].
  apply list_elem_of_singleton in Hin as ->. set (p0 := mk_proposal _ _ _ _ _).
  destruct (negotiate_spis_keep c p0) as (_ & _ & E3). rewrite (chosen_added _ _ _ _ _ _ Hwf Hsel E3).
  intros (tl & -> & (o & Ho & Htl)%list_elem_of_omap)%list_elem_of_fmap. right.
  exists (cd_local c), tl. split_and!; [done| |done]. simpl in Htl. subst o.
  apply list_elem_of_lookup in Ho as [i Hi].
  destruct (sel_common _ _ _ _ _ Hsel (Z.of_nat i) tl) as (_ & [Htl _]); [lia| |done].
  unfold xsel. by rewrite Nat2Z.id, Hi.
Qed.


(** When [proposals_negotiate] succeeds: exactly when some local proposal
    and some proposal of the peer for the same protocol are acceptable to
    each other; otherwise it returns -1 and leaves the result alone. *)
Theorem proposals_negotiate_iff rekey groupid result local peer :
  (∀ pl, pl ∈ local → prop_wf pl) → (∀ pp, pp ∈ peer → xforms_typed (prop_xforms pp)) →
  (fst (proposals_negotiate rekey groupid result local peer) = 0 ↔
   ∃ pl pp, pl ∈ local ∧ pp ∈ peer ∧ prop_protoid pp = prop_protoid pl ∧
     acceptable pl pp rekey) ∧
  (fst (proposals_negotiate rekey groupid result local peer) ≠ 0 →
   proposals_negotiate rekey groupid result local peer = (-1, result)).
Proof.
  intros Hl Hp. unfold proposals_negotiate. case_decide as Hne.
  { subst. split; [|done]. split; [done|]. by intros (? & ? & _ & ?%elem_of_nil & _). }
  pose proof (negotiate_local_spec rekey groupid local peer) as Hspec.
  destruct (negotiate_local _ _ _ _) as [c|].
  - destruct Hspec as (a & Ha & Hc & (Hpr & Hs & Hm) & _).
    apply list_elem_of_lookup_2 in Ha.
    assert (acceptable (cd_local c) (cd_peer c) rekey).
    { apply (score_acceptable _ _ _ groupid); [by apply Hl|by apply Hp|by rewrite Hm]. }
    destruct result; [destruct (config_add_proposal _ _ _ _)|]; simpl; (split; [|done]);
      (split; [|done]); intros _; by exists (cd_local c), (cd_peer c).
  - split; [|done]. split; [done|]. intros (pl & pp & Hpl & Hpp & Hpr & Hacc). exfalso.
    apply (acceptable_score _ _ _ groupid) in Hacc; [|by apply Hl|by apply Hp].
    by apply Hacc, (Hspec pl pp).
Qed.

(** ** Concrete negotiations *)

Definition demo_local : iked_proposal :=
  config_build 1 IKEV2_SAPROTO_IKE
    [(IKEV2_XFORMTYPE_ENCR, 12, 256, 256); (IKEV2_XFORMTYPE_ENCR, 12, 128, 128);
     (IKEV2_XFORMTYPE_PRF, 5, 0, 0); (IKEV2_XFORMTYPE_INTEGR, 12, 0, 0);
     (IKEV2_XFORMTYPE_DH, 31, 0, 0); (IKEV2_XFORMTYPE_DH, 14, 0, 0)].

Definition demo_peer : iked_proposal :=
  config_build 3 IKEV2_SAPROTO_IKE
    [(IKEV2_XFORMTYPE_ENCR, 12, 128, 128); (IKEV2_XFORMTYPE_ENCR, 12, 256, 256);
     (IKEV2_XFORMTYPE_PRF, 5, 0, 0); (IKEV2_XFORMTYPE_INTEGR, 12, 0, 0);
     (IKEV2_XFORMTYPE_DH, 14, 0, 0); (IKEV2_XFORMTYPE_DH, 31, 0, 0)].

Lemma demo_wf p : p = demo_local ∨ p = demo_peer → prop_wf p.
Proof.
  intros [->| ->]; (apply build_wf; [|done]); intros * H; repeat (apply elem_of_cons in H as [H|H];
    [simplify_eq; lia|]); by apply elem_of_nil in H.
Qed.

Lemma demo_local_wf : prop_wf demo_local.
Proof. apply demo_wf. by left. Qed.
Lemma demo_peer_wf : prop_wf demo_peer.
Proof. apply demo_wf. by right. Qed.

Lemma demo_common_14 :
  common demo_local demo_peer (mk_transform IKEV2_XFORMTYPE_DH 14 0 0 3).
Proof.
  split; [do 5 right; by left|].
  exists (mk_transform IKEV2_XFORMTYPE_DH 14 0 0 1). split; [do 4 right; by left|done].
Qed.

Lemma proposals_match_sound_witness :
  selection demo_local demo_peer false (-1)
    (snd (proposals_match demo_local demo_peer false (-1))).
Proof.
  apply (proposals_match_sound demo_local demo_peer false (-1) 4
    (snd (proposals_match demo_local demo_peer false (-1)))).
  - apply demo_local_wf.
  - apply demo_peer_wf.
  - vm_compute. reflexivity.
  - lia.
Defined.

Lemma proposals_match_iff_witness : acceptable demo_local demo_peer false.
Proof.
  apply (proposals_match_iff demo_local demo_peer false (-1)).
  - apply demo_local_wf.
  - apply demo_peer_wf.
  - vm_compute. discriminate.
Defined.

(** The second choice of both sides, yet group 14 is taken when asked for. *)
Lemma proposals_match_forced_group_witness :
  ∃ x, xsel (snd (proposals_match demo_local demo_peer false 14)) IKEV2_XFORMTYPE_DH = Some x ∧
    xform_id x = 14.
Proof.
  apply (proposals_match_forced_group demo_local demo_peer false 14 6 (snd (proposals_match demo_local demo_peer false 14))
    (mk_transform IKEV2_XFORMTYPE_DH 14 0 0 3)).
  - apply demo_local_wf.
  - apply demo_peer_wf.
  - lia.
  - vm_compute. reflexivity.
  - lia.
  - intros t _. reflexivity.
  - apply demo_common_14.
  - reflexivity.
  - reflexivity.
Defined.

Lemma elem_demo (P : iked_proposal → Prop) p q : P p → q ∈ [p] → P q.
Proof. intros HP Hq%list_elem_of_singleton. by subst. Qed.


Lemma proposals_negotiate_iff_witness :
  ∃ pl pp, pl ∈ [demo_local] ∧ pp ∈ [demo_peer] ∧ prop_protoid pp = prop_protoid pl ∧
    acceptable pl pp false.
Proof.
  apply (proposals_negotiate_iff false (-1) None [demo_local] [demo_peer]).
  - intros pl. apply (elem_demo prop_wf). apply demo_local_wf.
  - intros pp. apply (elem_demo (λ pp, xforms_typed (prop_xforms pp))). apply demo_peer_wf.
  - vm_compute. reflexivity.
Defined.
