(* ===== verification/Policy.v ===== *)
(** * Policies: [policy.c], and the address comparison of [util.c]

    A received message is matched against the configured policies in order;
    the last one that matches wins, or the first one marked [quick]. The list
    is walked along skip steps computed in advance, as in the packet filter the
    code is derived from. The theorems compare this walk with a plain scan: they
    agree on a condition on the order of the policies, and not without it. *)

From S2P Require Import Prelude Tree Types Proposals Negotiate.

Definition IKED_SKIP_FLAGS : nat := 0.
Definition IKED_SKIP_AF : nat := 1.
Definition IKED_SKIP_SRC_ADDR : nat := 2.
Definition IKED_SKIP_DST_ADDR : nat := 3.
Definition IKED_SKIP_COUNT : nat := 4.

(** ** Addresses *)

(** A word of an address as the host, which is little endian, loads it. *)
Fixpoint le_decode (b : bytes) : Z :=
  match b with [] => 0 | x :: b => Zb x + 256 * le_decode b end.
Definition word (i : Z) (b : bytes) : Z := le_decode (sub_bytes (4 * i) 4 b).
Definition htonl (x : Z) : Z := le_decode (be_encode 4 x).

Definition prefixlen2mask (prefixlen : Z) : Z :=
  if prefixlen =? 0 then 0
  else
    let prefixlen := if 32 <? prefixlen then 32 else prefixlen in
    htonl (to_u32 (Z.shiftl 0xffffffff (32 - prefixlen))).

(** The bytes of the mask. *)
Definition prefixlen2mask6 (prefixlen : Z) : bytes :=
  let prefixlen := if 128 <? prefixlen then 128 else prefixlen in
  let i := prefixlen mod 8 in
  (λ j, bZ (if Z.of_nat j <? prefixlen / 8 then 0xff
            else if negb (i =? 0) && (Z.of_nat j =? prefixlen / 8) then to_u8 (Z.shiftr 0xff00 i)
            else 0)) <$> seq 0 16.

(** Order of two masked words, [0] when they are equal. *)
Definition word_cmp (a b m : Z) : Z :=
  if Z.land b m <? Z.land a m then 1 else if Z.land a m <? Z.land b m then -1 else 0.

(** The first comparison that is not [0]. *)
Definition cmp_or (diff : Z) (next : Z) : Z := if diff =? 0 then next else diff.

Definition sockaddr_cmp (a b : sockaddr) (prefixlen : Z) : Z :=
  if (sa_family a =? AF_UNSPEC) || (sa_family b =? AF_UNSPEC) then 0
  else if sa_family b <? sa_family a then 1
  else if sa_family a <? sa_family b then -1
  else if sa_family a =? AF_INET then
    let mv := if prefixlen =? -1 then 0xffffffff else prefixlen2mask (to_u8 prefixlen) in
    word_cmp (word 0 (sin_addr a)) (word 0 (sin_addr b)) mv
  else if sa_family a =? AF_INET6 then
    let mv i := if prefixlen =? -1 then 0xffffffff else word i (prefixlen2mask6 (to_u8 prefixlen)) in
    let cmp i := word_cmp (word i (sin_addr a)) (word i (sin_addr b)) (mv i) in
    cmp_or (cmp 3) (cmp_or (cmp 2) (cmp_or (cmp 1) (cmp 0)))
  else 0.

(** [IKED_ADDR_NEQ]. *)
Definition addr_neq (a b : iked_addr) : bool :=
  negb (addr_mask a =? addr_mask b) || negb (sockaddr_cmp (addr a) (addr b) (addr_mask a) =? 0).

(** ** Flows *)

Record iked_flow := mk_flow {
  flow_src : iked_addr; flow_dst : iked_addr; flow_dir : Z; flow_rdomain : Z;
  flow_prenat : iked_addr; flow_saproto : Z; flow_ipproto : Z }.

Definition addr_cmp (a b : iked_addr) (useports : bool) : Z :=
  cmp_or (sockaddr_cmp (addr a) (addr b) 128)
    (cmp_or (addr_mask a - addr_mask b) (if useports then addr_port a - addr_port b else 0)).

Definition flow_cmp (a b : iked_flow) : Z :=
  cmp_or (flow_rdomain a - flow_rdomain b)
    (cmp_or (flow_ipproto a - flow_ipproto b)
      (cmp_or (flow_saproto a - flow_saproto b)
        (cmp_or (flow_dir a - flow_dir b)
          (cmp_or (addr_cmp (flow_dst a) (flow_dst b) true)
            (cmp_or (addr_cmp (flow_src a) (flow_src b) true)
              (addr_cmp (flow_prenat a) (flow_prenat b) false)))))).

(** ** Policies *)

(** An identity as text, in an array filled up with zeros. *)
Record iked_static_id := mk_static_id { sid_type : Z; sid_data : bytes }.

(** [struct iked_policy], the fields matching looks at. A pointer to a policy
    is its position in the list; the length of the list stands for [NULL]. *)
Record iked_policy := mk_policy {
  pol_flags : Z;
  pol_af : Z;
  pol_peer : iked_addr;
  pol_peerid : iked_static_id;
  pol_local : iked_addr;
  pol_localid : iked_static_id;
  pol_proposals : list iked_proposal;
  pol_flows : rbtree iked_flow;
  pol_nflows : Z;
  pol_skip : list nat }.
Definition eta_pol (r : iked_policy) : iked_policy :=
  mk_policy (pol_flags r) (pol_af r) (pol_peer r) (pol_peerid r) (pol_local r) (pol_localid r)
    (pol_proposals r) (pol_flows r) (pol_nflows r) (pol_skip r).
Definition set_pol_skip (v : list nat) (r : iked_policy) : iked_policy := ltac:(upd eta_pol pol_skip r v).

(** ** Skip steps *)

(** The loop of [IKED_SET_SKIP_STEPS]. *)
Fixpoint set_skip_steps (fuel : nat) (i : nat) (head cur : nat) (policies : list iked_policy)
  : out (nat * list iked_policy) :=
  if (head =? cur)%nat then Ok (head, policies)
  else match fuel with
  | O => Fault Ffuel
  | S fuel =>
      match policies !! head with
      | None => Fault Fnull
      | Some p =>
          set_skip_steps fuel i (S head) cur
            (<[head := set_pol_skip (<[i := cur]> (pol_skip p)) p]> policies)
      end
  end.

(** The same on the array of heads. *)
Definition IKED_SET_SKIP_STEPS (i : nat) (cur : nat) (st : list nat * list iked_policy)
  : out (list nat * list iked_policy) :=
  match st.1 !! i with
  | None => Fault Foob
  | Some head =>
      r ← set_skip_steps (length st.2) i head cur st.2;
      Ok (<[i := r.1]> st.1, r.2)
  end.

Definition skip_when (b : bool) (i cur : nat) (st : list nat * list iked_policy)
  : out (list nat * list iked_policy) :=
  if b then IKED_SET_SKIP_STEPS i cur st else Ok st.

(** One round, at [cur] with the policy before it. *)
Definition calc_step (cur : nat) (p prev : iked_policy) (st : list nat * list iked_policy)
  : out (list nat * list iked_policy) :=
  st ← skip_when (has_bit (pol_flags p) IKED_POLICY_SKIP) IKED_SKIP_FLAGS cur st;
  st ← skip_when (negb (pol_af p =? AF_UNSPEC) && negb (pol_af prev =? AF_UNSPEC) &&
                  negb (pol_af p =? pol_af prev)) IKED_SKIP_AF cur st;
  st ← skip_when (addr_neq (pol_peer p) (pol_peer prev)) IKED_SKIP_DST_ADDR cur st;
  skip_when (addr_neq (pol_local p) (pol_local prev)) IKED_SKIP_SRC_ADDR cur st.

Fixpoint calc_loop (cur : nat) (prev : iked_policy) (rest : list iked_policy)
    (st : list nat * list iked_policy) : out (list nat * list iked_policy) :=
  match rest with
  | [] => Ok st
  | p :: rest => st ← calc_step cur p prev st; calc_loop (S cur) p rest st
  end.

Definition policy_calc_skip_steps (policies : list iked_policy) : out (list iked_policy) :=
  match policies with
  | [] => Ok []
  | first :: _ =>
      st ← calc_loop 0 first policies (replicate IKED_SKIP_COUNT 0%nat, policies);
      st ← foldl (λ st i, st ← st; IKED_SET_SKIP_STEPS i (length policies) st) (Ok st)
             (seq 0 IKED_SKIP_COUNT);
      Ok st.2
  end.

(** ** Matching *)

(** [policy_test_flows] returns 0. *)
Definition policy_test_flows (key p : iked_policy) : out bool :=
  fs ← RB_FOREACH (pol_flows key);
  Ok (forallb (λ f, bool_decide (is_Some (RB_FIND flow_cmp (pol_flows p) f))) fs).

(** The conditions on which a static identity does not match. *)
Definition id_mismatch (key p : iked_static_id) : bool :=
  negb (sid_type key =? 0) && negb (sid_type p =? 0) &&
  (negb (sid_type key =? sid_type p) || negb (bool_decide (sid_data key = sid_data p))).

(** The tests after the skip steps; [false] goes on with the next policy. *)
Definition policy_compatible (key p : iked_policy) : out bool :=
  flows ← (if negb (pol_nflows key =? 0) then policy_test_flows key p else Ok true);
  Ok (flows && negb (id_mismatch (pol_peerid key) (pol_peerid p)) &&
      negb (id_mismatch (pol_localid key) (pol_localid p)) &&
      negb (has_bit (pol_flags key) IKED_POLICY_TRANSPORT &&
            negb (has_bit (pol_flags p) IKED_POLICY_TRANSPORT)) &&
      negb (negb (bool_decide (pol_proposals key = [])) &&
            ((proposals_negotiate false (-1) None (pol_proposals p) (pol_proposals key)).1 =? -1))).

(** The skip step a policy fails on, if any. *)
Definition skip_reason (key p : iked_policy) : option nat :=
  if has_bit (pol_flags p) IKED_POLICY_SKIP then Some IKED_SKIP_FLAGS
  else if negb (pol_af key =? 0) && negb (pol_af p =? 0) && negb (pol_af key =? pol_af p)
  then Some IKED_SKIP_AF
  else if negb (sockaddr_cmp (addr (pol_peer key)) (addr (pol_peer p)) (addr_mask (pol_peer p)) =? 0)
  then Some IKED_SKIP_DST_ADDR
  else if negb (sockaddr_cmp (addr (pol_local key)) (addr (pol_local p)) (addr_mask (pol_local p)) =? 0)
  then Some IKED_SKIP_SRC_ADDR
  else None.

Fixpoint policy_test_loop (fuel : nat) (policies : list iked_policy) (key : iked_policy)
    (p : nat) (pol : option nat) : out (option nat) :=
  match fuel with
  | O => Fault Ffuel
  | S fuel =>
      match policies !! p with
      | None => Ok pol
      | Some q =>
          match skip_reason key q with
          | Some i =>
              match pol_skip q !! i with
              | None => Fault Foob
              | Some next => policy_test_loop fuel policies key next pol
              end
          | None =>
              ok ← policy_compatible key q;
              if negb ok then policy_test_loop fuel policies key (S p) pol
              else if has_bit (pol_flags q) IKED_POLICY_QUICK then Ok (Some p)
              else policy_test_loop fuel policies key (S p) (Some p)
          end
      end
  end.

Definition policy_test (policies : list iked_policy) (key : iked_policy) : out (option nat) :=
  policy_test_loop (S (length policies)) policies key 0 None.

(** ** The reference: a plain scan *)

Definition compatible (key p : iked_policy) : bool :=
  match policy_compatible key p with Ok b => b | Fault _ => false end.

Definition matches (key p : iked_policy) : bool :=
  match skip_reason key p with Some _ => false | None => compatible key p end.

(** The last policy that matches, or the first one of them marked [quick]. *)
Fixpoint policy_scan (key : iked_policy) (p : nat) (rest : list iked_policy) (pol : option nat)
  : option nat :=
  match rest with
  | [] => pol
  | q :: rest =>
      if negb (matches key q) then policy_scan key (S p) rest pol
      else if has_bit (pol_flags q) IKED_POLICY_QUICK then Some p
      else policy_scan key (S p) rest (Some p)
  end.

(** What the skip steps need: once a policy is marked [skip], all later ones
    are, and once a policy names an address family, a peer or a local address,
    all later ones do. *)
Definition later (P : iked_policy → bool) (l : list iked_policy) : Prop :=
  ∀ k m p q, (k < m)%nat → l !! k = Some p → l !! m = Some q → P p = true → P q = true.
Record ordered (l : list iked_policy) : Prop := {
  ord_skip : later (λ p, has_bit (pol_flags p) IKED_POLICY_SKIP) l;
  ord_af : later (λ p, negb (pol_af p =? AF_UNSPEC)) l;
  ord_peer : later (λ p, negb (sa_family (addr (pol_peer p)) =? AF_UNSPEC)) l;
  ord_local : later (λ p, negb (sa_family (addr (pol_local p)) =? AF_UNSPEC)) l }.

(** ** Addresses compare as their masked words *)

Definition masked (prefixlen : Z) (a : sockaddr) : Z * list Z :=
  (sa_family a,
   if sa_family a =? AF_INET then
     [Z.land (word 0 (sin_addr a)) (if prefixlen =? -1 then 0xffffffff else prefixlen2mask (to_u8 prefixlen))]
   else if sa_family a =? AF_INET6 then
     (λ i, Z.land (word i (sin_addr a))
             (if prefixlen =? -1 then 0xffffffff else word i (prefixlen2mask6 (to_u8 prefixlen)))) <$> [3; 2; 1; 0]
   else []).

Lemma word_cmp_eq a b m : word_cmp a b m = 0 ↔ Z.land a m = Z.land b m.
Proof. unfold word_cmp. repeat case_match; lia. Qed.

Lemma cmp_or_eq a b : cmp_or a b = 0 ↔ a = 0 ∧ b = 0.
Proof. unfold cmp_or. case_match; lia. Qed.

Lemma sockaddr_cmp_masked a b n :
  sockaddr_cmp a b n = 0 ↔
  sa_family a = AF_UNSPEC ∨ sa_family b = AF_UNSPEC ∨ masked n a = masked n b.
Proof.
  unfold sockaddr_cmp, masked.
  destruct (Z.eqb_spec (sa_family a) AF_UNSPEC) as [?|Ha]; [tauto|].
  destruct (Z.eqb_spec (sa_family b) AF_UNSPEC) as [?|Hb]; [tauto|]. simpl.
  destruct (Z.ltb_spec (sa_family b) (sa_family a)) as [H1|H1];
    [split; [done|]; intros [?|[?|[= ?]]]; lia|].
  destruct (Z.ltb_spec (sa_family a) (sa_family b)) as [H2|H2];
    [split; [done|]; intros [?|[?|[= ?]]]; lia|].
  assert (sa_family a = sa_family b) as E by lia. rewrite E in *.
  destruct (sa_family b =? AF_INET); [|destruct (sa_family b =? AF_INET6)].
  - rewrite word_cmp_eq. split; [intros ->; by right; right|]. by intros [?|[?|[= ?]]].
  - rewrite !cmp_or_eq, !word_cmp_eq. split; [|by intros [?|[?|[= -> -> -> ->]]]].
    intros (-> & -> & -> & ->). by right; right.
  - split; [by right; right|done].
Qed.

(** An address that differs from one differs from all those equal to it. *)
Lemma addr_neq_run key a b :
  sa_family (addr a) ≠ AF_UNSPEC → sa_family (addr b) ≠ AF_UNSPEC → addr_neq b a = false →
  sockaddr_cmp key (addr a) (addr_mask a) ≠ 0 → sockaddr_cmp key (addr b) (addr_mask b) ≠ 0.
Proof.
  unfold addr_neq. intros Ha Hb E Hk.
  apply orb_false_iff in E as [Em%negb_false_iff%Z.eqb_eq Ec%negb_false_iff%Z.eqb_eq].
  rewrite Em in *. rewrite sockaddr_cmp_masked in *. intros H. apply Hk.
  destruct Ec as [?|[?|Ec]]; [done..|]. destruct H as [?|[?|H]]; [by left|done|].
  right; right. congruence.
Qed.

(** ** Where the steps lead *)

(** A step on [i] does not go past [m]. *)
Definition boundary (l : list iked_policy) (i m : nat) : bool :=
  match l !! m, l !! pred m with
  | Some p, Some prev =>
      if (i =? IKED_SKIP_FLAGS)%nat then has_bit (pol_flags p) IKED_POLICY_SKIP
      else if (i =? IKED_SKIP_AF)%nat then
        negb (pol_af p =? AF_UNSPEC) && negb (pol_af prev =? AF_UNSPEC) &&
        negb (pol_af p =? pol_af prev)
      else if (i =? IKED_SKIP_DST_ADDR)%nat then addr_neq (pol_peer p) (pol_peer prev)
      else addr_neq (pol_local p) (pol_local prev)
  | _, _ => false
  end.

(** The step of [k] on [i]. *)
Definition step_ok (l : list iked_policy) (i k j : nat) : Prop :=
  (k < j ≤ length l)%nat ∧ (∀ m, (k < m < j)%nat → boundary l i m = false) ∧
  (j = length l ∨ boundary l i j = true).

(** The policies themselves do not change. *)
Definition sans_skip (p : iked_policy) : iked_policy := set_pol_skip [] p.

(** The step on [i] stored at [k]. *)
Definition skip_of (ps : list iked_policy) (i k : nat) : option nat :=
  q ← ps !! k; pol_skip q !! i.

(** The state of the loop on [i] before [cur]. *)
Definition head_ok (l : list iked_policy) (i cur : nat) (st : list nat * list iked_policy) : Prop :=
  ∃ h, st.1 !! i = Some h ∧ (h ≤ cur ≤ length l)%nat ∧
    (∀ m, (h < m < cur)%nat → boundary l i m = false) ∧
    ∀ k, (k < h)%nat → ∃ j, skip_of st.2 i k = Some j ∧ step_ok l i k j.

Definition array_ok (l : list iked_policy) (st : list nat * list iked_policy) : Prop :=
  length st.1 = IKED_SKIP_COUNT ∧ sans_skip <$> st.2 = sans_skip <$> l ∧
  Forall (λ q, length (pol_skip q) = IKED_SKIP_COUNT) st.2.

Lemma set_skip_steps_run fuel i head cur ps :
  (head ≤ cur ≤ length ps)%nat → (cur - head ≤ fuel)%nat → (i < IKED_SKIP_COUNT)%nat →
  Forall (λ q, length (pol_skip q) = IKED_SKIP_COUNT) ps →
  ∃ ps', set_skip_steps fuel i head cur ps = Ok (cur, ps') ∧
    sans_skip <$> ps' = sans_skip <$> ps ∧
    Forall (λ q, length (pol_skip q) = IKED_SKIP_COUNT) ps' ∧
    (∀ i' k, i' ≠ i ∨ (k < head)%nat ∨ (cur ≤ k)%nat → skip_of ps' i' k = skip_of ps i' k) ∧
    (∀ k, (head ≤ k < cur)%nat → skip_of ps' i k = Some cur).
Proof.
  revert head ps. induction fuel as [|fuel IH]; intros head ps Hh Hf Hi Hl; simpl.
  - replace (head =? cur)%nat with true by (symmetry; apply Nat.eqb_eq; lia).
    assert (head = cur) as -> by lia. exists ps. split; [done|]. split; [done|]. split; [done|].
    split; [done|]. lia.
  - destruct (Nat.eqb_spec head cur) as [->|Hne].
    { exists ps. split; [done|]. split; [done|]. split; [done|]. split; [done|]. lia. }
    destruct (lookup_lt_is_Some_2 ps head) as [p Hp]; [lia|]. rewrite Hp.
    set (p' := set_pol_skip (<[i:=cur]> (pol_skip p)) p).
    pose proof (proj1 (Forall_lookup _ _) Hl _ _ Hp) as Hlen. simpl in Hlen.
    destruct (IH (S head) (<[head:=p']> ps)) as (ps' & E & Hs & Hl' & Hsame & Hset).
    + rewrite length_insert. lia.
    + lia.
    + done.
    + apply Forall_insert; [done|]. unfold p'. simpl. by rewrite length_insert.
    + exists ps'. split; [exact E|]. split.
      { rewrite Hs, list_fmap_insert. apply list_insert_id. by rewrite list_lookup_fmap, Hp. }
      split; [done|]. split.
      * intros i' k Hk. rewrite Hsame by (destruct Hk as [?|[?|?]]; [by left|right; lia..]).
        unfold skip_of. destruct (decide (k = head)) as [->|Hkh].
        -- rewrite list_lookup_insert_eq, Hp by lia. simpl.
           destruct Hk as [Hk|Hk]; [|lia]. by rewrite list_lookup_insert_ne.
        -- by rewrite list_lookup_insert_ne.
      * intros k Hk. destruct (decide (k = head)) as [->|Hkh]; [|apply Hset; lia].
        rewrite Hsame by lia. unfold skip_of. rewrite list_lookup_insert_eq by lia. simpl.
        rewrite list_lookup_insert_eq; [done|]. rewrite Hlen. done.
Qed.

Lemma array_length l st : array_ok l st → length st.2 = length l.
Proof. intros (_ & H & _). apply (f_equal length) in H. by rewrite !length_fmap in H. Qed.

(** A round on [i] at [cur], whether the steps are set there or not. *)
Lemma skip_when_run l i cur st (b : bool) :
  array_ok l st → head_ok l i cur st → (i < IKED_SKIP_COUNT)%nat →
  (if b then cur = length l ∨ boundary l i cur = true
   else (cur < length l)%nat ∧ boundary l i cur = false) →
  ∃ st', skip_when b i cur st = Ok st' ∧ array_ok l st' ∧
    ((cur < length l)%nat → head_ok l i (S cur) st') ∧
    (b = true → st'.1 !! i = Some cur ∧ head_ok l i cur st') ∧
    ∀ i', i' ≠ i → st'.1 !! i' = st.1 !! i' ∧ ∀ k, skip_of st'.2 i' k = skip_of st.2 i' k.
Proof.
  intros Ha (h & Eh & Hh & Hm & Hk) Hi Hb. pose proof (array_length _ _ Ha) as Hlen.
  destruct Ha as (Ha1 & Ha2 & Ha3). destruct b; simpl.
  - unfold IKED_SET_SKIP_STEPS. rewrite Eh.
    destruct (set_skip_steps_run (length st.2) i h cur st.2) as (ps' & E & Hs & Hl & Hsame & Hset);
      [lia..|done|]. rewrite E. simpl.
    assert (Hhd : ∀ k, (k < cur)%nat → ∃ j, skip_of ps' i k = Some j ∧ step_ok l i k j).
    { intros k Hkc. destruct (decide (k < h)%nat) as [Hkh|Hkh].
      - rewrite Hsame by lia. by apply Hk.
      - exists cur. split; [apply Hset; lia|]. split; [lia|]. split; [|done]. intros m Hmm. apply Hm. lia. }
    assert (Ei : (<[i:=cur]> st.1) !! i = Some cur).
    { rewrite list_lookup_insert_eq; [done|]. by rewrite Ha1. }
    eexists. split; [done|]. split; [|split; [|split]].
    + unfold array_ok. simpl. rewrite length_insert. by rewrite Hs.
    + intros Hc. exists cur. simpl. split; [done|]. split; [lia|]. split; [lia|done].
    + intros _. split; [done|]. exists cur. simpl. split; [done|]. split; [lia|]. split; [lia|done].
    + intros i' Hne. simpl. rewrite list_lookup_insert_ne by done. split; [done|].
      intros k. apply Hsame. by left.
  - destruct Hb as [Hc Hbd]. exists st. split; [done|]. split; [done|]. split; [|done].
    intros _. exists h. split; [done|]. split; [lia|]. split; [|done].
    intros m Hmm. destruct (decide (m = cur)) as [->|]; [done|]. apply Hm. lia.
Qed.

(** What is said of one index survives work on another. *)
Lemma head_ok_frame l i cur st st' :
  st'.1 !! i = st.1 !! i → (∀ k, skip_of st'.2 i k = skip_of st.2 i k) →
  head_ok l i cur st → head_ok l i cur st'.
Proof.
  intros E1 E2 (h & Eh & Hh & Hm & Hk). exists h. rewrite E1. split; [done|]. split; [done|].
  split; [done|]. intros k Hkh. rewrite E2. by apply Hk.
Qed.

(** In the middle of the round at [cur], with the indices of [d] done. *)
Definition round_ok (l : list iked_policy) (cur : nat) (d : list nat)
    (st : list nat * list iked_policy) : Prop :=
  array_ok l st ∧ ∀ i, (i < IKED_SKIP_COUNT)%nat → head_ok l i (if decide (i ∈ d) then S cur else cur) st.

Lemma round_step l cur d st i b :
  round_ok l cur d st → (cur < length l)%nat → (i < IKED_SKIP_COUNT)%nat → i ∉ d →
  boundary l i cur = b →
  ∃ st', skip_when b i cur st = Ok st' ∧ round_ok l cur (i :: d) st'.
Proof.
  intros [Ha Hh] Hc Hi Hd Hb. pose proof (Hh i Hi) as Hhi. rewrite decide_False in Hhi by done.
  destruct (skip_when_run l i cur st b Ha Hhi Hi) as (st' & E & Ha' & Hh' & _ & Hf); [destruct b; auto|].
  exists st'. split; [done|]. split; [done|]. intros i' Hi'.
  destruct (decide (i' = i)) as [->|Hne]; [rewrite decide_True by set_solver; by apply Hh'|].
  destruct (Hf i' Hne) as [Hf1 Hf2]. eapply head_ok_frame; [exact Hf1|exact Hf2|].
  specialize (Hh i' Hi'). destruct (decide (i' ∈ d)).
  - rewrite decide_True by set_solver. done.
  - rewrite decide_False by set_solver. done.
Qed.

Lemma calc_step_run l cur p prev st :
  round_ok l cur [] st → l !! cur = Some p → l !! pred cur = Some prev →
  ∃ st', calc_step cur p prev st = Ok st' ∧ round_ok l (S cur) [] st'.
Proof.
  intros H0 Hp Hq. pose proof (lookup_lt_Some _ _ _ Hp) as Hc. unfold calc_step.
  destruct (round_step _ _ _ _ IKED_SKIP_FLAGS _ H0 Hc ltac:(by apply Nat.ltb_lt) ltac:(set_solver) eq_refl)
    as (st1 & E1 & H1).
  unfold boundary in E1. rewrite Hp, Hq in E1. simpl in E1. rewrite E1. simpl.
  destruct (round_step _ _ _ _ IKED_SKIP_AF _ H1 Hc ltac:(by apply Nat.ltb_lt) ltac:(set_solver) eq_refl)
    as (st2 & E2 & H2).
  unfold boundary in E2. rewrite Hp, Hq in E2. simpl in E2. rewrite E2. simpl.
  destruct (round_step _ _ _ _ IKED_SKIP_DST_ADDR _ H2 Hc ltac:(by apply Nat.ltb_lt) ltac:(set_solver) eq_refl)
    as (st3 & E3 & H3).
  unfold boundary in E3. rewrite Hp, Hq in E3. simpl in E3. rewrite E3. simpl.
  destruct (round_step _ _ _ _ IKED_SKIP_SRC_ADDR _ H3 Hc ltac:(by apply Nat.ltb_lt) ltac:(set_solver) eq_refl)
    as (st4 & E4 & H4).
  unfold boundary in E4. rewrite Hp, Hq in E4. simpl in E4. rewrite E4. simpl.
  exists st4. split; [done|]. destruct H4 as [Ha Hh]. split; [done|].
  intros i Hi. specialize (Hh i Hi). rewrite decide_True in Hh; [by rewrite decide_False by set_solver|].
  unfold IKED_SKIP_COUNT, IKED_SKIP_FLAGS, IKED_SKIP_AF, IKED_SKIP_DST_ADDR, IKED_SKIP_SRC_ADDR in *.
  do 4 (destruct i as [|i]; [set_solver|]). lia.
Qed.

Lemma calc_loop_run l cur prev rest st :
  round_ok l cur [] st → drop cur l = rest → l !! pred cur = Some prev →
  ∃ st', calc_loop cur prev rest st = Ok st' ∧ round_ok l (length l) [] st'.
Proof.
  revert cur prev st. induction rest as [|p rest IH]; intros cur prev st Hr Hd Hq; simpl.
  - exists st. split; [done|]. destruct Hr as [Ha Hh]. split; [done|]. intros i Hi.
    assert (length l ≤ cur)%nat as Hle.
    { apply (f_equal length) in Hd. rewrite length_drop in Hd. simpl in Hd. lia. }
    specialize (Hh i Hi). rewrite decide_False in * by set_solver.
    destruct Hh as (h & ? & Hhh & ?). assert (cur = length l) as <- by lia. by exists h.
  - assert (Hp : l !! cur = Some p).
    { rewrite <- (Nat.add_0_r cur), <- lookup_drop, Hd. done. }
    destruct (calc_step_run l cur p prev st) as (st1 & E & H1); [done..|]. rewrite E. simpl.
    apply IH; [done| |done]. rewrite <- Nat.add_1_r, <- drop_drop, Hd. done.
Qed.

(** After the list, with the indices of [d] done. *)
Definition settled (l : list iked_policy) (d : list nat) (st : list nat * list iked_policy) : Prop :=
  array_ok l st ∧ ∀ i, (i < IKED_SKIP_COUNT)%nat → head_ok l i (length l) st ∧
    (i ∈ d → st.1 !! i = Some (length l)).

Lemma settle_run l ids d st :
  settled l d st → Forall (λ i, i < IKED_SKIP_COUNT)%nat ids →
  ∃ st', foldl (λ st i, st ← st; IKED_SET_SKIP_STEPS i (length l) st) (Ok st) ids = Ok st' ∧
    settled l (rev ids ++ d) st'.
Proof.
  revert d st. induction ids as [|i ids IH]; intros d st [Ha Hh] His; [by exists st|]. simpl.
  inversion His as [|? ? Hi His']; subst.
  destruct (skip_when_run l i (length l) st true Ha (proj1 (Hh i Hi)) Hi)
    as (st1 & E & Ha1 & _ & Hset & Hf); [by left|]. simpl in E. rewrite E.
  destruct (IH (i :: d) st1) as (st' & E' & Hs); [|done|].
  - split; [done|]. intros i' Hi'. destruct (Hset eq_refl) as [Hs1 Hs2].
    destruct (decide (i' = i)) as [->|Hne]; [done|]. destruct (Hf i' Hne) as [Hf1 Hf2].
    destruct (Hh i' Hi') as [Hh1 Hh2]. split; [by eapply head_ok_frame|].
    intros [?|Hd]%elem_of_cons; [done|]. rewrite Hf1. by apply Hh2.
  - exists st'. split; [done|]. by rewrite <- app_assoc.
Qed.

(** Every step is set and leads past no boundary. *)
Lemma calc_skip_steps_run l :
  Forall (λ q, length (pol_skip q) = IKED_SKIP_COUNT) l →
  ∃ l', policy_calc_skip_steps l = Ok l' ∧ sans_skip <$> l' = sans_skip <$> l ∧
    ∀ i k, (i < IKED_SKIP_COUNT)%nat → (k < length l)%nat →
      ∃ j, skip_of l' i k = Some j ∧ step_ok l i k j.
Proof.
  intros Hl. destruct l as [|p l].
  { exists []. split; [done|]. split; [done|]. simpl. lia. }
  unfold policy_calc_skip_steps. set (ps := p :: l) in *.
  destruct (calc_loop_run ps 0 p ps (replicate IKED_SKIP_COUNT 0%nat, ps)) as (st & E & Ha & Hh).
  { split; [done|]. intros i Hi. rewrite decide_False by set_solver. exists 0%nat.
    split; [exact (lookup_replicate_2 IKED_SKIP_COUNT 0%nat i Hi)|]. split; [lia|]. split; lia. }
  { done. } { done. }
  rewrite E. change (mbind ?f (Ok st)) with (f st). cbv beta.
  destruct (settle_run ps (seq 0 IKED_SKIP_COUNT) [] st) as (st' & E' & Ha' & Hh').
  - split; [done|]. intros i Hi. specialize (Hh i Hi). rewrite decide_False in Hh by set_solver.
    split; [done|set_solver].
  - apply Forall_seq. lia.
  - rewrite E'. simpl. exists st'.2. split; [done|]. split; [apply Ha'|].
    intros i k Hi Hk. destruct (Hh' i Hi) as [(h & Eh & Hhn & _ & Hst) Hd].
    rewrite Hd in Eh; [injection Eh as <-; by apply Hst|].
    unfold IKED_SKIP_COUNT in *. simpl. do 4 (destruct i as [|i]; [set_solver|]). lia.
Qed.

(** ** The walk along the steps *)

Lemma compatible_run key p : policy_compatible key p = Ok (compatible key p).
Proof.
  unfold compatible. unfold policy_compatible at 1 2, policy_test_flows.
  rewrite rb_foreach_run. by destruct (negb (pol_nflows key =? 0)).
Qed.

(** A policy with other steps matches the same. *)
Lemma sans_skip_eq q q' :
  sans_skip q' = sans_skip q → q' = set_pol_skip (pol_skip q') q.
Proof. destruct q, q'. unfold sans_skip, set_pol_skip, eta_pol. simpl. by intros [= -> -> -> -> -> -> -> -> ->]. Qed.

(** [p] fails the test of step [i]. *)
Definition fails (key : iked_policy) (i : nat) (p : iked_policy) : bool :=
  if (i =? IKED_SKIP_FLAGS)%nat then has_bit (pol_flags p) IKED_POLICY_SKIP
  else if (i =? IKED_SKIP_AF)%nat then
    negb (pol_af key =? 0) && negb (pol_af p =? 0) && negb (pol_af key =? pol_af p)
  else if (i =? IKED_SKIP_DST_ADDR)%nat then
    negb (sockaddr_cmp (addr (pol_peer key)) (addr (pol_peer p)) (addr_mask (pol_peer p)) =? 0)
  else negb (sockaddr_cmp (addr (pol_local key)) (addr (pol_local p)) (addr_mask (pol_local p)) =? 0).

Lemma skip_reason_fails key p i :
  skip_reason key p = Some i → (i < IKED_SKIP_COUNT)%nat ∧ fails key i p = true.
Proof.
  unfold skip_reason. repeat case_match; intros [= <-]; split;
    try (by apply Nat.ltb_lt); assumption.
Qed.

Lemma fails_skip_reason key p i : fails key i p = true → skip_reason key p ≠ None.
Proof. unfold fails, skip_reason. repeat case_match; try done; congruence. Qed.

Lemma cmp_specified a b n : sockaddr_cmp a b n ≠ 0 → sa_family b ≠ AF_UNSPEC.
Proof. intros H E. apply H, sockaddr_cmp_masked. by right; left. Qed.

(** A failure carries over to the next policy, unless there is a boundary. *)
Lemma fails_next l key i m p q :
  ordered l → l !! m = Some p → l !! S m = Some q → fails key i p = true →
  boundary l i (S m) = false → fails key i q = true.
Proof.
  intros [Ho1 Ho2 Ho3 Ho4] Hp Hq Hf Hb. unfold boundary in Hb. simpl in Hb. rewrite Hp, Hq in Hb.
  specialize (Ho1 m (S m) p q ltac:(lia) Hp Hq). specialize (Ho2 m (S m) p q ltac:(lia) Hp Hq).
  specialize (Ho3 m (S m) p q ltac:(lia) Hp Hq). specialize (Ho4 m (S m) p q ltac:(lia) Hp Hq).
  unfold fails in *. destruct (i =? IKED_SKIP_FLAGS)%nat; [auto|].
  destruct (i =? IKED_SKIP_AF)%nat.
  - apply andb_prop in Hf as [[Hk Hf]%andb_prop Hne].
    assert (Hq' : negb (pol_af q =? AF_UNSPEC) = true) by (by apply Ho2).
    change AF_UNSPEC with 0 in *. rewrite Hf, Hq' in Hb. simpl in Hb.
    apply negb_false_iff, Z.eqb_eq in Hb. by rewrite Hk, Hb, Hf, Hne.
  - destruct (i =? IKED_SKIP_DST_ADDR)%nat; apply negb_true_iff, Z.eqb_neq in Hf;
      apply negb_true_iff, Z.eqb_neq; pose proof (cmp_specified _ _ _ Hf) as Hs;
      (eapply addr_neq_run; [exact Hs| |exact Hb|exact Hf]);
      apply Z.eqb_neq, negb_true_iff; [apply Ho3|apply Ho4]; by apply negb_true_iff, Z.eqb_neq.
Qed.

Lemma scan_skips key l k j pol :
  (k ≤ j)%nat → (∀ m q, (k ≤ m < j)%nat → l !! m = Some q → matches key q = false) →
  policy_scan key k (drop k l) pol = policy_scan key j (drop j l) pol.
Proof.
  intros Hle Hno. remember (j - k)%nat as n eqn:Hn. revert k Hle Hno Hn.
  induction n as [|n IH]; intros k Hle Hno Hn; [by assert (k = j) as -> by lia|].
  destruct (drop k l) as [|q rest] eqn:Hd.
  - rewrite drop_ge; [done|]. apply (f_equal length) in Hd. rewrite length_drop in Hd. simpl in Hd. lia.
  - assert (Hq : l !! k = Some q) by (rewrite <- (Nat.add_0_r k), <- lookup_drop, Hd; done).
    simpl. rewrite (Hno k q) by (done || lia). simpl.
    replace rest with (drop (S k) l) by (rewrite <- Nat.add_1_r, <- drop_drop, Hd; done).
    apply IH; [lia| |lia]. intros m q' Hm. apply Hno. lia.
Qed.

Lemma test_loop_run l l' key fuel k pol :
  ordered l → sans_skip <$> l' = sans_skip <$> l →
  (∀ i k, (i < IKED_SKIP_COUNT)%nat → (k < length l)%nat →
     ∃ j, skip_of l' i k = Some j ∧ step_ok l i k j) →
  (k ≤ length l)%nat → (length l - k < fuel)%nat →
  policy_test_loop fuel l' key k pol = Ok (policy_scan key k (drop k l) pol).
Proof.
  intros Ho Hs Hstep. revert k pol. induction fuel as [|fuel IH]; intros k pol Hk Hf; [lia|]. simpl.
  assert (Hl : l' !! k = (λ q, set_pol_skip (default [] (pol_skip <$> (l' !! k))) q) <$> (l !! k)).
  { apply (f_equal (.!! k)) in Hs. rewrite !list_lookup_fmap in Hs.
    destruct (l !! k) as [q|], (l' !! k) as [q'|]; try done.
    apply (inj Some) in Hs. simpl. by rewrite <- (sans_skip_eq _ _ Hs). }
  destruct (l !! k) as [q|] eqn:Hq; rewrite Hl; simpl.
  2: { rewrite drop_ge; [done|]. by apply lookup_ge_None. }
  rewrite (drop_S _ _ _ Hq). simpl. set (q' := set_pol_skip _ q).
  pose proof (lookup_lt_Some _ _ _ Hq) as Hlt.
  change (skip_reason key q') with (skip_reason key q).
  change (policy_compatible key q') with (policy_compatible key q).
  destruct (skip_reason key q) as [i|] eqn:Hr.
  - destruct (skip_reason_fails _ _ _ Hr) as [Hi Hfail].
    destruct (Hstep i k Hi Hlt) as (j & Ej & Hj1 & Hj2 & _). unfold skip_of in Ej. rewrite Hl in Ej.
    simpl in Ej. rewrite Ej. unfold matches at 1. rewrite Hr. simpl.
    rewrite IH by lia. f_equal. rewrite <- (scan_skips key l (S k) j); [done|lia|].
    assert (Hall : ∀ m, (k ≤ m < j)%nat → ∀ q, l !! m = Some q → fails key i q = true).
    { intros m. induction m as [|m IHm]; intros Hm r Hr'.
      - assert (k = 0%nat) as -> by lia. congruence.
      - destruct (decide (k = S m)) as [->|Hne]; [congruence|].
        destruct (lookup_lt_is_Some_2 l m) as [r' Hr'']; [apply lookup_lt_Some in Hr'; lia|].
        eapply fails_next; [done|exact Hr''|exact Hr'| |apply Hj2; lia]. apply IHm; [lia|done]. }
    intros m r Hm Hr'. unfold matches. pose proof (fails_skip_reason _ _ _ (Hall m ltac:(lia) r Hr')).
    by destruct (skip_reason key r).
  - unfold matches. rewrite Hr, compatible_run. simpl.
    destruct (compatible key q); simpl; [|by rewrite IH by lia].
    change (pol_flags q') with (pol_flags q).
    destruct (has_bit (pol_flags q) IKED_POLICY_QUICK); [done|]. by rewrite IH by lia.
Qed.

(** C26: on a list of policies in which [skip] policies come last and address
    families, peers and local addresses are named by all policies after the
    first that names one, [policy_calc_skip_steps] ends and the walk of
    [policy_test] along its steps finds what a plain scan finds: the last
    matching policy, or the first matching one marked [quick]. *)
Theorem policy_test_scan l :
  ordered l → Forall (λ q, length (pol_skip q) = IKED_SKIP_COUNT) l →
  ∃ l', policy_calc_skip_steps l = Ok l' ∧ sans_skip <$> l' = sans_skip <$> l ∧
    ∀ key, policy_test l' key = Ok (policy_scan key 0 l None).
Proof.
  intros Ho Hl. destruct (calc_skip_steps_run l Hl) as (l' & E & Hs & Hstep).
  exists l'. split; [done|]. split; [done|]. intros key. unfold policy_test.
  rewrite (test_loop_run l l') by (done || (apply (f_equal length) in Hs; rewrite !length_fmap in Hs; lia)).
  done.
Qed.

(** A policy marked [skip] is not matched, and the step from it goes to the
    next one so marked: what is in between is never looked at. *)


(** ** Examples *)

Definition demo_addr (af : Z) : iked_addr :=
  mk_iked_addr af (mk_sockaddr AF_UNSPEC 0 []) 0 false 0.

(** A policy for any peer of a family. *)
Definition demo_policy (flags af : Z) : iked_policy :=
  mk_policy flags af (demo_addr AF_UNSPEC) (mk_static_id 0 []) (demo_addr AF_UNSPEC)
    (mk_static_id 0 []) [] Null 0 [0; 0; 0; 0]%nat.

(** The first policy is for IPv4, the second for any family: the step on the
    family leads past both, and a message over IPv6 matches neither. *)
Example policy_af_hides :
  let l := [demo_policy 0 AF_INET; demo_policy 0 AF_UNSPEC] in
  let key := demo_policy 0 AF_INET6 in
  match policy_calc_skip_steps l with
  | Ok l' => policy_test l' key = Ok None ∧ policy_scan key 0 l None = Some 1%nat
  | Fault _ => False
  end.
Proof. vm_compute. done. Qed.

Lemma later_pair P p q : (P p = true → P q = true) → later P [p; q].
Proof.
  intros H k m p' q' Hlt Hk Hm. pose proof (lookup_lt_Some _ _ _ Hm) as Hl. simpl in Hl.
  assert (k = 0%nat) as -> by lia. assert (m = 1%nat) as -> by lia.
  by simplify_eq/=.
Qed.

Lemma policy_test_scan_witness :
  ∃ l', policy_calc_skip_steps [demo_policy 0 AF_UNSPEC; demo_policy IKED_POLICY_SKIP AF_INET] = Ok l' ∧
    sans_skip <$> l' = sans_skip <$> [demo_policy 0 AF_UNSPEC; demo_policy IKED_POLICY_SKIP AF_INET] ∧
    ∀ key, policy_test l' key =
      Ok (policy_scan key 0 [demo_policy 0 AF_UNSPEC; demo_policy IKED_POLICY_SKIP AF_INET] None).
Proof.
  apply (policy_test_scan [demo_policy 0 AF_UNSPEC; demo_policy IKED_POLICY_SKIP AF_INET]).
  - split; by apply later_pair.
  - repeat constructor.
Defined.

