(* ===== verification/Ibuf.v ===== *)
(** * Message buffers: [ibuf_*] of [imsg-buffer.c] and [imsg_util.c]

    An [ibuf] is an allocation with a read and a write position. The model
    keeps the C structure: the allocation is [ib_buf] ([None] is a null
    pointer), and every copy into or out of it is bounds-checked, so an
    operation that would leave the allocation faults. What a client sees is
    [ibuf_content], the bytes between the two positions; the theorems say that
    each operation is memory safe, keeps the structure well formed, and acts
    on the content as the obvious operation on byte strings. [alloc] is the
    outcome of the allocations an operation makes. *)

From S2P Require Import Prelude Types.

Record ibuf := mk_ibuf {
  ib_buf : option bytes; ib_size : Z; ib_max : Z; ib_wpos : Z; ib_rpos : Z; ib_fd : Z }.
Definition eta_ibuf (r : ibuf) : ibuf :=
  mk_ibuf (ib_buf r) (ib_size r) (ib_max r) (ib_wpos r) (ib_rpos r) (ib_fd r).
Definition set_ib_buf (v : option bytes) (r : ibuf) : ibuf := ltac:(upd eta_ibuf ib_buf r v).
Definition set_ib_size (v : Z) (r : ibuf) : ibuf := ltac:(upd eta_ibuf ib_size r v).
Definition set_ib_wpos (v : Z) (r : ibuf) : ibuf := ltac:(upd eta_ibuf ib_wpos r v).
Definition set_ib_rpos (v : Z) (r : ibuf) : ibuf := ltac:(upd eta_ibuf ib_rpos r v).
Definition set_ib_fd (v : Z) (r : ibuf) : ibuf := ltac:(upd eta_ibuf ib_fd r v).

Definition IBUF_FD_MARK_ON_STACK : Z := -2.
Definition SIZE_MAX : Z := size_max - 1.
Definition UINT8_MAX : Z := 2 ^ 8 - 1.
Definition UINT16_MAX : Z := 2 ^ 16 - 1.
Definition UINT32_MAX : Z := 2 ^ 32 - 1.

Definition zeros (n : Z) : bytes := replicate (Z.to_nat n) x00.

(** The allocation [calloc(len, 1)] makes; none for [len = 0]. *)
Definition calloc_buf (len : Z) : option bytes :=
  if 0 <? len then Some (zeros len) else None.

(** A load from and a store to the allocation behind a pointer. *)
Definition load (p : option bytes) (off len : Z) : out bytes :=
  match p with
  | Some d => rd d off len
  | None => if len =? 0 then Ok [] else Fault Fnull
  end.

Definition store (p : option bytes) (off : Z) (data : bytes) : out (option bytes) :=
  match p with
  | Some d =>
      if (0 <=? off) && (off + blen data <=? blen d) then
        Ok (Some (take (Z.to_nat off) d ++ data ++ drop (Z.to_nat off + length data) d))
      else Fault Foob
  | None => if blen data =? 0 then Ok None else Fault Fnull
  end.

(** ** Construction *)

Definition ibuf_open (alloc : bool) (len : Z) : option ibuf :=
  if alloc then Some (mk_ibuf (calloc_buf len) len len 0 0 (-1)) else None.

Definition ibuf_dynamic (alloc : bool) (len max : Z) : option ibuf :=
  if (max =? 0) || (max <? len) then None
  else if alloc then Some (mk_ibuf (calloc_buf len) len max 0 0 (-1))
  else None.

Definition ibuf_from_buffer (data : option bytes) (len : Z) : ibuf :=
  mk_ibuf data len 0 len 0 IBUF_FD_MARK_ON_STACK.

(** ** Sizes and positions *)

Definition ibuf_size (buf : ibuf) : Z := (ib_wpos buf - ib_rpos buf)%sz.

Definition ibuf_left (buf : ibuf) : Z :=
  if ib_fd buf =? IBUF_FD_MARK_ON_STACK then 0 else (ib_max buf - ib_wpos buf)%sz.

Definition ibuf_length (buf : option ibuf) : Z :=
  match buf with None => 0 | Some buf => ibuf_size buf end.

Definition ibuf_rewind (buf : ibuf) : ibuf := set_ib_rpos 0 buf.

(** [memcpy] from [ibuf_data(buf)]. *)
Definition ibuf_data (buf : ibuf) (len : Z) : out bytes := load (ib_buf buf) (ib_rpos buf) len.

(** ** Writing *)

(** The position reserved, [None] for a null pointer. *)
Definition ibuf_reserve (alloc : bool) (buf : ibuf) (len : Z) : option Z * ibuf :=
  if (SIZE_MAX - ib_wpos buf)%sz <? len then (None, buf)
  else if ib_fd buf =? IBUF_FD_MARK_ON_STACK then (None, buf)
  else
    let need := (ib_wpos buf + len)%sz in
    if ib_size buf <? need then
      if ib_max buf <? need then (None, buf)
      else if alloc then
        let nb := default [] (ib_buf buf) ++ zeros (need - ib_size buf)%sz in
        (Some (ib_wpos buf), set_ib_wpos need (set_ib_size need (set_ib_buf (Some nb) buf)))
      else (None, buf)
    else
      (match ib_buf buf with Some _ => Some (ib_wpos buf) | None => None end,
       set_ib_wpos need buf).

Definition ibuf_add (alloc : bool) (buf : ibuf) (data : bytes) : out (Z * ibuf) :=
  match ibuf_reserve alloc buf (blen data) with
  | (None, buf) => Ok (-1, buf)
  | (Some b, buf) => nb ← store (ib_buf buf) b data; Ok (0, set_ib_buf nb buf)
  end.

Definition ibuf_add_ibuf (alloc : bool) (buf from : ibuf) : out (Z * ibuf) :=
  data ← ibuf_data from (ibuf_size from); ibuf_add alloc buf data.

Definition ibuf_add_n8 (alloc : bool) (buf : ibuf) (value : Z) : out (Z * ibuf) :=
  if UINT8_MAX <? value then Ok (-1, buf) else ibuf_add alloc buf (be_encode 1 value).
Definition ibuf_add_n16 (alloc : bool) (buf : ibuf) (value : Z) : out (Z * ibuf) :=
  if UINT16_MAX <? value then Ok (-1, buf) else ibuf_add alloc buf (be_encode 2 value).
Definition ibuf_add_n32 (alloc : bool) (buf : ibuf) (value : Z) : out (Z * ibuf) :=
  if UINT32_MAX <? value then Ok (-1, buf) else ibuf_add alloc buf (be_encode 4 value).
Definition ibuf_add_n64 (alloc : bool) (buf : ibuf) (value : Z) : out (Z * ibuf) :=
  ibuf_add alloc buf (be_encode 8 value).

Definition ibuf_add_zero (alloc : bool) (buf : ibuf) (len : Z) : out (Z * ibuf) :=
  match ibuf_reserve alloc buf len with
  | (None, buf) => Ok (-1, buf)
  | (Some b, buf) => nb ← store (ib_buf buf) b (zeros len); Ok (0, set_ib_buf nb buf)
  end.

(** The offset into the allocation, [None] for a null pointer. *)
Definition ibuf_seek (buf : ibuf) (pos len : Z) : option Z :=
  if (ibuf_size buf <? pos) || ((SIZE_MAX - pos)%sz <? len) || (ibuf_size buf <? (pos + len)%sz)
  then None else Some (ib_rpos buf + pos)%sz.

Definition ibuf_set (buf : ibuf) (pos : Z) (data : bytes) : out (Z * ibuf) :=
  match ibuf_seek buf pos (blen data) with
  | None => Ok (-1, buf)
  | Some b => nb ← store (ib_buf buf) b data; Ok (0, set_ib_buf nb buf)
  end.

Definition ibuf_set_n8 (buf : ibuf) (pos value : Z) : out (Z * ibuf) :=
  if UINT8_MAX <? value then Ok (-1, buf) else ibuf_set buf pos (be_encode 1 value).
Definition ibuf_set_n16 (buf : ibuf) (pos value : Z) : out (Z * ibuf) :=
  if UINT16_MAX <? value then Ok (-1, buf) else ibuf_set buf pos (be_encode 2 value).
Definition ibuf_set_n32 (buf : ibuf) (pos value : Z) : out (Z * ibuf) :=
  if UINT32_MAX <? value then Ok (-1, buf) else ibuf_set buf pos (be_encode 4 value).
Definition ibuf_set_n64 (buf : ibuf) (pos value : Z) : out (Z * ibuf) :=
  ibuf_set buf pos (be_encode 8 value).

Definition ibuf_truncate (alloc : bool) (buf : ibuf) (len : Z) : out (Z * ibuf) :=
  if len <=? ibuf_size buf then Ok (0, set_ib_wpos (ib_rpos buf + len)%sz buf)
  else if ib_fd buf =? IBUF_FD_MARK_ON_STACK then Ok (-1, buf)
  else ibuf_add_zero alloc buf (len - ibuf_size buf)%sz.

Definition ibuf_setsize (buf : ibuf) (len : Z) : Z * ibuf :=
  if ib_size buf <? len then (-1, buf) else (0, set_ib_wpos len buf).

(** ** Reading *)

Definition ibuf_get (buf : ibuf) (len : Z) : out (option bytes * ibuf) :=
  if ibuf_size buf <? len then Ok (None, buf)
  else data ← ibuf_data buf len; Ok (Some data, set_ib_rpos (ib_rpos buf + len)%sz buf).

(** The number the bytes got are the network order of. *)
Definition get_num (r : out (option bytes * ibuf)) : out (option Z * ibuf) :=
  match r with Ok (data, buf) => Ok (be_decode 0 <$> data, buf) | Fault f => Fault f end.

Definition ibuf_get_n8 (buf : ibuf) : out (option Z * ibuf) :=
  get_num (ibuf_get buf 1).
Definition ibuf_get_n16 (buf : ibuf) : out (option Z * ibuf) :=
  get_num (ibuf_get buf 2).
Definition ibuf_get_n32 (buf : ibuf) : out (option Z * ibuf) :=
  get_num (ibuf_get buf 4).
Definition ibuf_get_n64 (buf : ibuf) : out (option Z * ibuf) :=
  get_num (ibuf_get buf 8).

(** A view of the next [len] bytes; views are only ever read. *)
Definition ibuf_get_ibuf (buf : ibuf) (len : Z) : out (option ibuf * ibuf) :=
  if ibuf_size buf <? len then Ok (None, buf)
  else
    data ← ibuf_data buf len;
    Ok (Some (ibuf_from_buffer (Some data) len), set_ib_rpos (ib_rpos buf + len)%sz buf).

Definition ibuf_skip (buf : ibuf) (len : Z) : Z * ibuf :=
  if ibuf_size buf <? len then (-1, buf)
  else (0, set_ib_rpos (ib_rpos buf + len)%sz buf).

(** ** The daemon's extensions *)

(** [data] is [None] for a null pointer; then [len] zero bytes are added. *)
Definition ibuf_new (alloc : bool) (data : option bytes) (len : Z) : out (option ibuf) :=
  match ibuf_dynamic alloc len IKED_MSGBUF_MAX with
  | None => Ok None
  | Some buf =>
      if len =? 0 then Ok (Some buf)
      else
        r ← match data with
            | None => ibuf_add_zero alloc buf len
            | Some data => data ← rd data 0 len; ibuf_add alloc buf data
            end;
        Ok (if r.1 =? 0 then Some r.2 else None)
  end.

Definition ibuf_static (alloc : bool) : option ibuf := ibuf_open alloc IKED_MSGBUF_MAX.

Definition ibuf_getdata (alloc : bool) (buf : ibuf) (len : Z) : out (option ibuf * ibuf) :=
  r ← ibuf_get_ibuf buf len;
  match r.1 with
  | None => Ok (None, r.2)
  | Some tmp =>
      data ← ibuf_data tmp (ibuf_size tmp);
      new ← ibuf_new alloc (Some data) (ibuf_size tmp);
      Ok (new, r.2)
  end.

Definition ibuf_dup (alloc : bool) (buf : option ibuf) : out (option ibuf) :=
  match buf with
  | None => Ok None
  | Some buf =>
      data ← ibuf_data buf (ibuf_size buf);
      ibuf_new alloc (Some data) (ibuf_size buf)
  end.

(** ** Well-formedness and content *)

Record ibuf_wf (b : ibuf) : Prop := {
  wf_alloc : match ib_buf b with Some d => blen d = ib_size b | None => ib_size b = 0 end;
  wf_pos : 0 ≤ ib_rpos b ∧ ib_rpos b ≤ ib_wpos b ∧ ib_wpos b ≤ ib_size b ∧ ib_size b < size_max;
  wf_max : ib_fd b ≠ IBUF_FD_MARK_ON_STACK → ib_size b ≤ ib_max b < size_max }.

(** The bytes a reader of the buffer sees. *)
Definition ibuf_content (b : ibuf) : bytes :=
  sub_bytes (ib_rpos b) (ib_wpos b - ib_rpos b) (default [] (ib_buf b)).

Lemma wf_alloc_len b : ibuf_wf b → blen (default [] (ib_buf b)) = ib_size b.
Proof. intros [Ha _ _]. by destruct (ib_buf b). Qed.

Lemma blen_zeros n : 0 ≤ n → blen (zeros n) = n.
Proof. unfold blen, zeros. intros. rewrite length_replicate. lia. Qed.

Lemma ibuf_size_content b : ibuf_wf b → ibuf_size b = blen (ibuf_content b).
Proof.
  intros Hwf. pose proof (wf_alloc_len b Hwf). destruct Hwf as [_ Hp _].
  unfold ibuf_size, ibuf_content. rewrite blen_sub_bytes by lia. apply sz_sub_id; lia.
Qed.

Lemma sub_bytes_split off a c l :
  0 ≤ off → 0 ≤ a → 0 ≤ c → off + a + c ≤ blen l →
  sub_bytes off (a + c) l = sub_bytes off a l ++ sub_bytes (off + a) c l.
Proof.
  unfold sub_bytes, blen. intros. rewrite !Z2Nat.inj_add by lia.
  rewrite <- drop_drop. set (d := drop (Z.to_nat off) l).
  rewrite <- (take_drop (Z.to_nat a) (take (Z.to_nat a + Z.to_nat c) d)).
  f_equal; [by rewrite take_take, Nat.min_l by lia|].
  rewrite take_drop_commute. done.
Qed.

Lemma store_spec d off data :
  0 ≤ off → off + blen data ≤ blen d →
  ∃ d', store (Some d) off data = Ok (Some d') ∧ blen d' = blen d ∧
    (∀ o n, 0 ≤ o → 0 ≤ n → o + n ≤ off → sub_bytes o n d' = sub_bytes o n d) ∧
    (∀ o n, off + blen data ≤ o → 0 ≤ n → sub_bytes o n d' = sub_bytes o n d) ∧
    sub_bytes off (blen data) d' = data.
Proof.
  intros Ho Hl. unfold store. rewrite (proj2 (Z.leb_le 0 off)), (proj2 (Z.leb_le _ _)) by done.
  simpl. eexists. split; [done|]. unfold blen in *.
  assert (Ht : length (take (Z.to_nat off) d) = Z.to_nat off) by (rewrite length_take; lia).
  split_and!.
  - rewrite !length_app, Ht, length_drop. lia.
  - intros o n ???. rewrite sub_bytes_app_l by (unfold blen; lia).
    unfold sub_bytes. by rewrite !take_drop_commute, take_take, Nat.min_l by lia.
  - intros o n ??. rewrite app_assoc, sub_bytes_app_r by (unfold blen; rewrite length_app; lia).
    unfold sub_bytes, blen. rewrite drop_drop, length_app, Ht. repeat f_equal. lia.
  - rewrite sub_bytes_app_r by (unfold blen; lia).
    unfold blen at 1. rewrite Ht. replace (off - _) with 0 by lia.
    rewrite sub_bytes_app_l by (unfold blen; lia). apply sub_bytes_all.
Qed.

(** [ibuf_reserve]: either nothing changes, or [len] bytes follow the write
    position and the bytes before them are the old ones. *)
Lemma ibuf_reserve_spec alloc b len :
  ibuf_wf b → 0 ≤ len → len < size_max →
  match ibuf_reserve alloc b len with
  | (None, b') => b' = b
  | (Some p, b') =>
      p = ib_wpos b ∧ ibuf_wf b' ∧ ib_rpos b' = ib_rpos b ∧ ib_wpos b' = ib_wpos b + len ∧
      ib_fd b' = ib_fd b ∧ ib_max b' = ib_max b ∧ is_Some (ib_buf b') ∧
      (∀ o n, 0 ≤ o → 0 ≤ n → o + n ≤ ib_size b →
         sub_bytes o n (default [] (ib_buf b')) = sub_bytes o n (default [] (ib_buf b)))
  end.
Proof.
  intros Hwf Hl Hl'. pose proof (wf_alloc_len b Hwf) as Hlen. pose proof Hwf as [Ha Hp Hm].
  unfold ibuf_reserve, SIZE_MAX. rewrite sz_sub_id by lia.
  destruct (Z.ltb_spec (size_max - 1 - ib_wpos b) len); [done|].
  destruct (Z.eqb_spec (ib_fd b) IBUF_FD_MARK_ON_STACK); [done|].
  specialize (Hm ltac:(done)). rewrite sz_add_id by lia.
  destruct (Z.ltb_spec (ib_size b) (ib_wpos b + len)).
  - destruct (Z.ltb_spec (ib_max b) (ib_wpos b + len)); [done|]. destruct alloc; [|done].
    rewrite sz_sub_id by lia. simpl. split_and!; try done.
    + constructor; simpl; [rewrite blen_app, blen_zeros by lia; lia|lia|lia].
    + intros. rewrite sub_bytes_app_l by lia. done.
  - destruct (ib_buf b) as [d|] eqn:Hb; simpl.
    + split_and!; try done; [|by rewrite Hb].
      constructor; simpl; [by rewrite Hb|lia|lia].
    + destruct b; simpl in *. subst. f_equal. unfold set_ib_wpos. simpl. f_equal. lia.
Qed.

(** Is there room for [len] more bytes? *)
Definition ibuf_fits (alloc : bool) (b : ibuf) (len : Z) : Prop :=
  ib_fd b ≠ IBUF_FD_MARK_ON_STACK ∧ ib_wpos b + len ≤ ib_max b ∧
  (alloc = true ∨ ib_wpos b + len ≤ ib_size b) ∧ (0 < len ∨ is_Some (ib_buf b)).

Lemma ibuf_reserve_fits alloc b len :
  ibuf_wf b → 0 ≤ len → len < size_max →
  is_Some (ibuf_reserve alloc b len).1 ↔ ibuf_fits alloc b len.
Proof.
  intros Hwf Hl Hl'. pose proof Hwf as [Ha Hp Hm]. unfold ibuf_reserve, SIZE_MAX, ibuf_fits.
  rewrite sz_sub_id by lia.
  destruct (Z.eqb_spec (ib_fd b) IBUF_FD_MARK_ON_STACK) as [E|E].
  { destruct (_ <? len); simpl; (split; [by intros [??]|tauto]). }
  specialize (Hm E).
  destruct (Z.ltb_spec (size_max - 1 - ib_wpos b) len); [split; [by intros [??]|simpl; lia]|].
  rewrite sz_add_id by lia.
  destruct (Z.ltb_spec (ib_size b) (ib_wpos b + len)).
  - destruct (Z.ltb_spec (ib_max b) (ib_wpos b + len)); [split; [by intros [??]|simpl; lia]|].
    destruct alloc; simpl; split; try (by intros [??]); [|intros (_ & _ & [?|?] & _); [done|lia]].
    intros _. split_and!; [done|lia|by left|left; lia].
  - destruct (ib_buf b) as [d|] eqn:Hb; simpl.
    + split; [|done]. intros _. split_and!; [done|lia|by right|by right].
    + split; [by intros [??]|]. intros (_ & _ & _ & [?|[??]]); [lia|done].
Qed.

Lemma add_spec alloc b data :
  ibuf_wf b → blen data < size_max →
  ∃ r b', ibuf_add alloc b data = Ok (r, b') ∧ ibuf_wf b' ∧ ib_max b' = ib_max b ∧
    ib_fd b' = ib_fd b ∧
    (r = 0 ∧ ibuf_fits alloc b (blen data) ∧ ibuf_content b' = ibuf_content b ++ data ∧
       ib_rpos b' = ib_rpos b ∧ ib_wpos b' = ib_wpos b + blen data ∨
     r = -1 ∧ ¬ ibuf_fits alloc b (blen data) ∧ b' = b).
Proof.
  intros Hwf Hlen. pose proof (blen_nonneg data). unfold ibuf_add.
  pose proof (ibuf_reserve_spec alloc b _ Hwf (blen_nonneg data) Hlen) as Hr.
  pose proof (ibuf_reserve_fits alloc b _ Hwf (blen_nonneg data) Hlen) as Hf.
  destruct (ibuf_reserve alloc b (blen data)) as [[p|] b']; simpl in Hf.
  2:{ subst b'. exists (-1), b. split_and!; try done. right. split_and!; [done| |done].
      rewrite <- Hf. by intros [??]. }
  destruct Hr as (-> & Hwf' & Er & Ew & Ef & Em & [d Hd] & Hsame).
  pose proof (wf_alloc_len _ Hwf') as Hd'. rewrite Hd in *. simpl in Hd'.
  pose proof Hwf as [_ Hp _]. pose proof Hwf' as [Ha' Hp' Hm'].
  destruct (store_spec d (ib_wpos b) data ltac:(lia) ltac:(lia)) as (d' & -> & Hl' & Hbef & _ & Hat).
  simpl. exists 0, (set_ib_buf (Some d') b'). split_and!; [done| |done|done|].
  - constructor; simpl; [by rewrite Hl', Hd'|done..].
  - left. split_and!; [done|by apply Hf| |done|done]. unfold ibuf_content. simpl. rewrite Er, Ew.
    replace (ib_wpos b + blen data - ib_rpos b)
      with ((ib_wpos b - ib_rpos b) + blen data) by lia.
    rewrite sub_bytes_split by lia. f_equal; [rewrite Hbef by lia; apply Hsame; lia|].
    by replace (ib_rpos b + (ib_wpos b - ib_rpos b)) with (ib_wpos b) by lia.
Qed.

Lemma ibuf_add_zero_add alloc b len :
  0 ≤ len → ibuf_add_zero alloc b len = ibuf_add alloc b (zeros len).
Proof. intros. unfold ibuf_add_zero, ibuf_add. by rewrite blen_zeros. Qed.

Lemma data_spec b len :
  ibuf_wf b → 0 ≤ len ≤ blen (ibuf_content b) →
  ibuf_data b len = Ok (take (Z.to_nat len) (ibuf_content b)).
Proof.
  intros Hwf Hl. pose proof (wf_alloc_len _ Hwf) as Ha. pose proof Hwf as [_ Hp _].
  rewrite <- (ibuf_size_content _ Hwf) in Hl. unfold ibuf_size in Hl. rewrite sz_sub_id in Hl by lia.
  unfold ibuf_data, load, ibuf_content. destruct (ib_buf b) as [d|]; simpl in *.
  - unfold rd. rewrite !(proj2 (Z.leb_le _ _)) by lia. simpl. f_equal. unfold sub_bytes.
    rewrite take_take, Nat.min_l by lia. done.
  - unfold blen in Ha. simpl in Ha. replace len with 0 by lia. done.
Qed.

Lemma advance_spec b len :
  ibuf_wf b → 0 ≤ len ≤ blen (ibuf_content b) →
  ibuf_wf (set_ib_rpos (ib_rpos b + len)%sz b) ∧
  ibuf_content (set_ib_rpos (ib_rpos b + len)%sz b) = drop (Z.to_nat len) (ibuf_content b).
Proof.
  intros Hwf Hl. pose proof (wf_alloc_len _ Hwf) as Ha. pose proof Hwf as [Ha' Hp Hm].
  rewrite <- (ibuf_size_content _ Hwf) in Hl. unfold ibuf_size in Hl. rewrite sz_sub_id in Hl by lia.
  rewrite sz_add_id by lia. split; [constructor; simpl; [done|lia|done]|].
  unfold ibuf_content, sub_bytes. simpl. rewrite !take_drop_commute, drop_drop.
  f_equal; [|f_equal]; lia.
Qed.

Lemma get_spec b len :
  ibuf_wf b → 0 ≤ len →
  if len <=? blen (ibuf_content b) then
    ∃ b', ibuf_get b len = Ok (Some (take (Z.to_nat len) (ibuf_content b)), b') ∧ ibuf_wf b' ∧
      ibuf_content b' = drop (Z.to_nat len) (ibuf_content b)
  else ibuf_get b len = Ok (None, b).
Proof.
  intros Hwf Hl. unfold ibuf_get. rewrite ibuf_size_content by done.
  destruct (Z.leb_spec len (blen (ibuf_content b))).
  - rewrite (proj2 (Z.ltb_ge _ _)) by lia. rewrite data_spec by (done || lia). simpl.
    eexists. split; [done|]. apply advance_spec; [done|lia].
  - by rewrite (proj2 (Z.ltb_lt _ _)) by lia.
Qed.

Lemma seek_spec b pos len :
  ibuf_wf b → 0 ≤ pos < size_max → 0 ≤ len < size_max →
  ibuf_seek b pos len =
    if pos + len <=? blen (ibuf_content b) then Some (ib_rpos b + pos) else None.
Proof.
  intros Hwf Hp Hl. unfold ibuf_seek, SIZE_MAX. rewrite ibuf_size_content by done.
  pose proof (ibuf_size_content b Hwf) as Hs. pose proof Hwf as [_ Hpos _].
  unfold ibuf_size in Hs. rewrite sz_sub_id in Hs by lia. rewrite sz_sub_id by lia.
  destruct (Z.leb_spec (pos + len) (blen (ibuf_content b))).
  - rewrite !sz_add_id by lia. rewrite !(proj2 (Z.ltb_ge _ _)) by lia. done.
  - destruct (Z.ltb_spec (blen (ibuf_content b)) pos); [done|].
    destruct (Z.ltb_spec (size_max - 1 - pos) len); [done|]. simpl.
    rewrite sz_add_id by lia. by rewrite (proj2 (Z.ltb_lt _ _)) by lia.
Qed.

Lemma set_spec b pos data :
  ibuf_wf b → 0 ≤ pos < size_max → blen data < size_max →
  if pos + blen data <=? blen (ibuf_content b) then
    ∃ b', ibuf_set b pos data = Ok (0, b') ∧ ibuf_wf b' ∧
      ibuf_content b' = sub_bytes 0 pos (ibuf_content b) ++ data ++
        sub_bytes (pos + blen data) (blen (ibuf_content b) - pos - blen data) (ibuf_content b)
  else ibuf_set b pos data = Ok (-1, b).
Proof.
  intros Hwf Hp Hl. unfold ibuf_set. pose proof (blen_nonneg data).
  rewrite seek_spec by (done || lia).
  destruct (Z.leb_spec (pos + blen data) (blen (ibuf_content b))) as [Hle|]; [|done].
  pose proof (ibuf_size_content b Hwf) as Hs. pose proof Hwf as [Ha Hpos Hm].
  unfold ibuf_size in Hs. rewrite sz_sub_id in Hs by lia. rewrite <- Hs in *.
  destruct (ib_buf b) as [d|] eqn:Hb.
  - destruct (store_spec d (ib_rpos b + pos) data ltac:(lia) ltac:(lia))
      as (d' & -> & Hl' & Hbef & Haft & Hat).
    simpl. eexists. split; [done|]. split; [constructor; simpl; [by rewrite Hl'|done|done]|].
    unfold ibuf_content. simpl. rewrite Hb. simpl.
    replace (ib_wpos b - ib_rpos b)
      with (pos + (blen data + (ib_wpos b - ib_rpos b - pos - blen data))) at 1 by lia.
    rewrite !sub_bytes_split by (rewrite ?Hl'; lia).
    rewrite Hbef, Hat, Haft by lia. unfold sub_bytes. simpl. rewrite drop_0.
    rewrite take_take, Nat.min_l by lia. do 2 f_equal.
    rewrite !take_drop_commute, drop_drop, take_take, Nat.min_r by lia.
    f_equal; [lia|f_equal; lia].
  - assert (data = []) as -> by (destruct data; [done|unfold blen in *; simpl in *; lia]).
    unfold store. simpl. eexists. split; [done|].
    split; [constructor; simpl; [exact Ha|exact Hpos|exact Hm]|].
    unfold ibuf_content, sub_bytes. simpl. rewrite Hb. simpl. repeat rewrite ?drop_nil, ?take_nil. done.
Qed.

Lemma new_spec alloc data :
  blen data < size_max →
  match ibuf_new alloc (Some data) (blen data) with
  | Ok (Some b) => alloc = true ∧ blen data ≤ IKED_MSGBUF_MAX ∧ ibuf_wf b ∧ ibuf_content b = data
  | Ok None => alloc = false ∨ IKED_MSGBUF_MAX < blen data
  | Fault _ => False
  end.
Proof.
  intros Hlt. unfold ibuf_new, ibuf_dynamic. simpl (IKED_MSGBUF_MAX =? 0). simpl orb.
  pose proof (blen_nonneg data).
  destruct (Z.ltb_spec IKED_MSGBUF_MAX (blen data)); [by right|]. destruct alloc; [|by left].
  set (b0 := mk_ibuf _ _ _ _ _ _).
  assert (Hwf : ibuf_wf b0).
  { unfold b0, calloc_buf, IKED_MSGBUF_MAX in *. constructor; simpl; [|unfold size_max; lia..].
    destruct (Z.ltb_spec 0 (blen data)); [by apply blen_zeros|lia]. }
  destruct (Z.eqb_spec (blen data) 0) as [E|E].
  - split_and!; [done|lia|done|]. destruct data; [|unfold blen in E; simpl in E; lia].
    done.
  - unfold rd. rewrite !(proj2 (Z.leb_le _ _)) by lia. simpl. rewrite sub_bytes_all.
    destruct (add_spec true b0 data Hwf Hlt) as (r & b' & -> & Hwf' & _ & _ & Hr). simpl.
    destruct Hr as [(-> & _ & Hc & _)|(-> & Hn & _)]; simpl.
    + split_and!; [done|lia|done|]. by rewrite Hc.
    + exfalso. apply Hn. unfold ibuf_fits, b0, IBUF_FD_MARK_ON_STACK, IKED_MSGBUF_MAX in *. simpl.
      split_and!; [lia|lia|by left|left; lia].
Qed.

Lemma new_spec_len alloc data len :
  0 ≤ len ≤ blen data → blen data < size_max →
  ∃ o, ibuf_new alloc (Some data) len = Ok o ∧
    match o with
    | Some b => alloc = true ∧ len ≤ IKED_MSGBUF_MAX ∧ ibuf_wf b ∧
        ibuf_content b = sub_bytes 0 len data
    | None => alloc = false ∨ IKED_MSGBUF_MAX < len
    end.
Proof.
  intros Hl Hd. pose proof (new_spec alloc (sub_bytes 0 len data)) as H.
  rewrite blen_sub_bytes in H by lia. specialize (H ltac:(lia)).
  assert (E : ibuf_new alloc (Some data) len = ibuf_new alloc (Some (sub_bytes 0 len data)) len).
  { unfold ibuf_new, rd. rewrite (blen_sub_bytes 0 len data) by lia.
    rewrite !(proj2 (Z.leb_le _ _)) by lia. simpl.
    replace (sub_bytes 0 len (sub_bytes 0 len data)) with (sub_bytes 0 len data); [done|].
    symmetry. rewrite <- (blen_sub_bytes 0 len data) at 1 by lia. apply sub_bytes_all. }
  rewrite E. destruct (ibuf_new _ _ _) as [[b|]|]; [by exists (Some b)|by exists None|done].
Qed.

Lemma sub_zeros len : 0 ≤ len → sub_bytes 0 len (zeros len) = zeros len.
Proof. intros Hl. rewrite <- (blen_zeros len) at 1 by lia. apply sub_bytes_all. Qed.

Lemma new_zeros_eq alloc len :
  0 ≤ len → ibuf_new alloc None len = ibuf_new alloc (Some (zeros len)) len.
Proof.
  intros Hl. unfold ibuf_new, rd. rewrite blen_zeros, !(proj2 (Z.leb_le _ _)) by lia. simpl.
  rewrite sub_zeros by done. destruct (ibuf_dynamic _ _ _); [|done]. by rewrite ibuf_add_zero_add by lia.
Qed.

Lemma new_zeros alloc len :
  0 ≤ len < size_max →
  ∃ o, ibuf_new alloc None len = Ok o ∧
    match o with
    | Some b => alloc = true ∧ len ≤ IKED_MSGBUF_MAX ∧ ibuf_wf b ∧ ibuf_content b = zeros len
    | None => alloc = false ∨ IKED_MSGBUF_MAX < len
    end.
Proof.
  intros Hl. pose proof (sub_zeros len) as Hz. pose proof (new_zeros_eq alloc len) as E.
  destruct (new_spec_len alloc (zeros len) len) as (o & Ho & H); [rewrite blen_zeros; lia..|].
  exists o. rewrite E by lia. split; [done|]. destruct o; [|done].
  destruct H as (? & ? & ? & ->). by rewrite Hz by lia.
Qed.

Lemma num_roundtrip alloc b n v b1 :
  ibuf_wf b → 0 ≤ v < 256 ^ Z.of_nat n → Z.of_nat n < size_max →
  ibuf_add alloc b (be_encode n v) = Ok (0, b1) →
  ∃ b2 b3, ibuf_skip b1 (blen (ibuf_content b)) = (0, b2) ∧
    get_num (ibuf_get b2 (Z.of_nat n)) = Ok (Some v, b3) ∧ ibuf_content b3 = [].
Proof.
  intros Hwf Hv Hn Hadd.
  assert (Hlen : blen (be_encode n v) = Z.of_nat n) by (unfold blen; by rewrite length_be_encode).
  destruct (add_spec alloc b (be_encode n v) Hwf ltac:(lia)) as (r & b' & E & Hwf1 & _ & _ & Hr).
  rewrite Hadd in E. injection E as <- <-. destruct Hr as [(_ & _ & Hc & _)|(? & _)]; [|done].
  assert (Hsz : blen (ibuf_content b1) = blen (ibuf_content b) + Z.of_nat n)
    by (by rewrite Hc, blen_app, Hlen).
  pose proof (blen_nonneg (ibuf_content b)).
  destruct (advance_spec b1 (blen (ibuf_content b)) Hwf1 ltac:(lia)) as [Hwf2 Hc2].
  unfold ibuf_skip. rewrite ibuf_size_content by done. rewrite (proj2 (Z.ltb_ge _ _)) by lia.
  set (b2 := set_ib_rpos _ b1) in *.
  assert (Hc2' : ibuf_content b2 = be_encode n v)
    by (by rewrite Hc2, Hc; unfold blen; rewrite Nat2Z.id, drop_app_length).
  pose proof (get_spec b2 (Z.of_nat n) Hwf2 ltac:(lia)) as Hg.
  rewrite Hc2', Hlen, Z.leb_refl in Hg. destruct Hg as (b3 & Hg & _ & Hc3).
  exists b2, b3. split; [done|]. rewrite Hg. simpl. rewrite Nat2Z.id in *.
  rewrite take_ge by (rewrite length_be_encode; lia). rewrite be_decode_encode by done.
  split; [done|]. rewrite Hc3, drop_ge; [done|]. rewrite length_be_encode. lia.
Qed.

(** [ibuf_add] is memory safe and appends: it either reports success and
    the content grows by exactly the data, which happens just when the buffer
    may grow that far, or fails and changes nothing. *)
Theorem ibuf_add_refines alloc b data :
  ibuf_wf b → blen data < size_max →
  ∃ r b', ibuf_add alloc b data = Ok (r, b') ∧ ibuf_wf b' ∧
    (r = 0 ∧ ibuf_fits alloc b (blen data) ∧ ibuf_content b' = ibuf_content b ++ data ∨
     r = -1 ∧ ¬ ibuf_fits alloc b (blen data) ∧ b' = b).
Proof.
  intros Hwf Hl. destruct (add_spec alloc b data Hwf Hl) as (r & b' & ? & ? & _ & _ & Hr).
  exists r, b'. split_and!; [done|done|]. destruct Hr as [(? & ? & ? & _)|?]; [by left|by right].
Qed.

(** [ibuf_set] overwrites in place: within the content it replaces the
    addressed bytes and nothing else, beyond it it fails without a store. *)
Theorem ibuf_set_refines b pos data :
  ibuf_wf b → 0 ≤ pos < size_max → blen data < size_max →
  if pos + blen data <=? blen (ibuf_content b) then
    ∃ b', ibuf_set b pos data = Ok (0, b') ∧ ibuf_wf b' ∧
      ibuf_content b' = sub_bytes 0 pos (ibuf_content b) ++ data ++
        sub_bytes (pos + blen data) (blen (ibuf_content b) - pos - blen data) (ibuf_content b)
  else ibuf_set b pos data = Ok (-1, b).
Proof. apply set_spec. Qed.

(** C40: numbers written to a buffer are read back: after a successful
    [ibuf_add_n8/16/32/64] of an in-range value, skipping the earlier content
    and reading with the matching [ibuf_get_n*] yields the value and leaves
    the buffer empty. *)
Theorem ibuf_numbers_roundtrip alloc b w add get v b1 :
  (w, add, get) ∈ [(1, ibuf_add_n8, ibuf_get_n8); (2, ibuf_add_n16, ibuf_get_n16);
                   (4, ibuf_add_n32, ibuf_get_n32); (8, ibuf_add_n64, ibuf_get_n64)] →
  ibuf_wf b → 0 ≤ v < 256 ^ w → add alloc b v = Ok (0, b1) →
  ∃ b2 b3, ibuf_skip b1 (blen (ibuf_content b)) = (0, b2) ∧
    get b2 = Ok (Some v, b3) ∧ ibuf_content b3 = [].
Proof.
  intros Hin Hwf Hv Hadd.
  assert (Hadd' : ibuf_add alloc b (be_encode (Z.to_nat w) v) = Ok (0, b1) ∧ 0 ≤ w < size_max ∧
    ∀ b2, get b2 = get_num (ibuf_get b2 w)).
  { repeat (apply elem_of_cons in Hin as [Hin|Hin]; [simplify_eq|]); [..|by apply elem_of_nil in Hin];
      unfold ibuf_add_n8, ibuf_add_n16, ibuf_add_n32 in Hadd; try destruct (_ <? v); done. }
  destruct Hadd' as (Ha & Hw & Hg).
  replace w with (Z.of_nat (Z.to_nat w)) in Hv by lia.
  destruct (num_roundtrip alloc b _ v b1 Hwf Hv ltac:(lia) Ha) as (b2 & b3 & ? & Hgn & ?).
  rewrite Z2Nat.id in Hgn by lia. exists b2, b3. by rewrite Hg.
Qed.

(** [ibuf_new] copies: it returns a buffer that holds exactly the data,
    or nothing when memory runs out or the data exceed the 8 kB the daemon
    allows a message. *)
Theorem ibuf_new_content alloc data :
  blen data < size_max →
  match ibuf_new alloc (Some data) (blen data) with
  | Ok (Some b) => alloc = true ∧ blen data ≤ IKED_MSGBUF_MAX ∧ ibuf_wf b ∧ ibuf_content b = data
  | Ok None => alloc = false ∨ IKED_MSGBUF_MAX < blen data
  | Fault _ => False
  end.
Proof. apply new_spec. Qed.

Definition demo_ibuf : ibuf := mk_ibuf (Some (zeros 4)) 4 64 3 1 (-1).

Lemma demo_ibuf_wf : ibuf_wf demo_ibuf.
Proof. constructor; vm_compute; intuition discriminate. Qed.

Lemma ibuf_add_refines_witness :
  ∃ r b', ibuf_add true demo_ibuf [x01; x02] = Ok (r, b') ∧ ibuf_wf b'.
Proof.
  destruct (ibuf_add_refines true demo_ibuf [x01; x02]) as (r & b' & H & Hwf & _).
  - apply demo_ibuf_wf.
  - vm_compute. reflexivity.
  - exists r, b'. split; assumption.
Defined.

Lemma ibuf_set_refines_witness :
  ∃ b', ibuf_set demo_ibuf 1 [x07] = Ok (0, b') ∧ ibuf_wf b' ∧ ibuf_content b' = [x00; x07].
Proof.
  assert (H := ibuf_set_refines demo_ibuf 1 [x07] demo_ibuf_wf).
  apply H; vm_compute; [split; [discriminate|reflexivity]|reflexivity].
Defined.

Lemma ibuf_numbers_roundtrip_witness :
  ∃ b1 b2 b3, ibuf_add_n16 true demo_ibuf 258 = Ok (0, b1) ∧
    ibuf_skip b1 2 = (0, b2) ∧ ibuf_get_n16 b2 = Ok (Some 258, b3) ∧ ibuf_content b3 = [].
Proof.
  destruct (ibuf_numbers_roundtrip true demo_ibuf 2 ibuf_add_n16 ibuf_get_n16 258
    (mk_ibuf (Some [x00; x00; x00; x01; x02]) 5 64 5 1 (-1))) as (b2 & b3 & H).
  - right. left.
  - apply demo_ibuf_wf.
  - lia.
  - vm_compute. reflexivity.
  - exists (mk_ibuf (Some [x00; x00; x00; x01; x02]) 5 64 5 1 (-1)), b2, b3.
    split; [vm_compute; reflexivity|exact H].
Defined.

Lemma ibuf_new_content_witness :
  match ibuf_new true (Some [x01; x02]) 2 with
  | Ok (Some b) => ibuf_content b = [x01; x02]
  | _ => False
  end.
Proof.
  assert (H := ibuf_new_content true [x01; x02] ltac:(vm_compute; reflexivity)).
  change (blen [x01; x02]) with 2 in H.
  destruct (ibuf_new true (Some [x01; x02]) 2) as [[b|]|f].
  - apply H.
  - destruct H as [H|H]; [discriminate|vm_compute in H; discriminate].
  - exact H.
Defined.
