(* ===== verification/Build.v ===== *)
(** * Building messages: [ikev2_add_*] of [ikev2.c]

    A message is built in a buffer of fixed size ([ibuf_static]): a function
    reserves room at the end and writes through the pointer it gets, which the
    model keeps as the offset into the allocation. [ikev2_add_proposals] also
    updates the SPIs of the proposals it sends. Allocations are only made when a
    buffer has to grow. *)

From S2P Require Import Prelude Types Proposals Ibuf.

Record bstate := mk_bstate { bs_buf : ibuf; bs_alloc : list bool }.
Abbreviation B := (M bstate).

(** ** Primitives *)

(** [ibuf_reserve], with an allocation only where the buffer has to grow. *)
Definition b_reserve (len : Z) : B (option Z) := λ s,
  let buf := bs_buf s in
  let '(a, l) :=
    if ib_size buf <? (ib_wpos buf + len)%sz then
      match bs_alloc s with [] => (true, []) | a :: l => (a, l) end
    else (true, bs_alloc s) in
  let '(p, buf) := ibuf_reserve a buf len in
  Ok (p, mk_bstate buf l).

(** A store through a pointer into the buffer. *)
Definition b_put (off : Z) (data : bytes) : B unit := λ s,
  match store (ib_buf (bs_buf s)) off data with
  | Ok nb => Ok (tt, mk_bstate (set_ib_buf nb (bs_buf s)) (bs_alloc s))
  | Fault f => Fault f
  end.

(** [ibuf_add]. *)
Definition b_add (data : bytes) : B Z :=
  o ← b_reserve (blen data);
  match o with
  | None => mret (-1)
  | Some p => _ ← b_put p data; mret 0
  end.

(** A 16-bit number in the byte order of the host (little endian). *)
Definition host16 (v : Z) : bytes := [bZ v; bZ (v / 256)].

(** ** Headers *)

Definition ikev2_add_header (hdr : iked_sahdr) (msgid nextpayload exchange flags : Z)
  : B (option Z) :=
  o ← b_reserve sizeof_ike_header;
  match o with
  | None => mret None
  | Some p =>
      _ ← b_put p (be_encode 8 (sh_ispi hdr));
      _ ← b_put (p + 8) (be_encode 8 (sh_rspi hdr));
      _ ← b_put (p + 16) [bZ nextpayload];
      _ ← b_put (p + 17) [bZ IKEV2_VERSION];
      _ ← b_put (p + 18) [bZ exchange];
      _ ← b_put (p + 20) (be_encode 4 msgid);
      _ ← b_put (p + 24) (be_encode 4 sizeof_ike_header);
      _ ← b_put (p + 19)
            [bZ (if sh_initiator hdr then Z.lor flags IKEV2_FLAG_INITIATOR else flags)];
      mret (Some p)
  end.

(** The check on the 32-bit [hdrlength] never fires. *)
Definition ikev2_set_header (hdr length : Z) : B Z :=
  let hdrlength := to_u32 (sizeof_ike_header + length) in
  if UINT32_MAX <? hdrlength then mret (-1)
  else _ ← b_put (hdr + 24) (be_encode 4 (sizeof_ike_header + length)); mret 0.

Definition ikev2_add_payload : B (option Z) :=
  o ← b_reserve sizeof_payload;
  match o with
  | None => mret None
  | Some p =>
      _ ← b_put p [bZ IKEV2_PAYLOAD_NONE];
      _ ← b_put (p + 2) (host16 sizeof_payload);
      mret (Some p)
  end.

Definition ikev2_next_payload (pld length nextpayload : Z) : B Z :=
  let pldlength := (sizeof_payload + length)%sz in
  if UINT16_MAX <? pldlength then mret (-1)
  else
    _ ← b_put (pld + 2) (be_encode 2 pldlength);
    _ ← b_put pld [bZ nextpayload];
    mret 0.

Definition ikev2_add_data (data : bytes) : B Z := b_add data.

(** ** Notifications *)

(** Returns the length, or -1, and the new payload pointer. *)
Definition ikev2_add_notify (pld : option Z) (len notify : Z) : B (Z * option Z) :=
  r ← match pld with
      | Some p => ikev2_next_payload p len IKEV2_PAYLOAD_NOTIFY
      | None => mret 0
      end;
  if r =? -1 then mret (-1, pld)
  else
    pld ← ikev2_add_payload;
    match pld with
    | None => mret (-1, None)
    | Some _ =>
        o ← b_reserve sizeof_notify;
        match o with
        | None => mret (-1, pld)
        | Some n =>
            _ ← b_put n [x00];
            _ ← b_put (n + 1) [x00];
            _ ← b_put (n + 2) (be_encode 2 notify);
            mret (sizeof_notify, pld)
        end
    end.

(** ** SA payloads *)

Definition ikev2_add_transform (more type id length : Z) : B Z :=
  o ← b_reserve sizeof_xfrm;
  match o with
  | None => mret (-1)
  | Some p =>
      _ ← b_put p [bZ more];
      _ ← b_put (p + 4) [bZ type];
      _ ← b_put (p + 6) (be_encode 2 id);
      if negb (length =? 0) then
        _ ← b_put (p + 2) (be_encode 2 (sizeof_xfrm + sizeof_attr));
        o ← b_reserve sizeof_attr;
        match o with
        | None => mret (-1)
        | Some q =>
            _ ← b_put q (be_encode 2 (Z.lor IKEV2_ATTRAF_TV IKEV2_ATTRTYPE_KEY_LENGTH));
            _ ← b_put (q + 2) (be_encode 2 length);
            mret (sizeof_xfrm + sizeof_attr)
        end
      else _ ← b_put (p + 2) (be_encode 2 sizeof_xfrm); mret sizeof_xfrm
  end.

(** Is the proposal one of those to send? *)
Definition prop_selected (protoid : Z) (prop : iked_proposal) : bool :=
  negb ((negb (protoid =? 0) && negb (prop_protoid prop =? protoid)) ||
        ((protoid =? 0) && (prop_protoid prop =? IKEV2_SAPROTO_IKE))).

(** [prop_skipdh]: leave out the groups. *)
Definition is_dh (x : iked_transform) : bool := xform_type x =? IKEV2_XFORMTYPE_DH.
Definition prop_skipdh (protoid : Z) (skipdh : bool) (prop : iked_proposal) : bool :=
  if negb (protoid =? IKEV2_SAPROTO_IKE) &&
     forallb (λ x, negb (is_dh x && negb (xform_id x =? IKEV2_XFORMDH_NONE))) (prop_xforms prop)
  then true else skipdh.

Definition prop_nxforms_sent (nodh : bool) (prop : iked_proposal) : Z :=
  Z.of_nat (length (if nodh then filter (λ x, is_dh x = false) (prop_xforms prop)
                    else prop_xforms prop)).

(** The transforms of one proposal: the length they take, [None] on error. *)
Fixpoint add_xforms (nodh : bool) (nxforms xfi : Z) (xs : list iked_transform) (saplength : Z)
  : B (option Z) :=
  match xs with
  | [] => mret (Some saplength)
  | x :: xs =>
      if nodh && is_dh x then add_xforms nodh nxforms xfi xs saplength
      else
        xflen ← ikev2_add_transform
          (if xfi =? to_u32 (nxforms - 1) then IKEV2_XFORM_LAST else IKEV2_XFORM_MORE)
          (xform_type x) (xform_id x) (xform_length x);
        if xflen =? -1 then mret None
        else add_xforms nodh nxforms (xfi + 1) xs (saplength + xflen)
  end.

(** The SPI of a proposal; the length so far, [None] on error. *)
Definition add_spi (s : iked_spi) (saplength : Z) : B (option Z) :=
  if spi_size s =? 4 then
    r ← b_add (be_encode 4 (spi s)); mret (if r =? 0 then Some (saplength + 4) else None)
  else if spi_size s =? 8 then
    r ← b_add (be_encode 8 (spi s)); mret (if r =? 0 then Some (saplength + 8) else None)
  else mret (Some saplength).

(** What the environment contributes to [ikev2_add_proposals]: the SA's
    header and the SPI the kernel hands out ([ipsec_sa_init], [None] on
    failure). *)
Section proposals.
Context (hdr : iked_sahdr) (ipsec_sa_init : Z → option Z).
Context (protoid : Z) (initiator sendikespi skipdh : bool).

(** The SPI of a child SA to offer: the one drawn for an earlier proposal,
    or a new one. *)
Definition child_spi (prop : iked_proposal) (spi : Z) : option Z :=
  if spi =? 0 then ipsec_sa_init (prop_protoid prop) else Some spi.

(** The proposal with the SPI drawn for a child SA, and that SPI. *)
Definition prop_child_spi (prop : iked_proposal) (spi : Z) : option (iked_proposal * Z) :=
  if negb (protoid =? IKEV2_SAPROTO_IKE) && initiator then
    spi ← child_spi prop spi;
    Some (set_prop_localspi (mk_spi spi 4 (prop_protoid prop)) prop, spi)
  else Some (prop, spi).

(** Special case for IKE SA rekeying. *)
Definition prop_ike_spi (prop : iked_proposal) : iked_proposal :=
  if sendikespi then
    set_prop_localspi (mk_spi (if initiator then sh_ispi hdr else sh_rspi hdr) 8
      IKEV2_SAPROTO_IKE) prop
  else prop.

(** One proposal, its header at [sap]: the length it takes. *)
Definition add_proposal (sap : Z) (prop : iked_proposal) : B (option Z) :=
  let nodh := prop_skipdh protoid skipdh prop in
  let nxforms := prop_nxforms_sent nodh prop in
  _ ← b_put sap [bZ IKEV1_PAYLOAD_PROPOSAL];
  _ ← b_put (sap + 4) [bZ (prop_id prop)];
  _ ← b_put (sap + 5) [bZ (prop_protoid prop)];
  _ ← b_put (sap + 6) [bZ (spi_size (prop_localspi prop))];
  _ ← b_put (sap + 7) [bZ nxforms];
  o ← add_spi (prop_localspi prop) sizeof_sap;
  match o with
  | None => mret None
  | Some saplength =>
      o ← add_xforms nodh nxforms 0 (prop_xforms prop) saplength;
      match o with
      | None => mret None
      | Some saplength => _ ← b_put (sap + 2) (be_encode 2 saplength); mret (Some saplength)
      end
  end.

(** The loop over the proposals: [sent] has those done, with their SPIs. The
    result is the length or -1, and the proposals as they are left. *)
Fixpoint add_proposals_loop (props sent : list iked_proposal) (spi : Z) (sap : option Z) (length : Z)
  : B (Z * list iked_proposal) :=
  match props with
  | [] =>
      _ ← match sap with Some p => b_put p [bZ IKEV1_PAYLOAD_NONE] | None => mret tt end;
      mret (length, sent)
  | prop :: props =>
      if negb (prop_selected protoid prop)
      then add_proposals_loop props (sent ++ [prop]) spi sap length
      else match prop_child_spi prop spi with
           | None => mret (-1, sent ++ prop :: props)
           | Some (prop, spi) =>
               o ← b_reserve sizeof_sap;
               match o with
               | None => mret (-1, sent ++ prop :: props)
               | Some sap =>
                   let prop' := prop_ike_spi prop in
                   o ← add_proposal sap prop';
                   match o with
                   | None => mret (-1, sent ++ prop' :: props)
                   | Some len =>
                       add_proposals_loop props (sent ++ [prop']) spi (Some sap) (length + len)
                   end
               end
           end
  end.

Definition ikev2_add_proposals (props : list iked_proposal) : B (Z * list iked_proposal) :=
  add_proposals_loop props [] 0 None 0.
End proposals.

(** ** Static buffers *)

(** A buffer of fixed size [cap] holding [c]; the rest is still zero. *)
Definition static_buf (cap : Z) (c : bytes) : ibuf :=
  mk_ibuf (Some (c ++ zeros (cap - blen c))) cap cap (blen c) 0 (-1).
Definition st (cap : Z) (c : bytes) (l : list bool) : bstate := mk_bstate (static_buf cap c) l.

Definition upd_at (off : Z) (data c : bytes) : bytes :=
  take (Z.to_nat off) c ++ data ++ drop (Z.to_nat off + length data) c.

Lemma zeros_split a b : 0 ≤ a → 0 ≤ b → zeros (a + b) = zeros a ++ zeros b.
Proof. intros. unfold zeros. rewrite Z2Nat.inj_add by lia. by rewrite replicate_add. Qed.

Section static.
Context (cap : Z).
Hypothesis Hcap : 0 < cap < 2 ^ 32.

Lemma reserve_run c l n :
  0 ≤ n → blen c + n ≤ cap →
  b_reserve n (st cap c l) = Ok (Some (blen c), st cap (c ++ zeros n) l).
Proof.
  intros Hn Hc. pose proof (blen_nonneg c). unfold b_reserve, st. cbn [bs_buf bs_alloc].
  change (ib_size (static_buf cap c)) with cap. change (ib_wpos (static_buf cap c)) with (blen c).
  rewrite sz_add_id by (unfold size_max; lia). rewrite (proj2 (Z.ltb_ge _ _)) by lia.
  unfold ibuf_reserve, static_buf, SIZE_MAX. cbn [ib_size ib_wpos ib_max ib_fd ib_buf].
  rewrite sz_sub_id, sz_add_id by (unfold size_max; lia).
  rewrite !(proj2 (Z.ltb_ge _ _)) by (unfold size_max; lia). cbn. do 3 f_equal.
  rewrite blen_app, blen_zeros by lia. unfold set_ib_wpos. simpl. f_equal. f_equal.
  rewrite <- app_assoc, <- zeros_split by lia. do 2 f_equal. lia.
Qed.

Lemma reserve_full c l n :
  0 ≤ n → n < 2 ^ 32 → blen c ≤ cap → cap < blen c + n →
  ∃ l', b_reserve n (st cap c l) = Ok (None, st cap c l').
Proof.
  intros Hn Hn' Hc Hf. pose proof (blen_nonneg c). unfold b_reserve, st. cbn [bs_buf bs_alloc].
  change (ib_size (static_buf cap c)) with cap. change (ib_wpos (static_buf cap c)) with (blen c).
  rewrite sz_add_id by (unfold size_max; lia). rewrite (proj2 (Z.ltb_lt _ _)) by lia.
  assert (E : ∀ a, ibuf_reserve a (static_buf cap c) n = (None, static_buf cap c)).
  { intros a. unfold ibuf_reserve, static_buf, SIZE_MAX. cbn [ib_size ib_wpos ib_max ib_fd].
    rewrite sz_sub_id, sz_add_id by (unfold size_max; lia).
    rewrite (proj2 (Z.ltb_ge _ _)) by (unfold size_max; lia). cbn.
    by rewrite (proj2 (Z.ltb_lt _ _)) by lia. }
  destruct l as [|a l]; rewrite E; eauto.
Qed.

Lemma put_run c l off data :
  0 ≤ off → off + blen data ≤ blen c →
  b_put off data (st cap c l) = Ok (tt, st cap (upd_at off data c) l).
Proof.
  intros Ho Hd. unfold b_put, st. cbn [bs_buf bs_alloc ib_buf static_buf]. unfold store.
  pose proof (blen_nonneg (zeros (cap - blen c))).
  rewrite blen_app, (proj2 (Z.leb_le _ _)), (proj2 (Z.leb_le _ _)) by lia. cbn [andb].
  do 3 f_equal. unfold set_ib_buf, static_buf, upd_at. simpl.
  assert (E : blen (take (Z.to_nat off) c ++ data ++ drop (Z.to_nat off + length data) c) = blen c).
  { unfold blen in *. rewrite !length_app, length_take, length_drop. lia. }
  rewrite E. f_equal. f_equal. unfold blen in *.
  rewrite take_app_le by lia. rewrite drop_app_le by lia. by rewrite <- !app_assoc.
Qed.

(** Stores into the part [y] added last. *)
Lemma upd_at_app c y k data :
  0 ≤ k → upd_at (blen c + k) data (c ++ y) = c ++ upd_at k data y.
Proof.
  intros Hk. unfold upd_at, blen. rewrite Z2Nat.inj_add, Nat2Z.id by lia.
  rewrite take_app_add, <- !app_assoc, <- Nat.add_assoc, drop_app_add. done.
Qed.

Lemma put_tail c y l k data :
  0 ≤ k → k + blen data ≤ blen y →
  b_put (blen c + k) data (st cap (c ++ y) l) = Ok (tt, st cap (c ++ upd_at k data y) l).
Proof.
  intros Hk Hd. pose proof (blen_nonneg c).
  rewrite put_run by (rewrite ?blen_app; lia). by rewrite upd_at_app.
Qed.

Lemma put_tail0 c y l data :
  blen data ≤ blen y →
  b_put (blen c) data (st cap (c ++ y) l) = Ok (tt, st cap (c ++ upd_at 0 data y) l).
Proof. intros Hd. rewrite <- (put_tail c y l 0) by lia. by rewrite Z.add_0_r. Qed.

Lemma add_run c l data :
  blen c + blen data ≤ cap → b_add data (st cap c l) = Ok (0, st cap (c ++ data) l).
Proof.
  intros Hc. unfold b_add. pose proof (blen_nonneg data).
  erewrite bind_run; [|by apply reserve_run]. cbv beta iota.
  erewrite bind_run; [|apply put_tail0; by rewrite blen_zeros]. do 3 f_equal.
  unfold upd_at, zeros, blen. simpl. rewrite Nat2Z.id, drop_replicate, Nat.sub_diag. simpl.
  by rewrite app_nil_r.
Qed.
End static.

(** The builders' steps on a static buffer. *)
Ltac brun :=
  repeat first
    [ erewrite bind_run; [|apply put_tail0; unfold blen; simpl; lia]
    | erewrite bind_run; [|apply put_tail; unfold blen; simpl; lia]
    | erewrite bind_run; [|apply reserve_run; [done|lia|rewrite ?blen_app; unfold blen in *; simpl in *; lia]]
    | progress cbv beta iota | progress cbn [negb] ].

(** ** The bytes of an SA payload *)

Definition xform_bytes_len (x : iked_transform) : Z := if xform_length x =? 0 then 8 else 12.
Definition enc_xform (more : Z) (x : iked_transform) : bytes :=
  [bZ more; x00] ++ be_encode 2 (xform_bytes_len x) ++ [bZ (xform_type x); x00] ++
  be_encode 2 (xform_id x) ++
  (if xform_length x =? 0 then []
   else be_encode 2 (Z.lor IKEV2_ATTRAF_TV IKEV2_ATTRTYPE_KEY_LENGTH) ++
        be_encode 2 (xform_length x)).

Lemma blen_enc_xform more x : blen (enc_xform more x) = xform_bytes_len x.
Proof. unfold enc_xform, xform_bytes_len. by destruct (xform_length x =? 0). Qed.

(** The transforms sent, the last one marked. *)
Definition sent_xforms (nodh : bool) (xs : list iked_transform) : list iked_transform :=
  if nodh then filter (λ x, is_dh x = false) xs else xs.
Fixpoint enc_xforms (xs : list iked_transform) : bytes :=
  match xs with
  | [] => []
  | x :: xs =>
      enc_xform (match xs with [] => IKEV2_XFORM_LAST | _ => IKEV2_XFORM_MORE end) x ++ enc_xforms xs
  end.

Definition enc_spi (s : iked_spi) : bytes :=
  if spi_size s =? 4 then be_encode 4 (spi s)
  else if spi_size s =? 8 then be_encode 8 (spi s) else [].

Definition enc_prop_len (nodh : bool) (p : iked_proposal) : Z :=
  sizeof_sap + blen (enc_spi (prop_localspi p)) + blen (enc_xforms (sent_xforms nodh (prop_xforms p))).
Definition enc_prop (more : Z) (nodh : bool) (p : iked_proposal) : bytes :=
  [bZ more; x00] ++ be_encode 2 (enc_prop_len nodh p) ++
  [bZ (prop_id p); bZ (prop_protoid p); bZ (spi_size (prop_localspi p));
   bZ (Z.of_nat (length (sent_xforms nodh (prop_xforms p))))] ++
  enc_spi (prop_localspi p) ++ enc_xforms (sent_xforms nodh (prop_xforms p)).

Lemma blen_enc_prop more nodh p : blen (enc_prop more nodh p) = enc_prop_len nodh p.
Proof.
  unfold enc_prop. rewrite !blen_app. unfold enc_prop_len, sizeof_sap.
  change (blen [_; _]) with 2. change (blen (be_encode 2 _)) with 2. change (blen [_; _; _; _]) with 4.
  lia.
Qed.

Section sa_bytes.
Context (cap : Z).
Hypothesis Hcap : 0 < cap < 2 ^ 32.

Lemma add_transform_run c l more x :
  blen c + xform_bytes_len x ≤ cap →
  ikev2_add_transform more (xform_type x) (xform_id x) (xform_length x) (st cap c l) =
    Ok (xform_bytes_len x, st cap (c ++ enc_xform more x) l).
Proof.
  unfold xform_bytes_len, ikev2_add_transform, enc_xform, xform_bytes_len. intros Hc.
  destruct (xform_length x =? 0) eqn:E; unfold sizeof_xfrm, sizeof_attr; brun; [done|].
  by rewrite <- app_assoc.
Qed.

Lemma sent_xforms_cons nodh x xs :
  sent_xforms nodh (x :: xs) =
    if nodh && is_dh x then sent_xforms nodh xs else x :: sent_xforms nodh xs.
Proof.
  unfold sent_xforms. destruct nodh; simpl; [|done]. rewrite filter_cons.
  by destruct (is_dh x); case_decide.
Qed.

Lemma add_xforms_run nodh nx xfi xs c l saplen :
  xfi + Z.of_nat (length (sent_xforms nodh xs)) = nx → 0 ≤ xfi → nx < 2 ^ 32 →
  blen c + blen (enc_xforms (sent_xforms nodh xs)) ≤ cap →
  add_xforms nodh nx xfi xs saplen (st cap c l) =
    Ok (Some (saplen + blen (enc_xforms (sent_xforms nodh xs))),
        st cap (c ++ enc_xforms (sent_xforms nodh xs)) l).
Proof.
  revert xfi c saplen. induction xs as [|x xs IH]; intros xfi c saplen Hn Hx Hnx Hc.
  { replace (sent_xforms nodh []) with (@nil iked_transform) by (by destruct nodh).
    simpl. rewrite app_nil_r. change (blen []) with 0. by rewrite Z.add_0_r. }
  rewrite sent_xforms_cons in *. simpl add_xforms. destruct (nodh && is_dh x); [by apply IH|].
  set (ys := sent_xforms nodh xs) in *. cbn [enc_xforms length] in *. rewrite blen_app in *.
  set (m := match ys with [] => IKEV2_XFORM_LAST | _ => IKEV2_XFORM_MORE end) in *.
  pose proof (blen_nonneg (enc_xforms ys)). rewrite blen_enc_xform in *.
  assert ((if xfi =? to_u32 (nx - 1) then IKEV2_XFORM_LAST else IKEV2_XFORM_MORE) = m) as ->.
  { unfold to_u32. rewrite Z.mod_small by lia. unfold m. destruct ys; simpl length in *.
    - by rewrite (proj2 (Z.eqb_eq _ _)) by lia.
    - by rewrite (proj2 (Z.eqb_neq _ _)) by lia. }
  erewrite bind_run; [|apply add_transform_run; lia]. cbv beta iota.
  rewrite (proj2 (Z.eqb_neq _ _)) by (unfold xform_bytes_len; case_match; lia).
  rewrite IH; [|lia|lia|done|rewrite blen_app, blen_enc_xform; lia].
  rewrite <- app_assoc. do 3 f_equal. lia.
Qed.

Lemma add_spi_run s c l saplen :
  blen c + blen (enc_spi s) ≤ cap →
  add_spi s saplen (st cap c l) = Ok (Some (saplen + blen (enc_spi s)), st cap (c ++ enc_spi s) l).
Proof.
  unfold add_spi, enc_spi. intros Hc.
  repeat case_match; try (erewrite bind_run; [|apply add_run; done]; done).
  rewrite app_nil_r. change (blen []) with 0. by rewrite Z.add_0_r.
Qed.

Lemma add_proposal_run protoid skipdh p c l :
  let nodh := prop_skipdh protoid skipdh p in
  Z.of_nat (length (prop_xforms p)) < 2 ^ 32 →
  blen c + enc_prop_len nodh p ≤ cap →
  add_proposal protoid skipdh (blen c) p (st cap (c ++ zeros sizeof_sap) l) =
    Ok (Some (enc_prop_len nodh p), st cap (c ++ enc_prop IKEV1_PAYLOAD_PROPOSAL nodh p) l).
Proof.
  intros nodh Hn Hc. unfold add_proposal. fold nodh. cbv zeta.
  unfold prop_nxforms_sent. fold (sent_xforms nodh (prop_xforms p)).
  set (xs := sent_xforms nodh (prop_xforms p)).
  assert (Hxs : (length xs ≤ length (prop_xforms p))%nat)
    by (unfold xs, sent_xforms; destruct nodh; [apply length_filter|done]).
  unfold enc_prop_len in *. fold xs in Hc. unfold sizeof_sap in *.
  pose proof (blen_nonneg (enc_xforms xs)). pose proof (blen_nonneg (enc_spi (prop_localspi p))).
  brun. set (y := upd_at 7 _ _).
  assert (Hy : blen (c ++ y) = blen c + 8) by (by rewrite blen_app).
  erewrite bind_run; [|apply add_spi_run; lia]. cbv beta iota.
  erewrite bind_run; [|apply add_xforms_run; [done|done|lia|rewrite blen_app; fold xs; lia]].
  cbv beta iota. rewrite <- !app_assoc. fold xs.
  erewrite bind_run; [|apply put_tail; [lia|rewrite !blen_app; change (blen (be_encode 2 _)) with 2; change (blen y) with 8; lia]].
  done.
Qed.
End sa_bytes.

(** ** The whole payload *)

Section payload.
Context (hdr : iked_sahdr) (ipsec_sa_init : Z → option Z).
Context (protoid : Z) (initiator sendikespi skipdh : bool).

(** The proposals as they are sent, with their SPIs; [None] if the kernel
    has no SPI to give. *)
Fixpoint assign_spis (props : list iked_proposal) (spi : Z) : option (list iked_proposal) :=
  match props with
  | [] => Some []
  | prop :: props =>
      if negb (prop_selected protoid prop) then
        props ← assign_spis props spi; Some (prop :: props)
      else
        '(prop, spi) ← prop_child_spi ipsec_sa_init protoid initiator prop spi;
        props ← assign_spis props spi;
        Some (prop_ike_spi hdr initiator sendikespi prop :: props)
  end.

Definition sent_props (props : list iked_proposal) : list iked_proposal :=
  filter (λ p, prop_selected protoid p = true) props.
Fixpoint enc_props (props : list iked_proposal) : bytes :=
  match props with
  | [] => []
  | p :: props =>
      enc_prop (match props with [] => IKEV1_PAYLOAD_NONE | _ => IKEV1_PAYLOAD_PROPOSAL end)
        (prop_skipdh protoid skipdh p) p ++ enc_props props
  end.

Lemma child_spi_keeps prop spi prop' spi' :
  prop_child_spi ipsec_sa_init protoid initiator prop spi = Some (prop', spi') →
  prop_protoid prop' = prop_protoid prop ∧ prop_xforms prop' = prop_xforms prop.
Proof.
  unfold prop_child_spi. case_match; [|by intros [= <- <-]].
  destruct (child_spi _ _ _); simpl; [|done]. by intros [= <- <-].
Qed.

Lemma ike_spi_keeps prop :
  prop_protoid (prop_ike_spi hdr initiator sendikespi prop) = prop_protoid prop ∧
  prop_xforms (prop_ike_spi hdr initiator sendikespi prop) = prop_xforms prop.
Proof. unfold prop_ike_spi. by destruct sendikespi. Qed.

Context (cap : Z).
Hypothesis Hcap : 0 < cap < 2 ^ 32.

Definition enc_tail (p : iked_proposal) (props : list iked_proposal) : bytes :=
  enc_prop (match props with [] => IKEV1_PAYLOAD_NONE | _ => IKEV1_PAYLOAD_PROPOSAL end)
    (prop_skipdh protoid skipdh p) p ++ enc_props props.

Lemma enc_prop_more p nodh c l :
  b_put (blen c) [bZ IKEV1_PAYLOAD_NONE] (st cap (c ++ enc_prop IKEV1_PAYLOAD_PROPOSAL nodh p) l) =
    Ok (tt, st cap (c ++ enc_prop IKEV1_PAYLOAD_NONE nodh p) l).
Proof. rewrite put_tail0; [done|]. unfold enc_prop. rewrite blen_app. unfold blen. simpl. lia. Qed.

Lemma enc_prop_fits q rest :
  enc_prop_len (prop_skipdh protoid skipdh q) q ≤ blen (enc_tail q rest) ∧
  sizeof_sap ≤ enc_prop_len (prop_skipdh protoid skipdh q) q.
Proof.
  unfold enc_tail. rewrite blen_app, blen_enc_prop. pose proof (blen_nonneg (enc_props rest)).
  split; [lia|]. unfold enc_prop_len. pose proof (blen_nonneg (enc_spi (prop_localspi q))).
  pose proof (blen_nonneg (enc_xforms (sent_xforms (prop_skipdh protoid skipdh q) (prop_xforms q)))).
  lia.
Qed.

Lemma sent_props_cons q ps :
  sent_props (q :: ps) = if prop_selected protoid q then q :: sent_props ps else sent_props ps.
Proof.
  unfold sent_props. rewrite filter_cons. destruct (prop_selected protoid q); by case_decide.
Qed.

Lemma loop_run props sent spi c p len l props' :
  assign_spis props spi = Some props' →
  (∀ q, q ∈ props → Z.of_nat (length (prop_xforms q)) < 2 ^ 32) →
  blen (c ++ enc_tail p (sent_props props')) ≤ cap →
  add_proposals_loop hdr ipsec_sa_init protoid initiator sendikespi skipdh props sent spi
      (Some (blen c)) len
      (st cap (c ++ enc_prop IKEV1_PAYLOAD_PROPOSAL (prop_skipdh protoid skipdh p) p) l) =
    Ok ((len + blen (enc_props (sent_props props')), sent ++ props'),
        st cap (c ++ enc_tail p (sent_props props')) l).
Proof.
  revert sent spi c p len props'.
  induction props as [|q props IH]; intros sent spi c p len props' Ha Hx Hc.
  { simpl in Ha. injection Ha as <-. simpl. erewrite bind_run; [|apply enc_prop_more].
    unfold enc_tail. simpl. rewrite !app_nil_r. change (blen []) with 0. by rewrite Z.add_0_r. }
  simpl in Ha |- *. destruct (prop_selected protoid q) eqn:Hsel; cbn [negb] in *.
  2:{ destruct (assign_spis props spi) as [ps|] eqn:Eps; [|done]. simpl in Ha. injection Ha as <-.
      assert (Es : sent_props (q :: ps) = sent_props ps)
        by (unfold sent_props; rewrite filter_cons, decide_False; [done|congruence]).
      rewrite Es in *. rewrite (IH _ spi _ _ _ ps); try done.
      - by rewrite <- app_assoc.
      - intros q' Hq'. apply Hx. by right. }
  destruct (prop_child_spi _ _ _ q spi) as [[q1 spi1]|] eqn:Eq; [|done]. simpl in Ha.
  destruct (assign_spis props spi1) as [ps|] eqn:Eps; [|done]. simpl in Ha. injection Ha as <-.
  destruct (child_spi_keeps _ _ _ _ Eq) as [Ep1 Ex1]. destruct (ike_spi_keeps q1) as [Ep2 Ex2].
  set (q2 := prop_ike_spi hdr initiator sendikespi q1) in *.
  assert (Es : sent_props (q2 :: ps) = q2 :: sent_props ps).
  { unfold sent_props. rewrite filter_cons, decide_True; [done|].
    unfold prop_selected in *. by rewrite Ep2, Ep1. }
  rewrite Es in *. set (c1 := c ++ enc_prop IKEV1_PAYLOAD_PROPOSAL (prop_skipdh protoid skipdh p) p).
  assert (Etail : c ++ enc_tail p (q2 :: sent_props ps) = c1 ++ enc_tail q2 (sent_props ps))
    by (unfold c1, enc_tail; by rewrite <- app_assoc).
  rewrite Etail in *.
  pose proof (enc_prop_fits q2 (sent_props ps)) as [Hf1 Hf2].
  rewrite blen_app in Hc. unfold sizeof_sap in *.
  erewrite bind_run; [|apply reserve_run; [done|lia|lia]]. cbv beta iota zeta.
  erewrite bind_run; [|apply add_proposal_run; [done| |lia]].
  2:{ rewrite Ex2, Ex1. apply Hx. by left. }
  cbv beta iota. rewrite (IH _ spi1 _ _ _ ps); try done.
  - rewrite <- app_assoc. cbn [enc_props]. rewrite blen_app, blen_enc_prop. do 3 f_equal. lia.
  - intros q' Hq'. apply Hx. by right.
  - rewrite blen_app. lia.
Qed.

(** [ikev2_add_proposals] appends the encoding of the selected proposals. *)
Lemma loop_start props sent spi c l props' :
  assign_spis props spi = Some props' →
  (∀ q, q ∈ props → Z.of_nat (length (prop_xforms q)) < 2 ^ 32) →
  blen c + blen (enc_props (sent_props props')) ≤ cap →
  add_proposals_loop hdr ipsec_sa_init protoid initiator sendikespi skipdh props sent spi None 0
      (st cap c l) =
    Ok ((blen (enc_props (sent_props props')), sent ++ props'),
        st cap (c ++ enc_props (sent_props props')) l).
Proof.
  revert sent spi props'. induction props as [|q props IH]; intros sent spi props' Ha Hx Hc.
  { simpl in Ha. injection Ha as <-. simpl. by rewrite !app_nil_r. }
  assert (Hx' : ∀ q, q ∈ props → Z.of_nat (length (prop_xforms q)) < 2 ^ 32)
    by (intros; apply Hx; by right).
  simpl in Ha |- *. destruct (prop_selected protoid q) eqn:Hsel; cbn [negb] in *.
  2:{ destruct (assign_spis props spi) as [ps|] eqn:Eps; [|done]. simpl in Ha. injection Ha as <-.
      rewrite sent_props_cons, Hsel in *. rewrite (IH _ spi ps); try done. by rewrite <- app_assoc. }
  destruct (prop_child_spi _ _ _ q spi) as [[q1 spi1]|] eqn:Eq; [|done]. simpl in Ha.
  destruct (assign_spis props spi1) as [ps|] eqn:Eps; [|done]. simpl in Ha. injection Ha as <-.
  destruct (child_spi_keeps _ _ _ _ Eq) as [Ep1 Ex1]. destruct (ike_spi_keeps q1) as [Ep2 Ex2].
  set (q2 := prop_ike_spi hdr initiator sendikespi q1) in *.
  assert (Hsel2 : prop_selected protoid q2 = true) by (unfold prop_selected in *; by rewrite Ep2, Ep1).
  rewrite sent_props_cons, Hsel2 in *. change (enc_props (q2 :: sent_props ps))
    with (enc_tail q2 (sent_props ps)) in *.
  pose proof (enc_prop_fits q2 (sent_props ps)) as [Hf1 Hf2]. unfold sizeof_sap in *.
  erewrite bind_run; [|apply reserve_run; [done|lia|lia]]. cbv beta iota zeta.
  erewrite bind_run; [|apply add_proposal_run; [done| |lia]].
  2:{ rewrite Ex2, Ex1. apply Hx. by left. }
  cbv beta iota. rewrite (loop_run _ _ spi1 _ _ _ _ ps); try done.
  - assert (blen (enc_tail q2 (sent_props ps)) = 0 + enc_prop_len (prop_skipdh protoid skipdh q2) q2 +
      blen (enc_props (sent_props ps))) as -> by (unfold enc_tail; by rewrite blen_app, blen_enc_prop).
    by rewrite <- app_assoc.
  - rewrite blen_app. lia.
Qed.

Lemma add_proposals_run props props' c l :
  assign_spis props 0 = Some props' →
  (∀ q, q ∈ props → Z.of_nat (length (prop_xforms q)) < 2 ^ 32) →
  blen c + blen (enc_props (sent_props props')) ≤ cap →
  ikev2_add_proposals hdr ipsec_sa_init protoid initiator sendikespi skipdh props (st cap c l) =
    Ok ((blen (enc_props (sent_props props')), props'),
        st cap (c ++ enc_props (sent_props props')) l).
Proof. intros. by apply loop_start. Qed.
End payload.

(** ** The daemon's buffers

    Both [ibuf_static] and [ibuf_new] make buffers of at most
    [IKED_MSGBUF_MAX] bytes that are written from the start and not read in
    parts: [holds b c] is such a buffer with content [c]. *)

Record holds (b : ibuf) (c : bytes) : Prop := {
  ho_wf : ibuf_wf b;
  ho_content : ibuf_content b = c;
  ho_rpos : ib_rpos b = 0;
  ho_max : ib_max b = IKED_MSGBUF_MAX;
  ho_fd : ib_fd b = -1 }.

Lemma holds_size b c : holds b c → ibuf_size b = blen c.
Proof. intros [Hw <- _ _ _]. by apply ibuf_size_content. Qed.

Lemma holds_wpos b c : holds b c → ib_wpos b = blen c.
Proof.
  intros H. pose proof (holds_size _ _ H) as Hs. destruct H as [[_ Hp _] _ Hr _ _].
  unfold ibuf_size in Hs. rewrite sz_sub_id in Hs by lia. lia.
Qed.

Lemma holds_max b c : holds b c → blen c ≤ IKED_MSGBUF_MAX.
Proof.
  intros H. pose proof (holds_wpos _ _ H). destruct H as [[_ Hp Hm] _ _ Hx Hf].
  rewrite Hf in Hm. unfold IBUF_FD_MARK_ON_STACK in Hm. lia.
Qed.

Lemma holds_data b c : holds b c → ibuf_data b (ibuf_size b) = Ok c.
Proof.
  intros H. rewrite (holds_size _ _ H). destruct H as [Hw <- _ _ _].
  rewrite data_spec; [|done|pose proof (blen_nonneg (ibuf_content b)); lia].
  unfold blen. by rewrite Nat2Z.id, take_ge.
Qed.

Lemma holds_load b c offset len :
  holds b c → 0 ≤ offset → 0 ≤ len → offset + len ≤ blen c →
  load (ib_buf b) offset len = Ok (sub_bytes offset len c).
Proof.
  intros Hb Ho Hl Hol. pose proof (holds_wpos _ _ Hb) as Hw. destruct Hb as [Hwf Hc Hr _ _].
  pose proof (wf_alloc_len _ Hwf) as Ha. destruct Hwf as [_ Hp _]. rewrite <- Hc in *.
  unfold ibuf_content, load in *. rewrite Hr in *. destruct (ib_buf b) as [d|]; simpl in *.
  - unfold rd. rewrite !(proj2 (Z.leb_le _ _)) by lia. simpl. f_equal.
    rewrite sub_bytes_sub by lia. by rewrite Z.add_0_l.
  - rewrite (proj2 (Z.eqb_eq _ _)); [|unfold blen in Ha; simpl in Ha; lia].
    unfold sub_bytes. by rewrite !drop_nil, !take_nil, drop_nil, take_nil.
Qed.

Lemma holds_new c :
  blen c ≤ IKED_MSGBUF_MAX →
  ∃ b, ibuf_new true (Some c) (blen c) = Ok (Some b) ∧ holds b c.
Proof.
  intros Hc. pose proof (blen_nonneg c). unfold ibuf_new, ibuf_dynamic, IKED_MSGBUF_MAX in *.
  rewrite (proj2 (Z.ltb_ge _ _)) by lia. cbn [Z.eqb orb]. set (b0 := mk_ibuf _ _ _ _ _ _).
  assert (H0 : holds b0 []).
  { constructor; try done. unfold b0, calloc_buf. constructor; simpl; [|unfold size_max; lia..].
    destruct (Z.ltb_spec 0 (blen c)); [by apply blen_zeros|lia]. }
  destruct (Z.eqb_spec (blen c) 0) as [E|E].
  { exists b0. split; [done|]. by destruct c. }
  unfold rd. rewrite !(proj2 (Z.leb_le _ _)) by lia. simpl. rewrite sub_bytes_all.
  destruct (add_spec true b0 c (ho_wf _ _ H0)) as (r & b' & -> & Hwf & Hm & Hf & Hr);
    [unfold size_max; lia|].
  destruct Hr as [(-> & _ & Hct & Hrp & _)|(-> & Hn & _)]; simpl.
  - exists b'. split; [done|]. by constructor.
  - exfalso. apply Hn. unfold ibuf_fits, b0, IBUF_FD_MARK_ON_STACK. simpl.
    split_and!; [lia|lia|by left|left; lia].
Qed.

Lemma holds_static c :
  blen c ≤ IKED_MSGBUF_MAX → holds (static_buf IKED_MSGBUF_MAX c) c.
Proof.
  intros Hc. pose proof (blen_nonneg c). unfold static_buf, IKED_MSGBUF_MAX in *.
  constructor; try done; simpl.
  - constructor; simpl; [|unfold size_max; lia..]. rewrite blen_app, blen_zeros by lia. lia.
  - unfold ibuf_content. simpl. rewrite Z.sub_0_r, sub_bytes_app_l by lia. apply sub_bytes_all.
Qed.

(** [b_add] and [ibuf_add]. *)
Lemma b_add_run data b l :
  ∃ a l', b_add data (mk_bstate b l) =
    match ibuf_add a b data with Ok (r, b') => Ok (r, mk_bstate b' l') | Fault f => Fault f end ∧
    (l = [] → a = true ∧ l' = []).
Proof.
  unfold b_add, b_reserve, mbind, M_bind, ibuf_add. simpl.
  destruct (ib_size b <? _).
  - destruct l as [|a l]; [exists true, []|exists a, l].
    all: split; [|done]; destruct (ibuf_reserve _ b _) as [[p|] b']; [|done].
    all: unfold b_put; simpl; unfold mbind, out_bind; by destruct (store _ _ _).
  - exists true, l. split; [|done]. destruct (ibuf_reserve _ b _) as [[p|] b']; [|done].
    unfold b_put; simpl; unfold mbind, out_bind; by destruct (store _ _ _).
Qed.

(** Adding to such a buffer: all or nothing. *)
Lemma holds_add data b c l :
  holds b c → blen data < size_max →
  ∃ r b' l', b_add data (mk_bstate b l) = Ok (r, mk_bstate b' l') ∧
    (r = 0 ∧ holds b' (c ++ data) ∨ r = -1 ∧ b' = b) ∧
    (l = [] → 0 < blen data → blen c + blen data ≤ IKED_MSGBUF_MAX → r = 0 ∧ l' = []).
Proof.
  intros Hb Hd. destruct (b_add_run data b l) as (a & l' & E & Ha). rewrite E.
  destruct (add_spec a b data (ho_wf _ _ Hb) Hd) as (r & b' & -> & Hwf & Hm & Hf & Hr).
  pose proof (holds_wpos _ _ Hb) as Hw. destruct Hb as [Hwf0 Hc Hrp Hmx Hfd].
  exists r, b', l'. split; [done|]. destruct Hr as [(-> & _ & Hct & Hrp' & _)|(-> & Hn & ->)].
  - split; [left; split; [done|]|intros ?; by destruct Ha]. constructor; congruence.
  - split; [by right|]. intros Hl Hp Hle. exfalso. apply Hn. destruct (Ha Hl) as [-> _].
    unfold ibuf_fits. rewrite Hfd, Hmx, Hw. unfold IBUF_FD_MARK_ON_STACK.
    split_and!; [lia|lia|by left|by left].
Qed.
