(* ===== verification/Parse.v ===== *)
(** * The parser's state and primitives

    [ikev2_pld.c] walks a received message with a [struct iked_message] it
    fills in. A decrypted message is a copy of the received one with
    [msg_parent] pointing back at it: the handlers read the copy's data and
    record what they find in the parent. [pstate] holds both, the SA, and what
    the handlers take from their surroundings: the verbosity (which decides
    whether [print_hex] reads its argument), the outcomes of the allocations to
    come, the numbers [arc4random] will return, whether NAT traversal is forced,
    and the messages sent. Functions of third-party or generated code are
    operations of the class [External]. *)

From S2P Require Import Prelude Types Proposals Ibuf.

(** What the parser calls outside the modelled sources. [ext_id_name] is the
    generated [ikev2_id_map]; [ext_asn1_name] prints a DER name (OpenSSL);
    [ext_print_addr] a socket address; [ext_sha1] is SHA-1; [ext_mac] is what an
    HMAC leaves in a buffer of the digest's length; [ext_decrypt] runs a cipher
    over key, IV, additional data, tag and ciphertext, [None] when OpenSSL
    reports an error on the way. *)
Class External := {
  ext_id_name : Z → bytes;
  ext_asn1_name : bytes → option bytes;
  ext_print_addr : sockaddr → bytes;
  ext_sha1 : bytes → bytes;
  ext_mac : iked_hash → bytes → bytes → bytes;
  ext_decrypt : iked_cipher → bytes → bytes → bytes → bytes → bytes → option bytes }.

(** What the parser relies on: lengths that the OpenSSL documentation fixes.
    A decryption without padding returns as many bytes as it was given. *)
Class ExternalLaws `{!External} := {
  ext_sha1_length b : blen (ext_sha1 b) = 20;
  ext_mac_length h key m : 0 ≤ hash_length_f h → blen (ext_mac h key m) = hash_length_f h;
  ext_decrypt_length c key iv aad tag ct pt :
    ext_decrypt c key iv aad tag ct = Some pt → blen pt = blen ct }.

(** Observable actions of the parser. *)
Inductive event :=
  | EvInformational (err : Z)
  | EvDispatch (data : bytes).

(** Fragmentation counters of [struct iked_stats], 64 bit each. *)
Record frag_stats := mk_frag_stats {
  st_rcvd : Z; st_reass_ok : Z; st_reass_drop : Z; st_rcvd_drop : Z }.

Record pstate := mk_pstate {
  ps_verbose : Z;
  ps_alloc : list bool;
  ps_rand : list Z;
  ps_natt_force : bool;
  ps_sa : option iked_sa;
  ps_msg : iked_message;
  ps_emsg : option iked_message;
  ps_stats : frag_stats;
  ps_ev : list event }.
Definition eta_ps (r : pstate) : pstate :=
  mk_pstate (ps_verbose r) (ps_alloc r) (ps_rand r) (ps_natt_force r) (ps_sa r) (ps_msg r) (ps_emsg r) (ps_stats r) (ps_ev r).
Definition set_ps_alloc (v : list bool) (r : pstate) : pstate := ltac:(upd eta_ps ps_alloc r v).
Definition set_ps_rand (v : list Z) (r : pstate) : pstate := ltac:(upd eta_ps ps_rand r v).
Definition set_ps_sa (v : option iked_sa) (r : pstate) : pstate := ltac:(upd eta_ps ps_sa r v).
Definition set_ps_msg (v : iked_message) (r : pstate) : pstate := ltac:(upd eta_ps ps_msg r v).
Definition set_ps_emsg (v : option iked_message) (r : pstate) : pstate := ltac:(upd eta_ps ps_emsg r v).
Definition set_ps_stats (v : frag_stats) (r : pstate) : pstate := ltac:(upd eta_ps ps_stats r v).
Definition set_ps_ev (v : list event) (r : pstate) : pstate := ltac:(upd eta_ps ps_ev r v).

Abbreviation P := (M pstate).

(** The message the handlers are called with: [msg]. *)
Definition cur (s : pstate) : iked_message := default (ps_msg s) (ps_emsg s).

(** Updates of [msg->...] and of [msg->msg_parent->...]. *)
Definition set_cur (f : iked_message → iked_message) (s : pstate) : pstate :=
  match ps_emsg s with
  | Some m => set_ps_emsg (Some (f m)) s
  | None => set_ps_msg (f (ps_msg s)) s
  end.
Definition upd_cur (f : iked_message → iked_message) : P unit := modify (set_cur f).
Definition upd_parent (f : iked_message → iked_message) : P unit :=
  modify (λ s, set_ps_msg (f (ps_msg s)) s).
Definition upd_sa (f : iked_sa → iked_sa) : P unit :=
  modify (λ s, set_ps_sa (f <$> ps_sa s) s).
Definition emit (e : event) : P unit := modify (λ s, set_ps_ev (ps_ev s ++ [e]) s).

(** Does the next allocation succeed? An exhausted oracle always says yes. *)
Definition next_alloc : P bool := λ s,
  match ps_alloc s with
  | [] => Ok (true, s)
  | a :: l => Ok (a, set_ps_alloc l s)
  end.

(** An allocation whose result is used without a look at it. *)
Definition must_alloc : P unit :=
  a ← next_alloc; if negb a then fail Foom else mret tt.

(** [arc4random()]. *)
Definition next_rand : P Z := λ s,
  match ps_rand s with
  | [] => Ok (0, s)
  | r :: l => Ok (to_u32 r, set_ps_rand l s)
  end.

(** [ibuf_new(buf + off, len)]: what the buffer holds, if there is one. *)
Definition buf_new (buf : bytes) (off len : Z) : P (option bytes) :=
  a ← next_alloc;
  r ← lift (ibuf_new a (Some (drop (Z.to_nat off) buf)) len);
  mret (ibuf_content <$> r).

(** [ibuf_seek] on a received message: is [buf + pos, len] inside it? *)
Definition seek_ok (data : bytes) (pos len : Z) : bool :=
  negb ((blen data <? pos) || ((SIZE_MAX - pos)%sz <? len) || (blen data <? (pos + len)%sz)).

(** [print_hex] and [print_hexval] of [util.c] read only when asked to be
    verbose. *)
Definition print_hex_at (level : Z) (buf : bytes) (off len : Z) : P unit :=
  v ← gets ps_verbose;
  if (v <? level) || (len =? 0) then mret tt
  else _ ← lift (rd buf off len); mret tt.
Definition print_hex : bytes → Z → Z → P unit := print_hex_at 3.
Definition print_hexval : bytes → Z → Z → P unit := print_hex_at 2.

(** [ikev2_msg_frompeer] of [ikev2_msg.c]. *)
Definition frompeer (s : pstate) : bool :=
  match ps_sa s with
  | None => false
  | Some sa =>
      let data := msg_data (ps_msg s) in
      if blen data <? sizeof_ike_header then false
      else
        let hdr := dec_ike_header (sub_bytes 0 sizeof_ike_header data) in
        if negb (sh_initiator (sa_hdr sa)) && has_bit (ike_flags hdr) IKEV2_FLAG_INITIATOR
        then true
        else if sh_initiator (sa_hdr sa) && negb (has_bit (ike_flags hdr) IKEV2_FLAG_INITIATOR)
        then true
        else false
  end.
Definition ikev2_msg_frompeer : P bool := gets frompeer.

(** ** Frames

    What a handler leaves alone. [erase_plain] forgets the fields a payload
    may set when it arrives unencrypted, [erase_all] every field any handler
    sets; [frame er s s'] says that [s'] differs from [s] only in what [er]
    forgets, in the allocation oracle, the counters and the events. *)

(** Flags that only encrypted notifications may raise. *)
Definition msg_flags_encrypted : Z :=
  Z.lor IKED_MSG_FLAGS_MOBIKE (Z.lor IKED_MSG_FLAGS_CHILD_SA_NOT_FOUND
  (Z.lor IKED_MSG_FLAGS_NO_ADDITIONAL_SAS (Z.lor IKED_MSG_FLAGS_AUTHENTICATION_FAILED
  (Z.lor IKED_MSG_FLAGS_IPCOMP_SUPPORTED (Z.lor IKED_MSG_FLAGS_USE_TRANSPORT
   IKED_MSG_FLAGS_TEMPORARY_FAILURE))))).

Definition erase_plain (m : iked_message) : iked_message :=
  set_msg_proposals [] (set_msg_prop None (set_msg_attrlength 0 (set_msg_ke None
  (set_msg_dhgroup 0 (set_msg_certreqs [] (set_msg_nonce None (set_msg_cookie None
  (set_msg_nat_detected 0 (set_msg_natt_rcvd false (set_msg_group []
  (set_msg_flags (Z.land (msg_flags m) msg_flags_encrypted) m))))))))))).

Definition erase_all (m : iked_message) : iked_message :=
  set_msg_flags 0 (set_msg_rekey spi_zero (set_msg_auth id_zero (set_msg_peerid id_zero
  (set_msg_localid id_zero (set_msg_cert id_zero (set_msg_scert [] (set_msg_cpi []
  (set_msg_transform 0 (set_msg_eap eap_msg_zero (set_msg_del_spisize 0 (set_msg_del_cnt 0
  (set_msg_del_buf None (set_msg_del_protoid 0 (set_msg_cp 0 (set_msg_cp_addr None
  (set_msg_cp_addr6 None (set_msg_cp_dns None (set_msg_update_sa_addresses false
  (set_msg_cookie2 None (erase_plain m)))))))))))))))))))).

Record frame (er : iked_message → iked_message) (s s' : pstate) : Prop := {
  fr_verbose : ps_verbose s' = ps_verbose s;
  fr_sa : ps_sa s' = ps_sa s;
  fr_msg : er (ps_msg s') = er (ps_msg s);
  fr_emsg : er <$> ps_emsg s' = er <$> ps_emsg s }.

(** An eraser keeps the message's data, origin and policy. *)
Class Eraser (er : iked_message → iked_message) : Prop :=
  eraser_all m : erase_all m = erase_all (er m).
#[global] Instance erase_all_eraser : Eraser erase_all.
Proof. done. Qed.
#[global] Instance erase_plain_eraser : Eraser erase_plain.
Proof. done. Qed.

Lemma frame_refl er s : frame er s s.
Proof. done. Qed.

Lemma frame_trans er s1 s2 s3 : frame er s1 s2 → frame er s2 s3 → frame er s1 s3.
Proof. intros [] []. constructor; congruence. Qed.

#[global] Instance frame_preorder er : PreOrder (frame er).
Proof. split; [exact (frame_refl er)|exact (frame_trans er)]. Qed.

(** A frame that forgets more. *)
Lemma frame_weaken er er' s s' :
  (∀ m, er' m = er' (er m)) → frame er s s' → frame er' s s'.
Proof.
  intros Her [H1 H2 H3 H4]. constructor; try done.
  - by rewrite Her, H3, <- Her.
  - destruct (ps_emsg s') as [m|], (ps_emsg s) as [m'|]; simpl in *; try done. f_equal.
    assert (er m = er m') as E by congruence. by rewrite Her, E, <- Her.
Qed.

Lemma frame_all er `{!Eraser er} s s' : frame er s s' → frame erase_all s s'.
Proof. apply frame_weaken, eraser_all. Qed.

Lemma frame_set_msg er f s :
  (∀ m, er (f m) = er m) → frame er s (set_ps_msg (f (ps_msg s)) s).
Proof. intros H. constructor; simpl; auto. Qed.

Lemma frame_set_cur er f s : (∀ m, er (f m) = er m) → frame er s (set_cur f s).
Proof.
  intros H. unfold set_cur. destruct (ps_emsg s) as [m|] eqn:E; constructor; simpl; auto.
  - by rewrite E, H.
Qed.

Lemma frame_set_alloc er l s : frame er s (set_ps_alloc l s).
Proof. done. Qed.

Lemma frame_cur er s s' : frame er s s' → er (cur s') = er (cur s).
Proof.
  intros [_ _ H3 H4]. unfold cur. destruct (ps_emsg s'), (ps_emsg s); simpl in *; congruence.
Qed.

Section frame_facts.
Context {er : iked_message → iked_message} `{!Eraser er} {s s' : pstate} (H : frame er s s').

Lemma frame_field {A} (f : iked_message → A) :
  (∀ m, f (erase_all m) = f m) → f (cur s') = f (cur s).
Proof. intros Hf. rewrite <- Hf, (frame_cur _ _ _ (frame_all er _ _ H)), Hf. done. Qed.

Lemma frame_field_parent {A} (f : iked_message → A) :
  (∀ m, f (erase_all m) = f m) → f (ps_msg s') = f (ps_msg s).
Proof. intros Hf. rewrite <- Hf, (fr_msg _ _ _ (frame_all er _ _ H)), Hf. done. Qed.

Lemma frame_data : msg_data (cur s') = msg_data (cur s).
Proof. by apply frame_field. Qed.
Lemma frame_policy : msg_policy (cur s') = msg_policy (cur s).
Proof. by apply frame_field. Qed.
Lemma frame_e : msg_e (cur s') = msg_e (cur s).
Proof. by apply frame_field. Qed.

Lemma frame_frompeer : frompeer s' = frompeer s.
Proof.
  unfold frompeer. rewrite (fr_sa _ _ _ H). by rewrite (frame_field_parent msg_data).
Qed.
End frame_facts.

(** What the parser's callers establish: the data are no longer than a
    buffer can be, and a message from the peer has a policy (the daemon also
    parses the messages it sends, which have none). *)
Record pok (s : pstate) : Prop := {
  pok_data : blen (msg_data (cur s)) < 2 ^ 32;
  pok_policy : frompeer s = true → is_Some (msg_policy (cur s)) }.

Lemma pok_frame er `{!Eraser er} s s' : frame er s s' → pok s → pok s'.
Proof.
  intros H [Hd Hp]. constructor; [by rewrite (frame_data H)|].
  by rewrite (frame_policy H), (frame_frompeer H).
Qed.

(** ** Rules for the primitives *)

Section wp_prims.
Context (F : fault → Prop).

Lemma wp_next_alloc (Q : bool → pstate → Prop) s :
  (∀ a l, Q a (set_ps_alloc l s)) → wp F next_alloc Q s.
Proof.
  intros H. unfold wp, next_alloc. destruct (ps_alloc s) as [|a l] eqn:E; [|apply H].
  specialize (H true []). destruct s; simpl in *. by subst.
Qed.

Lemma wp_must_alloc (Q : unit → pstate → Prop) s :
  F Foom → (∀ l, Q tt (set_ps_alloc l s)) → wp F must_alloc Q s.
Proof.
  intros HF HQ. unfold must_alloc. apply wp_bind, wp_next_alloc. intros [] l; [|done]. apply wp_ret, HQ.
Qed.

Lemma wp_next_rand (Q : Z → pstate → Prop) s :
  (∀ r l, Q r (set_ps_rand l s)) → wp F next_rand Q s.
Proof.
  intros H. unfold wp, next_rand. destruct (ps_rand s) as [|a l] eqn:E; [|apply H].
  specialize (H 0 []). destruct s; simpl in *. by subst.
Qed.

Lemma wp_buf_new buf off len (Q : option bytes → pstate → Prop) s :
  0 ≤ off → 0 ≤ len → off + len ≤ blen buf → blen buf < 2 ^ 32 →
  (∀ o l, o = None ∨ o = Some (sub_bytes off len buf) → Q o (set_ps_alloc l s)) →
  wp F (buf_new buf off len) Q s.
Proof.
  intros Ho Hl Hb Hs HQ. unfold buf_new. apply wp_bind, wp_next_alloc. intros a l.
  apply wp_bind, wp_lift.
  assert (Hd : blen (drop (Z.to_nat off) buf) = blen buf - off)
    by (unfold blen in *; rewrite length_drop; lia).
  destruct (new_spec_len a (drop (Z.to_nat off) buf) len) as (o & -> & Ho');
    [lia|unfold size_max; lia|].
  simpl. apply wp_ret, HQ. destruct o as [b|]; [right|by left].
  destruct Ho' as (_ & _ & _ & Hc). simpl. by rewrite Hc.
Qed.

Lemma wp_print_hex_at level buf off len (Q : unit → pstate → Prop) s :
  0 ≤ off → 0 ≤ len → off + len ≤ blen buf → Q tt s →
  wp F (print_hex_at level buf off len) Q s.
Proof.
  intros. unfold print_hex_at. apply wp_bind, wp_gets. destruct (_ || _); [done|].
  by apply wp_bind, wp_lift, wpo_rd.
Qed.

Lemma wp_frompeer (Q : bool → pstate → Prop) s :
  Q (frompeer s) s → wp F ikev2_msg_frompeer Q s.
Proof. done. Qed.
End wp_prims.

Lemma frompeer_sa s : frompeer s = true → is_Some (ps_sa s).
Proof. unfold frompeer. by destruct (ps_sa s). Qed.

Create HintDb parse.
#[export] Hint Resolve frame_refl frame_set_alloc frame_set_msg frame_set_cur : parse.

#[export] Hint Unfold sizeof_ike_header sizeof_payload sizeof_frag_payload sizeof_sap sizeof_xfrm
  sizeof_attr sizeof_kex sizeof_notify sizeof_delete sizeof_id sizeof_cert sizeof_auth sizeof_tsp
  sizeof_cp sizeof_ts sizeof_cfg sizeof_eap_header sizeof_eap_message sizeof_eap_mschap
  sizeof_eap_mschap_challenge sizeof_eap_mschap_response sizeof_eap_mschap_success
  sizeof_eap_mschap_failure : sizes.

(** [size_t] arithmetic that cannot wrap. *)
Ltac sz_norm :=
  autounfold with sizes in *;
  repeat match goal with
  | |- context [sz_add ?a ?b] => rewrite (sz_add_id a b) by (unfold size_max in *; lia)
  | |- context [sz_sub ?a ?b] => rewrite (sz_sub_id a b) by (unfold size_max in *; lia)
  end.

(** One step of a handler's symbolic execution; the side conditions are the
    bounds of the reads it makes. *)
Ltac pstep :=
  lazymatch goal with
  | |- wp _ (mbind _ _) _ _ => apply wp_bind
  | |- wp _ (mret _) _ _ => apply wp_ret
  | |- wp _ (gets _) _ _ => apply wp_gets
  | |- wp _ (modify _) _ _ => apply wp_modify
  | |- wp _ (upd_parent _) _ _ => apply wp_modify
  | |- wp _ (upd_cur _) _ _ => apply wp_modify
  | |- wp _ (emit _) _ _ => apply wp_modify
  | |- wp _ (lift _) _ _ => apply wp_lift
  | |- wp _ next_alloc _ _ => apply wp_next_alloc; intros ? ?
  | |- wp oom_only must_alloc _ _ => apply wp_must_alloc; [reflexivity|]; intros ?
  | |- wp _ next_rand _ _ => apply wp_next_rand; intros ? ?
  | |- wp _ ikev2_msg_frompeer _ _ => apply wp_frompeer
  | |- wp _ (print_hex _ _ _) _ _ => apply wp_print_hex_at; [lia|lia|lia|]
  | |- wp _ (print_hexval _ _ _) _ _ => apply wp_print_hex_at; [lia|lia|lia|]
  | |- wp _ (buf_new _ _ _) _ _ =>
      apply wp_buf_new; [lia|lia|lia|lia|]; let H := fresh "Hnew" in intros ? ? H
  | |- wp _ (if ?b then _ else _) _ _ => destruct b eqn:?
  | |- wp _ (match ?o with _ => _ end) _ _ => destruct o eqn:?
  | |- wpo _ (mbind _ _) _ => apply wpo_bind
  | |- wpo _ (mret _) _ => hnf
  | |- wpo _ (Ok _) _ => hnf
  | |- wpo _ (rd _ _ _) _ => apply wpo_rd; [lia|lia|lia|]
  | |- wpo _ (if ?b then _ else _) _ => destruct b eqn:?
  | |- wpo _ (match ?o with _ => _ end) _ => destruct o eqn:?
  end; cbv beta zeta.
