(* ===== verification/ParseSa.v ===== *)
(** * SA payloads: [ikev2_pld_sa], [ikev2_pld_xform], [ikev2_pld_attr]

    The three nested loops of [ikev2_pld.c] that read proposals, transforms
    and attributes. They are [do ... while] loops over an offset and a number of
    bytes left; the model gives each loop one unit of fuel per byte, which is
    enough because every iteration consumes at least a header. *)

From S2P Require Import Prelude Types Proposals Ibuf Parse.

(** ** Validation *)

Definition ikev2_validate_sa (msgbuf : bytes) (offset left : Z)
  : out (option ikev2_sa_proposal) :=
  if left <? sizeof_sap then Ok None
  else
    b ← rd msgbuf offset sizeof_sap;
    let sap := dec_sap b in
    Ok (if sap_length sap <? sizeof_sap then None
        else if left <? sap_length sap then None
        else if (sap_more sap =? 0) && negb (left =? sap_length sap) then None
        else if negb (sap_more sap =? 0) && (left <=? sap_length sap) then None
        else Some sap).

Definition ikev2_validate_xform (msgbuf : bytes) (offset total : Z)
  : out (option ikev2_transform) :=
  if total <? sizeof_xfrm then Ok None
  else
    b ← rd msgbuf offset sizeof_xfrm;
    let xfrm := dec_xfrm b in
    Ok (if xfrm_length xfrm <? sizeof_xfrm then None
        else if total <? xfrm_length xfrm then None
        else Some xfrm).

Definition ikev2_validate_attr (msgbuf : bytes) (offset total : Z)
  : out (option ikev2_attribute) :=
  if total <? sizeof_attr then Ok None
  else b ← rd msgbuf offset sizeof_attr; Ok (Some (dec_attr b)).

(** ** Attributes *)

Fixpoint ikev2_pld_attr_loop (fuel : nat) (msgbuf : bytes) (offset total : Z) : P Z :=
  match fuel with
  | O => fail Ffuel
  | S fuel =>
      v ← lift (ikev2_validate_attr msgbuf offset total);
      match v with
      | None => mret (-1)
      | Some attr =>
          let type := Z.land (attr_type attr) (Z.lnot IKEV2_ATTRAF_TV) in
          if has_bit (attr_type attr) IKEV2_ATTRAF_TV then
            let offset := (offset + sizeof_attr)%sz in
            let total := (total - sizeof_attr)%sz in
            _ ← (if type =? IKEV2_ATTRTYPE_KEY_LENGTH
                 then upd_cur (set_msg_attrlength (attr_length attr)) else mret tt);
            if 0 <? total then ikev2_pld_attr_loop fuel msgbuf offset total else mret 0
          else
            let alen := attr_length attr in
            if alen <? sizeof_attr then mret (-1)
            else if total <? alen then mret (-1)
            else
              _ ← print_hex msgbuf (offset + sizeof_attr)%sz (alen - sizeof_attr)%sz;
              let offset := (offset + alen)%sz in
              let total := (total - alen)%sz in
              if 0 <? total then ikev2_pld_attr_loop fuel msgbuf offset total else mret 0
      end
  end.

Definition ikev2_pld_attr (offset total : Z) : P Z :=
  m ← gets cur;
  ikev2_pld_attr_loop (S (Z.to_nat total)) (msg_data m) offset total.

(** ** Transforms *)

(** [config_add_transform(msg->msg_parent->msg_prop, ...)]. *)
Definition prop_add_transform (type id length keylength : Z) : P Z :=
  a ← next_alloc;
  m ← gets ps_msg;
  match msg_prop m ≫= λ i, msg_proposals m !! i with
  | None => fail Fnull
  | Some p =>
      let '(r, p) := config_add_transform a p type id length keylength in
      _ ← upd_parent (set_msg_proposals
            (<[default 0%nat (msg_prop m) := p]> (msg_proposals m)));
      mret r
  end.

Fixpoint ikev2_pld_xform_loop (fuel : nat) (msgbuf : bytes) (offset total : Z) : P Z :=
  match fuel with
  | O => fail Ffuel
  | S fuel =>
      v ← lift (ikev2_validate_xform msgbuf offset total);
      match v with
      | None => mret (-1)
      | Some xfrm =>
          let xlen := xfrm_length xfrm in
          _ ← upd_cur (set_msg_attrlength 0);
          r ← (if sizeof_xfrm <? xlen
               then ikev2_pld_attr (offset + sizeof_xfrm)%sz (xlen - sizeof_xfrm)%sz
               else mret 0);
          if negb (r =? 0) then mret (-1)
          else
            fp ← ikev2_msg_frompeer;
            al ← gets (λ s, msg_attrlength (cur s));
            r ← (if (fp : bool) then prop_add_transform (xfrm_type xfrm) (xfrm_id xfrm) al al
                 else mret 0);
            if (r =? -1) || (r =? -2) then mret r
            else
              let offset := (offset + xlen)%sz in
              let total := (total - xlen)%sz in
              if xfrm_more xfrm =? IKEV2_XFORM_MORE
              then ikev2_pld_xform_loop fuel msgbuf offset total
              else mret (if total =? 0 then 0 else -1)
      end
  end.

Definition ikev2_pld_xform (offset total : Z) : P Z :=
  m ← gets cur;
  ikev2_pld_xform_loop (S (Z.to_nat total)) (msg_data m) offset total.

(** ** Proposals *)

(** The SPI of a proposal; [None] is [return (-1)]. A proposal without one
    keeps the [spi] of the proposal before it. *)
Definition pld_sa_spi (msgbuf : bytes) (sap : ikev2_sa_proposal) (offset left total spi : Z)
  : out (option (Z * Z * Z * Z)) :=
  let n := sap_spisize sap in
  if n =? 0 then Ok (Some (spi, offset, left, total))
  else if left <? n then Ok None
  else if total <? n then Ok None
  else if n =? 4 then
    b ← rd msgbuf offset 4;
    Ok (Some (fld32 b 0, (offset + n)%sz, (left - n)%sz, (total - n)%sz))
  else if n =? 8 then
    b ← rd msgbuf offset 8;
    Ok (Some (fld64 b 0, (offset + n)%sz, (left - n)%sz, (total - n)%sz))
  else Ok None.

(** Record the proposal of a peer; [false] is [return (-1)]. *)
Definition pld_sa_proposal (sap : ikev2_sa_proposal) (spi_v : Z) : P bool :=
  fp ← ikev2_msg_frompeer;
  if negb fp then mret true
  else
    a ← next_alloc;
    m ← gets ps_msg;
    let '(pos, props) := config_add_proposal a (msg_proposals m)
      (sap_proposalnr sap) (sap_protoid sap) in
    match pos with
    | None => _ ← upd_parent (set_msg_prop None); mret false
    | Some i =>
        _ ← upd_parent (λ m, set_msg_prop (Some i) (set_msg_proposals
              (alter (λ p, set_prop_localspi
                   (mk_spi (spi (prop_localspi p)) (sap_spisize sap) (sap_protoid sap))
                 (set_prop_peerspi (mk_spi spi_v (sap_spisize sap) (sap_protoid sap)) p)) i props) m));
        mret true
    end.

(** Parse the transforms; a proposal with an unknown transform is dropped.
    [false] is [return (-1)]. *)
Definition pld_sa_xforms (sap : ikev2_sa_proposal) (offset total : Z) : P bool :=
  if sap_transforms sap =? 0 then mret true
  else
    r ← ikev2_pld_xform offset total;
    fp ← ikev2_msg_frompeer;
    if (r =? -2) && fp then
      _ ← upd_parent (λ m, set_msg_prop None (set_msg_proposals
            (match msg_prop m with
             | Some i => config_free_proposal (msg_proposals m) i
             | None => msg_proposals m
             end) m));
      mret true
    else mret (r =? 0).

Fixpoint ikev2_pld_sa_loop (fuel : nat) (msgbuf : bytes) (offset left spi : Z) : P Z :=
  match fuel with
  | O => fail Ffuel
  | S fuel =>
      v ← lift (ikev2_validate_sa msgbuf offset left);
      match v with
      | None => mret (-1)
      | Some sap =>
          let total := (sap_length sap - sizeof_sap)%sz in
          w ← lift (pld_sa_spi msgbuf sap (offset + sizeof_sap)%sz (left - sizeof_sap)%sz total spi);
          match w with
          | None => mret (-1)
          | Some (spi, off, lft, tot) =>
              if lft <? tot then mret (-1)
              else
                ok ← pld_sa_proposal sap spi;
                if negb ok then mret (-1)
                else
                  ok ← pld_sa_xforms sap off tot;
                  if negb ok then mret (-1)
                  else if negb (sap_more sap =? 0)
                  then ikev2_pld_sa_loop fuel msgbuf (off + tot)%sz (lft - tot)%sz spi
                  else mret 0
          end
      end
  end.

Definition ikev2_pld_sa (offset left : Z) : P Z :=
  m ← gets cur;
  ikev2_pld_sa_loop (S (Z.to_nat left)) (msg_data m) offset left 0.

(** ** Safety and termination

    Under the bounds their caller checked, the loops neither read outside
    the message nor run out of fuel, and they touch only what a plaintext SA
    payload may set. *)

(** What [ikev2_pld_attr] may change. *)
Definition erase_attr (m : iked_message) : iked_message := set_msg_attrlength 0 m.
#[global] Instance erase_attr_eraser : Eraser erase_attr.
Proof. done. Qed.

(** What [ikev2_pld_xform] may change: the attribute length, and proposals
    in place. *)
Definition erase_xform (m : iked_message) : iked_message :=
  set_msg_proposals ((λ _, mk_proposal 0 0 spi_zero spi_zero []) <$> msg_proposals m)
    (erase_attr m).
#[global] Instance erase_xform_eraser : Eraser erase_xform.
Proof. done. Qed.

Lemma validate_sa_spec msgbuf offset left :
  0 ≤ offset → 0 ≤ left → offset + left ≤ blen msgbuf →
  wpo oom_only (ikev2_validate_sa msgbuf offset left) (λ v,
    ∀ sap, v = Some sap → sizeof_sap ≤ sap_length sap ≤ left ∧ sizeof_sap ≤ left ∧
      0 ≤ sap_spisize sap).
Proof.
  intros. unfold ikev2_validate_sa. wp_step; [done|]. bool_facts. unfold sizeof_sap in *.
  wp_step. apply wpo_rd; [lia..|]. hnf. intros sap.
  repeat case_match; intros; simplify_eq. bool_facts.
  pose proof (fld8_range (sub_bytes offset 8 msgbuf) 6). simpl in *. lia.
Qed.

Lemma validate_xform_spec msgbuf offset total :
  0 ≤ offset → 0 ≤ total → offset + total ≤ blen msgbuf →
  wpo oom_only (ikev2_validate_xform msgbuf offset total) (λ v,
    ∀ x, v = Some x → sizeof_xfrm ≤ xfrm_length x ≤ total).
Proof.
  intros. unfold ikev2_validate_xform. wp_step; [done|]. bool_facts. unfold sizeof_xfrm in *.
  wp_step. apply wpo_rd; [lia..|]. hnf. intros sap.
  repeat case_match; intros; simplify_eq. bool_facts. lia.
Qed.

Lemma validate_attr_spec msgbuf offset total :
  0 ≤ offset → 0 ≤ total → offset + total ≤ blen msgbuf →
  wpo oom_only (ikev2_validate_attr msgbuf offset total) (λ v,
    ∀ a, v = Some a → sizeof_attr ≤ total).
Proof.
  intros. unfold ikev2_validate_attr. wp_step; [done|]. bool_facts. unfold sizeof_attr in *.
  wp_step. apply wpo_rd; [lia..|]. hnf. done.
Qed.

Lemma pld_attr_loop_spec fuel msgbuf offset total s :
  0 ≤ offset → 0 ≤ total → offset + total ≤ blen msgbuf → blen msgbuf < 2 ^ 32 →
  (Z.to_nat total < fuel)%nat →
  wp oom_only (ikev2_pld_attr_loop fuel msgbuf offset total) (λ _ s', frame erase_attr s s') s.
Proof.
  revert offset total s. induction fuel as [|fuel IH]; intros offset total s Ho Ht Hb Hs Hf; [lia|].
  simpl. apply wp_bind, wp_lift. eapply wpo_mono; [by apply validate_attr_spec|].
  intros [attr|] Hv; [|by apply wp_ret]. specialize (Hv attr eq_refl). unfold sizeof_attr in *.
  assert (Hmax : 2 ^ 32 < size_max) by done.
  destruct (has_bit _ _).
  - rewrite sz_add_id, sz_sub_id by lia. apply wp_bind.
    eapply (wp_mono _ _ (λ _ s', frame erase_attr s s'));
      [wp_step; [by apply wp_modify, frame_set_cur|by apply wp_ret]|].
    intros _ s1 Hs1. destruct (Z.ltb_spec 0 (total - 4)); [|by apply wp_ret].
    eapply wp_mono; [apply IH; lia|]. intros. by etrans.
  - wp_step; [by apply wp_ret|]. wp_step; [by apply wp_ret|]. bool_facts.
    rewrite !sz_add_id, !sz_sub_id by lia.
    apply wp_bind, wp_print_hex_at; [lia..|].
    destruct (Z.ltb_spec 0 (total - attr_length attr)); [|by apply wp_ret].
    apply IH; lia.
Qed.

Lemma pld_attr_spec offset total s :
  0 ≤ offset → 0 ≤ total → offset + total ≤ blen (msg_data (cur s)) → pok s →
  wp oom_only (ikev2_pld_attr offset total) (λ _ s', frame erase_attr s s') s.
Proof.
  intros ??? [? _]. apply wp_bind, wp_gets. apply pld_attr_loop_spec; try done. lia.
Qed.

(** A peer's transforms always have a proposal to go to. *)
Definition prop_ok (s : pstate) : Prop :=
  frompeer s = true → ∃ i p, msg_prop (ps_msg s) = Some i ∧ msg_proposals (ps_msg s) !! i = Some p.

Lemma prop_ok_frame s s' : frame erase_xform s s' → prop_ok s → prop_ok s'.
Proof.
  intros H Hok Hfp. rewrite (frame_frompeer H) in Hfp. destruct (Hok Hfp) as (i & p & Hi & Hp).
  pose proof (fr_msg _ _ _ H) as E. unfold erase_xform in E. injection E as.
  exists i. assert (Hi' : msg_prop (ps_msg s') = Some i) by congruence.
  assert (El : length (msg_proposals (ps_msg s')) = length (msg_proposals (ps_msg s))).
  { assert (E' := f_equal msg_proposals (fr_msg _ _ _ H)). unfold erase_xform in E'. simpl in E'.
    apply (f_equal length) in E'. by rewrite !length_fmap in E'. }
  destruct (lookup_lt_is_Some_2 (msg_proposals (ps_msg s')) i) as [p' Hp'].
  { rewrite El. by eapply lookup_lt_Some. }
  by exists p'.
Qed.

Lemma prop_add_transform_spec type id len keylen s :
  prop_ok s → frompeer s = true →
  wp oom_only (prop_add_transform type id len keylen) (λ _ s', frame erase_xform s s') s.
Proof.
  intros Hok Hfp. destruct (Hok Hfp) as (i & p & Hi & Hp).
  apply wp_bind, wp_next_alloc. intros a l. apply wp_bind, wp_gets. simpl.
  rewrite Hi. simpl. rewrite Hp. destruct (config_add_transform _ _ _ _ _ _) as [r p'].
  apply wp_bind, wp_modify, wp_ret. constructor; try done. simpl.
  unfold erase_xform, erase_attr, set_msg_proposals, set_msg_attrlength. simpl. f_equal.
  rewrite list_fmap_insert. apply list_insert_id. by rewrite list_lookup_fmap, Hp.
Qed.

(** Every fault-free return value of [ikev2_pld_xform]. *)
Lemma pld_xform_loop_spec fuel msgbuf offset total s :
  0 ≤ offset → 0 ≤ total → offset + total ≤ blen msgbuf → blen msgbuf < 2 ^ 32 →
  (Z.to_nat total < fuel)%nat → prop_ok s → pok s → msgbuf = msg_data (cur s) →
  wp oom_only (ikev2_pld_xform_loop fuel msgbuf offset total) (λ _ s', frame erase_xform s s') s.
Proof.
  revert offset total s.
  induction fuel as [|fuel IH]; intros offset total s Ho Ht Hb Hs Hf Hprop Hok Hm; [lia|].
  simpl. apply wp_bind, wp_lift. eapply wpo_mono; [by apply validate_xform_spec|].
  intros [x|] Hv; [|by apply wp_ret]. specialize (Hv x eq_refl). unfold sizeof_xfrm in *.
  assert (Hmax : 2 ^ 32 < size_max) by done.
  apply wp_bind, wp_modify. set (s1 := set_cur _ s).
  assert (H1 : frame erase_attr s s1) by (by apply frame_set_cur).
  apply wp_bind. eapply (wp_mono _ _ (λ _ s', frame erase_attr s1 s')).
  { wp_step; [|by apply wp_ret]. bool_facts. rewrite sz_add_id, sz_sub_id by lia.
    apply pld_attr_spec; [lia|lia|rewrite (frame_data H1), <- Hm; lia|exact (pok_frame _ _ _ H1 Hok)]. }
  intros r s2 H2. assert (H02 : frame erase_xform s s2)
    by (apply (frame_weaken erase_attr); [done|by etrans]).
  wp_step; [by apply wp_ret|]. apply wp_bind, wp_frompeer, wp_bind, wp_gets, wp_bind.
  eapply (wp_mono _ _ (λ _ s', frame erase_xform s2 s')).
  { wp_step; [|by apply wp_ret]. apply prop_add_transform_spec; [|done]. by eapply prop_ok_frame. }
  intros r' s3 H3. assert (H03 : frame erase_xform s s3) by (by etrans).
  wp_step; [by apply wp_ret|]. wp_step; [|by apply wp_ret].
  rewrite sz_add_id, sz_sub_id by lia.
  eapply wp_mono; [apply IH; try lia|intros; by etrans].
  - by eapply prop_ok_frame.
  - exact (pok_frame _ _ _ H03 Hok).
  - by rewrite (frame_data H03).
Qed.

Lemma pld_xform_spec offset total s :
  0 ≤ offset → 0 ≤ total → offset + total ≤ blen (msg_data (cur s)) → prop_ok s → pok s →
  wp oom_only (ikev2_pld_xform offset total) (λ _ s', frame erase_xform s s') s.
Proof.
  intros ???? Hok. pose proof Hok as [? _]. apply wp_bind, wp_gets.
  apply pld_xform_loop_spec; try done. lia.
Qed.

(** The SPI step keeps the proposal inside the payload: the check the source
    calls always false is. *)
Lemma pld_sa_spi_spec msgbuf sap offset left total spi :
  0 ≤ offset → offset + left ≤ blen msgbuf → 0 ≤ total ≤ left → blen msgbuf < 2 ^ 32 →
  0 ≤ sap_spisize sap →
  wpo oom_only (pld_sa_spi msgbuf sap offset left total spi) (λ w,
    ∀ spi' off lft tot, w = Some (spi', off, lft, tot) →
      0 ≤ off ∧ 0 ≤ tot ≤ lft ∧ off + lft = offset + left ∧ lft - tot = left - total).
Proof.
  intros Ho Hb Ht Hs Hn. unfold pld_sa_spi.
  assert (Hmax : 2 ^ 32 < size_max) by done.
  cbv zeta. wp_step; [hnf; intros ???? [= <- <- <- <-]; lia|].
  wp_step; [done|]. wp_step; [done|]. bool_facts.
  wp_step; [|wp_step; [|done]]; bool_facts;
    (wp_step; apply wpo_rd; [lia..|]); hnf; intros; simplify_eq;
    rewrite sz_add_id, !sz_sub_id by lia; lia.
Qed.

Lemma pld_sa_proposal_spec sap spi s :
  wp oom_only (pld_sa_proposal sap spi) (λ ok s', frame erase_plain s s' ∧
    (ok = true → prop_ok s')) s.
Proof.
  unfold pld_sa_proposal. apply wp_bind, wp_frompeer.
  destruct (frompeer s) eqn:Hfp; simpl.
  2:{ apply wp_ret. split; [done|]. intros _. unfold prop_ok. by rewrite Hfp. }
  apply wp_bind, wp_next_alloc. intros a l. apply wp_bind, wp_gets. simpl.
  destruct (config_add_proposal _ _ _ _) as [[i|] props] eqn:E.
  - apply wp_bind, wp_modify, wp_ret. split; [done|]. intros _ _. simpl.
    unfold config_add_proposal in E.
    destruct (list_find _ _) as [[j q]|] eqn:Ef; [|destruct a]; simplify_eq.
    + apply list_find_Some in Ef as (Ej & _ & _).
      eexists i, _. split; [done|]. by rewrite list_lookup_alter_eq, Ej.
    + eexists (length _), _. split; [done|]. rewrite list_lookup_alter_eq.
      by rewrite lookup_app_r, Nat.sub_diag by done.
  - by apply wp_bind, wp_modify, wp_ret.
Qed.

Lemma pld_sa_xforms_spec sap offset total s :
  0 ≤ offset → 0 ≤ total → offset + total ≤ blen (msg_data (cur s)) → prop_ok s → pok s →
  wp oom_only (pld_sa_xforms sap offset total) (λ _ s', frame erase_plain s s') s.
Proof.
  intros Ho Ht Hb Hprop Hok. unfold pld_sa_xforms. wp_step; [by apply wp_ret|].
  apply wp_bind. eapply wp_mono; [by apply pld_xform_spec|]. intros r s1 H1.
  assert (frame erase_plain s s1) by (apply (frame_weaken erase_xform); done).
  apply wp_bind, wp_frompeer. wp_step; [|by apply wp_ret].
  apply wp_bind, wp_modify, wp_ret. etrans; [done|]. done.
Qed.

Lemma pld_sa_loop_spec fuel msgbuf offset left spi s :
  0 ≤ offset → 0 ≤ left → offset + left ≤ blen msgbuf → (Z.to_nat left < fuel)%nat →
  pok s → msgbuf = msg_data (cur s) →
  wp oom_only (ikev2_pld_sa_loop fuel msgbuf offset left spi) (λ _ s', frame erase_plain s s') s.
Proof.
  revert offset left spi s.
  induction fuel as [|fuel IH]; intros offset left spi s Ho Hl Hb Hf Hok Hm; [lia|].
  pose proof Hok as [Hs _]. rewrite <- Hm in Hs. assert (Hmax : 2 ^ 32 < size_max) by done.
  simpl. apply wp_bind, wp_lift. eapply wpo_mono; [by apply validate_sa_spec|].
  intros [sap|] Hv; [|by apply wp_ret]. specialize (Hv sap eq_refl). unfold sizeof_sap in *.
  rewrite !sz_sub_id, !sz_add_id by lia.
  apply wp_bind, wp_lift. eapply wpo_mono; [apply pld_sa_spi_spec; lia|].
  intros [[[[spi' off] lft] tot]|] Hw; [|by apply wp_ret].
  specialize (Hw _ _ _ _ eq_refl). wp_step; [by apply wp_ret|].
  apply wp_bind. eapply wp_mono; [apply pld_sa_proposal_spec|]. intros ok s1 [H1 Hprop].
  destruct ok; [|by apply wp_ret]. simpl. specialize (Hprop eq_refl).
  apply wp_bind. eapply wp_mono.
  { apply pld_sa_xforms_spec; [lia|lia| |done|exact (pok_frame _ _ _ H1 Hok)].
    rewrite (frame_data H1), <- Hm. lia. }
  intros ok s2 H2. assert (H02 : frame erase_plain s s2) by (by etrans).
  destruct ok; [|by apply wp_ret]. simpl. wp_step; [|by apply wp_ret].
  rewrite sz_add_id, sz_sub_id by lia. eapply wp_mono; [apply IH; try lia|intros; by etrans].
  - exact (pok_frame _ _ _ H02 Hok).
  - by rewrite (frame_data H02).
Qed.

Lemma pld_sa_spec offset left s :
  0 ≤ offset → 0 ≤ left → offset + left ≤ blen (msg_data (cur s)) → pok s →
  wp oom_only (ikev2_pld_sa offset left) (λ _ s', frame erase_plain s s') s.
Proof. intros. apply wp_bind, wp_gets, pld_sa_loop_spec; try done. lia. Qed.
