(* ===== verification/ParsePld.v ===== *)
(** * Payloads with a flat body

    KE, ID, CERT, CERTREQ, AUTH, Nonce, Delete and Traffic Selector payloads
    of [ikev2_pld.c], each a validation of its header and a handler. *)

From S2P Require Import Prelude Types Proposals Ibuf Parse.

Section handlers.
Context `{!External}.

(** ** Validation

    [None] is [return (-1)]; otherwise the fields the handler uses. *)

Definition ikev2_validate_ke (msgbuf : bytes) (offset left : Z)
  : out (option ikev2_keyexchange) :=
  if left <? sizeof_kex then Ok None
  else b ← rd msgbuf offset sizeof_kex; Ok (Some (dec_kex b)).

Definition ikev2_validate_id (msgbuf : bytes) (offset left : Z) : out (option Z) :=
  if left <? sizeof_id then Ok None
  else
    b ← rd msgbuf offset sizeof_id;
    Ok (if fld8 b 0 =? IKEV2_ID_NONE then None else Some (fld8 b 0)).

Definition ikev2_validate_cert (msgbuf : bytes) (offset left : Z) : out (option Z) :=
  if left <? sizeof_cert then Ok None
  else
    b ← rd msgbuf offset sizeof_cert;
    Ok (if fld8 b 0 =? IKEV2_CERT_NONE then None else Some (fld8 b 0)).

Definition ikev2_validate_certreq (msgbuf : bytes) (offset left : Z) : out (option Z) :=
  if left <? sizeof_cert then Ok None
  else b ← rd msgbuf offset sizeof_cert; Ok (Some (fld8 b 0)).

Definition ikev2_validate_auth (msgbuf : bytes) (offset left : Z) : out (option Z) :=
  if left <? sizeof_auth then Ok None
  else
    b ← rd msgbuf offset sizeof_auth;
    Ok (if fld8 b 0 =? 0 then None else Some (fld8 b 0)).

Definition ikev2_validate_delete (msgbuf : bytes) (offset left : Z) : out (option ikev2_delete) :=
  if left <? sizeof_delete then Ok None
  else
    b ← rd msgbuf offset sizeof_delete;
    let del := dec_delete b in
    Ok (if del_protoid del =? 0 then None else Some del).

Definition ikev2_validate_tss (msgbuf : bytes) (offset left : Z) : out (option Z) :=
  if left <? sizeof_tsp then Ok None
  else b ← rd msgbuf offset sizeof_tsp; Ok (Some (fld8 b 0)).

Definition ikev2_validate_ts (msgbuf : bytes) (offset left : Z) : out (option ikev2_ts) :=
  if left <? sizeof_ts then Ok None
  else
    b ← rd msgbuf offset sizeof_ts;
    let ts := dec_ts b in
    Ok (if ts_length ts <? sizeof_ts then None
        else if left <? ts_length ts then None
        else Some ts).

(** ** Key exchange and nonce *)

Definition ikev2_pld_ke (offset left : Z) : P Z :=
  msgbuf ← gets (λ s, msg_data (cur s));
  v ← lift (ikev2_validate_ke msgbuf offset left);
  match v with
  | None => mret (-1)
  | Some kex =>
      let buf := (offset + sizeof_kex)%sz in
      let len := (left - sizeof_kex)%sz in
      if len =? 0 then mret (-1)
      else
        _ ← print_hex msgbuf buf len;
        fp ← ikev2_msg_frompeer;
        if negb fp then mret 0
        else
          ke ← gets (λ s, msg_ke (ps_msg s));
          if bool_decide (is_Some ke) then mret (-1)
          else
            o ← buf_new msgbuf buf len;
            _ ← upd_parent (set_msg_ke o);
            if bool_decide (is_Some o)
            then _ ← upd_parent (set_msg_dhgroup (kex_dhgroup kex)); mret 0
            else mret (-1)
  end.

Definition ikev2_pld_nonce (offset left : Z) : P Z :=
  msgbuf ← gets (λ s, msg_data (cur s));
  if left =? 0 then mret (-1)
  else
    _ ← print_hex msgbuf offset left;
    fp ← ikev2_msg_frompeer;
    if negb fp then mret 0
    else
      nonce ← gets (λ s, msg_nonce (ps_msg s));
      if bool_decide (is_Some nonce) then mret (-1)
      else
        o ← buf_new msgbuf offset left;
        _ ← upd_cur (set_msg_nonce o);
        if bool_decide (is_Some o)
        then _ ← upd_parent (set_msg_nonce o); mret 0
        else mret (-1).

(** ** Identities *)

(** [isprint] of the C locale. *)
Definition isprint (b : byte) : bool := (32 <=? Zb b) && (Zb b <=? 126).

Fixpoint printable_prefix (l : bytes) : bytes :=
  match l with
  | [] => []
  | b :: l => if isprint b then b :: printable_prefix l else []
  end.

(** [get_string] of [util.c]: [None] when [strndup] fails. *)
Definition get_string (ptr : bytes) (len : Z) : P (option bytes) :=
  b ← lift (rd ptr 0 len);
  a ← next_alloc;
  mret (if (a : bool) then Some (printable_prefix b) else None).

(** [ikev2_print_id] of [ikev2.c]: the text is only logged, but the call
    decides whether the identity is accepted. *)
Definition ikev2_print_id (id : iked_id) (idstrlen : Z) : P Z :=
  match id_buf id with
  | None => mret (-1)
  | Some buf =>
      if blen buf <=? id_offset id then mret (-1)
      else
        let len := blen buf - id_offset id in
        let ptr := drop (Z.to_nat (id_offset id)) buf in
        let type := ext_id_name (id_type id) in
        if idstrlen <=? blen type + 1 then mret (-1)
        else
          let fits (str : bytes) : Z :=
            if idstrlen <=? blen type + 1 + blen str then -1 else 0 in
          if id_type id =? IKEV2_ID_IPV4 then
            if negb (len =? 4) then mret (-1)
            else b ← lift (rd ptr 0 4); mret (fits (ext_print_addr (mk_sockaddr AF_INET 0 b)))
          else if (id_type id =? IKEV2_ID_FQDN) || (id_type id =? IKEV2_ID_UFQDN) then
            str ← get_string ptr len;
            mret (match str with None => -1 | Some str => fits str end)
          else if id_type id =? IKEV2_ID_IPV6 then
            if negb (len =? 16) then mret (-1)
            else b ← lift (rd ptr 0 16); mret (fits (ext_print_addr (mk_sockaddr AF_INET6 0 b)))
          else if id_type id =? IKEV2_ID_ASN1_DN then
            b ← lift (rd ptr 0 len);
            mret (match ext_asn1_name b with None => -1 | Some str => fits str end)
          else _ ← lift (rd ptr 0 len); mret 0
  end.

Definition ikev2_pld_id (offset left payload : Z) : P Z :=
  msgbuf ← gets (λ s, msg_data (cur s));
  v ← lift (ikev2_validate_id msgbuf offset left);
  match v with
  | None => mret (-1)
  | Some type =>
      o ← buf_new msgbuf offset left;
      if negb (bool_decide (is_Some o)) then mret (-1)
      else
        let idb := mk_id type sizeof_id o in
        r ← ikev2_print_id idb IKED_ID_SIZE;
        if r =? -1 then mret (-1)
        else
          fp ← ikev2_msg_frompeer;
          if negb fp then mret 0
          else
            sa ← gets ps_sa;
            match sa with
            | None => fail Fnull
            | Some sa =>
                let initiator := sh_initiator (sa_hdr sa) in
                if (initiator && (payload =? IKEV2_PAYLOAD_IDr)) ||
                   (negb initiator && (payload =? IKEV2_PAYLOAD_IDi)) then
                  idp ← gets (λ s, msg_peerid (ps_msg s));
                  if negb (id_type idp =? 0) then mret (-1)
                  else _ ← upd_parent (set_msg_peerid idb); mret 0
                else if negb initiator && (payload =? IKEV2_PAYLOAD_IDr) then
                  idp ← gets (λ s, msg_localid (ps_msg s));
                  if negb (id_type idp =? 0) then mret (-1)
                  else _ ← upd_parent (set_msg_localid idb); mret 0
                else mret 0
            end
  end.

(** ** Certificates *)

(** The slot a certificate goes to: the primary one, then the first free
    supplemental one; [None] when all are taken. *)
Definition cert_slot (m : iked_message) : option (option nat) :=
  if id_type (msg_cert m) =? 0 then Some None
  else match list_find (λ i, id_type i = 0) (msg_scert m) with
       | Some (i, _) => Some (Some i)
       | None => None
       end.

Definition set_cert_slot (slot : option nat) (v : iked_id → iked_id) (m : iked_message)
  : iked_message :=
  match slot with
  | None => set_msg_cert (v (msg_cert m)) m
  | Some i => set_msg_scert (alter v i (msg_scert m)) m
  end.

Definition ikev2_pld_cert (offset left : Z) : P Z :=
  msgbuf ← gets (λ s, msg_data (cur s));
  v ← lift (ikev2_validate_cert msgbuf offset left);
  match v with
  | None => mret (-1)
  | Some type =>
      let buf := (offset + sizeof_cert)%sz in
      let len := (left - sizeof_cert)%sz in
      _ ← print_hex msgbuf buf len;
      fp ← ikev2_msg_frompeer;
      if negb fp then mret 0
      else if type =? IKEV2_CERT_BUNDLE then mret 0
      else
        m ← gets ps_msg;
        match cert_slot m with
        | None => mret 0
        | Some slot =>
            o ← buf_new msgbuf buf len;
            if bool_decide (is_Some o) then
              _ ← upd_parent (set_cert_slot slot (λ _, mk_id type 0 o)); mret 0
            else
              _ ← upd_parent (set_cert_slot slot (λ i, mk_id (id_type i) (id_offset i) None));
              mret (-1)
        end
  end.

Definition ikev2_pld_certreq (offset left : Z) : P Z :=
  msgbuf ← gets (λ s, msg_data (cur s));
  v ← lift (ikev2_validate_certreq msgbuf offset left);
  match v with
  | None => mret (-1)
  | Some type =>
      let buf := (offset + sizeof_cert)%sz in
      let len := (left - sizeof_cert)%sz in
      _ ← print_hex msgbuf buf len;
      fp ← ikev2_msg_frompeer;
      if negb fp then mret 0
      else if (type =? IKEV2_CERT_X509_CERT) && (len =? 0) then mret 0
      else if (type =? IKEV2_CERT_X509_CERT) && negb (len mod SHA_DIGEST_LENGTH =? 0)
      then mret (-1)
      else
        a ← next_alloc;
        if negb a then mret (-1)
        else
          o ← buf_new msgbuf buf len;
          match o with
          | None => mret (-1)
          | Some data =>
              _ ← upd_parent (λ m,
                    set_msg_certreqs (msg_certreqs m ++ [mk_certreq data type]) m);
              mret 0
          end
  end.

Definition ikev2_pld_auth (offset left : Z) : P Z :=
  msgbuf ← gets (λ s, msg_data (cur s));
  v ← lift (ikev2_validate_auth msgbuf offset left);
  match v with
  | None => mret (-1)
  | Some method =>
      let buf := (offset + sizeof_auth)%sz in
      let len := (left - sizeof_auth)%sz in
      _ ← print_hex msgbuf buf len;
      fp ← ikev2_msg_frompeer;
      if negb fp then mret 0
      else
        idp ← gets (λ s, msg_auth (ps_msg s));
        if negb (id_type idp =? 0) then mret (-1)
        else
          o ← buf_new msgbuf buf len;
          _ ← upd_parent (set_msg_auth (mk_id method 0 o));
          mret (if bool_decide (is_Some o) then 0 else -1)
  end.

(** ** Delete *)

Definition ikev2_pld_delete (offset left : Z) : P Z :=
  msgbuf ← gets (λ s, msg_data (cur s));
  v ← lift (ikev2_validate_delete msgbuf offset left);
  match v with
  | None => mret (-1)
  | Some del =>
      fp ← ikev2_msg_frompeer;
      m ← gets ps_msg;
      if fp && msg_response m then mret 0
      else
        let cnt := del_nspi del in
        let sz := del_spisize del in
        if negb (msg_del_protoid m =? 0) then mret 0
        else
          _ ← upd_parent (λ m, set_msg_del_spisize sz (set_msg_del_cnt cnt
                (set_msg_del_protoid (del_protoid del) m)));
          let buf := (offset + sizeof_delete)%sz in
          let len := (left - sizeof_delete)%sz in
          if (len =? 0) || (sz =? 0) || (cnt =? 0) then mret 0
          else if negb (len / sz =? cnt) then mret (-1)
          else
            _ ← print_hex msgbuf buf len;
            o ← buf_new msgbuf buf len;
            _ ← upd_parent (set_msg_del_buf o);
            mret 0
  end.

(** ** Traffic selectors *)

Definition ikev2_pld_ts (msgbuf : bytes) (offset left type : Z) : out Z :=
  if type =? IKEV2_TS_IPV4_ADDR_RANGE then
    if left <? 2 * 4 then Ok (-1)
    else
      _ ← rd msgbuf offset 4;
      _ ← rd msgbuf (offset + 4)%sz 4;
      Ok (if 0 <? (left - 4 - 4)%sz then -1 else 0)
  else if type =? IKEV2_TS_IPV6_ADDR_RANGE then
    if left <? 2 * 16 then Ok (-1)
    else
      _ ← rd msgbuf offset 16;
      _ ← rd msgbuf (offset + 16)%sz 16;
      Ok (if 0 <? (left - 16 - 16)%sz then -1 else 0)
  else Ok 0.

(** The loop over the selectors, [n] of them to go. *)
Fixpoint pld_tss_loop (n : nat) (msgbuf : bytes) (offset left : Z) : out Z :=
  match n with
  | O => Ok 0
  | S n =>
      v ← ikev2_validate_ts msgbuf offset left;
      match v with
      | None => Ok (-1)
      | Some ts =>
          let offset := (offset + sizeof_ts)%sz in
          let left := (left - sizeof_ts)%sz in
          let ts_len := (ts_length ts - sizeof_ts)%sz in
          r ← ikev2_pld_ts msgbuf offset ts_len (ts_type ts);
          if negb (r =? 0) then Ok (-1)
          else pld_tss_loop n msgbuf (offset + ts_len)%sz (left - ts_len)%sz
      end
  end.

Definition ikev2_pld_tss (offset left : Z) : P Z :=
  msgbuf ← gets (λ s, msg_data (cur s));
  v ← lift (ikev2_validate_tss msgbuf offset left);
  match v with
  | None => mret (-1)
  | Some count =>
      lift (pld_tss_loop (Z.to_nat count) msgbuf (offset + sizeof_tsp)%sz (left - sizeof_tsp)%sz)
  end.
End handlers.

(** ** Safety

    Each handler, called with the bounds of a validated payload, returns
    without a fault and changes only what its payload may set. *)

Section safety.
Context `{!External}.

Lemma validate_ke_spec msgbuf offset left :
  0 ≤ offset → 0 ≤ left → offset + left ≤ blen msgbuf →
  wpo oom_only (ikev2_validate_ke msgbuf offset left) (λ v, is_Some v → sizeof_kex ≤ left).
Proof.
  intros. unfold ikev2_validate_ke. sz_norm. repeat pstep; bool_facts; [by intros [??]|done].
Qed.

Lemma pld_ke_spec offset left s :
  0 ≤ offset → 0 ≤ left → offset + left ≤ blen (msg_data (cur s)) → pok s →
  wp oom_only (ikev2_pld_ke offset left) (λ _ s', frame erase_plain s s') s.
Proof.
  intros Ho Hl Hb Hok. pose proof Hok as [Hd _]. unfold ikev2_pld_ke. do 4 pstep.
  eapply wpo_mono; [by apply validate_ke_spec|]. intros [kex|] Hv; [|by pstep].
  specialize (Hv ltac:(done)). sz_norm. repeat pstep; done.
Qed.

Lemma pld_nonce_spec offset left s :
  0 ≤ offset → 0 ≤ left → offset + left ≤ blen (msg_data (cur s)) → pok s →
  wp oom_only (ikev2_pld_nonce offset left) (λ _ s', frame erase_plain s s') s.
Proof.
  intros Ho Hl Hb Hok. pose proof Hok as [Hd _]. unfold ikev2_pld_nonce. repeat pstep; try done.
  - etrans; [|by apply (frame_set_msg _ (set_msg_nonce o))].
    etrans; [|by apply frame_set_cur]. done.
  - etrans; [|by apply frame_set_cur]. done.
Qed.

(** The one-field headers: the field is read inside the payload. *)
Lemma validate_byte_spec msgbuf offset left size (f : Z → option Z) :
  0 ≤ offset → offset + left ≤ blen msgbuf → 0 ≤ size →
  wpo oom_only (if left <? size then Ok None
             else b ← rd msgbuf offset size; Ok (f (fld8 b 0)))
    (λ v, ∀ x, v = Some x → size ≤ left ∧ ∃ b, f (fld8 b 0) = Some x).
Proof.
  intros. repeat pstep; bool_facts; [done|]. intros x Hx. split; [done|]. by eexists.
Qed.

Lemma get_string_spec ptr len s :
  0 ≤ len ≤ blen ptr → wp oom_only (get_string ptr len) (λ _ s', ∃ l, s' = set_ps_alloc l s) s.
Proof. intros. unfold get_string. repeat pstep. eauto. Qed.

Lemma print_id_spec id idstrlen s :
  0 ≤ id_offset id → wp oom_only (ikev2_print_id id idstrlen) (λ _ s', frame erase_plain s s') s.
Proof.
  intros Ho. unfold ikev2_print_id. destruct (id_buf id) as [buf|]; [|by pstep].
  pstep; [by pstep|]. bool_facts.
  assert (Hd : blen (drop (Z.to_nat (id_offset id)) buf) = blen buf - id_offset id)
    by (unfold blen in *; rewrite length_drop; lia).
  repeat pstep; bool_facts; try done.
  eapply wp_mono; [apply get_string_spec; lia|]. intros str s1 [l ->]. by pstep.
Qed.

Lemma pld_id_spec offset left payload s :
  0 ≤ offset → 0 ≤ left → offset + left ≤ blen (msg_data (cur s)) → pok s →
  wp oom_only (ikev2_pld_id offset left payload) (λ _ s', frame erase_all s s') s.
Proof.
  intros Ho Hl Hb Hok. pose proof Hok as [Hd _]. unfold ikev2_pld_id. do 4 pstep.
  eapply wpo_mono.
  { by apply (validate_byte_spec _ _ _ sizeof_id
      (λ x, if x =? IKEV2_ID_NONE then None else Some x)). }
  intros [type|] _; [|by pstep]. do 3 pstep; [by pstep|]. pstep.
  eapply wp_mono; [by apply print_id_spec|]. intros r s1 H1.
  assert (frame erase_all s s1).
  { apply (frame_weaken erase_plain); [done|]. by etrans; [|exact H1]. }
  pstep; [by pstep|]. do 2 pstep. destruct (frompeer s1) eqn:Hfp; simpl; [|by pstep].
  do 2 pstep. destruct (frompeer_sa _ Hfp) as [sa ->].
  repeat pstep; try done; (etrans; [done|]; by apply frame_set_msg).
Qed.

Lemma pld_cert_spec offset left s :
  0 ≤ offset → 0 ≤ left → offset + left ≤ blen (msg_data (cur s)) → pok s →
  wp oom_only (ikev2_pld_cert offset left) (λ _ s', frame erase_all s s') s.
Proof.
  intros Ho Hl Hb Hok. pose proof Hok as [Hd _]. unfold ikev2_pld_cert. do 4 pstep.
  eapply wpo_mono.
  { by apply (validate_byte_spec _ _ _ sizeof_cert
      (λ x, if x =? IKEV2_CERT_NONE then None else Some x)). }
  intros [type|] Hv; [|by pstep]. destruct (Hv type eq_refl) as [Hsz _]. sz_norm.
  repeat pstep; try done; (etrans; [|apply (frame_set_msg _ (set_cert_slot _ _))]; [done|]);
    intros m; unfold set_cert_slot; by case_match.
Qed.

Lemma pld_certreq_spec offset left s :
  0 ≤ offset → 0 ≤ left → offset + left ≤ blen (msg_data (cur s)) → pok s →
  wp oom_only (ikev2_pld_certreq offset left) (λ _ s', frame erase_plain s s') s.
Proof.
  intros Ho Hl Hb Hok. pose proof Hok as [Hd _]. unfold ikev2_pld_certreq. do 4 pstep.
  eapply wpo_mono; [by apply (validate_byte_spec _ _ _ sizeof_cert Some)|].
  intros [type|] Hv; [|by pstep]. destruct (Hv type eq_refl) as [Hsz _]. sz_norm.
  repeat pstep; done.
Qed.

Lemma pld_auth_spec offset left s :
  0 ≤ offset → 0 ≤ left → offset + left ≤ blen (msg_data (cur s)) → pok s →
  wp oom_only (ikev2_pld_auth offset left) (λ _ s', frame erase_all s s') s.
Proof.
  intros Ho Hl Hb Hok. pose proof Hok as [Hd _]. unfold ikev2_pld_auth. do 4 pstep.
  eapply wpo_mono.
  { by apply (validate_byte_spec _ _ _ sizeof_auth (λ x, if x =? 0 then None else Some x)). }
  intros [type|] Hv; [|by pstep]. destruct (Hv type eq_refl) as [Hsz _]. sz_norm.
  repeat pstep; done.
Qed.

Lemma pld_delete_spec offset left s :
  0 ≤ offset → 0 ≤ left → offset + left ≤ blen (msg_data (cur s)) → pok s →
  wp oom_only (ikev2_pld_delete offset left) (λ _ s', frame erase_all s s') s.
Proof.
  intros Ho Hl Hb Hok. pose proof Hok as [Hd _]. unfold ikev2_pld_delete. do 4 pstep.
  eapply (wpo_mono _ _ (λ v, is_Some v → sizeof_delete ≤ left)).
  { unfold ikev2_validate_delete. sz_norm. repeat pstep; bool_facts; [by intros [??]|done]. }
  intros [del|] Hv; [|by pstep]. specialize (Hv ltac:(done)). sz_norm. repeat pstep; done.
Qed.

Lemma pld_ts_spec msgbuf offset left type :
  0 ≤ offset → 0 ≤ left → offset + left ≤ blen msgbuf → blen msgbuf < 2 ^ 32 →
  wpo oom_only (ikev2_pld_ts msgbuf offset left type) (λ _, True).
Proof.
  intros. unfold ikev2_pld_ts. repeat first [pstep|done]; bool_facts; sz_norm; try lia;
    repeat first [pstep|done].
Qed.

Lemma pld_tss_loop_spec n msgbuf offset left :
  0 ≤ offset → 0 ≤ left → offset + left ≤ blen msgbuf → blen msgbuf < 2 ^ 32 →
  wpo oom_only (pld_tss_loop n msgbuf offset left) (λ _, True).
Proof.
  revert offset left. induction n as [|n IH]; intros offset left Ho Hl Hb Hd; [done|]. simpl.
  pstep. eapply (wpo_mono _ _ (λ v, ∀ ts, v = Some ts → sizeof_ts ≤ ts_length ts ≤ left)).
  { unfold ikev2_validate_ts. sz_norm. repeat pstep; bool_facts; [done|]. intros ts.
    repeat case_match; intros; simplify_eq. bool_facts. lia. }
  intros [ts|] Hv; [|done]. specialize (Hv ts eq_refl). sz_norm. pstep.
  eapply wpo_mono; [apply pld_ts_spec; lia|]. intros r _. pstep; [done|]. apply IH; lia.
Qed.

Lemma pld_tss_spec offset left s :
  0 ≤ offset → 0 ≤ left → offset + left ≤ blen (msg_data (cur s)) → pok s →
  wp oom_only (ikev2_pld_tss offset left) (λ _ s', frame erase_plain s s') s.
Proof.
  intros Ho Hl Hb Hok. pose proof Hok as [Hd _]. unfold ikev2_pld_tss. do 4 pstep.
  eapply wpo_mono; [by apply (validate_byte_spec _ _ _ sizeof_tsp Some)|].
  intros [count|] Hv; [|by pstep]. destruct (Hv count eq_refl) as [Hsz _]. sz_norm. pstep.
  eapply wpo_mono; [apply pld_tss_loop_spec; lia|]. done.
Qed.
End safety.
