(* ===== verification/ParseNotify.v ===== *)
(** * Notify payloads: [ikev2_pld_notify] and [ikev2_nat_detection]

    One definition per group of notification types of the [switch] in
    [ikev2_pld_notify], and the handler that dispatches to them. *)

From S2P Require Import Prelude Types SaState Proposals Ibuf Parse.

Section notify.
Context `{!External}.

(** ** NAT detection *)

(** [ikev2_nat_detection] of [ikev2.c] with a buffer of [len] bytes for the
    digest: [None] is -1. *)
Definition ikev2_nat_detection (len type : Z) (frompeer : bool) : P (option bytes) :=
  m ← gets cur;
  parent ← gets ps_msg;
  sa ← gets ps_sa;
  let data := msg_data parent in
  if frompeer && (blen data <? sizeof_ike_header) then mret None
  else
    spis ← (if (frompeer : bool) then mret (sub_bytes 0 8 data ++ sub_bytes 8 8 data)
            else match sa with
                 | None => fail Fnull
                 | Some sa => mret (be_encode 8 (sh_ispi (sa_hdr sa)) ++
                                    be_encode 8 (sh_rspi (sa_hdr sa)))
                 end);
    let src := if (frompeer : bool) then msg_peer m else msg_local m in
    let dst := if (frompeer : bool) then msg_local m else msg_peer m in
    a ← next_alloc;
    if negb a then mret None
    else
      let ss := if type =? IKEV2_N_NAT_DETECTION_SOURCE_IP then Some src
                else if type =? IKEV2_N_NAT_DETECTION_DESTINATION_IP then Some dst
                else None in
      match ss with
      | None => mret None
      | Some ss =>
          if (sa_family ss =? AF_INET) || (sa_family ss =? AF_INET6) then
            force ← gets ps_natt_force;
            let natt_force := (force : bool) ||
              match msg_policy m with
              | Some flags => has_bit flags IKED_POLICY_NATT_FORCE
              | None => false
              end in
            rnd ← (if natt_force then r ← next_rand; mret (be_encode 4 r) else mret []);
            let md := ext_sha1 (spis ++ sin_addr ss ++ be_encode 2 (sin_port ss) ++ rnd) in
            mret (if len <? blen md then None else Some md)
          else mret None
      end.

(** A NAT detection hash: compare with the hash of the addresses seen. *)
Definition notify_nat_detection (type : Z) (msgbuf : bytes) (buf left : Z) : P Z :=
  if negb (left =? SHA_DIGEST_LENGTH) then mret (-1)
  else
    fp ← ikev2_msg_frompeer;
    md ← ikev2_nat_detection SHA_DIGEST_LENGTH type fp;
    match md with
    | None => mret (-1)
    | Some md =>
        b ← lift (rd msgbuf buf left);
        _ ← (if bool_decide (b = md) then mret tt
             else upd_parent (λ m, set_msg_nat_detected (Z.lor (msg_nat_detected m)
                    (if type =? IKEV2_N_NAT_DETECTION_SOURCE_IP then IKED_MSG_NAT_SRC_IP
                     else IKED_MSG_NAT_DST_IP)) m));
        _ ← print_hex md 0 SHA_DIGEST_LENGTH;
        _ ← upd_parent (set_msg_natt_rcvd true);
        mret 0
    end.

(** ** Errors and rekeying *)

Definition or_flags (f : Z) (m : iked_message) : iked_message :=
  set_msg_flags (Z.lor (msg_flags m) f) m.

Definition notify_authentication_failed (sa : iked_sa) : P Z :=
  e ← gets (λ s, msg_e (cur s));
  if negb e then mret (-1)
  else if negb (sh_initiator (sa_hdr sa)) && negb (sa_stateok sa IKEV2_STATE_VALID) then mret (-1)
  else if sh_initiator (sa_hdr sa) && sa_stateok sa IKEV2_STATE_VALID then mret (-1)
  else _ ← upd_parent (or_flags IKED_MSG_FLAGS_AUTHENTICATION_FAILED); mret 0.

Definition notify_invalid_ke (sa : iked_sa) (msgbuf : bytes) (buf left : Z) : P Z :=
  e ← gets (λ s, msg_e (cur s));
  if sa_stateok sa IKEV2_STATE_VALID && negb e then mret (-1)
  else if negb (left =? 2) then mret (-1)
  else
    b ← lift (rd msgbuf buf left);
    _ ← upd_parent (λ m, or_flags IKED_MSG_FLAGS_INVALID_KE (set_msg_group b m));
    mret 0.

(** Notifications that only raise a flag, and only when encrypted. *)
Definition notify_flag_encrypted (flag : Z) : P Z :=
  e ← gets (λ s, msg_e (cur s));
  if negb e then mret (-1) else _ ← upd_parent (or_flags flag); mret 0.

Definition notify_rekey_sa (n : ikev2_notify) (msgbuf : bytes) (buf left : Z) : P Z :=
  e ← gets (λ s, msg_e (cur s));
  if negb e then mret (-1)
  else if negb (left =? n_spisize n) then mret (-1)
  else
    rekey ← gets (λ s, msg_rekey (ps_msg s));
    if negb (spi rekey =? 0) then mret (-1)
    else if (n_spisize n =? 4) || (n_spisize n =? 8) then
      b ← lift (rd msgbuf buf left);
      let v := if n_spisize n =? 4 then fld32 b 0 else fld64 b 0 in
      _ ← upd_parent (set_msg_rekey (mk_spi v (n_spisize n) (n_protoid n)));
      mret 0
    else mret (-1).

Definition notify_ipcomp (msgbuf : bytes) (buf left : Z) : P Z :=
  e ← gets (λ s, msg_e (cur s));
  if negb e then mret (-1)
  else if left <? 2 + 1 then mret 0
  else
    cpi ← lift (rd msgbuf buf 2);
    tr ← lift (rd msgbuf (buf + 2)%sz 1);
    _ ← upd_parent (λ m, or_flags IKED_MSG_FLAGS_IPCOMP_SUPPORTED
          (set_msg_transform (fld8 tr 0) (set_msg_cpi cpi m)));
    mret 0.

(** ** Capabilities *)

Definition notify_mobike_supported (left : Z) : P Z :=
  e ← gets (λ s, msg_e (cur s));
  if negb e then mret (-1)
  else if negb (left =? 0) then mret 0
  else _ ← upd_parent (or_flags IKED_MSG_FLAGS_MOBIKE); mret 0.

Definition notify_transport_mode (left : Z) : P Z :=
  m ← gets cur;
  parent ← gets ps_msg;
  if negb (msg_e m) then mret (-1)
  else if negb (left =? 0) then mret 0
  else
    ok ← (if msg_response parent then
            match msg_policy m with
            | None => fail Fnull
            | Some flags => mret (has_bit flags IKED_POLICY_TRANSPORT)
            end
          else mret true);
    if negb ok then mret 0
    else _ ← upd_parent (or_flags IKED_MSG_FLAGS_USE_TRANSPORT); mret 0.

Definition notify_update_sa_addresses (sa : iked_sa) (left : Z) : P Z :=
  e ← gets (λ s, msg_e (cur s));
  if negb e then mret (-1)
  else if negb (sa_mobike sa) then mret 0
  else if negb (left =? 0) then mret 0
  else _ ← upd_parent (set_msg_update_sa_addresses true); mret 0.

Definition notify_cookie2 (sa : iked_sa) (msgbuf : bytes) (buf left : Z) : P Z :=
  e ← gets (λ s, msg_e (cur s));
  if negb e then mret (-1)
  else if negb (sa_mobike sa) then mret 0
  else if (left <? IKED_COOKIE2_MIN) || (IKED_COOKIE2_MAX <? left) then mret 0
  else
    o ← buf_new msgbuf buf left;
    _ ← upd_cur (set_msg_cookie2 o);
    if negb (bool_decide (is_Some o)) then mret (-1)
    else _ ← upd_parent (set_msg_cookie2 o); mret 0.

Definition notify_cookie (msgbuf : bytes) (buf left : Z) : P Z :=
  e ← gets (λ s, msg_e (cur s));
  if (e : bool) then mret (-1)
  else if (left <? IKED_COOKIE_MIN) || (IKED_COOKIE_MAX <? left) then mret 0
  else
    _ ← print_hex msgbuf buf left;
    o ← buf_new msgbuf buf left;
    _ ← upd_cur (set_msg_cookie o);
    if negb (bool_decide (is_Some o)) then mret (-1)
    else _ ← upd_parent (set_msg_cookie o); mret 0.

Definition notify_fragmentation_supported (left : Z) : P Z :=
  e ← gets (λ s, msg_e (cur s));
  if (e : bool) then mret (-1)
  else if negb (left =? 0) then mret 0
  else _ ← upd_parent (or_flags IKED_MSG_FLAGS_FRAGMENTATION); mret 0.

(** The loop over the 16-bit hash identifiers. *)
Fixpoint sighash_loop (fuel : nat) (msgbuf : bytes) (buf left : Z) : P unit :=
  match fuel with
  | O => fail Ffuel
  | S fuel =>
      if 2 <=? left then
        b ← lift (rd msgbuf buf 2);
        _ ← (if fld16 b 0 =? IKEV2_SIGHASH_SHA2_256
             then upd_parent (or_flags IKED_MSG_FLAGS_SIGSHA2) else mret tt);
        sighash_loop fuel msgbuf (buf + 2)%sz (left - 2)%sz
      else mret tt
  end.

Definition notify_signature_hash (sa : option iked_sa) (msgbuf : bytes) (buf left : Z) : P Z :=
  e ← gets (λ s, msg_e (cur s));
  if (e : bool) then mret (-1)
  else match sa with
       | None => mret (-1)
       | Some sa =>
           if sa_sigsha2 sa then mret 0
           else if (left <? 2) || negb (left mod 2 =? 0) then mret 0
           else _ ← sighash_loop (S (Z.to_nat left)) msgbuf buf left; mret 0
       end.

(** ** The handler *)

Definition ikev2_validate_notify (msgbuf : bytes) (offset left : Z) : out (option ikev2_notify) :=
  if left <? sizeof_notify then Ok None
  else b ← rd msgbuf offset sizeof_notify; Ok (Some (dec_notify b)).

(** The [switch] on the type, for a message from the peer; [sa] is
    dereferenced without a check in most of its cases. *)
Definition notify_dispatch (n : ikev2_notify) (msgbuf : bytes) (buf left : Z) : P Z :=
  let type := n_type n in
  osa ← gets ps_sa;
  let with_sa (k : iked_sa → P Z) : P Z :=
    match osa with None => fail Fnull | Some sa => k sa end in
  if (type =? IKEV2_N_NAT_DETECTION_SOURCE_IP) || (type =? IKEV2_N_NAT_DETECTION_DESTINATION_IP)
  then notify_nat_detection type msgbuf buf left
  else if type =? IKEV2_N_AUTHENTICATION_FAILED then with_sa notify_authentication_failed
  else if type =? IKEV2_N_INVALID_KE_PAYLOAD then
    with_sa (λ sa, notify_invalid_ke sa msgbuf buf left)
  else if type =? IKEV2_N_NO_ADDITIONAL_SAS then
    notify_flag_encrypted IKED_MSG_FLAGS_NO_ADDITIONAL_SAS
  else if type =? IKEV2_N_REKEY_SA then notify_rekey_sa n msgbuf buf left
  else if type =? IKEV2_N_TEMPORARY_FAILURE then
    notify_flag_encrypted IKED_MSG_FLAGS_TEMPORARY_FAILURE
  else if type =? IKEV2_N_IPCOMP_SUPPORTED then notify_ipcomp msgbuf buf left
  else if type =? IKEV2_N_CHILD_SA_NOT_FOUND then
    notify_flag_encrypted IKED_MSG_FLAGS_CHILD_SA_NOT_FOUND
  else if type =? IKEV2_N_NO_PROPOSAL_CHOSEN then
    _ ← upd_parent (or_flags IKED_MSG_FLAGS_NO_PROPOSAL_CHOSEN); mret 0
  else if type =? IKEV2_N_MOBIKE_SUPPORTED then notify_mobike_supported left
  else if type =? IKEV2_N_USE_TRANSPORT_MODE then notify_transport_mode left
  else if type =? IKEV2_N_UPDATE_SA_ADDRESSES then
    with_sa (λ sa, notify_update_sa_addresses sa left)
  else if type =? IKEV2_N_COOKIE2 then with_sa (λ sa, notify_cookie2 sa msgbuf buf left)
  else if type =? IKEV2_N_COOKIE then notify_cookie msgbuf buf left
  else if type =? IKEV2_N_FRAGMENTATION_SUPPORTED then notify_fragmentation_supported left
  else if type =? IKEV2_N_SIGNATURE_HASH_ALGORITHMS then
    notify_signature_hash osa msgbuf buf left
  else mret 0.

Definition ikev2_pld_notify (offset left : Z) : P Z :=
  msgbuf ← gets (λ s, msg_data (cur s));
  v ← lift (ikev2_validate_notify msgbuf offset left);
  match v with
  | None => mret (-1)
  | Some n =>
      let left := (left - sizeof_notify)%sz in
      let buf := (offset + sizeof_notify)%sz in
      if negb (seek_ok msgbuf buf left) then mret (-1)
      else
        _ ← print_hex msgbuf buf left;
        fp ← ikev2_msg_frompeer;
        if negb fp then mret 0 else notify_dispatch n msgbuf buf left
  end.
End notify.

(** ** Safety

    An unencrypted notification cannot touch what only encrypted ones may:
    its frame is [erase_plain]. *)

Section safety.
Context `{Hext : !External, Hlaws : !ExternalLaws}.

Lemma or_flags_plain f m :
  Z.land f msg_flags_encrypted = 0 → erase_plain (or_flags f m) = erase_plain m.
Proof.
  intros H. unfold or_flags, erase_plain. simpl.
  rewrite Z.land_lor_distr_l, H, Z.lor_0_r. done.
Qed.

Definition notify_frame (s s' : pstate) : Prop :=
  frame erase_all s s' ∧ (msg_e (cur s) = false → frame erase_plain s s').

Lemma notify_frame_plain s s' : frame erase_plain s s' → notify_frame s s'.
Proof. intros H. split; [by apply (frame_weaken erase_plain)|done]. Qed.

Lemma notify_frame_refl s : notify_frame s s.
Proof. by apply notify_frame_plain. Qed.

Lemma notify_frame_enc s s' :
  msg_e (cur s) = true → frame erase_all s s' → notify_frame s s'.
Proof. intros He H. split; [done|]. by rewrite He. Qed.

Lemma nat_detection_spec len type fp s :
  (fp = false → is_Some (ps_sa s)) →
  wp oom_only (ikev2_nat_detection len type fp) (λ r s', frame erase_plain s s' ∧
    ∀ md, r = Some md → blen md = 20) s.
Proof.
  intros Hsa. unfold ikev2_nat_detection. do 6 pstep. pstep; [by pstep|]. pstep.
  eapply (wp_mono _ _ (λ _ s', s' = s)).
  { destruct fp; [by pstep|]. destruct (Hsa eq_refl) as [sa ->]. by pstep. }
  intros spis _ ->. do 2 pstep. pstep; [by pstep|]. pstep; [|by pstep]. pstep; [|by pstep].
  do 3 pstep.
  eapply (wp_mono _ _ (λ _ s', frame erase_plain s s')); [repeat pstep; done|].
  intros rnd s1 H1. pstep. split; [done|]. intros md Hmd. destruct (len <? _); simplify_eq.
  apply ext_sha1_length.
Qed.

Lemma notify_nat_detection_spec type msgbuf buf left s :
  0 ≤ buf → 0 ≤ left → buf + left ≤ blen msgbuf → frompeer s = true →
  wp oom_only (notify_nat_detection type msgbuf buf left) (λ _ s', frame erase_plain s s') s.
Proof.
  intros Hb Hl Hlen Hfp. unfold notify_nat_detection. pstep; [by pstep|]. do 3 pstep.
  rewrite Hfp. eapply wp_mono; [by apply nat_detection_spec|]. intros r s1 [H1 Hr].
  destruct r as [md|]; [|by pstep]. specialize (Hr md eq_refl). do 3 pstep. bool_facts.
  pstep. eapply (wp_mono _ _ (λ _ s', frame erase_plain s s')).
  { pstep; [by pstep|]. pstep. etrans; [exact H1|]. done. }
  intros _ s2 H2. repeat pstep; unfold SHA_DIGEST_LENGTH in *; try lia.
  apply wp_print_hex_at; [lia..|]. repeat pstep. etrans; [exact H2|]. done.
Qed.

Lemma sighash_loop_spec fuel msgbuf buf left s :
  0 ≤ buf → 0 ≤ left → buf + left ≤ blen msgbuf → blen msgbuf < 2 ^ 32 →
  (Z.to_nat left < fuel)%nat →
  wp oom_only (sighash_loop fuel msgbuf buf left) (λ _ s', frame erase_plain s s') s.
Proof.
  revert buf left s. induction fuel as [|fuel IH]; intros buf left s Hb Hl Hlen Hs Hf; [lia|].
  simpl. pstep; [|by pstep]. bool_facts. do 3 pstep. pstep.
  eapply (wp_mono _ _ (λ _ s', frame erase_plain s s')).
  { pstep; [|by pstep]. pstep. apply frame_set_msg. intros. by apply or_flags_plain. }
  intros _ s1 H1. sz_norm. eapply wp_mono; [apply IH; lia|]. intros. by etrans.
Qed.

(** Closes the leaves of a handler: nothing changed, or a parent field did. *)
Ltac notify_leaf :=
  first [ apply notify_frame_refl
        | apply notify_frame_enc; [bool_facts; done|]; first [by apply frame_set_msg | done]
        | apply notify_frame_plain; first [apply frame_set_msg; intros; by apply or_flags_plain | done] ].

Lemma notify_flag_encrypted_spec flag s :
  wp oom_only (notify_flag_encrypted flag) (λ _ s', notify_frame s s') s.
Proof. unfold notify_flag_encrypted. repeat pstep; notify_leaf. Qed.

Lemma notify_auth_failed_spec sa s :
  wp oom_only (notify_authentication_failed sa) (λ _ s', notify_frame s s') s.
Proof. unfold notify_authentication_failed. repeat pstep; notify_leaf. Qed.

Lemma notify_cookies_spec (enc : bool) (set : option bytes → iked_message → iked_message)
    msgbuf buf left s :
  0 ≤ buf → 0 ≤ left → buf + left ≤ blen msgbuf → blen msgbuf < 2 ^ 32 →
  (∀ o m, erase_all (set o m) = erase_all m) →
  (enc = false → ∀ o m, erase_plain (set o m) = erase_plain m) →
  (enc = true → msg_e (cur s) = true) →
  wp oom_only (o ← buf_new msgbuf buf left; _ ← upd_cur (set o);
            if negb (bool_decide (is_Some o)) then mret (-1)
            else _ ← upd_parent (set o); mret 0)
    (λ _ s', notify_frame s s') s.
Proof.
  intros Hb Hl Hlen Hs Hall Hplain He.
  assert (Hgen : ∀ er, (∀ o m, er (set o m) = er m) →
    wp oom_only (o ← buf_new msgbuf buf left; _ ← upd_cur (set o);
              if negb (bool_decide (is_Some o)) then mret (-1)
              else _ ← upd_parent (set o); mret 0) (λ _ s', frame er s s') s).
  { intros er Her. repeat pstep.
    - etrans; [|by apply frame_set_cur]. done.
    - etrans; [|by apply (frame_set_msg _ (set o))]. etrans; [|by apply frame_set_cur]. done. }
  destruct enc.
  - eapply wp_mono; [by apply (Hgen erase_all)|]. intros. apply notify_frame_enc; auto.
  - eapply wp_mono; [by apply (Hgen erase_plain), Hplain|]. intros. by apply notify_frame_plain.
Qed.

Lemma notify_dispatch_spec n msgbuf buf left s :
  0 ≤ buf → 0 ≤ left → buf + left ≤ blen msgbuf → pok s → msgbuf = msg_data (cur s) →
  frompeer s = true →
  wp oom_only (notify_dispatch n msgbuf buf left) (λ _ s', notify_frame s s') s.
Proof.
  intros Hb Hl Hlen [Hs Hpol] Hm Hfp. rewrite <- Hm in Hs.
  destruct (frompeer_sa _ Hfp) as [sa Hsa]. unfold notify_dispatch. do 2 pstep. rewrite Hsa.
  pstep. { eapply wp_mono; [by apply notify_nat_detection_spec|]. intros. by apply notify_frame_plain. }
  pstep; [apply notify_auth_failed_spec|].
  pstep. { unfold notify_invalid_ke. repeat pstep; try notify_leaf.
           apply notify_frame_plain,
             (frame_set_msg _ (λ m, or_flags IKED_MSG_FLAGS_INVALID_KE (set_msg_group _ m))).
           intros m. by rewrite or_flags_plain. }
  pstep; [apply notify_flag_encrypted_spec|].
  pstep. { unfold notify_rekey_sa. repeat pstep; notify_leaf. }
  pstep; [apply notify_flag_encrypted_spec|].
  pstep. { unfold notify_ipcomp. do 3 pstep; [pstep; notify_leaf|]. pstep; [pstep; notify_leaf|].
           bool_facts. sz_norm. repeat pstep. notify_leaf. }
  pstep; [apply notify_flag_encrypted_spec|].
  pstep; [repeat pstep; notify_leaf|].
  pstep. { unfold notify_mobike_supported. repeat pstep; notify_leaf. }
  pstep. { unfold notify_transport_mode. do 5 pstep; [pstep; notify_leaf|].
           pstep; [pstep; notify_leaf|]. pstep.
           destruct (Hpol Hfp) as [flags ->].
           eapply (wp_mono _ _ (λ _ s', s' = s)); [repeat pstep; done|].
           intros ok _ ->. repeat pstep; notify_leaf. }
  pstep. { unfold notify_update_sa_addresses. repeat pstep; notify_leaf. }
  pstep. { unfold notify_cookie2. do 3 pstep; [pstep; notify_leaf|]. pstep; [pstep; notify_leaf|].
           pstep; [pstep; notify_leaf|]. bool_facts.
           by apply (notify_cookies_spec true set_msg_cookie2). }
  pstep. { unfold notify_cookie. do 3 pstep; [pstep; notify_leaf|]. pstep; [pstep; notify_leaf|].
           do 2 pstep. by apply (notify_cookies_spec false set_msg_cookie). }
  pstep. { unfold notify_fragmentation_supported. repeat pstep; notify_leaf. }
  pstep; [|pstep; notify_leaf]. unfold notify_signature_hash. do 3 pstep; [pstep; notify_leaf|].
  pstep; [pstep; notify_leaf|]. pstep; [pstep; notify_leaf|]. pstep.
  eapply wp_mono; [apply sighash_loop_spec; lia|]. intros. pstep. by apply notify_frame_plain.
Qed.

Lemma pld_notify_spec offset left s :
  0 ≤ offset → 0 ≤ left → offset + left ≤ blen (msg_data (cur s)) → pok s →
  wp oom_only (ikev2_pld_notify offset left) (λ _ s', notify_frame s s') s.
Proof.
  intros Ho Hl Hb Hok. pose proof Hok as [Hd _]. unfold ikev2_pld_notify. do 4 pstep.
  eapply (wpo_mono _ _ (λ v, is_Some v → sizeof_notify ≤ left)).
  { unfold ikev2_validate_notify. sz_norm. repeat pstep; bool_facts; [by intros [??]|done]. }
  intros [n|] Hv; [|pstep; apply notify_frame_refl]. specialize (Hv ltac:(done)). sz_norm.
  pstep; [pstep; apply notify_frame_refl|]. do 3 pstep.
  apply wp_frompeer. destruct (frompeer s) eqn:Hfp; simpl; [|pstep; apply notify_frame_refl].
  apply notify_dispatch_spec; done || lia.
Qed.
End safety.
