(* ===== verification/ParseEap.v ===== *)
(** * Configuration and EAP payloads

    [ikev2_pld_cp] and [ikev2_pld_eap] of [ikev2_pld.c], and the parser of EAP
    messages, [eap_parse], [eap_mschap] and [eap_validate_id_response] of
    [eap.c]. The EAP structs are overlaid on the message at an offset. *)

From S2P Require Import Prelude Types SaState Proposals Ibuf Parse ParsePld.

Section handlers.
Context `{!External}.

(** ** Configuration payloads *)

Definition ikev2_validate_cp (msgbuf : bytes) (offset left : Z) : out (option Z) :=
  if left <? sizeof_cp then Ok None
  else b ← rd msgbuf offset sizeof_cp; Ok (Some (fld8 b 0)).

(** [calloc] of an address, filled from the [size] bytes at [ptr]. *)
Definition cfg_addr (msgbuf : bytes) (ptr af size : Z) : P (option iked_addr) :=
  a ← next_alloc;
  if negb a then mret None
  else
    b ← lift (rd msgbuf ptr size);
    mret (Some (mk_iked_addr af (mk_sockaddr af 0 b) 0 false 0)).

(** An attribute carrying an address: [get] and [set] are the field of the
    message it is stored in, unless that is already set. *)
Definition cfg_address (msgbuf : bytes) (ptr clen af size : Z)
    (get : iked_message → option iked_addr)
    (set : option iked_addr → iked_message → iked_message) : P Z :=
  fp ← ikev2_msg_frompeer;
  if negb fp then mret 0
  else if clen =? 0 then mret 0
  else if clen <? size then mret (-1)
  else
    old ← gets (λ s, get (ps_msg s));
    if bool_decide (is_Some old) then mret 0
    else
      o ← cfg_addr msgbuf ptr af size;
      match o with
      | None => mret 0
      | Some addr => _ ← upd_parent (set (Some addr)); mret 0
      end.

Definition cfg_attribute (type : Z) (msgbuf : bytes) (ptr clen : Z) : P Z :=
  if type =? IKEV2_CFG_INTERNAL_IP4_ADDRESS then
    cfg_address msgbuf ptr clen AF_INET 4 msg_cp_addr set_msg_cp_addr
  else if type =? IKEV2_CFG_INTERNAL_IP4_DNS then
    cfg_address msgbuf ptr clen AF_INET 4 msg_cp_dns set_msg_cp_dns
  else if type =? IKEV2_CFG_INTERNAL_IP6_ADDRESS then
    cfg_address msgbuf ptr clen AF_INET6 16 msg_cp_addr6 set_msg_cp_addr6
  else if type =? IKEV2_CFG_INTERNAL_IP6_DNS then
    cfg_address msgbuf ptr clen AF_INET6 16 msg_cp_dns set_msg_cp_dns
  else mret 0.

(** The loop over the attributes. [print_hex] is called with [ptr] already
    past the attribute's header and its size again as offset. *)
Fixpoint pld_cp_loop (fuel : nat) (msgbuf : bytes) (ptr len : Z) : P Z :=
  match fuel with
  | O => fail Ffuel
  | S fuel =>
      if 0 <? len then
        if len <? sizeof_cfg then mret (-1)
        else
          b ← lift (rd msgbuf ptr sizeof_cfg);
          let cfg := dec_cfg b in
          let ptr := (ptr + sizeof_cfg)%sz in
          let len := (len - sizeof_cfg)%sz in
          if len <? cfg_length cfg then mret (-1)
          else
            _ ← print_hex msgbuf (ptr + sizeof_cfg) (cfg_length cfg);
            r ← cfg_attribute (cfg_type cfg) msgbuf ptr (cfg_length cfg);
            if negb (r =? 0) then mret (-1)
            else pld_cp_loop fuel msgbuf (ptr + cfg_length cfg)%sz (len - cfg_length cfg)%sz
      else mret 0
  end.

Definition ikev2_pld_cp (offset left : Z) : P Z :=
  msgbuf ← gets (λ s, msg_data (cur s));
  v ← lift (ikev2_validate_cp msgbuf offset left);
  match v with
  | None => mret (-1)
  | Some type =>
      let ptr := (offset + sizeof_cp)%sz in
      let len := (left - sizeof_cp)%sz in
      _ ← print_hex msgbuf ptr len;
      r ← pld_cp_loop (S (Z.to_nat len)) msgbuf ptr len;
      if negb (r =? 0) then mret (-1)
      else
        fp ← ikev2_msg_frompeer;
        if negb fp then mret 0
        else _ ← upd_parent (set_msg_cp type); mret 0
  end.

(** ** EAP messages *)

Definition upd_eap (f : eap_msg → eap_msg) : P unit :=
  upd_parent (λ m, set_msg_eap (f (msg_eap m)) m).

(** The fields of [struct eap_message] at [data]. *)
Record eap_message := mk_eap_message {
  em_code : Z; em_id : Z; em_length : Z; em_type : Z }.
Definition dec_eap_message (b : bytes) : eap_message :=
  mk_eap_message (fld8 b 0) (fld8 b 1) (fld16 b 2) (fld8 b 4).

Definition eap_validate_id_response (msgbuf : bytes) (data : Z) (eap : eap_message)
  : P (option bytes) :=
  let len := (em_length eap - sizeof_eap_message)%sz in
  let ptr := (data + sizeof_eap_message)%sz in
  if len =? 0 then a ← next_alloc; mret (if (a : bool) then Some [] else None)
  else get_string (drop (Z.to_nat ptr) msgbuf) len.

Definition eap_mschap (sa : iked_sa) (msgbuf : bytes) (data : Z) (eap : eap_message) : P Z :=
  if negb (sa_stateok sa IKEV2_STATE_EAP) then mret 0
  else if sh_initiator (sa_hdr sa) then mret (-1)
  else if negb (em_type eap =? EAP_TYPE_MSCHAP_V2) then mret (-1)
  else if em_length eap <? sizeof_eap_message + sizeof_eap_mschap then mret (-1)
  else
    let ms := (data + sizeof_eap_message)%sz in
    op ← lift (rd msgbuf ms sizeof_eap_mschap);
    if fld8 op 0 =? EAP_MSOPCODE_RESPONSE then
      if em_length eap <? sizeof_eap_message + sizeof_eap_mschap_response then mret (-1)
      else
        let ptr := (ms + sizeof_eap_mschap_response)%sz in
        let len := (em_length eap - sizeof_eap_message - sizeof_eap_mschap_response)%sz in
        _ ← (if len =? 0 then mret tt
             else user ← get_string (drop (Z.to_nat ptr) msgbuf) len; upd_eap (set_eam_user user));
        msr ← lift (rd msgbuf ms sizeof_eap_mschap_response);
        _ ← upd_eap (λ e, set_eam_state EAP_STATE_MSCHAPV2_CHALLENGE
              (set_eam_ntresponse (sub_bytes 29 EAP_MSCHAP_NTRESPONSE_SZ msr)
              (set_eam_challenge (sub_bytes 5 EAP_MSCHAP_CHALLENGE_SZ msr)
              (set_eam_msrid (fld8 msr 1) e))));
        mret 0
    else if fld8 op 0 =? EAP_MSOPCODE_SUCCESS then
      _ ← upd_eap (set_eam_state EAP_STATE_MSCHAPV2_SUCCESS); mret 0
    else mret (-1).

(** A struct of [size] bytes followed by a text: [false] is [return (-1)]. *)
Definition eap_ms_text (msgbuf : bytes) (ptr len size : Z) : P bool :=
  if len <? size then mret false
  else
    _ ← lift (rd msgbuf ptr size);
    str ← get_string (drop (Z.to_nat (ptr + size)%sz) msgbuf) (len - size)%sz;
    mret (bool_decide (is_Some str)).

(** The [switch] on the MS-CHAP opcode; [None] when the parser goes on,
    [Some r] for [return (r)]. *)
Definition eap_parse_mschap (msgbuf : bytes) (ptr len : Z) (code : Z) (response : bool)
  : P (option Z) :=
  if len <? sizeof_eap_mschap then mret (Some (-1))
  else
    op ← lift (rd msgbuf ptr sizeof_eap_mschap);
    let opcode := fld8 op 0 in
    let go_on (ok : bool) : P (option Z) := mret (if ok then None else Some (-1)) in
    if opcode =? EAP_MSOPCODE_CHALLENGE then
      ok ← eap_ms_text msgbuf ptr len sizeof_eap_mschap_challenge;
      if negb ok then mret (Some (-1))
      else _ ← print_hex msgbuf (ptr + 5) EAP_MSCHAP_CHALLENGE_SZ; mret None
    else if opcode =? EAP_MSOPCODE_RESPONSE then
      ok ← eap_ms_text msgbuf ptr len sizeof_eap_mschap_response;
      if negb ok then mret (Some (-1))
      else _ ← print_hex msgbuf (ptr + 5) EAP_MSCHAP_RESPONSE_SZ; mret None
    else if opcode =? EAP_MSOPCODE_SUCCESS then
      if code =? EAP_CODE_REQUEST then
        ok ← eap_ms_text msgbuf ptr len sizeof_eap_mschap_success; go_on ok
      else if (response : bool) then mret None
      else
        _ ← upd_eap (λ e, set_eam_state EAP_STATE_SUCCESS (set_eam_success true e));
        mret (Some 0)
    else if opcode =? EAP_MSOPCODE_FAILURE then
      ok ← eap_ms_text msgbuf ptr len sizeof_eap_mschap_failure; go_on ok
    else mret (Some (-1)).

(** [sa] is dereferenced only where the source does. *)
Definition eap_parse (msgbuf : bytes) (data : Z) (response : bool) : P Z :=
  b ← lift (rd msgbuf data sizeof_eap_message);
  let eap := dec_eap_message b in
  osa ← gets ps_sa;
  if em_length eap <? sizeof_eap_message then mret (-1)
  else
    let ptr := (data + sizeof_eap_message)%sz in
    let len := (em_length eap - sizeof_eap_message)%sz in
    if em_code eap =? EAP_CODE_SUCCESS then mret 0
    else if em_code eap =? EAP_CODE_FAILURE then mret (if response then 0 else -1)
    else if negb ((em_code eap =? EAP_CODE_REQUEST) || (em_code eap =? EAP_CODE_RESPONSE))
    then mret (-1)
    else
      _ ← upd_eap (λ e, set_eam_type (em_type eap) (set_eam_id (em_id eap) e));
      if em_type eap =? EAP_TYPE_IDENTITY then
        if em_code eap =? EAP_CODE_REQUEST then mret 0
        else
          str ← eap_validate_id_response msgbuf data eap;
          if negb (bool_decide (is_Some str)) then mret (-1)
          else if (response : bool) then mret 0
          else match osa with
               | None => fail Fnull
               | Some sa =>
                   if bool_decide (is_Some (sa_eapid sa)) then mret 0
                   else
                     _ ← upd_eap (λ e, set_eam_state EAP_STATE_IDENTITY
                           (set_eam_identity str (set_eam_response true e)));
                     mret 0
               end
      else if em_type eap =? EAP_TYPE_MSCHAP_V2 then
        r ← eap_parse_mschap msgbuf ptr len (em_code eap) response;
        match r with
        | Some r => mret r
        | None =>
            if (response : bool) then mret 0
            else match osa with
                 | None => fail Fnull
                 | Some sa => eap_mschap sa msgbuf data eap
                 end
        end
      else mret (-1).

Definition ikev2_validate_eap (msgbuf : bytes) (offset left : Z) : out (option eap_header) :=
  if left <? sizeof_eap_header then Ok None
  else b ← rd msgbuf offset sizeof_eap_header; Ok (Some (dec_eap_header b)).

Definition ikev2_pld_eap (offset left : Z) : P Z :=
  m ← gets cur;
  let msgbuf := msg_data m in
  v ← lift (ikev2_validate_eap msgbuf offset left);
  match v with
  | None => mret (-1)
  | Some hdr =>
      let eap_len := eap_length hdr in
      if negb (left =? eap_len) then mret (-1)
      else if eap_len <? sizeof_eap_message then mret 0
      else if negb (seek_ok msgbuf offset eap_len) then mret (-1)
      else
        r ← eap_parse msgbuf offset (msg_response m);
        if r =? -1 then mret (-1)
        else _ ← upd_eap (set_eam_found true); mret 0
  end.
End handlers.

(** ** Safety *)

Section safety.
Context `{Hext : !External}.

Lemma cfg_address_spec msgbuf ptr clen af size get set s :
  0 ≤ ptr → 0 ≤ size → ptr + clen ≤ blen msgbuf →
  (∀ v m, erase_all (set v m) = erase_all m) →
  wp oom_only (cfg_address msgbuf ptr clen af size get set) (λ _ s', frame erase_all s s') s.
Proof.
  intros Hp Hs Hb Hset. unfold cfg_address, cfg_addr. repeat pstep; bool_facts; try done.
  etrans; [|by apply (frame_set_msg _ (set _))]. done.
Qed.

Lemma cfg_attribute_spec type msgbuf ptr clen s :
  0 ≤ ptr → ptr + clen ≤ blen msgbuf →
  wp oom_only (cfg_attribute type msgbuf ptr clen) (λ _ s', frame erase_all s s') s.
Proof.
  intros. unfold cfg_attribute. repeat (pstep; [by apply cfg_address_spec|]). by pstep.
Qed.

Lemma pld_cp_loop_spec fuel msgbuf ptr len s :
  0 ≤ ptr → 0 ≤ len → ptr + len ≤ blen msgbuf → blen msgbuf < 2 ^ 32 →
  (Z.to_nat len < fuel)%nat → ps_verbose s < 3 →
  wp oom_only (pld_cp_loop fuel msgbuf ptr len) (λ _ s', frame erase_all s s') s.
Proof.
  revert ptr len s. induction fuel as [|fuel IH]; intros ptr len s Hp Hl Hb Hs Hf Hq; [lia|].
  simpl. pstep; [|by pstep]. pstep; [by pstep|]. sz_norm. do 3 pstep. pstep; [by pstep|].
  bool_facts. pose proof (fld16_range (sub_bytes ptr 4 msgbuf) 2) as Hc.
  pstep. unfold print_hex, print_hex_at. do 2 pstep.
  rewrite (proj2 (Z.ltb_lt _ _)) by done. simpl. do 2 pstep.
  eapply wp_mono; [apply cfg_attribute_spec; lia|]. intros r s1 H1. pstep; [by pstep|]. sz_norm.
  pose proof (fr_verbose _ _ _ H1). eapply wp_mono; [apply IH; lia|]. intros. by etrans.
Qed.

Lemma pld_cp_spec offset left s :
  0 ≤ offset → 0 ≤ left → offset + left ≤ blen (msg_data (cur s)) → pok s → ps_verbose s < 3 →
  wp oom_only (ikev2_pld_cp offset left) (λ _ s', frame erase_all s s') s.
Proof.
  intros Ho Hl Hb Hok Hq. pose proof Hok as [Hd _]. unfold ikev2_pld_cp. do 4 pstep.
  eapply wpo_mono; [by apply (validate_byte_spec _ _ _ sizeof_cp Some)|].
  intros [type|] Hv; [|by pstep]. destruct (Hv type eq_refl) as [Hsz _]. sz_norm. do 3 pstep.
  eapply wp_mono; [apply pld_cp_loop_spec; lia|]. intros r s1 H1.
  repeat pstep; try done. etrans; [exact H1|]. done.
Qed.

Lemma get_string_at msgbuf ptr len s :
  0 ≤ ptr → 0 ≤ len → ptr + len ≤ blen msgbuf →
  wp oom_only (get_string (drop (Z.to_nat ptr) msgbuf) len) (λ _ s', ∃ l, s' = set_ps_alloc l s) s.
Proof.
  intros. apply get_string_spec. unfold blen in *. rewrite length_drop. lia.
Qed.

Lemma eap_ms_text_spec msgbuf ptr len size s :
  0 ≤ ptr → 0 ≤ len → 0 ≤ size → ptr + len ≤ blen msgbuf → blen msgbuf < 2 ^ 32 →
  wp oom_only (eap_ms_text msgbuf ptr len size)
    (λ ok s', (∃ l, s' = set_ps_alloc l s) ∧ (ok = true → size ≤ len)) s.
Proof.
  intros. unfold eap_ms_text. pstep.
  { pstep. split; [|done]. exists (ps_alloc s). by destruct s. }
  sz_norm. do 4 pstep. eapply wp_mono; [apply get_string_at; lia|]. intros str s1 Hs1.
  pstep. split; [done|]. intros _. bool_facts. lia.
Qed.

Lemma eap_parse_mschap_spec msgbuf ptr len code response s :
  0 ≤ ptr → 0 ≤ len → ptr + len ≤ blen msgbuf → blen msgbuf < 2 ^ 32 →
  wp oom_only (eap_parse_mschap msgbuf ptr len code response) (λ _ s', frame erase_all s s') s.
Proof.
  intros Hp Hl Hb Hs. unfold eap_parse_mschap. sz_norm. pstep; [by pstep|]. do 3 pstep. bool_facts.
  unfold EAP_MSCHAP_CHALLENGE_SZ, EAP_MSCHAP_RESPONSE_SZ.
  repeat first
    [ match goal with |- wp _ (eap_ms_text _ _ _ _) _ _ =>
        eapply wp_mono; [apply eap_ms_text_spec; lia|]; intros [] ? [[? ->] Hok];
        try specialize (Hok eq_refl); simpl end
    | pstep | done ].
Qed.

Lemma frame_upd_eap f s :
  frame erase_all s (set_ps_msg (set_msg_eap (f (msg_eap (ps_msg s))) (ps_msg s)) s).
Proof. done. Qed.

Lemma eap_mschap_spec sa msgbuf data eap s :
  0 ≤ data → em_length eap < 65536 → data + em_length eap ≤ blen msgbuf → blen msgbuf < 2 ^ 32 →
  wp oom_only (eap_mschap sa msgbuf data eap) (λ _ s', frame erase_all s s') s.
Proof.
  intros Hp Hl Hb Hs. unfold eap_mschap, upd_eap. sz_norm. do 3 (pstep; [by pstep|]). pstep; [by pstep|].
  bool_facts. sz_norm. do 3 pstep. pstep.
  - pstep; [by pstep|]. bool_facts. sz_norm. pstep.
    eapply (wp_mono _ _ (λ _ s', frame erase_all s s')).
    { pstep; [by pstep|]. pstep. eapply wp_mono; [apply get_string_at; lia|].
      intros str s1 [l ->]. pstep. etrans; [|apply frame_upd_eap]. done. }
    intros _ s1 H1. do 3 pstep. repeat pstep. etrans; [exact H1|]. done.
  - repeat pstep; done.
Qed.

Lemma eap_parse_spec msgbuf data response s :
  0 ≤ data → blen msgbuf < 2 ^ 32 → is_Some (ps_sa s) →
  data + sizeof_eap_message ≤ blen msgbuf →
  data + em_length (dec_eap_message (sub_bytes data sizeof_eap_message msgbuf)) ≤ blen msgbuf →
  wp oom_only (eap_parse msgbuf data response) (λ _ s', frame erase_all s s') s.
Proof.
  intros Hp Hs [sa Hsa] Hb Hl. unfold eap_parse, upd_eap. sz_norm. do 5 pstep.
  pose proof (fld16_range (sub_bytes data 5 msgbuf) 2) as Hr.
  change (fld16 _ 2) with (em_length (dec_eap_message (sub_bytes data 5 msgbuf))) in Hr.
  set (eap := dec_eap_message _) in *. pstep; [by pstep|]. bool_facts. sz_norm. rewrite Hsa.
  do 3 (pstep; [by pstep|]). do 2 pstep. set (s1 := set_ps_msg _ s).
  assert (H1 : frame erase_all s s1) by done.
  pstep; [pstep; [by pstep|]|pstep; [|by pstep]].
  - pstep. eapply (wp_mono _ _ (λ _ s', ∃ l, s' = set_ps_alloc l s1)).
    { unfold eap_validate_id_response. sz_norm. pstep; [repeat pstep; eauto|].
      apply get_string_at; lia. }
    intros str s2 [l ->]. repeat pstep; done.
  - pstep. eapply wp_mono; [apply eap_parse_mschap_spec; lia|]. intros r s2 H2.
    assert (H02 : frame erase_all s s2) by (by etrans).
    destruct r as [r|]; [by pstep|]. pstep; [by pstep|].
    eapply wp_mono; [apply eap_mschap_spec; lia|]. intros. by etrans.
Qed.

Lemma pld_eap_spec offset left s :
  0 ≤ offset → 0 ≤ left → offset + left ≤ blen (msg_data (cur s)) → pok s → is_Some (ps_sa s) →
  wp oom_only (ikev2_pld_eap offset left) (λ _ s', frame erase_all s s') s.
Proof.
  intros Ho Hl Hb Hok Hsa. pose proof Hok as [Hd _]. unfold ikev2_pld_eap, upd_eap.
  do 2 pstep. set (msgbuf := msg_data (cur s)) in *. do 2 pstep.
  eapply (wpo_mono _ _ (λ v, ∀ h, v = Some h → sizeof_eap_header ≤ left ∧
    h = dec_eap_header (sub_bytes offset sizeof_eap_header msgbuf))).
  { unfold ikev2_validate_eap. sz_norm. repeat pstep; bool_facts; [done|].
    intros h [= <-]. split; [lia|done]. }
  intros [h|] Hv; [|by pstep]. destruct (Hv h eq_refl) as [Hsz ->]. sz_norm.
  repeat (pstep; [by pstep|]). bool_facts. pstep.
  assert (El : em_length (dec_eap_message (sub_bytes offset 5 msgbuf)) = left).
  { rewrite Heqb. simpl. unfold fld16. by rewrite !sub_bytes_sub by lia. }
  eapply wp_mono; [apply eap_parse_spec; [done|done|done|sz_norm; lia|sz_norm; rewrite El; lia]|].
  intros r s1 H1. repeat pstep; [done|]. etrans; [exact H1|]. done.
Qed.
End safety.
