(* ===== verification/ParseSk.v ===== *)
(** * Encrypted payloads: [ikev2_pld_e], [ikev2_pld_ef], reassembly, decryption

    [ikev2_msg_decrypt] of [ikev2_msg.c] and the two handlers of encrypted
    payloads. Both end by parsing the decrypted payloads with
    [ikev2_pld_payloads]; they take that function as an argument, and
    [ParseTop.v] ties the knot. *)

From S2P Require Import Prelude Types SaState Proposals Ibuf Parse.

(** ** Lengths derived from the negotiated algorithms ([crypto.c]) *)

Definition hash_length (h : iked_hash) : Z :=
  if negb (hash_trunc h =? 0) then hash_trunc h else hash_length_f h.
Definition hash_keylength (h : iked_hash) : Z := hash_length_f h.
Definition cipher_length (c : iked_cipher) : Z := encr_length c.
Definition cipher_ivlength (c : iked_cipher) : Z := encr_ivlength c.
Definition roundup (x y : Z) : Z := (x + (y - 1)) / y * y.
Definition cipher_outlength (c : iked_cipher) (inlen : Z) : Z := roundup inlen (encr_length c).

(** [ibuf_new(NULL, len)]: a buffer of zeros. *)
Definition buf_zeros (len : Z) : P (option bytes) :=
  a ← next_alloc;
  r ← lift (ibuf_new a None len);
  mret (ibuf_content <$> r).

Section decrypt.
Context `{!External}.

(** ** Decryption *)

(** The checksum of a message protected by a separate integrity algorithm;
    [false] when it does not hold or memory runs out. *)
Definition msg_decrypt_integr (h : iked_hash) (key : option bytes) (msg src : bytes)
    (integroff integrlen : Z) : P bool :=
  o ← buf_zeros (hash_keylength h);
  if negb (bool_decide (is_Some o)) then mret false
  else match key with
  | None => fail Fnull
  | Some key =>
      _ ← must_alloc;
      data ← lift (rd msg 0 (blen msg - integrlen));
      let tmp := ext_mac h key data in
      if negb (seek_ok src integroff integrlen) then mret false
      else
        a ← lift (rd tmp 0 integrlen);
        b ← lift (rd src integroff integrlen);
        if negb (bool_decide (a = b)) then mret false
        else _ ← print_hex tmp 0 integrlen; mret true
  end.

(** [cipher_setiv] and [cipher_init_decrypt], whose buffers are the vector
    and, for the ciphers with a salt, the nonce; [false] is the result -1. A
    vector that could not be allocated is used all the same. *)
Definition cipher_start (c : iked_cipher) : P bool :=
  iv ← next_alloc;
  if 0 <? encr_saltlength c then
    nonce ← next_alloc;
    if negb nonce then mret false
    else if negb iv then fail Foom
    else next_alloc
  else if negb iv then fail Foom
  else mret true.

(** Decrypt and strip the padding. [outlen - pad - 1] is converted to
    [size_t], so a padding longer than the text makes [ibuf_setsize] fail. *)
Definition msg_decrypt_payload (c : iked_cipher) (h : iked_hash) (key : option bytes)
    (msg src : bytes) (encroff encrlen integroff integrlen : Z) : P (option bytes) :=
  match key with
  | None => fail Fnull
  | Some key =>
      _ ← must_alloc;
      iv ← lift (rd src 0 (cipher_ivlength c));
      ok ← cipher_start c;
      if negb ok then mret None
      else
      tag ← (if hash_isaead h then lift (rd src integroff integrlen) else mret []);
      o ← buf_zeros (cipher_outlength c encrlen);
      match o with
      | None => mret None
      | Some _ =>
          aad ← (if hash_isaead h then
                   _ ← print_hex msg 0 (blen msg - blen src);
                   lift (rd msg 0 (blen msg - blen src))
                 else mret []);
          ct ← lift (rd src encroff encrlen);
          match ext_decrypt c key iv aad tag ct with
          | None => mret None
          | Some pt =>
              let outlen := blen pt in
              pad ← (if outlen =? 0 then mret 0
                     else b ← lift (rd pt (outlen - 1) 1); mret (fld8 b 0));
              _ ← print_hex pt 0 outlen;
              let size := (outlen - pad - 1) mod size_max in
              mret (if blen pt <? size then None else Some (sub_bytes 0 size pt))
          end
      end
  end.

Definition ikev2_msg_decrypt (osa : option iked_sa) (msg src : bytes) : P (option bytes) :=
  match osa with
  | None => _ ← print_hex src 0 (blen src); mret None
  | Some sa =>
      match sa_encr sa, sa_integr sa with
      | Some c, Some h =>
          let '(encr, integr) :=
            if negb (sh_initiator (sa_hdr sa)) then (sa_key_iencr sa, sa_key_iauth sa)
            else (sa_key_rencr sa, sa_key_rauth sa) in
          let blocklen := cipher_length c in
          let ivlen := cipher_ivlength c in
          let integrlen := hash_length h in
          let integroff := blen src - integrlen in
          let encroff := ivlen in
          let encrlen := blen src - integrlen - ivlen in
          if (encrlen <? 0) || (integroff <? 0) then mret None
          else
            _ ← print_hex src 0 ivlen;
            _ ← print_hex src encroff encrlen;
            _ ← print_hex src integroff integrlen;
            ok ← (if negb (hash_isaead h)
                  then msg_decrypt_integr h integr msg src integroff integrlen
                  else mret true);
            if negb ok then mret None
            else if negb (encrlen mod blocklen =? 0) then mret None
            else msg_decrypt_payload c h encr msg src encroff encrlen integroff integrlen
      | _, _ => _ ← print_hex src 0 (blen src); mret None
      end
  end.
End decrypt.

(** ** Fragments *)

(** [config_free_fragments] of [config.c]. *)
Definition config_free_fragments (f : iked_frag) : iked_frag :=
  match frag_arr f with Some _ => frag_zero | None => f end.

Definition ikev2_validate_ef (msgbuf : bytes) (offset left : Z)
  : out (option ikev2_frag_payload) :=
  if left <? sizeof_frag_payload then Ok None
  else b ← rd msgbuf offset sizeof_frag_payload; Ok (Some (dec_frag_payload b)).

Definition set_frags (f : iked_frag → iked_frag) : P unit :=
  upd_sa (λ sa, set_sa_fragments (f (sa_fragments sa)) sa).

Definition upd_stats (f : frag_stats → frag_stats) : P unit :=
  modify (λ s, set_ps_stats (f (ps_stats s)) s).
Definition stat_rcvd (st : frag_stats) : frag_stats :=
  mk_frag_stats (to_u64 (st_rcvd st + 1)) (st_reass_ok st) (st_reass_drop st) (st_rcvd_drop st).
Definition stat_rcvd_drop (n : Z) (st : frag_stats) : frag_stats :=
  mk_frag_stats (st_rcvd st) (st_reass_ok st) (st_reass_drop st) (to_u64 (st_rcvd_drop st + n)).
Definition stat_reass (ok : bool) (n : Z) (st : frag_stats) : frag_stats :=
  if ok then mk_frag_stats (st_rcvd st) (to_u64 (st_reass_ok st + n)) (st_reass_drop st)
               (st_rcvd_drop st)
  else mk_frag_stats (st_rcvd st) (st_reass_ok st) (to_u64 (st_reass_drop st + n))
         (st_rcvd_drop st).

(** The copy of the message the decrypted payloads are parsed with. *)
Definition emsg_of (m : iked_message) (e : bytes) : iked_message :=
  set_msg_proposals [] (set_msg_e true (set_msg_data e m)).

(** The copy loop of [ikev2_frags_reassemble] over the entries to go:
    [None] is [goto done]. *)
Fixpoint reassemble_loop (els : list (option iked_frag_entry)) (e : bytes) (offset : Z)
  : out (option bytes) :=
  match els with
  | [] => Ok (Some e)
  | None :: _ => Fault Ffatal
  | Some el :: els =>
      if negb (seek_ok e offset (frag_size el)) then Ok None
      else
        d ← match frag_data el with
            | None => if frag_size el =? 0 then Ok [] else Fault Fnull
            | Some d => rd d 0 (frag_size el)
            end;
        e' ← store (Some e) offset d;
        reassemble_loop els (default [] e') (offset + frag_size el)%sz
  end.

Section handlers.
Context `{!External} (payloads : Z → Z → Z → P Z).

(** Parse a decrypted buffer as the current message. *)
Definition parse_decrypted (e : bytes) (nextpayload : Z) : P Z :=
  m ← gets cur;
  _ ← modify (set_ps_emsg (Some (emsg_of m e)));
  r ← payloads 0 (blen e) nextpayload;
  _ ← modify (set_ps_emsg None);
  mret r.

(** [goto done] of [ikev2_frags_reassemble]: count, and free the queue. *)
Definition reassemble_done (processed : bool) (ret : Z) : P Z :=
  sa ← gets ps_sa;
  let total := default 0 ((λ sa, frag_total (sa_fragments sa)) <$> sa) in
  _ ← upd_stats (stat_reass processed total);
  _ ← set_frags config_free_fragments;
  mret ret.

Definition ikev2_frags_reassemble : P Z :=
  osa ← gets ps_sa;
  match osa with
  | None => fail Fnull
  | Some sa =>
      let f := sa_fragments sa in
      o ← buf_zeros (frag_total_size f);
      match o with
      | None => reassemble_done false (-1)
      | Some e =>
          o ← lift (reassemble_loop (take (Z.to_nat (frag_total f)) (default [] (frag_arr f))) e 0);
          match o with
          | None => reassemble_done false (-1)
          | Some e =>
              _ ← print_hex e 0 (frag_total_size f);
              m ← gets cur;
              _ ← (if msg_response m then upd_sa (set_sa_requests []) else mret tt);
              r ← parse_decrypted e (frag_nextpayload f);
              reassemble_done true r
          end
      end
  end.

(** Labels [done] and [dropall] of [ikev2_pld_ef]. *)
Definition ef_done : P Z := _ ← upd_stats (stat_rcvd_drop 1); mret (-1).
Definition ef_dropall (f : iked_frag) : P Z :=
  _ ← upd_stats (stat_rcvd_drop (frag_count f + 1));
  _ ← set_frags config_free_fragments;
  mret (-1).

(** Store a decrypted fragment in its slot and go on if it was the last. *)
Definition ef_store (nextpayload frag_num : Z) (e : bytes) (arr : list (option iked_frag_entry))
  : P Z :=
  let i := Z.to_nat (frag_num - 1) in
  _ ← set_frags (λ f, set_frag_arr (Some arr)
        (if frag_num =? 1 then set_frag_nextpayload nextpayload f else f));
  a ← next_alloc;
  if negb a then ef_done
  else if negb (Z.of_nat i <? Z.of_nat (length arr)) then fail Foob
  else
    a ← next_alloc;
    if negb a then
      _ ← set_frags (set_frag_arr (Some (<[i := Some (mk_frag_entry None (blen e))]> arr)));
      ef_done
    else
      _ ← set_frags (λ f, set_frag_count (sz_add (frag_count f) 1)
            (set_frag_total_size (sz_add (frag_total_size f) (blen e))
            (set_frag_arr (Some (<[i := Some (mk_frag_entry (Some e) (blen e))]> arr)) f)));
      osa ← gets ps_sa;
      let complete := match osa with
        | Some sa => frag_count (sa_fragments sa) =? frag_total (sa_fragments sa)
        | None => false end in
      if complete then ikev2_frags_reassemble else mret 0.

(** A decrypted fragment [num] of [total]. *)
Definition ef_accept (nextpayload num total : Z) (e : bytes) : P Z :=
  osa ← gets ps_sa;
  match osa with
  | None => fail Fnull
  | Some sa =>
      let f := sa_fragments sa in
      match frag_arr f with
      | None =>
          a ← next_alloc;
          if negb a then ef_done
          else
            _ ← set_frags (set_frag_total total);
            ef_store nextpayload num e (replicate (Z.to_nat total) None)
      | Some arr =>
          if negb (total =? frag_total f) then ef_dropall f
          else match arr !! Z.to_nat (num - 1) with
               | None => fail Foob
               | Some (Some _) => ef_done
               | Some None => ef_store nextpayload num e arr
               end
      end
  end.

(** [&sa->sa_fragments] is formed first, so a null SA is an error at once. *)
Definition ikev2_pld_ef (nextpayload offset left : Z) : P Z :=
  m ← gets cur;
  let msgbuf := msg_data m in
  osa ← gets ps_sa;
  match osa with
  | None => fail Fnull
  | Some sa =>
      v ← lift (ikev2_validate_ef msgbuf offset left);
      match v with
      | None => mret (-1)
      | Some frag =>
          let num := frag_num frag in
          let total := frag_total_w frag in
          let offset := (offset + sizeof_frag_payload)%sz in
          let len := (left - sizeof_frag_payload)%sz in
          _ ← upd_stats stat_rcvd;
          if IKED_FRAG_TOTAL_MAX <? total then ef_dropall (sa_fragments sa)
          else if (num =? 0) || (total =? 0) then ef_done
          else if total <? num then ef_done
          else
            o ← buf_new msgbuf offset len;
            match o with
            | None => ef_done
            | Some src =>
                o ← ikev2_msg_decrypt (Some sa) msgbuf src;
                match o with
                | None => ef_done
                | Some e => ef_accept nextpayload num total e
                end
            end
      end
  end.

(** ** SK payloads *)

Definition ikev2_pld_e (nextpayload offset left : Z) : P Z :=
  m ← gets cur;
  let msgbuf := msg_data m in
  osa ← gets ps_sa;
  match osa with
  | None => fail Fnull
  | Some sa =>
      if bool_decide (is_Some (frag_arr (sa_fragments sa))) then
        _ ← set_frags config_free_fragments; mret (-1)
      else
        o ← buf_new msgbuf offset left;
        match o with
        | None => mret (-1)
        | Some src =>
            fp ← ikev2_msg_frompeer;
            let sa' := if (fp : bool) then sa
              else set_sa_hdr (set_sh_initiator (negb (sh_initiator (sa_hdr sa))) (sa_hdr sa)) sa in
            o ← ikev2_msg_decrypt (Some sa') msgbuf src;
            match o with
            | None => mret (-1)
            | Some e => parse_decrypted e nextpayload
            end
        end
  end.
End handlers.

(** ** Invariants *)

(** Keys and lengths of an SA whose algorithms were negotiated. *)
Record crypto_ok (sa : iked_sa) : Prop := {
  ck_block c : sa_encr sa = Some c → 1 ≤ encr_length c < 2 ^ 16 ∧ 0 ≤ encr_ivlength c;
  ck_hash h : sa_integr sa = Some h → 0 ≤ hash_length h ≤ hash_length_f h ∧ hash_length_f h < 2 ^ 16;
  ck_keys c h : sa_encr sa = Some c → sa_integr sa = Some h →
    is_Some (sa_key_iencr sa) ∧ is_Some (sa_key_rencr sa) ∧
    (hash_isaead h = false → is_Some (sa_key_iauth sa) ∧ is_Some (sa_key_rauth sa)) }.

(** The plaintexts stored so far, in fragment order. *)
Definition stored (arr : list (option iked_frag_entry)) : list bytes :=
  omap (λ el, el ≫= frag_data) arr.

Definition entry_ok (el : iked_frag_entry) : Prop :=
  ∀ d, frag_data el = Some d → frag_size el = blen d ∧ blen d ≤ IKED_MSGBUF_MAX.

(** A reassembly queue: empty and zero, or an array with [frag_total] slots
    and exact counters. *)
Record frag_queue (f : iked_frag) (arr : list (option iked_frag_entry)) : Prop := {
  fq_len : Z.of_nat (length arr) = frag_total f;
  fq_total : 1 ≤ frag_total f ≤ IKED_FRAG_TOTAL_MAX;
  fq_entries el : Some el ∈ arr → entry_ok el;
  fq_count : frag_count f = Z.of_nat (length (stored arr));
  fq_size : frag_total_size f = blen (concat (stored arr)) }.

Definition frag_ok (f : iked_frag) : Prop :=
  match frag_arr f with
  | None => f = frag_zero
  | Some arr => frag_queue f arr ∧ frag_count f < frag_total f
  end.

Record sa_ok (sa : iked_sa) : Prop := {
  so_crypto : crypto_ok sa;
  so_frag : frag_ok (sa_fragments sa) }.

(** What a whole message leaves alone in the SA. *)
Definition sa_core (sa : iked_sa) : iked_sa :=
  set_sa_fragments frag_zero (set_sa_requests [] sa).

Lemma crypto_ok_core sa sa' : sa_core sa = sa_core sa' → crypto_ok sa → crypto_ok sa'.
Proof.
  intros E [H1 H2 H3].
  assert (sa_encr sa' = sa_encr sa) as E1 by (exact (eq_sym (f_equal sa_encr E))).
  assert (sa_integr sa' = sa_integr sa) as E2 by (exact (eq_sym (f_equal sa_integr E))).
  assert (sa_key_iencr sa' = sa_key_iencr sa) as E3 by (exact (eq_sym (f_equal sa_key_iencr E))).
  assert (sa_key_rencr sa' = sa_key_rencr sa) as E4 by (exact (eq_sym (f_equal sa_key_rencr E))).
  assert (sa_key_iauth sa' = sa_key_iauth sa) as E5 by (exact (eq_sym (f_equal sa_key_iauth E))).
  assert (sa_key_rauth sa' = sa_key_rauth sa) as E6 by (exact (eq_sym (f_equal sa_key_rauth E))).
  constructor; rewrite ?E1, ?E2, ?E3, ?E4, ?E5, ?E6; done.
Qed.

Lemma crypto_ok_flip sa h : crypto_ok sa → crypto_ok (set_sa_hdr h sa).
Proof. intros [H1 H2 H3]. by constructor. Qed.

Lemma wp_buf_zeros F len (Q : option bytes → pstate → Prop) s :
  0 ≤ len < size_max →
  (∀ o l, o = None ∨ (o = Some (zeros len) ∧ len ≤ IKED_MSGBUF_MAX) → Q o (set_ps_alloc l s)) →
  wp F (buf_zeros len) Q s.
Proof.
  intros Hl HQ. unfold buf_zeros. apply wp_bind, wp_next_alloc. intros a l.
  apply wp_bind, wp_lift. destruct (new_zeros a len Hl) as (o & -> & Ho). simpl.
  apply wp_ret, HQ. destruct o as [b|]; [right|by left].
  destruct Ho as (_ & ? & _ & Hc). simpl. by rewrite Hc.
Qed.

Section safety.
Context `{Hext : !External, Hlaws : !ExternalLaws}.

(** Only the allocation oracle moves. *)
Definition alloc_only (s s' : pstate) : Prop := ∃ l, s' = set_ps_alloc l s.

Lemma alloc_only_refl s : alloc_only s s.
Proof. exists (ps_alloc s). by destruct s. Qed.

Lemma decrypt_integr_spec h key msg src off len s :
  0 ≤ off → 0 ≤ len ≤ hash_length_f h → hash_length_f h < 2 ^ 16 →
  off + len ≤ blen src → len ≤ blen msg → is_Some key →
  wp oom_only (msg_decrypt_integr h key msg src off len) (λ _ s', alloc_only s s') s.
Proof.
  intros Ho Hl Hh Hs Hm [k ->]. unfold msg_decrypt_integr, hash_keylength. pstep.
  apply wp_buf_zeros; [unfold size_max; lia|]. intros o l _.
  pose proof (ext_mac_length h k (sub_bytes 0 (blen msg - len) msg) ltac:(lia)) as Hmac.
  repeat pstep; by eexists.
Qed.

Lemma cipher_start_spec c s : wp oom_only (cipher_start c) (λ _ s', alloc_only s s') s.
Proof. unfold cipher_start. repeat pstep; try (apply wp_fail; reflexivity); by eexists. Qed.

Lemma roundup_mult x y : 0 < y → x mod y = 0 → roundup x y = x.
Proof.
  intros Hy Hx. unfold roundup. assert (E : x = y * (x / y)) by (apply Z.div_exact; lia).
  generalize dependent (x / y). intros q ->.
  replace (y * q + (y - 1)) with (q * y + (y - 1)) by lia.
  rewrite Z.div_add_l, Z.div_small by lia. lia.
Qed.

Lemma decrypt_payload_spec c h key msg src encroff encrlen integroff integrlen s :
  1 ≤ encr_length c → 0 ≤ encr_ivlength c → encroff = encr_ivlength c → 0 ≤ encrlen →
  encrlen mod encr_length c = 0 → 0 ≤ integroff → 0 ≤ integrlen →
  encroff + encrlen ≤ blen src → integroff + integrlen ≤ blen src → blen src ≤ blen msg →
  blen msg < 2 ^ 32 → is_Some key →
  wp oom_only (msg_decrypt_payload c h key msg src encroff encrlen integroff integrlen)
    (λ o s', alloc_only s s' ∧ ∀ e, o = Some e → blen e ≤ IKED_MSGBUF_MAX) s.
Proof.
  intros Hc Hiv -> He Hmod Hio Hil Hs1 Hs2 Hsm Hm [k ->].
  unfold msg_decrypt_payload, cipher_ivlength, cipher_outlength. rewrite roundup_mult by lia.
  pstep. apply wp_must_alloc; [reflexivity|]. intros l0. do 4 pstep. eapply wp_mono; [apply cipher_start_spec|]. intros ok s1 [l1 ->].
  destruct ok; cbn [negb]; [|pstep; split; [by eexists|done]]. pstep.
  eapply (wp_mono _ _ (λ _ s', s' = set_ps_alloc l1 s)).
  { change (set_ps_alloc l1 (set_ps_alloc l0 s)) with (set_ps_alloc l1 s). repeat pstep; done. }
  intros tag _ ->. pstep.
  apply wp_buf_zeros; [unfold size_max; lia|]. intros o l Ho.
  change (set_ps_alloc l (set_ps_alloc l1 s)) with (set_ps_alloc l s).
  destruct o as [z|]; [|pstep; split; [by exists l|done]]. destruct Ho as [|[_ Hmax]]; [done|].
  pstep. eapply (wp_mono _ _ (λ _ s', s' = set_ps_alloc l s)); [repeat pstep; done|].
  intros aad _ ->. do 3 pstep.
  destruct (ext_decrypt _ _ _ _ _ _) as [pt|] eqn:Hpt; [|pstep; split; [by exists l|done]].
  apply ext_decrypt_length in Hpt. rewrite blen_sub_bytes in Hpt by lia.
  pose proof (blen_nonneg pt). pstep.
  eapply (wp_mono _ _ (λ _ s', s' = set_ps_alloc l s)).
  { pstep; [by pstep|]. bool_facts. repeat pstep; done. }
  intros pad _ ->. repeat pstep. split; [by exists l|]. intros e.
  destruct (Z.ltb_spec (blen pt) ((blen pt - pad - 1) mod size_max)); [done|]. intros [= <-].
  pose proof (Z.mod_pos_bound (blen pt - pad - 1) size_max ltac:(done)).
  rewrite blen_sub_bytes by lia. lia.
Qed.

Lemma msg_decrypt_spec sa msg src s :
  crypto_ok sa → blen src ≤ blen msg → blen msg < 2 ^ 32 →
  wp oom_only (ikev2_msg_decrypt (Some sa) msg src)
    (λ o s', alloc_only s s' ∧ ∀ e, o = Some e → blen e ≤ IKED_MSGBUF_MAX) s.
Proof.
  intros [Hblock Hhash Hkeys] Hsm Hm. unfold ikev2_msg_decrypt. pose proof (blen_nonneg src).
  destruct (sa_encr sa) as [c|], (sa_integr sa) as [h|];
    try (repeat pstep; split; [apply alloc_only_refl|done]).
  destruct (Hblock c eq_refl) as [Hb Hiv]. destruct (Hhash h eq_refl) as [Hh Hh'].
  destruct (Hkeys c h eq_refl eq_refl) as (K1 & K2 & K3).
  set (keys := if negb _ then _ else _). destruct keys as [encr integr] eqn:Ek.
  assert (is_Some encr ∧ (hash_isaead h = false → is_Some integr)) as [He Hi].
  { unfold keys in Ek. destruct (negb _); simplify_eq; (split; [done|]); intros Hae; by apply K3. }
  unfold cipher_length, cipher_ivlength. pstep; [pstep; split; [apply alloc_only_refl|done]|].
  bool_facts. do 7 pstep.
  eapply (wp_mono _ _ (λ _ s', alloc_only s s')).
  { destruct (hash_isaead h); cbn [negb]; [pstep; apply alloc_only_refl|].
    apply decrypt_integr_spec; lia || by apply Hi. }
  intros ok s1 [l ->]. pstep; [pstep; split; [by exists l|done]|].
  pstep; [pstep; split; [by exists l|done]|]. bool_facts.
  eapply wp_mono; [apply decrypt_payload_spec; lia || done|].
  intros o s2 [[l' ->] Ho]. split; [by exists l'|done].
Qed.
End safety.

(** ** Reassembly *)

Lemma seek_ok_true data pos len :
  0 ≤ pos → 0 ≤ len → pos + len ≤ blen data → blen data < size_max - 1 → seek_ok data pos len = true.
Proof.
  intros. unfold seek_ok, SIZE_MAX. rewrite sz_sub_id, sz_add_id by lia.
  by rewrite !(proj2 (Z.ltb_ge _ _)) by lia.
Qed.

Lemma omap_full {A B} (f : A → option B) l :
  length (omap f l) = length l → ∀ x, x ∈ l → is_Some (f x).
Proof.
  induction l as [|a l IH]; intros H x Hx; [by apply elem_of_nil in Hx|]. simpl in H.
  assert (Hle : (length (omap f l) ≤ length l)%nat).
  { clear. unfold omap. induction l as [|a l IH]; simpl; [done|]. destruct (f a); simpl; lia. }
  unfold omap in *. destruct (f a) eqn:E; simpl in H; [|lia].
  apply elem_of_cons in Hx as [->|Hx]; [by rewrite E|]. apply IH; [lia|done].
Qed.

Lemma stored_cons d n els : stored (Some (mk_frag_entry (Some d) n) :: els) = d :: stored els.
Proof. done. Qed.

(** Every slot holds a plaintext of the recorded size. *)
Definition complete (els : list (option iked_frag_entry)) : Prop :=
  ∀ x, x ∈ els → ∃ el d, x = Some el ∧ frag_data el = Some d ∧ frag_size el = blen d.

Lemma complete_cons x els :
  complete (x :: els) → ∃ d n, x = Some (mk_frag_entry (Some d) n) ∧ n = blen d ∧ complete els.
Proof.
  intros H. destruct (H x ltac:(by left)) as ([od n] & d & -> & Hd & Hn). simpl in *. subst.
  exists d, (blen d). split_and!; [done|done|]. intros y Hy. apply H. by right.
Qed.

Lemma queue_complete f arr :
  frag_queue f arr → frag_count f = frag_total f → complete arr.
Proof.
  intros [Hl Ht He Hc Hs] Hct x Hx.
  destruct (omap_full (λ el, el ≫= frag_data) arr) with (x := x) as [d Hd]; [|done|].
  { change (omap _ arr) with (stored arr). lia. }
  destruct x as [el|]; [|done]. simpl in Hd. exists el, d.
  destruct (He el Hx d Hd) as [Hsz _]. done.
Qed.

Lemma reassemble_loop_spec els e off :
  complete els → 0 ≤ off → blen e = off + blen (concat (stored els)) → blen e < 2 ^ 32 →
  reassemble_loop els e off = Ok (Some (sub_bytes 0 off e ++ concat (stored els))).
Proof.
  revert e off. induction els as [|x els IH]; intros e off Hc Ho He Hs.
  { simpl. unfold stored in He; simpl in He. unfold blen at 2 in He. simpl in He.
    rewrite app_nil_r. do 2 f_equal. replace off with (blen e) by lia. by rewrite sub_bytes_all. }
  destruct (complete_cons _ _ Hc) as (d & n & -> & -> & Hc').
  rewrite stored_cons in *. simpl concat in *. rewrite blen_app in He.
  pose proof (blen_nonneg (concat (stored els))). pose proof (blen_nonneg d).
  assert (Hrd : rd d 0 (blen d) = Ok d).
  { unfold rd. rewrite !(proj2 (Z.leb_le _ _)) by lia. simpl. by rewrite sub_bytes_all. }
  destruct (store_spec e off d Ho ltac:(lia)) as (e' & Hst & Hl & Hbef & _ & Hat).
  cbn [reassemble_loop frag_size frag_data]. rewrite seek_ok_true by (unfold size_max; lia).
  cbn [negb]. rewrite Hrd. cbn [mbind out_bind]. rewrite Hst. cbn [mbind out_bind from_option id].
  rewrite sz_add_id by (unfold size_max; lia).
  rewrite IH by (done || lia). do 2 f_equal.
  rewrite sub_bytes_split by lia.
  rewrite Hbef by lia. rewrite Z.add_0_l, Hat. by rewrite <- app_assoc.
Qed.

Lemma frag_size_total f arr :
  frag_queue f arr → 0 ≤ frag_total_size f < 2 ^ 32.
Proof.
  intros [Hl Ht He Hc Hs]. rewrite Hs. split; [apply blen_nonneg|].
  assert (Hb : ∀ l : list (option iked_frag_entry), (∀ el, Some el ∈ l → entry_ok el) →
    blen (concat (stored l)) ≤ Z.of_nat (length l) * IKED_MSGBUF_MAX).
  { clear. induction l as [|x l IH]; intros H; [done|].
    assert (IH' := IH ltac:(intros; apply H; by right)). unfold IKED_MSGBUF_MAX in *.
    destruct x as [[[d|] n]|].
    - rewrite stored_cons. simpl concat. rewrite blen_app. simpl length.
      destruct (H _ ltac:(by left) d eq_refl) as [_ ?]. unfold IKED_MSGBUF_MAX in *. lia.
    - change (stored (_ :: l)) with (stored l). simpl length. lia.
    - change (stored (_ :: l)) with (stored l). simpl length. lia. }
  specialize (Hb arr He). unfold IKED_FRAG_TOTAL_MAX, IKED_MSGBUF_MAX in *. lia.
Qed.

Lemma stored_app l1 l2 : stored (l1 ++ l2) = stored l1 ++ stored l2.
Proof. unfold stored, omap. induction l1 as [|[[[d|] n]|] l1 IH]; simpl; by rewrite ?IH. Qed.

(** Filling an empty slot. *)
Lemma slot_split (arr : list (option iked_frag_entry)) i v :
  arr !! i = Some None → ∃ l1 l2, arr = l1 ++ None :: l2 ∧ <[i := v]> arr = l1 ++ v :: l2 ∧
    length l1 = i.
Proof.
  intros Hi. exists (take i arr), (drop (S i) arr). pose proof (lookup_lt_Some _ _ _ Hi).
  split_and!.
  - by rewrite take_drop_middle.
  - apply insert_take_drop. lia.
  - rewrite length_take. lia.
Qed.

Lemma blen_concat_app (l1 l2 : list bytes) : blen (concat (l1 ++ l2)) = blen (concat l1) + blen (concat l2).
Proof. by rewrite concat_app, blen_app. Qed.

Lemma queue_fill f arr i e :
  frag_queue f arr → arr !! i = Some None → blen e ≤ IKED_MSGBUF_MAX →
  frag_queue (set_frag_count (frag_count f + 1) (set_frag_total_size (frag_total_size f + blen e) f))
    (<[i := Some (mk_frag_entry (Some e) (blen e))]> arr).
Proof.
  intros [Hl Ht He Hc Hs] Hi Hb.
  destruct (slot_split _ _ (Some (mk_frag_entry (Some e) (blen e))) Hi) as (l1 & l2 & E1 & E2 & _).
  rewrite E2. subst arr. rewrite stored_app in Hc, Hs. change (stored (None :: l2)) with (stored l2) in *.
  constructor; simpl.
  - rewrite length_app in *. simpl in *. lia.
  - done.
  - intros el Hel. apply elem_of_app in Hel as [Hel|[Hel|Hel]%elem_of_cons].
    + apply He, elem_of_app. by left.
    + simplify_eq. intros d [= <-]. done.
    + apply He, elem_of_app. right. by right.
  - rewrite stored_app, stored_cons, length_app. rewrite length_app in Hc. simpl. lia.
  - rewrite stored_app, stored_cons, blen_concat_app. simpl concat. rewrite blen_app.
    rewrite blen_concat_app in Hs. lia.
Qed.

Lemma queue_mark f arr i n :
  frag_queue f arr → arr !! i = Some None →
  frag_queue f (<[i := Some (mk_frag_entry None n)]> arr).
Proof.
  intros [Hl Ht He Hc Hs] Hi.
  destruct (slot_split _ _ (Some (mk_frag_entry None n)) Hi) as (l1 & l2 & E1 & E2 & _).
  rewrite E2. subst arr. rewrite stored_app in Hc, Hs. change (stored (None :: l2)) with (stored l2) in *.
  constructor; try done; try (rewrite stored_app; done).
  - rewrite length_app in *. done.
  - intros el Hel. apply elem_of_app in Hel as [Hel|[Hel|Hel]%elem_of_cons].
    + apply He, elem_of_app. by left.
    + by simplify_eq.
    + apply He, elem_of_app. right. by right.
Qed.

Lemma stored_replicate n : stored (replicate n None) = [].
Proof. unfold stored, omap. by induction n. Qed.

Lemma queue_new total :
  1 ≤ total ≤ IKED_FRAG_TOTAL_MAX →
  frag_queue (set_frag_total total frag_zero) (replicate (Z.to_nat total) None).
Proof.
  intros Ht. constructor; simpl; rewrite ?stored_replicate; try done.
  - rewrite length_replicate. lia.
  - intros el Hel. apply elem_of_replicate in Hel as [? _]. done.
Qed.

(** ** Safety of the handlers *)

(** What a message may change beyond the parent's fields: the reassembly
    queue and the retransmit queue of its SA. *)
Record sframe (s s' : pstate) : Prop := {
  sf_verbose : ps_verbose s' = ps_verbose s;
  sf_sa : sa_core <$> ps_sa s' = sa_core <$> ps_sa s;
  sf_msg : erase_all (ps_msg s') = erase_all (ps_msg s);
  sf_emsg : ps_emsg s' = ps_emsg s }.

Lemma sframe_trans s1 s2 s3 : sframe s1 s2 → sframe s2 s3 → sframe s1 s3.
Proof. intros [] []. constructor; congruence. Qed.

#[global] Instance sframe_preorder : PreOrder sframe.
Proof. split; [done|exact sframe_trans]. Qed.

Lemma frame_sframe s s' : frame erase_all s s' → ps_emsg s' = ps_emsg s → sframe s s'.
Proof. intros [] ?. constructor; congruence. Qed.

Lemma sframe_alloc l s s' : sframe (set_ps_alloc l s) s' → sframe s s'.
Proof. intros [H1 H2 H3 H4]. by constructor. Qed.

Definition queue_ok (s : pstate) : Prop :=
  ∀ sa, ps_sa s = Some sa → frag_ok (sa_fragments sa).

Lemma sframe_sa s s' sa :
  sframe s s' → ps_sa s = Some sa → ∃ sa', ps_sa s' = Some sa' ∧ sa_core sa' = sa_core sa.
Proof.
  intros [_ E _ _] H. rewrite H in E. destruct (ps_sa s') as [sa'|]; [|done].
  exists sa'. split; [done|]. by apply (inj Some) in E.
Qed.

Lemma frag_ok_free f : frag_ok f → frag_ok (config_free_fragments f).
Proof. unfold frag_ok, config_free_fragments. by destruct (frag_arr f) eqn:E; rewrite ?E. Qed.

Lemma frag_ok_freed f arr : frag_arr f = Some arr → frag_ok (config_free_fragments f).
Proof. intros E. unfold frag_ok, config_free_fragments. by rewrite E. Qed.

Section handlers_safety.
Context `{Hext : !External, Hlaws : !ExternalLaws} (payloads : Z → Z → Z → P Z).

(** What [ikev2_pld_payloads] guarantees on a decrypted copy. *)
Hypothesis Hpay : ∀ e next s m,
  ps_emsg s = Some m → msg_data m = e → msg_e m = true → is_Some (ps_sa s) → pok s →
  ps_verbose s < 3 →
  wp oom_only (payloads 0 (blen e) next) (λ _ s', frame erase_all s s') s.

(** The state in which a received message is handled. *)
Record top_ok (s : pstate) : Prop := {
  to_emsg : ps_emsg s = None;
  to_quiet : ps_verbose s < 3;
  to_pok : pok s;
  to_sa sa : ps_sa s = Some sa → crypto_ok sa;
  to_some : is_Some (ps_sa s) }.

Lemma top_ok_sframe s s' : sframe s s' → top_ok s → top_ok s'.
Proof.
  intros H [He Hq [Hd Hp] Hsa Hs]. pose proof H as [E1 E2 E3 E4].
  assert (Hc : cur s = ps_msg s) by (unfold cur; by rewrite He).
  assert (Hc' : cur s' = ps_msg s') by (unfold cur; by rewrite E4, He).
  destruct Hs as [sa Hs]. destruct (sframe_sa _ _ _ H Hs) as (sa' & Hs' & Ec).
  constructor.
  - congruence.
  - lia.
  - constructor.
    + rewrite Hc'. assert (msg_data (ps_msg s') = msg_data (ps_msg s)) as ->
        by (exact (f_equal msg_data E3)). by rewrite <- Hc.
    + rewrite Hc'. assert (msg_policy (ps_msg s') = msg_policy (ps_msg s)) as ->
        by (exact (f_equal msg_policy E3)). rewrite <- Hc. intros Hfp. apply Hp.
      assert (sa_hdr sa' = sa_hdr sa) as Eh by (exact (f_equal sa_hdr Ec)).
      unfold frompeer in *. rewrite Hs, Hs', Eh in *.
      by assert (msg_data (ps_msg s') = msg_data (ps_msg s)) as <- by (exact (f_equal msg_data E3)).
  - intros sa'' E. rewrite Hs' in E. injection E as <-.
    apply (crypto_ok_core sa); [by symmetry|by apply Hsa].
  - by exists sa'.
Qed.

Lemma parse_decrypted_spec e next s :
  top_ok s → blen e < 2 ^ 32 →
  wp oom_only (parse_decrypted payloads e next) (λ _ s', frame erase_all s s' ∧ ps_emsg s' = None) s.
Proof.
  intros [He Hq [Hd Hp] _ Hs] Hb. unfold parse_decrypted. do 5 pstep.
  set (s1 := set_ps_emsg _ s).
  eapply wp_mono.
  { eapply (Hpay e next s1 (emsg_of (cur s) e)); done. }
  intros r s2 H2. repeat pstep. split; [|done]. destruct H2 as [E1 E2 E3 E4]. constructor; try done.
  simpl. by rewrite He.
Qed.

Lemma set_frags_sframe g s sa :
  ps_sa s = Some sa →
  sframe s (set_ps_sa ((λ sa, set_sa_fragments (g (sa_fragments sa)) sa) <$> ps_sa s) s).
Proof. intros Hs. constructor; try done. simpl. by rewrite Hs. Qed.

Lemma wp_set_frags F g (Q : unit → pstate → Prop) s sa :
  ps_sa s = Some sa →
  (∀ s', sframe s s' → ps_sa s' = Some (set_sa_fragments (g (sa_fragments sa)) sa) → Q tt s') →
  wp F (set_frags g) Q s.
Proof.
  intros Hs HQ. apply wp_modify, HQ; [by eapply set_frags_sframe|]. simpl. by rewrite Hs.
Qed.

Lemma ef_done_spec s : queue_ok s →
  wp oom_only ef_done (λ _ s', sframe s s' ∧ queue_ok s') s.
Proof. intros Hq. by repeat pstep. Qed.

Lemma ef_dropall_spec f s sa :
  ps_sa s = Some sa → queue_ok s →
  wp oom_only (ef_dropall f) (λ _ s', sframe s s' ∧ queue_ok s') s.
Proof.
  intros Hs Hq. unfold ef_dropall, upd_stats. do 3 pstep. apply (wp_set_frags _ _ _ _ sa); [done|].
  intros s' Hf Hs'. repeat pstep. split.
  - etrans; [|exact Hf]. done.
  - intros sa' E. rewrite Hs' in E. simplify_eq. apply frag_ok_free. by apply Hq.
Qed.

Lemma reassemble_done_spec ok r s sa arr :
  ps_sa s = Some sa → frag_arr (sa_fragments sa) = Some arr →
  wp oom_only (reassemble_done ok r) (λ _ s', sframe s s' ∧ queue_ok s') s.
Proof.
  intros Hs Ha. unfold reassemble_done, upd_stats. do 5 pstep. apply (wp_set_frags _ _ _ _ sa); [done|].
  intros s' Hf Hs'. repeat pstep. split.
  - etrans; [|exact Hf]. done.
  - intros sa' E. rewrite Hs' in E. simplify_eq. by eapply frag_ok_freed.
Qed.

Lemma reassemble_spec s sa arr :
  top_ok s → ps_sa s = Some sa → frag_arr (sa_fragments sa) = Some arr →
  frag_queue (sa_fragments sa) arr → frag_count (sa_fragments sa) = frag_total (sa_fragments sa) →
  wp oom_only (ikev2_frags_reassemble payloads) (λ _ s', sframe s s' ∧ queue_ok s') s.
Proof.
  intros Htop Hs Ha Hq Hc. unfold ikev2_frags_reassemble. do 2 pstep. rewrite Hs.
  pose proof (frag_size_total _ _ Hq) as Hsz. pose proof (queue_complete _ _ Hq Hc) as Hcomp.
  pose proof Hq as [Hlen Htot _ _ Hsize].
  pstep. apply wp_buf_zeros; [unfold size_max; lia|]. intros o l Ho.
  destruct o as [z|]; [|eapply wp_mono; [by eapply (reassemble_done_spec _ _ _ sa)|];
    intros ?? [H ?]; split; [exact (sframe_alloc _ _ _ H)|done]].
  destruct Ho as [|[E Hmax]]; [done|]. injection E as ->.
  rewrite Ha. cbn [from_option id]. rewrite take_ge by lia. do 2 pstep.
  rewrite reassemble_loop_spec; [|done|lia|by rewrite blen_zeros by lia|rewrite blen_zeros; lia].
  cbn [wpo]. change (sub_bytes 0 0 _) with (@nil byte). rewrite app_nil_l.
  set (e := concat (stored arr)) in *.
  do 4 pstep. pstep.
  eapply (wp_mono _ _ (λ _ s', sframe s s' ∧ ∃ sa', ps_sa s' = Some sa' ∧
    frag_arr (sa_fragments sa') = Some arr)).
  { pstep.
    - apply wp_modify. split; [constructor; simpl; by rewrite ?Hs|]. simpl. rewrite Hs. by eexists.
    - pstep. split; [done|]. by exists sa. }
  intros _ s1 [H1 (sa1 & Hs1 & Ha1)]. pstep.
  eapply wp_mono; [apply parse_decrypted_spec; [by apply (top_ok_sframe s)|lia]|].
  intros r s2 [H2 He2]. assert (H12 : sframe s1 s2).
  { apply frame_sframe; [done|]. rewrite He2. symmetry. apply to_emsg. by apply (top_ok_sframe s). }
  eapply wp_mono; [apply (reassemble_done_spec _ _ _ sa1 arr); [|done]|].
  { by rewrite (fr_sa _ _ _ H2). }
  intros r' s3 [H3 Hq3]. split; [|done]. by do 2 (etrans; [done|]).
Qed.
(** Fields of the queue that its invariant does not constrain. *)
Lemma queue_ext f f' arr :
  frag_count f' = frag_count f → frag_total f' = frag_total f →
  frag_total_size f' = frag_total_size f → frag_queue f arr → frag_queue f' arr.
Proof. intros E1 E2 E3 []. constructor; rewrite ?E1, ?E2, ?E3; done. Qed.

Lemma queue_stored_le f arr : frag_queue f arr → frag_count f ≤ frag_total f.
Proof.
  intros [Hl _ _ Hc _]. rewrite Hc, <- Hl. clear. unfold stored, omap.
  induction arr as [|[[[d|] n]|] arr IH]; simpl; lia.
Qed.

Lemma ef_done_from s0 s f sa :
  sframe s0 s → ps_sa s = Some (set_sa_fragments f sa) → frag_ok f →
  wp oom_only ef_done (λ _ s', sframe s0 s' ∧ queue_ok s') s.
Proof.
  intros H Hs Hf. eapply wp_mono; [apply ef_done_spec|].
  - intros sa' E. rewrite Hs in E. by simplify_eq.
  - intros ? ? [? ?]. split; [by etrans|done].
Qed.

Lemma ef_store_spec next num e arr s sa :
  top_ok s → ps_sa s = Some sa → frag_queue (sa_fragments sa) arr →
  frag_count (sa_fragments sa) < frag_total (sa_fragments sa) →
  arr !! Z.to_nat (num - 1) = Some None → blen e ≤ IKED_MSGBUF_MAX →
  wp oom_only (ef_store payloads next num e arr) (λ _ s', sframe s s' ∧ queue_ok s') s.
Proof.
  intros Htop Hs Hq Hlt Hi Hb. unfold ef_store. pstep.
  apply (wp_set_frags _ _ _ _ sa); [done|]. intros s1 H1 Hs1.
  set (f1 := set_frag_arr (Some arr) _) in Hs1.
  assert (Hq1 : frag_queue f1 arr) by (apply (queue_ext (sa_fragments sa)); try done;
    unfold f1; by destruct (num =? 1)).
  assert (Hc1 : frag_count f1 = frag_count (sa_fragments sa) ∧
    frag_total f1 = frag_total (sa_fragments sa) ∧ frag_arr f1 = Some arr)
    by (unfold f1; by destruct (num =? 1)).
  destruct Hc1 as (Ec & Et & Ea). clearbody f1.
  pstep. apply wp_next_alloc. intros a l. set (s2 := set_ps_alloc l s1).
  assert (H2 : sframe s s2) by (etrans; [exact H1|done]).
  assert (Hs2 : ps_sa s2 = Some (set_sa_fragments f1 sa)) by done. clearbody s2.
  pstep; [apply (ef_done_from _ _ f1 sa); try done; unfold frag_ok; rewrite Ea; split; [done|lia]|].
  pose proof (lookup_lt_Some _ _ _ Hi) as Hil.
  pstep; [bool_facts; lia|]. pstep. apply wp_next_alloc. intros a' l'. set (s3 := set_ps_alloc l' s2).
  assert (H3 : sframe s s3) by (etrans; [exact H2|done]).
  assert (Hs3 : ps_sa s3 = Some (set_sa_fragments f1 sa)) by done. clearbody s3.
  pstep.
  - pstep. apply (wp_set_frags _ _ _ _ _ Hs3). intros s4 H4 Hs4.
    eapply ef_done_from; [by etrans|exact Hs4|]. split; [|simpl; lia].
    apply (queue_ext f1); try done. by apply queue_mark.
  - pstep. apply (wp_set_frags _ _ _ _ _ Hs3). intros s4 H4 Hs4. simpl in Hs4.
    pose proof (queue_fill _ _ _ e Hq1 Hi Hb) as Hf.
    pose proof (frag_size_total _ _ Hf) as Hsz. pose proof (frag_size_total _ _ Hq1) as Hsz1.
    simpl in Hsz. pose proof (blen_nonneg e). destruct Hq1 as [_ Ht1 _ Hcnt _].
    unfold IKED_FRAG_TOTAL_MAX in Ht1.
    rewrite !sz_add_id in Hs4 by (unfold size_max; lia).
    do 2 pstep. rewrite Hs4. simpl.
    assert (H04 : sframe s s4) by by etrans.
    pstep.
    + bool_facts. eapply wp_mono; [eapply reassemble_spec; [by eapply top_ok_sframe|exact Hs4|done| |done]|].
      * by eapply (queue_ext _ _ _ _ _ _ Hf).
      * intros ? ? [? ?]. split; [by etrans|done].
    + bool_facts. pstep. split; [done|]. intros sa' E. rewrite Hs4 in E. simplify_eq.
      split; [by eapply (queue_ext _ _ _ _ _ _ Hf)|]. simpl.
      pose proof (queue_stored_le _ _ Hf). simpl in *. lia.
  Unshelve. all: done.
Qed.
Lemma ef_accept_spec next num total e s :
  top_ok s → queue_ok s → 1 ≤ num ≤ total → total ≤ IKED_FRAG_TOTAL_MAX →
  blen e ≤ IKED_MSGBUF_MAX →
  wp oom_only (ef_accept payloads next num total e) (λ _ s', sframe s s' ∧ queue_ok s') s.
Proof.
  intros Htop Hq Hn Ht Hb. unfold ef_accept. do 2 pstep.
  destruct (to_some _ Htop) as [sa Hs]. rewrite Hs. specialize (Hq sa Hs) as Hf.
  unfold frag_ok in Hf. destruct (frag_arr (sa_fragments sa)) as [arr|] eqn:Ea.
  - destruct Hf as [Hf Hlt]. pstep; [by eapply ef_dropall_spec|]. bool_facts.
    destruct (lookup_lt_is_Some_2 arr (Z.to_nat (num - 1))) as [x Hx].
    { destruct Hf. lia. }
    rewrite Hx. destruct x; [by apply ef_done_spec|]. by eapply ef_store_spec.
  - pstep. apply wp_next_alloc. intros a l. set (s1 := set_ps_alloc l s).
    assert (H1 : sframe s s1) by done. assert (Hs1 : ps_sa s1 = Some sa) by done. clearbody s1.
    pstep.
    + apply (ef_done_from _ _ (sa_fragments sa) sa); [done| |unfold frag_ok; by rewrite Ea].
      rewrite Hs1. by destruct sa.
    + pstep. apply (wp_set_frags _ _ _ _ _ Hs1). intros s2 H2 Hs2.
      assert (H02 : sframe s s2) by by etrans.
      eapply wp_mono; [eapply ef_store_spec; [by eapply top_ok_sframe|exact Hs2|..]|].
      * simpl. rewrite Hf. apply queue_new. lia.
      * simpl. rewrite Hf. simpl. lia.
      * apply lookup_replicate_2. lia.
      * done.
      * intros ? ? [? ?]. split; [by etrans|done].
Qed.

(** What a handler of an encrypted payload guarantees. *)
Definition sk_post (s : pstate) : Z → pstate → Prop := λ _ s', sframe s s' ∧ queue_ok s'.

Lemma sk_post_mono s s1 (m : P Z) :
  sframe s s1 → wp oom_only m (sk_post s1) s1 → wp oom_only m (sk_post s) s1.
Proof. intros H Hm. eapply wp_mono; [done|]. intros ? ? [? ?]. split; [by etrans|done]. Qed.

Lemma top_ok_alloc l s : top_ok s → top_ok (set_ps_alloc l s).
Proof. by apply top_ok_sframe. Qed.

Lemma pld_ef_spec next offset left s :
  top_ok s → queue_ok s → 0 ≤ offset → 0 ≤ left → offset + left ≤ blen (msg_data (cur s)) →
  wp oom_only (ikev2_pld_ef payloads next offset left) (sk_post s) s.
Proof.
  intros Htop Hq Ho Hl Hol. unfold ikev2_pld_ef, upd_stats. do 4 pstep.
  pose proof (pok_data _ (to_pok _ Htop)) as Hd.
  destruct (to_some _ Htop) as [sa Hs]. rewrite Hs. do 2 pstep.
  unfold ikev2_validate_ef. pstep; [by repeat pstep|]. bool_facts. unfold sizeof_frag_payload in *. do 2 pstep.
  cbn [wpo]. sz_norm. do 2 pstep. set (s1 := set_ps_stats _ s).
  assert (H1 : sframe s s1) by done. assert (Htop1 : top_ok s1) by by eapply top_ok_sframe.
  assert (Hs1 : ps_sa s1 = Some sa) by done. assert (Hq1 : queue_ok s1) by done. clearbody s1.
  set (frag := dec_frag_payload _).
  assert (Hr : 0 ≤ frag_num frag ∧ 0 ≤ frag_total_w frag)
    by (split; apply fld16_range). clearbody frag.
  pstep; [apply (sk_post_mono _ _ _ H1); by eapply ef_dropall_spec|].
  pstep; [apply (sk_post_mono _ _ _ H1); by eapply ef_done_spec|].
  pstep; [apply (sk_post_mono _ _ _ H1); by eapply ef_done_spec|]. bool_facts. do 2 pstep.
  set (s2 := set_ps_alloc _ s1).
  assert (H2 : sframe s s2) by (etrans; [exact H1|done]).
  destruct o as [src|]; [|apply (sk_post_mono _ _ _ H2); by eapply ef_done_spec].
  destruct Hnew as [|[= ->]]; [done|]. pstep.
  eapply wp_mono; [apply msg_decrypt_spec; [by eapply to_sa|rewrite blen_sub_bytes by lia; lia|lia]|].
  intros o s3 [[l' ->] He].
  assert (H3 : sframe s (set_ps_alloc l' s2)) by (etrans; [exact H2|done]).
  destruct o as [e|]; [|apply (sk_post_mono _ _ _ H3); by eapply ef_done_spec].
  apply (sk_post_mono _ _ _ H3). apply ef_accept_spec; try done; try lia; auto.
  by do 2 apply top_ok_alloc.
Qed.

(** An SK payload touches no queue but that of fragments. *)
Definition same_requests (s s' : pstate) : Prop :=
  sa_requests <$> ps_sa s' = sa_requests <$> ps_sa s ∧
  sa_responses <$> ps_sa s' = sa_responses <$> ps_sa s.

Lemma pld_e_keeps next offset left s :
  top_ok s → queue_ok s → 0 ≤ offset → 0 ≤ left → offset + left ≤ blen (msg_data (cur s)) →
  wp oom_only (ikev2_pld_e payloads next offset left)
    (λ r s', sk_post s r s' ∧ same_requests s s') s.
Proof.
  intros Htop Hq Ho Hl Hol. unfold ikev2_pld_e. do 4 pstep.
  pose proof (pok_data _ (to_pok _ Htop)) as Hd.
  destruct (to_some _ Htop) as [sa Hs]. rewrite Hs. pstep.
  { pstep. apply (wp_set_frags _ _ _ _ _ Hs). intros s1 H1 Hs1. pstep.
    split; [split; [done|]|unfold same_requests; by rewrite Hs1, Hs].
    intros sa' E. rewrite Hs1 in E. simplify_eq. by apply frag_ok_free, Hq. }
  do 2 pstep. set (s1 := set_ps_alloc _ s). destruct o as [src|]; [|by pstep].
  destruct Hnew as [|[= ->]]; [done|]. do 3 pstep.
  match goal with |- context [ikev2_msg_decrypt (Some ?x)] => set (sa' := x) end.
  assert (crypto_ok sa').
  { pose proof (to_sa _ Htop _ Hs). unfold sa'. case_match; [done|by apply crypto_ok_flip]. }
  eapply wp_mono; [apply msg_decrypt_spec; [done|rewrite blen_sub_bytes by lia; lia|lia]|].
  intros o s2 [[l' ->] He]. destruct o as [e|]; [|by pstep].
  specialize (He e eq_refl). unfold IKED_MSGBUF_MAX in He.
  eapply wp_mono; [apply parse_decrypted_spec; [by do 2 apply top_ok_alloc|lia]|].
  intros r s3 [H3 He3].
  split; [split|unfold same_requests; by rewrite (fr_sa _ _ _ H3)].
  - etrans; [|apply (frame_sframe _ _ H3); rewrite He3; symmetry; exact (to_emsg _ Htop)]. done.
  - intros sa'' E. rewrite (fr_sa _ _ _ H3) in E. by apply Hq.
Qed.

Lemma pld_e_spec next offset left s :
  top_ok s → queue_ok s → 0 ≤ offset → 0 ≤ left → offset + left ≤ blen (msg_data (cur s)) →
  wp oom_only (ikev2_pld_e payloads next offset left) (sk_post s) s.
Proof. intros. eapply wp_mono; [by apply pld_e_keeps|]. by intros ? ? [? _]. Qed.
End handlers_safety.
