(* ===== verification/Samples.v ===== *)
(** * Sample values

    Concrete external functions, SAs and messages, on which the theorems about
    the parser are applied. The sample cipher is the identity on the
    ciphertext, and the sample digests are zeros of the right length. *)

From S2P Require Import Prelude Types SaState Proposals Ibuf Parse ParseSk.

(** External functions with a given cipher. *)
Definition sample_external (decrypt : bytes → option bytes) : External := {|
  ext_id_name := λ _, [];
  ext_asn1_name := λ _, None;
  ext_print_addr := λ _, [];
  ext_sha1 := λ _, replicate 20 x00;
  ext_mac := λ h _ _, replicate (Z.to_nat (hash_length_f h)) x00;
  ext_decrypt := λ _ _ _ _ _ ct, decrypt ct |}.

Lemma sample_laws decrypt :
  (∀ ct pt, decrypt ct = Some pt → blen pt = blen ct) →
  @ExternalLaws (sample_external decrypt).
Proof.
  intros Hd. constructor.
  - done.
  - intros h key m Hh. simpl. unfold blen. rewrite length_replicate. lia.
  - intros c key iv aad tag ct pt. apply Hd.
Defined.

Definition sample_hash : iked_hash := mk_hash 5 16 0 true 3 0.
Definition sample_cipher : iked_cipher := mk_cipher 20 16 8 4 20 20.

Definition sample_sa : iked_sa :=
  mk_sa (mk_sahdr 1 2 false) 0 frag_zero IKEV2_STATE_INIT 0 0 0
    (Some sample_hash) (Some sample_hash) (Some sample_cipher)
    (Some []) (Some []) (Some []) (Some []) false None false [] [] 0 false 0
    (mk_sockaddr AF_INET 500 (replicate 4 x00)) false true None
    None [] None None None None None None None None None.

Definition sample_msg (data : bytes) : iked_message :=
  mk_message data 0 (mk_sockaddr AF_INET 500 (replicate 4 x00)) (mk_sockaddr AF_INET 500 (replicate 4 x00)) false false 0 0 false (Some 0) [] [] spi_zero
    None 0 None id_zero id_zero id_zero id_zero [] None [] [] 0 0 eap_msg_zero 0 0 None 0 0
    None None None 0 false None None 0.

Definition sample_state (data : bytes) : pstate :=
  mk_pstate 1 [] [] false (Some sample_sa) (sample_msg data) None (mk_frag_stats 0 0 0 0) [].

Definition bs (l : list Z) : bytes := bZ <$> l.

(** An IKE header with the given first payload, flags and length. *)
Definition sample_hdr (next flags len : Z) : list Z :=
  [0;0;0;0;0;0;0;1; 0;0;0;0;0;0;0;2; next; 32; 34; flags; 0;0;0;0; 0;0;0;len].

(** A nonce of 16 bytes in clear. *)
Definition sample_nonce_msg : bytes :=
  bs (sample_hdr 40 8 48 ++ [0; 0; 0; 20] ++ [1;2;3;4;5;6;7;8;9;10;11;12;13;14;15;16]).

(** The same nonce in an encrypted payload: an IV, a block-aligned plaintext
    with its padding length, a tag. *)
Definition sample_sk_msg : bytes :=
  bs (sample_hdr 46 8 88 ++ [40; 0; 0; 60] ++ [0;0;0;0;0;0;0;0] ++
      [0; 0; 0; 20] ++ [1;2;3;4;5;6;7;8;9;10;11;12;13;14;15;16] ++
      [0;0;0;0;0;0;0;0;0;0;0;11] ++ replicate 16 0).
