(* ===== verification/ParseTop.v ===== *)
(** * The payload chain: [ikev2_pld_parse], [ikev2_pld_payloads]

    The loop of [ikev2_pld.c] over the payloads of a message, the dispatch to
    the handlers of the previous files, and [ikev2_pld_parse_quick]. An
    encrypted payload is only dispatched on the received message, never on a
    decrypted one, so the recursion through [ikev2_pld_e] is two deep. *)

From S2P Require Import Prelude Types SaState Proposals Ibuf Parse ParseSa ParsePld.
From S2P Require Import ParseNotify ParseEap ParseSk Samples.

Definition ikev2_validate_pld (msgbuf : bytes) (offset left : Z) : out (option ikev2_payload) :=
  if left <? sizeof_payload then Ok None
  else
    b ← rd msgbuf offset sizeof_payload;
    let pld := dec_payload b in
    if left <? pld_length pld then Ok None
    else if pld_length pld <? sizeof_payload then Ok None
    else Ok (Some pld).

(** [ikev2_send_informational]: nothing to report unless an error was
    recorded. *)
Definition ikev2_send_informational : P unit :=
  m ← gets cur;
  if msg_error m =? 0 then mret tt else emit (EvInformational (msg_error m)).

Section chain.
Context `{!External}.

(** The switch on [payload | e]. *)
Definition pld_switch (payloads : Z → Z → Z → P Z) (msgbuf : bytes) (e payload : Z)
    (pld : ikev2_payload) (offset left : Z) : P Z :=
  let sw := Z.lor payload e in
  let either p := (sw =? p) || (sw =? Z.lor p IKED_E) in
  let only_e p := sw =? Z.lor p IKED_E in
  if either IKEV2_PAYLOAD_SA then ikev2_pld_sa offset left
  else if either IKEV2_PAYLOAD_KE then ikev2_pld_ke offset left
  else if only_e IKEV2_PAYLOAD_IDi || only_e IKEV2_PAYLOAD_IDr then ikev2_pld_id offset left payload
  else if only_e IKEV2_PAYLOAD_CERT then ikev2_pld_cert offset left
  else if either IKEV2_PAYLOAD_CERTREQ then ikev2_pld_certreq offset left
  else if only_e IKEV2_PAYLOAD_AUTH then ikev2_pld_auth offset left
  else if either IKEV2_PAYLOAD_NONCE then ikev2_pld_nonce offset left
  else if either IKEV2_PAYLOAD_NOTIFY then ikev2_pld_notify offset left
  else if only_e IKEV2_PAYLOAD_DELETE then ikev2_pld_delete offset left
  else if only_e IKEV2_PAYLOAD_TSi || only_e IKEV2_PAYLOAD_TSr then ikev2_pld_tss offset left
  else if sw =? IKEV2_PAYLOAD_SK then ikev2_pld_e payloads (pld_nextpayload pld) offset left
  else if sw =? IKEV2_PAYLOAD_SKF then ikev2_pld_ef payloads (pld_nextpayload pld) offset left
  else if only_e IKEV2_PAYLOAD_CP then ikev2_pld_cp offset left
  else if only_e IKEV2_PAYLOAD_EAP then ikev2_pld_eap offset left
  else _ ← print_hex msgbuf offset (pld_length pld - sizeof_payload); mret 0.

Fixpoint payloads_loop (fuel : nat) (payloads : Z → Z → Z → P Z) (msgbuf : bytes)
    (e offset length total payload : Z) : P Z :=
  match fuel with
  | O => fail Ffuel
  | S fuel =>
      if negb ((negb (payload =? 0)) && (offset <? length)) then mret 0
      else
        v ← lift (ikev2_validate_pld msgbuf offset total);
        match v with
        | None => mret (-1)
        | Some pld =>
            let offset := (offset + sizeof_payload)%sz in
            let total := (total - sizeof_payload)%sz in
            let left := (pld_length pld - sizeof_payload)%sz in
            ret ← pld_switch payloads msgbuf e payload pld offset left;
            fp ← ikev2_msg_frompeer;
            if negb (ret =? 0) && (fp : bool) then
              _ ← ikev2_send_informational; mret (-1)
            else if (payload =? IKEV2_PAYLOAD_SK) || (payload =? IKEV2_PAYLOAD_SKF) then mret 0
            else payloads_loop fuel payloads msgbuf e (offset + left)%sz length (total - left)%sz
                   (pld_nextpayload pld)
        end
  end.

(** [depth] bounds the nesting of encrypted payloads; the loop's fuel is the
    number of bytes to go, since every payload takes at least its header. *)
Fixpoint ikev2_pld_payloads (depth : nat) (offset length payload : Z) : P Z :=
  match depth with
  | O => fail Ffuel
  | S depth =>
      m ← gets cur;
      let e := if msg_e m then IKED_E else 0 in
      let total := (length - offset)%sz in
      payloads_loop (S (Z.to_nat (length - offset))) (ikev2_pld_payloads depth) (msg_data m)
        e offset length total payload
  end.

Definition ikev2_pld_parse (hdr : ike_header) (offset : Z) : P Z :=
  m ← gets cur;
  if blen (msg_data m) <? ike_length hdr then mret (-1)
  else ikev2_pld_payloads 2 (offset + sizeof_ike_header)%sz (ike_length hdr) (ike_nextpayload hdr).
End chain.

(** ** [ikev2_pld_parse_quick] *)

Fixpoint quick_loop (fuel : nat) (msgbuf : bytes) (offset length total payload : Z) : P Z :=
  match fuel with
  | O => fail Ffuel
  | S fuel =>
      if negb ((negb (payload =? 0)) && (offset <? length)) then mret 0
      else
        v ← lift (ikev2_validate_pld msgbuf offset total);
        match v with
        | None => mret (-1)
        | Some pld =>
            let offset := (offset + sizeof_payload)%sz in
            let total := (total - sizeof_payload)%sz in
            let left := (pld_length pld - sizeof_payload)%sz in
            ok ← (if payload =? IKEV2_PAYLOAD_SKF then
                    if left <? sizeof_frag_payload then mret false
                    else
                      b ← lift (rd msgbuf offset sizeof_frag_payload);
                      _ ← upd_cur (set_msg_frag_num (frag_num (dec_frag_payload b)));
                      mret true
                  else mret true);
            if negb ok then mret (-1)
            else quick_loop fuel msgbuf (offset + left)%sz length (total - left)%sz
                   (pld_nextpayload pld)
        end
  end.

Definition ikev2_pld_parse_quick (hdr : ike_header) (offset : Z) : P Z :=
  m ← gets cur;
  let length := ike_length hdr in
  if blen (msg_data m) <? length then mret (-1)
  else
    let offset := (offset + sizeof_ike_header)%sz in
    quick_loop (S (Z.to_nat (length - offset))) (msg_data m) offset length (length - offset)%sz
      (ike_nextpayload hdr).

(** ** Safety of the chain *)

Lemma validate_pld_spec F msgbuf offset left :
  0 ≤ offset → offset + left ≤ blen msgbuf →
  wpo F (ikev2_validate_pld msgbuf offset left)
    (λ v, ∀ pld, v = Some pld →
      sizeof_payload ≤ pld_length pld ≤ left ∧ 0 ≤ pld_nextpayload pld < 256).
Proof.
  intros. unfold ikev2_validate_pld, sizeof_payload in *. repeat pstep; bool_facts; try done.
  intros pld [= <-]. split; [lia|]. apply fld8_range.
Qed.

Section loop.
Context `{!External} (payloads : Z → Z → Z → P Z) (msgbuf : bytes) (e length : Z).
Context (I J : pstate → Prop) (ok : Z → Prop).
Hypothesis Hbyte : ∀ p, 0 ≤ p < 256 → ok p.
Hypothesis Hlen : length ≤ blen msgbuf.
Hypothesis Hmsg : blen msgbuf < 2 ^ 32.
Hypothesis HIJ : ∀ s, I s → J s.
Hypothesis HJev : ∀ s ev, J s → J (set_ps_ev ev s).

(** The handlers establish [J]; those the loop goes on after keep [I]. *)
Hypothesis Hswitch : ∀ payload pld offset left s,
  I s → ok payload → 0 ≤ offset → left = pld_length pld - sizeof_payload → 0 ≤ left →
  offset + left ≤ length →
  wp oom_only (pld_switch payloads msgbuf e payload pld offset left)
    (λ _ s', J s' ∧ (payload ≠ IKEV2_PAYLOAD_SK → payload ≠ IKEV2_PAYLOAD_SKF → I s')) s.

Lemma payloads_loop_spec fuel offset total payload s :
  (Z.to_nat (length - offset) < fuel)%nat → 0 ≤ offset → ok payload →
  (offset ≤ length → total = length - offset) → I s →
  wp oom_only (payloads_loop fuel payloads msgbuf e offset length total payload) (λ _ s', J s') s.
Proof.
  revert offset total payload s.
  induction fuel as [|fuel IH]; intros offset total payload s Hf Ho Hp Ht Hi; [lia|].
  simpl. pstep; [pstep; by apply HIJ|]. bool_facts.
  assert (Hlt : offset < length) by (destruct (payload =? 0); simpl in *; bool_facts; lia).
  rewrite Ht by lia. do 2 pstep. eapply wpo_mono; [apply validate_pld_spec; lia|].
  intros [pld|] Hv; [|pstep; by apply HIJ]. destruct (Hv pld eq_refl) as [Hl Hn].
  sz_norm. pstep. eapply wp_mono; [apply Hswitch; unfold sizeof_payload; lia || done|].
  intros ret s1 [HJ HI]. do 2 pstep. pstep.
  { unfold ikev2_send_informational. repeat pstep; auto. }
  destruct (Z.eqb_spec payload IKEV2_PAYLOAD_SK); simpl orb; cbv iota; [by pstep|].
  destruct (Z.eqb_spec payload IKEV2_PAYLOAD_SKF); cbv iota; [by pstep|].
  apply IH; [lia|lia|by apply Hbyte|lia|]. by apply HI.
Qed.
End loop.

(** [payload | IKED_E] is none of the plain payload types. *)
Lemma lor_E_neq p n : Z.testbit n 12 = false → (Z.lor p IKED_E =? n) = false.
Proof.
  intros Hn. apply Z.eqb_neq. intros E.
  assert (Ht : Z.testbit (Z.lor p IKED_E) 12 = true) by (by rewrite Z.lor_spec, orb_true_r).
  congruence.
Qed.

(** A one-byte payload type has no [IKED_E]. *)
Lemma plain_neq_E p n : 0 ≤ p < 256 → (p =? Z.lor n IKED_E) = false.
Proof.
  intros Hp. apply Z.eqb_neq. intros ->.
  assert (Ht : Z.testbit (Z.lor n IKED_E) 12 = true) by (by rewrite Z.lor_spec, orb_true_r).
  apply Z.testbit_true in Ht; [|lia]. rewrite Z.div_small in Ht by lia. done.
Qed.

Lemma wp_frame_all {A} (m : P A) s :
  wp oom_only m (λ _ s', frame erase_plain s s') s → wp oom_only m (λ _ s', frame erase_all s s') s.
Proof. intros H. eapply wp_mono; [done|]. intros ? s' Hf. exact (frame_all erase_plain _ _ Hf). Qed.

Section switch.
Context `{Hext : !External, Hlaws : !ExternalLaws} (payloads : Z → Z → Z → P Z).

Lemma switch_default_spec er pld offset left s :
  left = pld_length pld - sizeof_payload → 0 ≤ offset → 0 ≤ left →
  offset + left ≤ blen (msg_data (cur s)) →
  wp oom_only (_ ← print_hex (msg_data (cur s)) offset (pld_length pld - sizeof_payload); mret 0)
    (λ _ s', frame er s s') s.
Proof. intros. by repeat pstep. Qed.

Lemma switch_plain_spec payload pld offset left s :
  0 ≤ payload < 256 → payload ≠ IKEV2_PAYLOAD_SK → payload ≠ IKEV2_PAYLOAD_SKF →
  left = pld_length pld - sizeof_payload →
  msg_e (cur s) = false → 0 ≤ offset → 0 ≤ left → offset + left ≤ blen (msg_data (cur s)) → pok s →
  wp oom_only (pld_switch payloads (msg_data (cur s)) 0 payload pld offset left)
    (λ _ s', frame erase_plain s s') s.
Proof.
  intros Hp Hsk Hskf Hleft He Ho Hl Hb Hok. unfold pld_switch. rewrite Z.lor_0_r. cbv zeta.
  rewrite !(plain_neq_E payload) by done. rewrite ?orb_false_r.
  rewrite (proj2 (Z.eqb_neq _ _) Hsk), (proj2 (Z.eqb_neq _ _) Hskf). simpl orb. cbv iota.
  pstep; [by apply pld_sa_spec|]. pstep; [by apply pld_ke_spec|].
  pstep; [by apply pld_certreq_spec|]. pstep; [by apply pld_nonce_spec|].
  pstep; [|by apply (switch_default_spec _ _ _ left)].
  eapply wp_mono; [by apply pld_notify_spec|]. intros r s' [_ H]. by apply H.
Qed.

Lemma switch_decrypted_spec payload pld offset left s :
  left = pld_length pld - sizeof_payload → ps_verbose s < 3 → is_Some (ps_sa s) →
  0 ≤ offset → 0 ≤ left → offset + left ≤ blen (msg_data (cur s)) → pok s →
  wp oom_only (pld_switch payloads (msg_data (cur s)) IKED_E payload pld offset left)
    (λ _ s', frame erase_all s s') s.
Proof.
  intros Hleft Hq Hsa Ho Hl Hb Hok. unfold pld_switch. cbv zeta.
  rewrite (lor_E_neq payload IKEV2_PAYLOAD_SK), (lor_E_neq payload IKEV2_PAYLOAD_SKF) by done.
  pstep; [by apply wp_frame_all, pld_sa_spec|]. pstep; [by apply wp_frame_all, pld_ke_spec|].
  pstep; [by apply pld_id_spec|]. pstep; [by apply pld_cert_spec|].
  pstep; [by apply wp_frame_all, pld_certreq_spec|]. pstep; [by apply pld_auth_spec|].
  pstep; [by apply wp_frame_all, pld_nonce_spec|].
  pstep; [eapply wp_mono; [by apply pld_notify_spec|]; by intros ? ? [? _]|].
  pstep; [by apply pld_delete_spec|]. pstep; [by apply wp_frame_all, pld_tss_spec|].
  pstep; [by apply pld_cp_spec|]. pstep; [by apply pld_eap_spec|].
  by apply (switch_default_spec _ _ _ left).
Qed.
End switch.

Section parse_safety.
Context `{Hext : !External, Hlaws : !ExternalLaws}.

(** Parsing a decrypted message. *)
Lemma payloads_decrypted depth e next s m :
  ps_emsg s = Some m → msg_data m = e → msg_e m = true → is_Some (ps_sa s) → pok s →
  ps_verbose s < 3 →
  wp oom_only (ikev2_pld_payloads (S depth) 0 (blen e) next) (λ _ s', frame erase_all s s') s.
Proof.
  intros Hm He Hme Hsa Hok Hq. cbn [ikev2_pld_payloads]. do 2 pstep.
  assert (Hc : cur s = m) by (unfold cur; by rewrite Hm). pose proof Hok as [Hd _].
  rewrite Hc in *. rewrite Hme, He in *. pose proof (blen_nonneg e).
  apply payloads_loop_spec with (I := λ s', frame erase_all s s') (ok := λ _, True); try done; try lia.
  { intros s0 ev H0. etrans; [exact H0|]. done. }
  2:{ intros _. apply sz_sub_id; unfold size_max; lia. }
  intros payload pld offset left s1 H1 _ Ho Hleft Hl Hb.
  assert (Hdat : msg_data (cur s1) = e) by (rewrite (frame_data H1); congruence).
  rewrite <- Hdat. eapply wp_mono.
  { apply switch_decrypted_spec; try done.
    - by rewrite (fr_verbose _ _ _ H1).
    - by rewrite (fr_sa _ _ _ H1).
    - by rewrite Hdat.
    - exact (pok_frame _ _ _ H1 Hok). }
  intros r s2 H2. assert (frame erase_all s s2) by (by etrans). done.
Qed.

(** A received message: at rest, in clear. *)
Record received (s : pstate) : Prop := {
  rc_top : top_ok s;
  rc_queue : queue_ok s;
  rc_plain : msg_e (ps_msg s) = false }.

Lemma top_cur s : top_ok s → cur s = ps_msg s.
Proof. intros []. unfold cur. by simplify_option_eq. Qed.

Lemma frame_top s s' : frame erase_plain s s' → top_ok s → sframe s s'.
Proof.
  intros H Ht. apply frame_sframe; [exact (frame_all _ _ _ H)|].
  pose proof (fr_emsg _ _ _ H) as E. destruct Ht as [He _ _ _ _]. rewrite He in *.
  by destruct (ps_emsg s').
Qed.

(** The loop over a received message, given what the handlers of encrypted
    payloads establish. *)
Lemma payloads_received depth (J : pstate → Prop) offset length payload s :
  received s → (∀ s', frame erase_plain s s' → J s') →
  (∀ s' ev, J s' → J (set_ps_ev ev s')) →
  (∀ next off left s1, frame erase_plain s s1 → received s1 → 0 ≤ off → 0 ≤ left →
    off + left ≤ blen (msg_data (cur s1)) →
    wp oom_only (ikev2_pld_e (ikev2_pld_payloads depth) next off left) (λ _ s', J s') s1 ∧
    wp oom_only (ikev2_pld_ef (ikev2_pld_payloads depth) next off left) (λ _ s', J s') s1) →
  0 ≤ payload < 256 → 0 ≤ offset < size_max → 0 ≤ length ≤ blen (msg_data (cur s)) →
  wp oom_only (ikev2_pld_payloads (S depth) offset length payload) (λ _ s', J s') s.
Proof.
  intros Hr HIJ HJev Hsk Hp Ho Hlen. cbn [ikev2_pld_payloads]. do 2 pstep.
  pose proof Hr as [Htop Hq He]. pose proof (to_pok _ Htop) as Hok. pose proof Hok as [Hd _].
  pose proof (top_cur _ Htop) as Hc.
  assert (He' : msg_e (cur s) = false) by (by rewrite Hc). rewrite He'.
  apply payloads_loop_spec with (I := λ s', frame erase_plain s s') (ok := λ p, 0 ≤ p < 256);
    try done; try lia.
  2:{ intros ?. apply sz_sub_id; unfold size_max in *; lia. }
  intros payload' pld off left s1 H1 Hp' Ho' Hleft Hl Hb.
  pose proof (frame_data H1) as Hdat. rewrite <- Hdat in *.
  assert (Hr1 : received s1).
  { pose proof (frame_top _ _ H1 Htop) as Hs. constructor.
    - by eapply top_ok_sframe.
    - intros sa. rewrite (fr_sa _ _ _ H1). apply Hq.
    - rewrite (frame_field_parent H1 msg_e); done. }
  destruct (decide (payload' = IKEV2_PAYLOAD_SK)) as [->|Hsk1].
  { eapply wp_mono; [apply Hsk; done || lia|]. done. }
  destruct (decide (payload' = IKEV2_PAYLOAD_SKF)) as [->|Hsk2].
  { eapply wp_mono; [apply Hsk; done || lia|]. done. }
  eapply wp_mono.
  { apply switch_plain_spec; try done; try lia.
    - by rewrite (frame_e H1).
    - exact (pok_frame _ _ _ H1 Hok). }
  intros r s2 H2. assert (frame erase_plain s s2) by (by etrans). auto.
Qed.

Lemma parse_safe_spec hdr b s :
  received s → hdr = dec_ike_header b →
  wp oom_only (ikev2_pld_parse hdr 0) (sk_post s) s.
Proof.
  intros Hr ->. pose proof Hr as [Htop Hq _]. unfold ikev2_pld_parse. do 2 pstep.
  pstep; [by pstep|]. bool_facts. change (0 + sizeof_ike_header)%sz with 28.
  apply payloads_received; try done.
  - intros s' H. split; [by apply frame_top|]. intros sa. rewrite (fr_sa _ _ _ H). apply Hq.
  - intros s' ev [H Hq']. split; [|done]. etrans; [exact H|]. done.
  - intros next off left s1 H1 [Ht1 Hq1 _] Ho Hl Hb.
    split; apply (sk_post_mono s s1); try (by apply frame_top).
    + apply pld_e_spec; try done. intros. by eapply payloads_decrypted.
    + apply pld_ef_spec; try done. intros. by eapply payloads_decrypted.
  - apply fld8_range.
  - split; [apply fld32_range|done].
Qed.
End parse_safety.

(** ** Messages that do not authenticate *)

Section forged.
Context `{Hext : !External, Hlaws : !ExternalLaws}.

(** No suffix of the message decrypts under the SA's keys, in either
    direction. *)
Definition unauthentic (sa : iked_sa) (data : bytes) : Prop :=
  ∀ i src s r s',
    ikev2_msg_decrypt (Some (set_sa_hdr (set_sh_initiator i (sa_hdr sa)) sa)) data src s = Ok (r, s') →
    r = None.

(** Only what an unencrypted message may record changes, and the reassembly
    queue may have been dropped. *)
Record untouched (s s' : pstate) : Prop := {
  ut_verbose : ps_verbose s' = ps_verbose s;
  ut_msg : erase_plain (ps_msg s') = erase_plain (ps_msg s);
  ut_emsg : ps_emsg s' = ps_emsg s;
  ut_sa : ps_sa s' = ps_sa s ∨ ps_sa s' = set_sa_fragments frag_zero <$> ps_sa s }.

Lemma frame_untouched s s' : frame erase_plain s s' → top_ok s → untouched s s'.
Proof.
  intros H Ht. constructor.
  - apply H.
  - apply H.
  - apply (frame_top _ _ H Ht).
  - left. apply H.
Qed.

Lemma untouched_frame s s1 s' :
  frame erase_plain s s1 → top_ok s → untouched s1 s' → untouched s s'.
Proof.
  intros H Ht [E1 E2 E3 E4]. pose proof H as [F1 F2 F3 _].
  pose proof (sf_emsg _ _ (frame_top _ _ H Ht)). constructor; congruence.
Qed.

Lemma untouched_free st s sa :
  ps_sa s = Some sa → untouched s (set_ps_sa ((λ sa, set_sa_fragments
    (config_free_fragments (sa_fragments sa)) sa) <$> ps_sa s) (set_ps_stats st s)).
Proof.
  intros Hs. constructor; try done. simpl. rewrite Hs. unfold config_free_fragments.
  destruct (frag_arr (sa_fragments sa)) eqn:E; simpl; rewrite E; [by right|left]. by destruct sa.
Qed.

Lemma decrypt_forged sa i msg src s :
  crypto_ok sa → unauthentic sa msg → blen src ≤ blen msg → blen msg < 2 ^ 32 →
  wp oom_only (ikev2_msg_decrypt (Some (set_sa_hdr (set_sh_initiator i (sa_hdr sa)) sa)) msg src)
    (λ o s', o = None ∧ alloc_only s s') s.
Proof.
  intros Hc Hu Hs Hm.
  pose proof (msg_decrypt_spec _ msg src s (crypto_ok_flip _ (set_sh_initiator i (sa_hdr sa)) Hc) Hs Hm)
    as Hw. apply wp_oom_only in Hw as [(o & s' & E & Ha & _)|E]; apply wp_oom_only; [left|by right].
  exists o, s'. split; [done|]. split; [by eapply Hu|done].
Qed.

Lemma set_initiator_self sa :
  set_sa_hdr (set_sh_initiator (sh_initiator (sa_hdr sa)) (sa_hdr sa)) sa = sa.
Proof. by destruct sa as [[]]. Qed.

Lemma pld_ef_forged payloads next offset left s sa :
  top_ok s → ps_sa s = Some sa → unauthentic sa (msg_data (cur s)) →
  0 ≤ offset → 0 ≤ left → offset + left ≤ blen (msg_data (cur s)) →
  wp oom_only (ikev2_pld_ef payloads next offset left) (λ _ s', untouched s s') s.
Proof.
  intros Htop Hs Hu Ho Hl Hol. unfold ikev2_pld_ef, upd_stats. do 4 pstep.
  pose proof (pok_data _ (to_pok _ Htop)) as Hd. rewrite Hs. do 2 pstep.
  assert (Hid : untouched s s) by (constructor; auto).
  unfold ikev2_validate_ef. pstep; [by repeat pstep|]. bool_facts.
  unfold sizeof_frag_payload in *. do 2 pstep. cbn [wpo]. sz_norm. do 2 pstep.
  set (frag := dec_frag_payload _). clearbody frag.
  unfold ef_dropall, ef_done, upd_stats, set_frags, upd_sa.
  pstep.
  { repeat pstep. exact (untouched_free (stat_rcvd_drop (frag_count (sa_fragments sa) + 1)
      (stat_rcvd (ps_stats s))) s sa Hs). }
  pstep; [repeat pstep; constructor; auto|]. pstep; [repeat pstep; constructor; auto|].
  do 2 pstep. destruct o as [src|]; [|repeat pstep; constructor; auto].
  destruct Hnew as [|[= ->]]; [done|]. pstep. rewrite <- (set_initiator_self sa) at 1.
  eapply wp_mono; [apply decrypt_forged; try done|].
  - by eapply to_sa.
  - rewrite blen_sub_bytes by lia. lia.
  - intros o s' [-> [l' ->]]. repeat pstep. constructor; auto.
Qed.

Lemma pld_e_forged payloads next offset left s sa :
  top_ok s → ps_sa s = Some sa → unauthentic sa (msg_data (cur s)) →
  0 ≤ offset → 0 ≤ left → offset + left ≤ blen (msg_data (cur s)) →
  wp oom_only (ikev2_pld_e payloads next offset left) (λ _ s', untouched s s') s.
Proof.
  intros Htop Hs Hu Ho Hl Hol. unfold ikev2_pld_e, set_frags, upd_sa. do 4 pstep.
  pose proof (pok_data _ (to_pok _ Htop)) as Hd. rewrite Hs. pstep.
  { repeat pstep. by apply (untouched_free (ps_stats s) s sa). }
  do 2 pstep. destruct o as [src|]; [|pstep; constructor; auto].
  destruct Hnew as [|[= ->]]; [done|]. do 3 pstep. set (s1 := set_ps_alloc l s).
  assert (∃ i, (if frompeer s1 then sa else set_sa_hdr (set_sh_initiator
    (negb (sh_initiator (sa_hdr sa))) (sa_hdr sa)) sa) =
    set_sa_hdr (set_sh_initiator i (sa_hdr sa)) sa) as [i ->].
  { destruct (frompeer s1); eexists; [symmetry; apply set_initiator_self|done]. }
  eapply wp_mono; [apply decrypt_forged; try done|].
  - by eapply to_sa.
  - rewrite blen_sub_bytes by lia. lia.
  - intros o s' [-> [l' ->]]. pstep. constructor; auto.
Qed.

Lemma parse_forged_spec hdr b s sa :
  received s → hdr = dec_ike_header b → ps_sa s = Some sa → unauthentic sa (msg_data (ps_msg s)) →
  wp oom_only (ikev2_pld_parse hdr 0) (λ _ s', untouched s s') s.
Proof.
  intros Hr -> Hs Hu. pose proof Hr as [Htop Hq _]. rewrite <- (top_cur _ Htop) in Hu.
  unfold ikev2_pld_parse. do 2 pstep. pstep; [pstep; constructor; auto|]. bool_facts.
  change (0 + sizeof_ike_header)%sz with 28. apply payloads_received; try done.
  - intros s' H. by apply frame_untouched.
  - intros s' ev []. by constructor.
  - intros next off left s1 H1 [Ht1 Hq1 _] Ho Hl Hb.
    assert (Hs1 : ps_sa s1 = Some sa) by (by rewrite (fr_sa _ _ _ H1)).
    assert (Hu1 : unauthentic sa (msg_data (cur s1))) by (by rewrite (frame_data H1)).
    split; (eapply wp_mono; [by eapply pld_e_forged || by eapply pld_ef_forged|]);
      intros ? ? ?; by eapply untouched_frame.
  - apply fld8_range.
  - split; [apply fld32_range|done].
Qed.
End forged.

Lemma sample_received data : blen data < 2 ^ 32 → received (sample_state data).
Proof.
  intros Hd. constructor.
  - constructor.
    + done.
    + done.
    + constructor; [done|]. by intros _; eexists.
    + intros sa [= <-]. constructor.
      * intros c [= <-]. vm_compute. by repeat split.
      * intros h [= <-]. vm_compute. by repeat split.
      * intros c h _ _. simpl. repeat split; by eexists.
    + by eexists.
  - intros sa [= <-]. done.
  - done.
Qed.

Lemma no_decrypt_unauthentic `{Hext : External} sa data :
  (∀ c key iv aad tag ct, ext_decrypt c key iv aad tag ct = None) → unauthentic sa data.
Proof.
  intros Hd i src s. apply (wp_partial _ (λ r _, r = None)).
  assert (Hany : ∀ A (m : P A) s, wp any m (λ _ _, True) s).
  { intros A m s0. unfold wp. by destruct (m s0) as [[]|]. }
  unfold ikev2_msg_decrypt, msg_decrypt_payload.
  repeat first [progress cbv zeta
    | match goal with H : ext_decrypt _ _ _ _ _ _ = Some _ |- _ => by rewrite Hd in H end
    | apply wp_ret; done | by apply wp_fail
    | apply wp_bind; eapply wp_mono; [apply Hany|intros ? ? _] | case_match].
Qed.

(** The sample message really is decrypted and parsed. *)
Example sample_sk_parsed :
  match @ikev2_pld_parse (sample_external Some) (dec_ike_header sample_sk_msg) 0
    (sample_state sample_sk_msg) with
  | Ok (r, s') => r = 0 ∧ msg_nonce (ps_msg s') = Some (bs (seqZ 1 16))
  | Fault _ => False
  end.
Proof. vm_compute. done. Qed.

(** ** Key exchange and nonce *)

(** [ikev2_pld_ke] on a message from the peer: success means there was
    no KE before, and records exactly the bytes after the header and the group
    of the header; on failure the recorded value and group are untouched. *)
Theorem pld_ke_records offset left s :
  0 ≤ offset → 0 ≤ left → offset + left ≤ blen (msg_data (cur s)) → pok s → frompeer s = true →
  ∃ r s', ikev2_pld_ke offset left s = Ok (r, s') ∧
    (r = 0 → msg_ke (ps_msg s) = None ∧ sizeof_kex < left ∧
      msg_ke (ps_msg s') =
        Some (sub_bytes (offset + sizeof_kex) (left - sizeof_kex) (msg_data (cur s))) ∧
      msg_dhgroup (ps_msg s') = fld16 (sub_bytes offset sizeof_kex (msg_data (cur s))) 0) ∧
    (r ≠ 0 → msg_ke (ps_msg s') = msg_ke (ps_msg s) ∧
      msg_dhgroup (ps_msg s') = msg_dhgroup (ps_msg s)).
Proof.
  intros Ho Hl Hb [Hd _] Hfp. apply wp_total. unfold ikev2_pld_ke, ikev2_validate_ke, sizeof_kex.
  do 4 pstep. pstep; [by repeat pstep|]. bool_facts. do 2 pstep. cbn [wpo]. sz_norm.
  pstep; [by pstep|]. bool_facts. do 4 pstep. rewrite Hfp. cbn [negb]. do 2 pstep.
  pstep; [by pstep|]. destruct (msg_ke (ps_msg s)) eqn:Hke; [done|].
  do 2 pstep. destruct Hnew as [->| ->]; repeat pstep; try done; simpl; (split; [|done]).
  intros _. split_and!; [done|lia|done|done].
Qed.

Definition sample_ke_msg : bytes :=
  bs (sample_hdr 34 8 40 ++ [0; 0; 0; 12] ++ [0; 19; 0; 0] ++ [1; 2; 3; 4]).

Lemma pld_ke_records_witness :
  ∃ r s', ikev2_pld_ke 32 8 (sample_state sample_ke_msg) = Ok (r, s') ∧
    (r = 0 → None = @None bytes ∧ 4 < 8 ∧ msg_ke (ps_msg s') = Some (bs [1; 2; 3; 4]) ∧
      msg_dhgroup (ps_msg s') = 19) ∧
    (r ≠ 0 → msg_ke (ps_msg s') = None ∧ msg_dhgroup (ps_msg s') = 0).
Proof.
  apply (pld_ke_records 32 8 (sample_state sample_ke_msg)).
  - lia.
  - lia.
  - vm_compute. discriminate.
  - apply (to_pok _ (rc_top _ (sample_received sample_ke_msg ltac:(done)))).
  - reflexivity.
Defined.

(** ** The quick parser *)

Definition frag_num_only (s s' : pstate) : Prop :=
  s' = s ∨ ∃ n, 0 ≤ n < 2 ^ 16 ∧ s' = set_cur (set_msg_frag_num n) s.

Lemma frag_num_only_trans s1 s2 s3 :
  frag_num_only s1 s2 → frag_num_only s2 s3 → frag_num_only s1 s3.
Proof.
  intros [->|(n & Hn & ->)] [->|(n' & Hn' & ->)]; try (by left); try (right; eauto; done).
  right. exists n'. split; [done|]. unfold set_cur. by destruct s1 as [??????[]].
Qed.

Lemma quick_loop_spec fuel msgbuf offset length total payload s :
  length ≤ blen msgbuf → blen msgbuf < 2 ^ 32 → (Z.to_nat (length - offset) < fuel)%nat →
  0 ≤ offset → (offset ≤ length → total = length - offset) →
  wp never (quick_loop fuel msgbuf offset length total payload)
    (λ r s', (r = 0 ∨ r = -1) ∧ frag_num_only s s') s.
Proof.
  intros Hlen Hmsg. revert offset total payload s.
  induction fuel as [|fuel IH]; intros offset total payload s Hf Ho Ht; [lia|].
  assert (Hid : frag_num_only s s) by (by left).
  simpl. pstep; [pstep; auto|]. bool_facts.
  assert (Hlt : offset < length) by (destruct (payload =? 0); simpl in *; bool_facts; lia).
  rewrite Ht by lia. do 2 pstep. eapply wpo_mono; [apply validate_pld_spec; lia|].
  intros [pld|] Hv; [|pstep; auto]. destruct (Hv pld eq_refl) as [Hl _].
  sz_norm. unfold sizeof_frag_payload. pstep.
  eapply (wp_mono _ _ (λ _ s', frag_num_only s s')).
  { repeat pstep; try (by left). right. eexists. split; [apply fld16_range|done]. }
  intros ok s1 H1. pstep; [pstep; auto|].
  eapply wp_mono; [apply IH; lia|]. intros r s2 [Hr H2]. split; [done|].
  by eapply frag_num_only_trans.
Qed.

(** [ikev2_pld_parse_quick], which runs before there is an SA, is memory
    safe and total on any bytes, returns 0 or -1, and records nothing but a
    16-bit fragment number. *)
Theorem pld_parse_quick_safe b s :
  blen (msg_data (cur s)) < 2 ^ 32 →
  ∃ r s', ikev2_pld_parse_quick (dec_ike_header b) 0 s = Ok (r, s') ∧
    (r = 0 ∨ r = -1) ∧ frag_num_only s s'.
Proof.
  intros Hd. apply wp_total. unfold ikev2_pld_parse_quick. do 2 pstep.
  pstep; [pstep; split; [auto|by left]|]. bool_facts. change (0 + sizeof_ike_header)%sz with 28.
  apply quick_loop_spec; try done; try lia.
  intros ?. apply sz_sub_id; unfold size_max in *; lia.
Qed.

Lemma pld_parse_quick_safe_witness :
  ∃ r s', ikev2_pld_parse_quick (dec_ike_header sample_sk_msg) 0 (sample_state sample_sk_msg)
      = Ok (r, s') ∧ (r = 0 ∨ r = -1) ∧ frag_num_only (sample_state sample_sk_msg) s'.
Proof. apply pld_parse_quick_safe. vm_compute. reflexivity. Defined.

(** ** Configuration payloads at the highest verbosity *)

(** A CP payload with one IPv4 address, the last of its message. *)
Definition sample_cp_msg : bytes :=
  bs (sample_hdr 47 8 44 ++ [0; 0; 0; 16] ++ [1; 0; 0; 0] ++ [0; 1; 0; 4] ++ [10; 0; 0; 1]).
Definition at_verbose (v : Z) (s : pstate) : pstate :=
  mk_pstate v (ps_alloc s) (ps_rand s) (ps_natt_force s) (ps_sa s) (ps_msg s) (ps_emsg s)
    (ps_stats s) (ps_ev s).

