(* ===== verification/ParseFrag.v ===== *)
(** * Fragments in any order

    The decrypted fragments of a message reach [ikev2_pld_ef] in the order the
    network delivers them. Whatever that order is, the run ends by parsing the
    concatenation of the plaintexts in fragment order, with the next payload
    type of the first fragment, and frees the queue. *)

From S2P Require Import Prelude Types SaState Proposals Ibuf Parse ParseSk Samples.

(** The queue once the fragments of [l] are in. *)
Definition entry_of (d : bytes) : iked_frag_entry := mk_frag_entry (Some d) (blen d).
Definition slots (ds : list bytes) (l : list nat) : list (option iked_frag_entry) :=
  imap (λ i d, if bool_decide (i ∈ l) then Some (entry_of d) else None) ds.
Definition queue_of (ds : list bytes) (next : nat → Z) (l : list nat) : iked_frag :=
  mk_frag (Some (slots ds l)) (Z.of_nat (length (stored (slots ds l)))) (Z.of_nat (length ds))
    (blen (concat (stored (slots ds l)))) (if bool_decide (0%nat ∈ l) then next 0%nat else 0).
Definition with_queue (f : iked_frag) (s : pstate) : pstate :=
  set_ps_sa (set_sa_fragments f <$> ps_sa s) s.

Section order.
Context (payloads : Z → Z → Z → P Z) (ds : list bytes) (next : nat → Z).

(** The fragments of [order] arrive one after the other. *)
Fixpoint accept_all (order : list nat) (r : Z) : P Z :=
  match order with
  | [] => mret r
  | i :: order =>
      r ← ef_accept payloads (next i) (Z.of_nat i + 1) (Z.of_nat (length ds)) (default [] (ds !! i));
      accept_all order r
  end.

(** What happens to the whole message. *)
Definition deliver (e : bytes) (nextpayload : Z) : P Z :=
  m ← gets cur;
  _ ← (if msg_response m then upd_sa (set_sa_requests []) else mret tt);
  r ← parse_decrypted payloads e nextpayload;
  reassemble_done true r.
End order.

(** ** The slots *)

Section slots.
Context (ds : list bytes).

Lemma length_slots l : length (slots ds l) = length ds.
Proof. apply length_imap. Qed.

Lemma slots_lookup l i d :
  ds !! i = Some d →
  slots ds l !! i = Some (if bool_decide (i ∈ l) then Some (entry_of d) else None).
Proof. intros H. unfold slots. by rewrite list_lookup_imap, H. Qed.

Lemma slots_insert l i d :
  ds !! i = Some d → <[i := Some (entry_of d)]> (slots ds l) = slots ds (l ++ [i]).
Proof.
  intros Hd. apply list_eq. intros j. destruct (decide (i = j)) as [<-|Hij].
  - rewrite list_lookup_insert_eq by (rewrite length_slots; by eapply lookup_lt_Some).
    rewrite (slots_lookup _ _ d) by done. by rewrite bool_decide_true by set_solver.
  - rewrite list_lookup_insert_ne by done. unfold slots. rewrite !list_lookup_imap.
    destruct (ds !! j); [|done]. simpl.
    by rewrite (bool_decide_ext (j ∈ l) (j ∈ l ++ [i])) by set_solver.
Qed.

Lemma slots_nil : slots ds [] = replicate (length ds) None.
Proof.
  apply list_eq. intros i. unfold slots. rewrite list_lookup_imap.
  destruct (ds !! i) eqn:E; simpl.
  - rewrite lookup_replicate_2; [done|]. by eapply lookup_lt_Some.
  - symmetry. apply lookup_replicate_None. by apply lookup_ge_None.
Qed.

Lemma slots_full l :
  l ≡ₚ seq 0 (length ds) → slots ds l = (λ d, Some (entry_of d)) <$> ds.
Proof.
  intros Hl. apply list_eq. intros i. unfold slots. rewrite list_lookup_imap, list_lookup_fmap.
  destruct (ds !! i) eqn:E; [|done]. simpl. rewrite bool_decide_true; [done|].
  rewrite Hl, elem_of_seq. apply lookup_lt_Some in E. lia.
Qed.

Lemma stored_full : stored ((λ d, Some (entry_of d)) <$> ds) = ds.
Proof.
  induction ds as [|d l IH]; [done|]. rewrite fmap_cons. etrans; [apply stored_cons|]. by f_equal.
Qed.
End slots.

(** ** One fragment *)

Section run.
Context (payloads : Z → Z → Z → P Z).

Lemma next_alloc_run s : ps_alloc s = [] → next_alloc s = Ok (true, s).
Proof. intros H. unfold next_alloc. by rewrite H. Qed.

Lemma set_frags_run g s sa :
  ps_sa s = Some sa → set_frags g s = Ok (tt, with_queue (g (sa_fragments sa)) s).
Proof. intros H. unfold set_frags, upd_sa, modify, with_queue. by rewrite H. Qed.

Lemma with_queue_twice f g s : with_queue f (with_queue g s) = with_queue f s.
Proof. unfold with_queue. destruct s as [????[sa|]]; done. Qed.

Definition stored_in (f : iked_frag) (arr : list (option iked_frag_entry)) (i : nat) (e : bytes)
    (np : Z) : iked_frag :=
  mk_frag (Some (<[i := Some (entry_of e)]> arr)) (frag_count f + 1) (frag_total f)
    (frag_total_size f + blen e) (if Z.of_nat i + 1 =? 1 then np else frag_nextpayload f).

Lemma ef_store_run np i e arr s sa :
  ps_sa s = Some sa → ps_alloc s = [] → frag_queue (sa_fragments sa) arr →
  arr !! i = Some None → blen e ≤ IKED_MSGBUF_MAX →
  ef_store payloads np (Z.of_nat i + 1) e arr s =
    (if frag_count (sa_fragments sa) + 1 =? frag_total (sa_fragments sa)
     then ikev2_frags_reassemble payloads else mret 0)
    (with_queue (stored_in (sa_fragments sa) arr i e np) s).
Proof.
  intros Hs Ha Hq Hi Hb. unfold ef_store. rewrite Z.add_simpl_r, Nat2Z.id.
  pose proof (queue_fill _ _ _ e Hq Hi Hb) as Hf.
  pose proof (frag_size_total _ _ Hf) as Hsz. pose proof (frag_size_total _ _ Hq) as Hsz1.
  simpl in Hsz. pose proof (blen_nonneg e). pose proof (lookup_lt_Some _ _ _ Hi).
  pose proof (queue_stored_le _ _ Hq) as Hle. destruct Hq as [_ Ht1 _ Hcnt _]. unfold IKED_FRAG_TOTAL_MAX in Ht1.
  rewrite (bind_run _ _ _ _ _ (set_frags_run _ _ _ Hs)).
  erewrite bind_run; [|by apply next_alloc_run]. cbn [negb].
  rewrite (proj2 (Z.ltb_lt _ _)) by lia. cbn [negb].
  erewrite bind_run; [|by apply next_alloc_run]. cbn [negb].
  erewrite bind_run; [|apply set_frags_run; unfold with_queue; by rewrite Hs].
  rewrite with_queue_twice. cbn [sa_fragments].
  set (f' := set_frag_count _ _).
  assert (f' = stored_in (sa_fragments sa) arr i e np) as ->.
  { unfold f', stored_in. by destruct (Z.of_nat i + 1 =? 1); simpl;
      rewrite !sz_add_id by (unfold size_max; lia). }
  unfold with_queue. rewrite Hs. unfold gets, mbind, M_bind. simpl. by destruct (_ =? _).
Qed.

Lemma buf_zeros_run len s :
  ps_alloc s = [] → 0 ≤ len ≤ IKED_MSGBUF_MAX → buf_zeros len s = Ok (Some (zeros len), s).
Proof.
  intros Ha Hl. unfold buf_zeros. erewrite bind_run; [|by apply next_alloc_run].
  unfold IKED_MSGBUF_MAX in *. destruct (new_zeros true len) as (o & E & Ho); [unfold size_max; lia|].
  unfold lift, mbind, M_bind. rewrite E. destruct o as [b|]; simpl.
  - destruct Ho as (_ & _ & _ & ->). done.
  - destruct Ho as [|Ho]; [done|]. unfold IKED_MSGBUF_MAX in Ho. lia.
Qed.

Lemma print_hex_run buf len s :
  0 ≤ len ≤ blen buf → print_hex buf 0 len s = Ok (tt, s).
Proof.
  intros Hl. assert (H : wp never (print_hex buf 0 len) (λ _ s', s' = s) s) by (by repeat pstep).
  apply wp_total in H as ([] & s' & -> & ->). done.
Qed.

Lemma reassemble_run f arr s sa :
  ps_sa s = Some sa → ps_alloc s = [] → sa_fragments sa = f → frag_arr f = Some arr →
  frag_queue f arr → frag_count f = frag_total f → frag_total_size f ≤ IKED_MSGBUF_MAX →
  ikev2_frags_reassemble payloads s =
    deliver payloads (concat (stored arr)) (frag_nextpayload f) s.
Proof.
  intros Hs Ha Hf Harr Hq Hc Hmax. unfold ikev2_frags_reassemble.
  pose proof (queue_complete _ _ Hq Hc) as Hcomp. pose proof (frag_size_total _ _ Hq) as Hsz.
  destruct Hq as [Hlen Htot _ _ Hsize].
  erewrite bind_run; [|reflexivity]. rewrite Hs. cbv zeta. rewrite Hf.
  erewrite bind_run; [|apply buf_zeros_run; [done|lia]]. rewrite Harr. cbn [from_option id].
  rewrite take_ge by lia. unfold lift at 1.
  rewrite reassemble_loop_spec; [|done|lia|by rewrite blen_zeros by lia|rewrite blen_zeros; lia].
  erewrite bind_run; [|reflexivity]. cbv iota beta.
  change (sub_bytes 0 0 (zeros _)) with (@nil byte). rewrite app_nil_l.
  erewrite bind_run; [|apply print_hex_run; lia]. done.
Qed.

(** ** All of them *)

Context (ds : list bytes) (next : nat → Z).
Hypothesis Hnum : 1 ≤ Z.of_nat (length ds) ≤ IKED_FRAG_TOTAL_MAX.
Hypothesis Hfit : ∀ d, d ∈ ds → blen d ≤ IKED_MSGBUF_MAX.

Definition received_ok (l : list nat) : Prop :=
  frag_queue (queue_of ds next l) (slots ds l) ∧ length (stored (slots ds l)) = length l.

Lemma queue_start :
  frag_queue (set_frag_total (Z.of_nat (length ds)) frag_zero) (slots ds []).
Proof.
  pose proof (queue_new (Z.of_nat (length ds)) Hnum) as H. rewrite Nat2Z.id in H.
  by rewrite slots_nil.
Qed.

Lemma received_nil : received_ok [].
Proof.
  split.
  - apply (queue_ext _ _ _) with (4 := queue_start); simpl;
      by rewrite ?slots_nil, ?stored_replicate.
  - by rewrite slots_nil, stored_replicate.
Qed.

Lemma queue_of_snoc l i d :
  received_ok l → ds !! i = Some d → i ∉ l →
  received_ok (l ++ [i]) ∧
  stored_in (queue_of ds next l) (slots ds l) i d (next i) = queue_of ds next (l ++ [i]).
Proof.
  intros [Hq Hn] Hd Hi.
  assert (Hslot : slots ds l !! i = Some None).
  { rewrite (slots_lookup _ _ _ d) by done. by rewrite bool_decide_false. }
  assert (Hb : blen d ≤ IKED_MSGBUF_MAX) by (apply Hfit; by eapply list_elem_of_lookup_2).
  pose proof (queue_fill _ _ _ d Hq Hslot Hb) as Hf.
  change (mk_frag_entry (Some d) (blen d)) with (entry_of d) in Hf.
  rewrite (slots_insert _ _ _ d) in Hf by done.
  pose proof (fq_count _ _ Hf) as Ec. pose proof (fq_size _ _ Hf) as Es. simpl in Ec, Es.
  split; [split|].
  - eapply queue_ext; [| | |exact Hf]; simpl; congruence || done.
  - rewrite length_app. simpl. lia.
  - unfold stored_in, queue_of. rewrite (slots_insert _ _ _ d) by done. simpl.
    rewrite <- Ec, <- Es. f_equal. destruct i as [|i].
    + by rewrite (bool_decide_true (0%nat ∈ l ++ [0%nat])) by (clear; set_solver).
    + rewrite (proj2 (Z.eqb_neq _ _)) by lia.
      by rewrite (bool_decide_ext (0%nat ∈ l ++ [S i]) (0%nat ∈ l)) by (clear; set_solver).
Qed.

(** The queue before the fragments of [l ++ order]. *)
Definition queue_at (l : list nat) (f : iked_frag) : Prop :=
  f = queue_of ds next l ∨ (l = [] ∧ f = frag_zero).

Lemma accept_step l i d s sa :
  received_ok l → ds !! i = Some d → i ∉ l → ps_sa s = Some sa → ps_alloc s = [] →
  queue_at l (sa_fragments sa) →
  ef_accept payloads (next i) (Z.of_nat i + 1) (Z.of_nat (length ds)) d s =
    (if (length (l ++ [i]) =? length ds)%nat then ikev2_frags_reassemble payloads else mret 0)
    (with_queue (queue_of ds next (l ++ [i])) s).
Proof.
  intros Hl Hd Hi Hs Ha Hat.
  assert (Hb : blen d ≤ IKED_MSGBUF_MAX) by (apply Hfit; by eapply list_elem_of_lookup_2).
  assert (Hslot : slots ds l !! i = Some None).
  { rewrite (slots_lookup _ _ _ d) by done. by rewrite bool_decide_false. }
  destruct (queue_of_snoc l i d Hl Hd Hi) as [_ Hst]. destruct Hl as [Hq Hn].
  assert (Hcond : (Z.of_nat (length (stored (slots ds l))) + 1 =? Z.of_nat (length ds)) =
    (length (l ++ [i]) =? length ds)%nat).
  { rewrite length_app, Hn. simpl. apply eq_true_iff_eq. rewrite Z.eqb_eq, Nat.eqb_eq. lia. }
  unfold ef_accept. erewrite bind_run; [|reflexivity]. rewrite Hs. cbv zeta.
  destruct Hat as [Hf|[-> Hf]]; rewrite Hf; cbn [frag_arr queue_of frag_zero].
  - rewrite Z.eqb_refl. cbn [negb]. rewrite Z.add_simpl_r, Nat2Z.id, Hslot.
    rewrite (ef_store_run _ i d _ s sa); try done; rewrite Hf; try done.
    by rewrite Hst, <- Hcond.
  - erewrite bind_run; [|by apply next_alloc_run]. cbn [negb].
    erewrite bind_run; [|by apply (set_frags_run _ s sa)].
    rewrite Nat2Z.id, <- slots_nil, Hf.
    pose proof queue_start as Hq0.
    rewrite (ef_store_run _ i d _ _ (set_sa_fragments (set_frag_total (Z.of_nat (length ds))
      frag_zero) sa)); try done; [|unfold with_queue; by rewrite Hs].
    rewrite with_queue_twice, <- Hst, <- Hcond. unfold stored_in. cbn.
    by rewrite slots_nil, stored_replicate.
Qed.

Lemma queue_of_perm l l' : l ≡ₚ l' → queue_of ds next l = queue_of ds next l'.
Proof.
  intros H. assert (slots ds l = slots ds l') as E.
  { unfold slots. apply imap_ext. intros i d _.
    by rewrite (bool_decide_ext (i ∈ l) (i ∈ l')) by (by rewrite H). }
  unfold queue_of. rewrite E. f_equal.
  by rewrite (bool_decide_ext (0%nat ∈ l) (0%nat ∈ l')) by (by rewrite H).
Qed.

Lemma accept_all_run l order s sa r :
  l ++ order ≡ₚ seq 0 (length ds) → order ≠ [] → received_ok l →
  ps_sa s = Some sa → ps_alloc s = [] → queue_at l (sa_fragments sa) →
  accept_all payloads ds next order r s =
    ikev2_frags_reassemble payloads (with_queue (queue_of ds next (seq 0 (length ds))) s).
Proof.
  revert l s sa r. induction order as [|i order IH]; intros l s sa r Hp Hne Hl Hs Ha Hat; [done|].
  assert (Hnd : NoDup (l ++ i :: order)) by (rewrite Hp; apply NoDup_seq).
  assert (Hi : i ∉ l).
  { apply NoDup_app in Hnd as (_ & Hd & _). intros ?. by apply (Hd i); [|left]. }
  destruct (lookup_lt_is_Some_2 ds i) as [d Hd].
  { assert (i ∈ seq 0 (length ds)) as Hin%elem_of_seq; [|lia].
    rewrite <- Hp. apply elem_of_app. right. by left. }
  destruct (queue_of_snoc l i d Hl Hd Hi) as [Hl' _].
  pose proof (Permutation_length Hp) as Hlen. rewrite length_app, length_seq in Hlen. simpl in Hlen.
  simpl. rewrite Hd. cbn [from_option id].
  assert (Hstep := accept_step l i d s sa Hl Hd Hi Hs Ha Hat). destruct order as [|j order].
  - rewrite length_app, (proj2 (Nat.eqb_eq _ _)) in Hstep by (simpl in *; lia).
    rewrite (queue_of_perm _ _ Hp) in Hstep. unfold mbind, M_bind. rewrite Hstep.
    by destruct (ikev2_frags_reassemble _ _) as [[]|].
  - rewrite length_app, (proj2 (Nat.eqb_neq _ _)) in Hstep by (simpl in *; lia).
    rewrite (bind_run _ _ _ _ _ Hstep).
    rewrite (IH (l ++ [i]) _ (set_sa_fragments (queue_of ds next (l ++ [i])) sa)); try done.
    + by rewrite with_queue_twice.
    + by rewrite <- app_assoc.
    + unfold with_queue. simpl. by rewrite Hs.
    + by left.
Qed.

Lemma received_all l : NoDup l → (∀ i, i ∈ l → (i < length ds)%nat) → received_ok l.
Proof.
  induction l as [|i l IH] using rev_ind; intros Hnd Hin; [apply received_nil|].
  apply NoDup_app in Hnd as (Hnd & Hd & _).
  destruct (lookup_lt_is_Some_2 ds i) as [d Hi]; [apply Hin; set_solver|].
  apply (queue_of_snoc l i d); [|done|].
  - apply IH; [done|]. intros j Hj. apply Hin, elem_of_app. by left.
  - intros ?. apply (Hd i); [done|]. by left.
Qed.
(** The queue with every fragment in it is handed over. *)
Lemma reassemble_full s sa :
  blen (concat ds) ≤ IKED_MSGBUF_MAX → ps_sa s = Some sa → ps_alloc s = [] →
  ikev2_frags_reassemble payloads (with_queue (queue_of ds next (seq 0 (length ds))) s) =
    deliver payloads (concat ds) (next 0%nat) (with_queue (queue_of ds next (seq 0 (length ds))) s).
Proof.
  intros Hb Hs Ha.
  assert (received_ok (seq 0 (length ds))) as [Hq _].
  { apply received_all; [apply NoDup_seq|]. intros i. rewrite elem_of_seq. lia. }
  assert (Hst : stored (slots ds (seq 0 (length ds))) = ds) by (by rewrite slots_full, stored_full).
  rewrite (reassemble_run (queue_of ds next (seq 0 (length ds))) (slots ds (seq 0 (length ds))) _
    (set_sa_fragments (queue_of ds next (seq 0 (length ds))) sa)); try done.
  - rewrite Hst. unfold queue_of at 1. simpl. rewrite bool_decide_true; [done|].
    rewrite elem_of_seq. lia.
  - unfold with_queue. simpl. by rewrite Hs.
  - simpl. by rewrite Hst.
  - simpl. by rewrite Hst.
Qed.
End run.

Lemma blen_elem_concat (ds : list bytes) d : d ∈ ds → blen d ≤ blen (concat ds).
Proof.
  intros H. apply list_elem_of_split in H as (l1 & l2 & ->).
  rewrite blen_concat_app. simpl concat. rewrite blen_app.
  pose proof (blen_nonneg (concat l1)). pose proof (blen_nonneg (concat l2)). lia.
Qed.

(** C12: IKE fragments reassemble in any order: whatever permutation of the
    fragments arrives, the last one to come hands the concatenation of all
    plaintexts, in fragment order and with the first fragment's next payload,
    to the payload parser, on the same state. *)
Theorem fragments_any_order payloads ds next order s sa r :
  1 ≤ Z.of_nat (length ds) ≤ IKED_FRAG_TOTAL_MAX → blen (concat ds) ≤ IKED_MSGBUF_MAX →
  order ≡ₚ seq 0 (length ds) →
  ps_sa s = Some sa → sa_fragments sa = frag_zero → ps_alloc s = [] →
  accept_all payloads ds next order r s =
    deliver payloads (concat ds) (next 0%nat)
      (with_queue (queue_of ds next (seq 0 (length ds))) s).
Proof.
  intros Hn Hb Hp Hs Hf Ha.
  assert (Hfit : ∀ d, d ∈ ds → blen d ≤ IKED_MSGBUF_MAX).
  { intros d Hd. pose proof (blen_elem_concat _ _ Hd). lia. }
  assert (Hne : order ≠ []).
  { intros ->. apply Permutation_length in Hp. rewrite length_seq in Hp. simpl in Hp. lia. }
  rewrite (accept_all_run payloads ds next Hn Hfit [] order s sa); try done.
  2:{ by apply received_nil. }
  2:{ by right. }
  by apply (reassemble_full payloads ds next Hn Hfit s sa).
Qed.

(** Three fragments, the last first. *)
Lemma fragments_any_order_witness :
  let ds := [bs [0; 0; 0]; bs [8; 1]; bs [2; 3; 4]] in
  accept_all (λ _ _ _, mret 7) ds Z.of_nat [2; 0; 1]%nat 0 (sample_state []) =
    deliver (λ _ _ _, mret 7) (bs [0; 0; 0; 8; 1; 2; 3; 4]) 0
      (with_queue (queue_of ds Z.of_nat [0; 1; 2]%nat) (sample_state [])).
Proof.
  intros ds.
  apply fragments_any_order with (sa := sample_sa);
    try reflexivity; try (vm_compute; done).
  exact (Permutation_cons_append [0; 1]%nat 2%nat).
Defined.
