(* ===== verification/SaRoundtrip.v ===== *)
(** * SA payloads: what is built is what is parsed

    [ikev2_add_proposals] writes a list of proposals, [ikev2_pld_sa] reads one.
    Reading what was written gives the proposals sent, each with its number,
    protocol, SPI and transforms in order; the local SPI becomes the peer's. *)

From S2P Require Import Prelude Types Proposals Ibuf Build Parse ParseSa Samples.

(** ** Fields of encoded headers *)

Lemma sub_bytes_mid pre x post n :
  n = blen x → sub_bytes (blen pre) n (pre ++ x ++ post) = x.
Proof.
  intros ->. rewrite sub_bytes_app_r, Z.sub_diag by lia.
  pose proof (blen_nonneg x). rewrite sub_bytes_app_l by lia. apply sub_bytes_all.
Qed.

Lemma rd_mid pre x post n :
  n = blen x → rd (pre ++ x ++ post) (blen pre) n = Ok x.
Proof.
  intros Hn. unfold rd. pose proof (blen_nonneg pre). pose proof (blen_nonneg x).
  pose proof (blen_nonneg post). rewrite !blen_app.
  rewrite !(proj2 (Z.leb_le _ _)) by lia. simpl. by rewrite sub_bytes_mid.
Qed.

Lemma be_decode_1 v : 0 ≤ v < 256 → be_decode 0 [bZ v] = v.
Proof. intros. simpl. rewrite Zb_bZ, Z.mod_small; lia. Qed.

Lemma be_decode_2 v : 0 ≤ v < 65536 → be_decode 0 [bZ (v / 256); bZ v] = v.
Proof. apply (be_decode_encode 2). Qed.

(** The fields of an 8-byte header [b0 b1 (h) b4 b5 b6 b7]. *)
Lemma dec_sap_bytes more len id proto size nx :
  0 ≤ more < 256 → 0 ≤ len < 65536 → 0 ≤ id < 256 → 0 ≤ proto < 256 → 0 ≤ size < 256 →
  0 ≤ nx < 256 →
  dec_sap ([bZ more; x00] ++ be_encode 2 len ++ [bZ id; bZ proto; bZ size; bZ nx]) =
    mk_sap more 0 len id proto size nx.
Proof.
  intros. unfold dec_sap, fld8, fld16. simpl.
  f_equal; try (by apply be_decode_1). by apply be_decode_2.
Qed.

Lemma dec_xfrm_bytes more len type id :
  0 ≤ more < 256 → 0 ≤ len < 65536 → 0 ≤ type < 256 → 0 ≤ id < 65536 →
  dec_xfrm ([bZ more; x00] ++ be_encode 2 len ++ [bZ type; x00] ++ be_encode 2 id) =
    mk_xfrm more 0 len type 0 id.
Proof.
  intros. unfold dec_xfrm, fld8, fld16. simpl.
  f_equal; try (by apply be_decode_1); by apply be_decode_2.
Qed.

Lemma dec_attr_bytes type len :
  0 ≤ type < 65536 → 0 ≤ len < 65536 →
  dec_attr (be_encode 2 type ++ be_encode 2 len) = mk_attr type len.
Proof. intros. unfold dec_attr, fld16. simpl. f_equal; by apply be_decode_2. Qed.

(** ** Transforms *)

Definition xform_hdr (more : Z) (x : iked_transform) : bytes :=
  [bZ more; x00] ++ be_encode 2 (xform_bytes_len x) ++ [bZ (xform_type x); x00] ++
  be_encode 2 (xform_id x).
Definition xform_attr (x : iked_transform) : bytes :=
  if xform_length x =? 0 then []
  else be_encode 2 (Z.lor IKEV2_ATTRAF_TV IKEV2_ATTRTYPE_KEY_LENGTH) ++ be_encode 2 (xform_length x).

Lemma enc_xform_split more x : enc_xform more x = xform_hdr more x ++ xform_attr x.
Proof. unfold enc_xform, xform_hdr, xform_attr. by rewrite <- !app_assoc. Qed.

(** A transform that fits its fields. *)
Definition xform_ok (x : iked_transform) : Prop :=
  xformtype_known (xform_type x) = true ∧ 0 ≤ xform_id x < 2 ^ 16 ∧ 0 ≤ xform_length x < 2 ^ 16.

Lemma xform_ok_type x : xform_ok x → 0 ≤ xform_type x < 256.
Proof.
  intros [H _]. unfold xformtype_known in H.
  repeat (apply orb_true_iff in H as [H|H]); apply Z.eqb_eq in H; rewrite H; done.
Qed.

Lemma xform_len_range x : 8 ≤ xform_bytes_len x ≤ 12.
Proof. unfold xform_bytes_len. case_match; lia. Qed.

Lemma validate_xform_run pre more x post total :
  xform_ok x → 0 ≤ more < 256 → xform_bytes_len x ≤ total →
  ikev2_validate_xform (pre ++ enc_xform more x ++ post) (blen pre) total =
    Ok (Some (mk_xfrm more 0 (xform_bytes_len x) (xform_type x) 0 (xform_id x))).
Proof.
  intros Hx Hm Ht. pose proof (xform_ok_type _ Hx). destruct Hx as (_ & Hid & Hlen).
  pose proof (xform_len_range x). unfold ikev2_validate_xform, sizeof_xfrm.
  rewrite (proj2 (Z.ltb_ge total 8)) by lia. rewrite enc_xform_split, <- app_assoc.
  rewrite rd_mid by done. cbn [mbind out_bind]. unfold xform_hdr.
  rewrite dec_xfrm_bytes by lia. cbn [xfrm_length].
  rewrite (proj2 (Z.ltb_ge (xform_bytes_len x) 8)), (proj2 (Z.ltb_ge total _)) by lia. done.
Qed.

Definition set_attr (n : Z) : pstate → pstate := set_cur (set_msg_attrlength n).

Lemma set_attr_twice n n' s : set_attr n (set_attr n' s) = set_attr n s.
Proof. unfold set_attr, set_cur. by destruct s as [??????[]]. Qed.

Lemma attr_run pre len post s :
  0 < len < 2 ^ 16 → blen (msg_data (cur s)) < 2 ^ 32 →
  msg_data (cur s) = pre ++ (be_encode 2 (Z.lor IKEV2_ATTRAF_TV IKEV2_ATTRTYPE_KEY_LENGTH) ++
    be_encode 2 len) ++ post →
  ikev2_pld_attr (blen pre) 4 s = Ok (0, set_attr len s).
Proof.
  intros Hl Hb Hd. unfold ikev2_pld_attr. erewrite bind_run; [|reflexivity]. rewrite Hd.
  change (S (Z.to_nat 4)) with 5%nat. cbn [ikev2_pld_attr_loop].
  unfold ikev2_validate_attr, sizeof_attr. rewrite (proj2 (Z.ltb_ge 4 4)) by lia.
  rewrite rd_mid by done. cbn [mbind out_bind]. rewrite dec_attr_bytes; [|by vm_compute|lia].
  erewrite bind_run; [|reflexivity]. done.
Qed.

(** The parser is at proposal [i], which so far is [p]. *)
Record at_prop (data : bytes) (i : nat) (p : iked_proposal) (s : pstate) : Prop := {
  ap_peer : frompeer s = true;
  ap_alloc : ps_alloc s = [];
  ap_data : msg_data (cur s) = data;
  ap_prop : msg_prop (ps_msg s) = Some i;
  ap_lookup : msg_proposals (ps_msg s) !! i = Some p }.

Definition add_xform (p : iked_proposal) (x : iked_transform) : iked_proposal :=
  (config_add_transform true p (xform_type x) (xform_id x) (xform_length x) (xform_length x)).2.

(** Transform [x] is added to proposal [i]. *)
Definition put_xform (i : nat) (p : iked_proposal) (x : iked_transform) (s : pstate) : pstate :=
  let s := set_attr (xform_length x) s in
  set_ps_msg (set_msg_proposals (<[i := add_xform p x]> (msg_proposals (ps_msg s))) (ps_msg s)) s.

Lemma at_prop_attr data i p n s : at_prop data i p s → at_prop data i p (set_attr n s).
Proof.
  intros [H1 H2 H3 H4 H5]. unfold set_attr, set_cur in *.
  destruct s as [v al r nf sa m [em|] st ev]; by constructor.
Qed.

Lemma at_prop_put data i p x s :
  at_prop data i p s → at_prop data i (add_xform p x) (put_xform i p x s).
Proof.
  intros H. apply (at_prop_attr _ _ _ (xform_length x)) in H. unfold put_xform.
  destruct H as [H1 H2 H3 H4 H5]. constructor; try done.
  - unfold cur in *. simpl. by destruct (ps_emsg _).
  - simpl. apply list_lookup_insert_eq. by eapply lookup_lt_Some.
Qed.

Lemma add_transform_known p x :
  xform_ok x →
  config_add_transform true p (xform_type x) (xform_id x) (xform_length x) (xform_length x) =
    (0, add_xform p x).
Proof.
  intros [Hk _]. unfold add_xform, config_add_transform. rewrite Hk. cbn [negb].
  by destruct (existsb _ _).
Qed.

Lemma prop_add_run data i p x s :
  at_prop data i p s → xform_ok x →
  prop_add_transform (xform_type x) (xform_id x) (xform_length x) (xform_length x) s =
    Ok (0, set_ps_msg (set_msg_proposals (<[i := add_xform p x]> (msg_proposals (ps_msg s)))
      (ps_msg s)) s).
Proof.
  intros [_ Ha _ Hp Hl] Hx. unfold prop_add_transform.
  erewrite bind_run; [|unfold next_alloc; by rewrite Ha].
  erewrite bind_run; [|reflexivity]. cbv beta. rewrite Hp. cbn [mbind option_bind]. rewrite Hl.
  by rewrite add_transform_known.
Qed.

Lemma attrlength_set n s : msg_attrlength (cur (set_attr n s)) = n.
Proof. unfold set_attr, set_cur, cur. by destruct s as [??????[]]. Qed.

(** The attributes of a transform. *)
Lemma xform_attrs_run data i p more x pre post s :
  at_prop data i p s → xform_ok x → blen data < 2 ^ 32 → data = pre ++ enc_xform more x ++ post →
  (if sizeof_xfrm <? xform_bytes_len x
   then ikev2_pld_attr (blen pre + sizeof_xfrm)%sz (xform_bytes_len x - sizeof_xfrm)%sz
   else mret 0) (set_attr 0 s) = Ok (0, set_attr (xform_length x) s).
Proof.
  intros Hat (_ & _ & Hlen) Hb Hd. unfold xform_bytes_len, sizeof_xfrm.
  pose proof (blen_nonneg pre). assert (Hle : blen pre + 8 ≤ blen data).
  { rewrite Hd, enc_xform_split, !blen_app. change (blen (xform_hdr more x)) with 8.
    pose proof (blen_nonneg (xform_attr x)). pose proof (blen_nonneg post). lia. }
  destruct (Z.eqb_spec (xform_length x) 0) as [->|Hne]; [done|].
  change (8 <? 12) with true. cbv iota. change (12 - 8)%sz with 4.
  rewrite sz_add_id by (unfold size_max; lia).
  replace (blen pre + 8) with (blen (pre ++ xform_hdr more x)) by (by rewrite blen_app).
  rewrite (attr_run _ (xform_length x) post).
  - by rewrite set_attr_twice.
  - lia.
  - by rewrite (ap_data _ _ _ _ (at_prop_attr _ _ _ 0 _ Hat)).
  - rewrite (ap_data _ _ _ _ (at_prop_attr _ _ _ 0 _ Hat)), Hd, enc_xform_split.
    unfold xform_attr. rewrite (proj2 (Z.eqb_neq _ _)) by done. by rewrite <- !app_assoc.
Qed.

Lemma xform_step fuel data i p more x pre post total s :
  at_prop data i p s → xform_ok x → 0 ≤ more < 256 → blen data < 2 ^ 32 →
  data = pre ++ enc_xform more x ++ post → xform_bytes_len x ≤ total < 2 ^ 32 →
  ikev2_pld_xform_loop (S fuel) data (blen pre) total s =
    (if more =? IKEV2_XFORM_MORE
     then ikev2_pld_xform_loop fuel data (blen pre + xform_bytes_len x) (total - xform_bytes_len x)
     else mret (if total - xform_bytes_len x =? 0 then 0 else -1)) (put_xform i p x s).
Proof.
  intros Hat Hx Hm Hb Hd Ht. pose proof (blen_nonneg pre). pose proof (xform_len_range x).
  assert (Hle : blen pre + xform_bytes_len x ≤ blen data).
  { rewrite Hd, !blen_app, blen_enc_xform. pose proof (blen_nonneg post). lia. }
  cbn [ikev2_pld_xform_loop]. erewrite bind_run.
  2:{ unfold lift. rewrite Hd at 1. rewrite validate_xform_run by (done || lia). reflexivity. }
  cbv beta iota. cbn [xfrm_length xfrm_type xfrm_id xfrm_more].
  erewrite bind_run; [|reflexivity]. fold (set_attr 0).
  erewrite bind_run; [|by eapply xform_attrs_run]. cbn [negb Z.eqb].
  pose proof (at_prop_attr _ _ _ (xform_length x) _ Hat) as Hat'.
  erewrite bind_run; [|reflexivity]. fold (frompeer (set_attr (xform_length x) s)).
  erewrite bind_run; [|reflexivity]. rewrite attrlength_set, (ap_peer _ _ _ _ Hat').
  erewrite bind_run; [|by eapply prop_add_run].
  cbn [Z.eqb orb]. rewrite sz_add_id, sz_sub_id by (unfold size_max; lia).
  by destruct (more =? IKEV2_XFORM_MORE).
Qed.

Fixpoint put_xforms (i : nat) (p : iked_proposal) (xs : list iked_transform) (s : pstate) : pstate :=
  match xs with
  | [] => s
  | x :: xs => put_xforms i (add_xform p x) xs (put_xform i p x s)
  end.

Lemma put_xforms_spec data i p xs s :
  at_prop data i p s →
  at_prop data i (foldl add_xform p xs) (put_xforms i p xs s) ∧
  msg_proposals (ps_msg (put_xforms i p xs s)) =
    <[i := foldl add_xform p xs]> (msg_proposals (ps_msg s)).
Proof.
  revert p s. induction xs as [|x xs IH]; intros p s Hat; simpl.
  - split; [done|]. symmetry. apply list_insert_id, Hat.
  - destruct (IH _ _ (at_prop_put _ _ _ x _ Hat)) as [Hat' E]. split; [done|].
    rewrite E. unfold put_xform, set_attr, set_cur. destruct s as [??????[]]; simpl;
      by rewrite list_insert_insert_eq.
Qed.

Lemma xforms_len_pos x xs : 8 ≤ blen (enc_xforms (x :: xs)).
Proof.
  cbn [enc_xforms]. rewrite blen_app, blen_enc_xform. pose proof (xform_len_range x).
  pose proof (blen_nonneg (enc_xforms xs)). lia.
Qed.

Lemma xforms_run fuel data i p xs pre post s :
  at_prop data i p s → Forall xform_ok xs → xs ≠ [] → (length xs ≤ fuel)%nat →
  blen data < 2 ^ 32 → data = pre ++ enc_xforms xs ++ post →
  ikev2_pld_xform_loop fuel data (blen pre) (blen (enc_xforms xs)) s = Ok (0, put_xforms i p xs s).
Proof.
  revert fuel p pre s. induction xs as [|x xs IH]; intros fuel p pre s Hat Hx Hne Hf Hb Hd; [done|].
  destruct fuel as [|fuel]; [simpl in Hf; lia|]. apply Forall_cons in Hx as [Hx Hxs].
  cbn [enc_xforms] in *. rewrite blen_app, blen_enc_xform in *. rewrite <- app_assoc in Hd.
  pose proof (xform_len_range x). pose proof (blen_nonneg (enc_xforms xs)).
  pose proof (blen_nonneg pre).
  assert (Hle : blen pre + xform_bytes_len x + blen (enc_xforms xs) ≤ blen data).
  { rewrite Hd, !blen_app, blen_enc_xform. pose proof (blen_nonneg post). lia. }
  erewrite xform_step; [|done|done| |done|exact Hd|lia].
  2:{ destruct xs; done. }
  replace (xform_bytes_len x + blen (enc_xforms xs) - xform_bytes_len x)
    with (blen (enc_xforms xs)) by lia.
  destruct xs as [|x' xs]; [done|]. simpl Z.eqb. cbv iota. simpl put_xforms.
  replace (blen pre + xform_bytes_len x) with (blen (pre ++ enc_xform IKEV2_XFORM_MORE x))
    by (by rewrite blen_app, blen_enc_xform).
  apply IH; try done; [by apply at_prop_put|simpl in *; lia|]. by rewrite <- app_assoc.
Qed.

(** ** Proposals *)

Definition prop_hdr (more : Z) (nodh : bool) (p : iked_proposal) : bytes :=
  [bZ more; x00] ++ be_encode 2 (enc_prop_len nodh p) ++
  [bZ (prop_id p); bZ (prop_protoid p); bZ (spi_size (prop_localspi p));
   bZ (Z.of_nat (length (sent_xforms nodh (prop_xforms p))))].

(** A proposal that fits its fields. *)
Record prop_ok (nodh : bool) (p : iked_proposal) : Prop := {
  po_id : 0 ≤ prop_id p < 256;
  po_proto : 0 ≤ prop_protoid p < 256;
  po_spi : spi_size (prop_localspi p) = 0 ∨
    (spi_size (prop_localspi p) = 4 ∧ 0 ≤ spi (prop_localspi p) < 2 ^ 32) ∨
    (spi_size (prop_localspi p) = 8 ∧ 0 ≤ spi (prop_localspi p) < 2 ^ 64);
  po_xforms : Forall xform_ok (sent_xforms nodh (prop_xforms p));
  po_count : Z.of_nat (length (sent_xforms nodh (prop_xforms p))) < 256;
  po_len : enc_prop_len nodh p < 2 ^ 16 }.

Definition sap_of (more : Z) (nodh : bool) (p : iked_proposal) : ikev2_sa_proposal :=
  mk_sap more 0 (enc_prop_len nodh p) (prop_id p) (prop_protoid p) (spi_size (prop_localspi p))
    (Z.of_nat (length (sent_xforms nodh (prop_xforms p)))).

Lemma enc_prop_split more nodh p :
  enc_prop more nodh p = prop_hdr more nodh p ++ enc_spi (prop_localspi p) ++
    enc_xforms (sent_xforms nodh (prop_xforms p)).
Proof. unfold enc_prop, prop_hdr. by rewrite <- !app_assoc. Qed.

Lemma prop_len_pos nodh p : sizeof_sap ≤ enc_prop_len nodh p.
Proof.
  unfold enc_prop_len. pose proof (blen_nonneg (enc_spi (prop_localspi p))).
  pose proof (blen_nonneg (enc_xforms (sent_xforms nodh (prop_xforms p)))). lia.
Qed.

Lemma validate_sa_run pre more nodh p post left :
  prop_ok nodh p → 0 ≤ more < 256 →
  (more = 0 ∧ left = enc_prop_len nodh p ∨ more ≠ 0 ∧ enc_prop_len nodh p < left) →
  ikev2_validate_sa (pre ++ enc_prop more nodh p ++ post) (blen pre) left =
    Ok (Some (sap_of more nodh p)).
Proof.
  intros [Hid Hpr Hspi Hx Hn Hl] Hm Hleft. unfold ikev2_validate_sa.
  pose proof (prop_len_pos nodh p) as Hpos. unfold sizeof_sap in *.
  rewrite (proj2 (Z.ltb_ge left 8)) by lia. rewrite enc_prop_split, <- app_assoc.
  rewrite rd_mid by done. cbn [mbind out_bind]. unfold prop_hdr.
  rewrite dec_sap_bytes; [|lia|lia|lia|lia| |lia].
  2:{ destruct Hspi as [->|[[-> _]|[-> _]]]; done. }
  cbn [sap_length sap_more].
  rewrite (proj2 (Z.ltb_ge (enc_prop_len nodh p) 8)), (proj2 (Z.ltb_ge left _)) by lia.
  destruct Hleft as [[-> ->]|[Hm0 Hleft]].
  - by rewrite !Z.eqb_refl.
  - rewrite (proj2 (Z.eqb_neq more 0)) by done. cbn [negb andb].
    by rewrite (proj2 (Z.leb_gt left _)) by lia.
Qed.

(** The SPI as the parser tracks it: kept from the proposal before when
    there is none. *)
Definition next_spi (spi0 : Z) (p : iked_proposal) : Z :=
  if spi_size (prop_localspi p) =? 0 then spi0 else spi (prop_localspi p).

Lemma ok4_eq (a a' b b' c c' d d' : Z) :
  a = a' → b = b' → c = c' → d = d' → Ok (Some (a, b, c, d)) = Ok (Some (a', b', c', d')).
Proof. congruence. Qed.

Lemma spi_run pre more nodh p post left spi0 :
  prop_ok nodh p → enc_prop_len nodh p ≤ left < 2 ^ 32 →
  blen (pre ++ enc_prop more nodh p ++ post) < 2 ^ 32 →
  pld_sa_spi (pre ++ enc_prop more nodh p ++ post) (sap_of more nodh p) (blen pre + 8) (left - 8)
      (enc_prop_len nodh p - 8) spi0 =
    Ok (Some (next_spi spi0 p, blen pre + 8 + blen (enc_spi (prop_localspi p)),
      left - 8 - blen (enc_spi (prop_localspi p)),
      blen (enc_xforms (sent_xforms nodh (prop_xforms p))))).
Proof.
  intros [Hid Hpr Hspi Hx Hn Hl] Hleft Hb. unfold pld_sa_spi, next_spi. cbn [sap_of sap_spisize].
  pose proof (prop_len_pos nodh p). unfold enc_prop_len, sizeof_sap in *.
  set (xb := blen (enc_xforms _)) in *. assert (0 ≤ xb) by apply blen_nonneg.
  pose proof (blen_nonneg pre). pose proof (blen_nonneg post).
  rewrite enc_prop_split, !blen_app in Hb. change (blen (prop_hdr more nodh p)) with 8 in Hb.
  assert (Hpre : blen pre + 8 = blen (pre ++ prop_hdr more nodh p)) by (by rewrite blen_app).
  assert (En : blen (enc_spi (prop_localspi p)) = spi_size (prop_localspi p)).
  { unfold enc_spi. by destruct Hspi as [->|[[-> _]|[-> _]]]. }
  rewrite En in *. destruct Hspi as [E|[[E Hr]|[E Hr]]]; rewrite E in *.
  - cbn [Z.eqb]. apply ok4_eq; lia.
  - cbn [Z.eqb Pos.eqb]. rewrite !(proj2 (Z.ltb_ge _ _)) by lia.
    rewrite Hpre, enc_prop_split. unfold enc_spi at 1. rewrite E. cbn [Z.eqb Pos.eqb].
    rewrite <- !app_assoc, (app_assoc pre), rd_mid by done. cbn [mbind out_bind].
    rewrite <- Hpre, sz_add_id, !sz_sub_id by (unfold size_max; lia). unfold fld32.
    rewrite (sub_bytes_all (be_encode 4 _)), be_decode_encode by (simpl; lia). apply ok4_eq; lia.
  - cbn [Z.eqb Pos.eqb]. rewrite !(proj2 (Z.ltb_ge _ _)) by lia.
    rewrite Hpre, enc_prop_split. unfold enc_spi at 1. rewrite E. cbn [Z.eqb Pos.eqb].
    rewrite <- !app_assoc, (app_assoc pre), rd_mid by done. cbn [mbind out_bind].
    rewrite <- Hpre, sz_add_id, !sz_sub_id by (unfold size_max; lia). unfold fld64.
    rewrite (sub_bytes_all (be_encode 8 _)), be_decode_encode by (simpl; lia). apply ok4_eq; lia.
Qed.

(** The parser between two proposals. *)
Record at_sa (data : bytes) (props : list iked_proposal) (s : pstate) : Prop := {
  as_peer : frompeer s = true;
  as_alloc : ps_alloc s = [];
  as_data : msg_data (cur s) = data;
  as_props : msg_proposals (ps_msg s) = props }.

(** A proposal as the peer will have it. *)
Definition peer_base (spi0 : Z) (p : iked_proposal) : iked_proposal :=
  let sz := spi_size (prop_localspi p) in
  mk_proposal (prop_id p) (prop_protoid p) (mk_spi 0 sz (prop_protoid p))
    (mk_spi (next_spi spi0 p) sz (prop_protoid p)) [].
Definition peer_prop (spi0 : Z) (nodh : bool) (p : iked_proposal) : iked_proposal :=
  foldl add_xform (peer_base spi0 p) (sent_xforms nodh (prop_xforms p)).

Definition start_prop (p : iked_proposal) (s : pstate) : pstate :=
  let m := ps_msg s in
  set_ps_msg (set_msg_prop (Some (length (msg_proposals m)))
    (set_msg_proposals (msg_proposals m ++ [p]) m)) s.

Lemma start_prop_at data props p s :
  at_sa data props s → at_prop data (length props) p (start_prop p s).
Proof.
  intros [H1 H2 H3 H4]. unfold start_prop. rewrite H4. constructor; try done.
  - unfold cur in *. simpl. by destruct (ps_emsg s).
  - simpl. rewrite lookup_app_r, Nat.sub_diag by lia. done.
Qed.

Lemma proposal_run data props more nodh p spi0 s :
  at_sa data props s → prop_ok nodh p →
  (∀ q, q ∈ props → ¬ (prop_protoid q = prop_protoid p ∧ prop_id q = prop_id p)) →
  pld_sa_proposal (sap_of more nodh p) (next_spi spi0 p) s =
    Ok (true, start_prop (peer_base spi0 p) s).
Proof.
  intros [H1 H2 H3 H4] [Hid Hpr _ _ _ _] Hnew. unfold pld_sa_proposal.
  erewrite bind_run; [|reflexivity]. fold (frompeer s). rewrite H1. cbn [negb].
  erewrite bind_run; [|unfold next_alloc; by rewrite H2].
  erewrite bind_run; [|reflexivity]. rewrite H4. unfold config_add_proposal.
  cbn [sap_proposalnr sap_protoid sap_spisize sap_of].
  rewrite (proj2 (list_find_None _ _)) by (apply Forall_forall; exact Hnew).
  unfold to_u8. rewrite !Z.mod_small by lia. cbv beta iota.
  unfold start_prop, mret, M_ret, mbind, M_bind, upd_parent, modify. rewrite H4. do 4 f_equal.
  rewrite (alter_app_r_alt _ props) by lia. by rewrite Nat.sub_diag.
Qed.

Lemma pld_xforms_run data props nodh more p b pre post s :
  at_sa data props s → prop_ok nodh p → blen data < 2 ^ 32 →
  data = pre ++ enc_xforms (sent_xforms nodh (prop_xforms p)) ++ post →
  pld_sa_xforms (sap_of more nodh p) (blen pre)
      (blen (enc_xforms (sent_xforms nodh (prop_xforms p)))) (start_prop b s) =
    Ok (true, put_xforms (length props) b (sent_xforms nodh (prop_xforms p)) (start_prop b s)).
Proof.
  intros Hat [_ _ _ Hx Hn _] Hb Hd. set (xs := sent_xforms _ _) in *.
  unfold pld_sa_xforms. cbn [sap_transforms sap_of]. fold xs.
  destruct xs as [|x xs'] eqn:Exs; [done|]. rewrite (proj2 (Z.eqb_neq _ _)) by (simpl; lia).
  pose proof (start_prop_at _ _ b _ Hat) as Hp.
  erewrite bind_run.
  2:{ unfold ikev2_pld_xform. erewrite bind_run; [|reflexivity]. rewrite (ap_data _ _ _ _ Hp).
      eapply xforms_run; try done. rewrite <- Exs.
      assert (Hlen : ∀ l, Z.of_nat (length l) ≤ blen (enc_xforms l)).
      { clear. induction l as [|y l IH]; [done|]. cbn [enc_xforms length].
        rewrite blen_app, blen_enc_xform. pose proof (xform_len_range y). lia. }
      specialize (Hlen xs). lia. }
  erewrite bind_run; [|reflexivity]. done.
Qed.

(** ** The payload *)

Section payload.
Context (protoid : Z) (skipdh : bool).
Notation nodh := (prop_skipdh protoid skipdh).

Fixpoint peer_props (spi0 : Z) (ps : list iked_proposal) : list iked_proposal :=
  match ps with
  | [] => []
  | p :: ps => peer_prop spi0 (nodh p) p :: peer_props (next_spi spi0 p) ps
  end.

Definition prop_key (p : iked_proposal) : Z * Z := (prop_protoid p, prop_id p).

Lemma foldl_key p xs : prop_key (foldl add_xform p xs) = prop_key p.
Proof.
  revert p. induction xs as [|x xs IH]; intros p; simpl; [done|]. rewrite IH.
  unfold add_xform, config_add_transform. by repeat case_match.
Qed.

Lemma enc_props_pos p ps : sizeof_sap ≤ blen (enc_props protoid skipdh (p :: ps)).
Proof.
  cbn [enc_props]. rewrite blen_app, blen_enc_prop. pose proof (prop_len_pos (nodh p) p).
  pose proof (blen_nonneg (enc_props protoid skipdh ps)). lia.
Qed.

(** One round of the loop. *)
Lemma sa_step fuel data props more p pre rest left spi0 s :
  at_sa data props s → prop_ok (nodh p) p → blen data < 2 ^ 32 →
  (∀ q, q ∈ props → prop_key q ≠ prop_key p) → 0 ≤ more < 256 →
  data = pre ++ enc_prop more (nodh p) p ++ rest →
  (more = 0 ∧ left = enc_prop_len (nodh p) p ∨ more ≠ 0 ∧ enc_prop_len (nodh p) p < left) →
  left < 2 ^ 32 →
  ∃ s', at_sa data (props ++ [peer_prop spi0 (nodh p) p]) s' ∧
    ikev2_pld_sa_loop (S fuel) data (blen pre) left spi0 s =
      (if more =? 0 then mret 0
       else ikev2_pld_sa_loop fuel data (blen (pre ++ enc_prop more (nodh p) p))
              (left - enc_prop_len (nodh p) p) (next_spi spi0 p)) s'.
Proof.
  intros Hat Hok Hb Hkey Hm Hd Hleft Hl32. pose proof (prop_len_pos (nodh p) p) as Hpos.
  pose proof (blen_nonneg pre). unfold sizeof_sap in *.
  set (b := peer_base spi0 p). set (xs := sent_xforms (nodh p) (prop_xforms p)).
  destruct (put_xforms_spec data (length props) b xs (start_prop b s)) as [Hap Eprops].
  { by apply start_prop_at. }
  exists (put_xforms (length props) b xs (start_prop b s)). split.
  { destruct Hap as [A1 A2 A3 A4 A5]. constructor; try done. rewrite Eprops. simpl.
    rewrite (as_props _ _ _ Hat). rewrite insert_app_r_alt, Nat.sub_diag by lia. done. }
  assert (Hle : blen pre + enc_prop_len (nodh p) p ≤ blen data).
  { rewrite Hd, !blen_app, blen_enc_prop. pose proof (blen_nonneg rest). lia. }
  cbn [ikev2_pld_sa_loop]. erewrite bind_run.
  2:{ unfold lift. rewrite Hd at 1. rewrite validate_sa_run by done. reflexivity. }
  cbv beta iota. cbn [sap_length sap_more sap_of]. unfold sizeof_sap.
  rewrite sz_add_id, !sz_sub_id by (unfold size_max; lia).
  erewrite bind_run.
  2:{ unfold lift. fold (sap_of more (nodh p) p). rewrite Hd at 1.
      rewrite spi_run; [reflexivity|done|lia|by rewrite <- Hd]. }
  cbv beta iota. unfold enc_prop_len in Hpos, Hleft, Hle |- *. fold xs in Hpos, Hleft, Hle |- *.
  unfold sizeof_sap in *.
  pose proof (blen_nonneg (enc_spi (prop_localspi p))). pose proof (blen_nonneg (enc_xforms xs)).
  rewrite (proj2 (Z.ltb_ge _ _)) by lia.
  erewrite bind_run; [|eapply proposal_run; [done|done|]].
  2:{ intros q Hq [E1 E2]. apply (Hkey q Hq). unfold prop_key. by rewrite E1, E2. }
  cbn [negb]. fold b.
  assert (Hpre' : blen pre + 8 + blen (enc_spi (prop_localspi p)) =
    blen (pre ++ prop_hdr more (nodh p) p ++ enc_spi (prop_localspi p))).
  { rewrite !blen_app. change (blen (prop_hdr more (nodh p) p)) with 8. lia. }
  rewrite Hpre'. erewrite bind_run.
  2:{ eapply (pld_xforms_run data props _ _ _ _ _ rest); try done. fold xs.
      rewrite Hd at 1. rewrite enc_prop_split. fold xs. by rewrite <- !app_assoc. }
  cbn [negb]. rewrite <- Hpre', sz_add_id, sz_sub_id by (unfold size_max; lia).
  destruct (more =? 0); cbn [negb]; [done|]. f_equal.
  - rewrite blen_app, blen_enc_prop. unfold enc_prop_len. fold xs. unfold sizeof_sap. lia.
  - lia.
Qed.

Lemma sa_loop_run fuel data props ps pre post spi0 s :
  at_sa data props s → Forall (λ p, prop_ok (nodh p) p) ps → ps ≠ [] → (length ps ≤ fuel)%nat →
  blen data < 2 ^ 32 → NoDup ((prop_key <$> props) ++ (prop_key <$> ps)) →
  data = pre ++ enc_props protoid skipdh ps ++ post →
  ∃ s', ikev2_pld_sa_loop fuel data (blen pre) (blen (enc_props protoid skipdh ps)) spi0 s =
      Ok (0, s') ∧ at_sa data (props ++ peer_props spi0 ps) s'.
Proof.
  revert fuel props pre spi0 s.
  induction ps as [|p ps IH]; intros fuel props pre spi0 s Hat Hok Hne Hf Hb Hnd Hd; [done|].
  destruct fuel as [|fuel]; [simpl in Hf; lia|]. apply Forall_cons in Hok as [Hp Hps].
  cbn [enc_props] in *. rewrite blen_app, blen_enc_prop in *. rewrite <- app_assoc in Hd.
  set (more := match ps with [] => IKEV1_PAYLOAD_NONE | _ => IKEV1_PAYLOAD_PROPOSAL end) in *.
  pose proof (prop_len_pos (nodh p) p). pose proof (blen_nonneg (enc_props protoid skipdh ps)).
  assert (Hle : blen pre + (enc_prop_len (nodh p) p + blen (enc_props protoid skipdh ps)) ≤ blen data).
  { rewrite Hd, !blen_app, blen_enc_prop. pose proof (blen_nonneg post). lia. }
  pose proof (blen_nonneg pre). unfold sizeof_sap in *.
  rewrite fmap_cons in Hnd.
  destruct (sa_step fuel data props more p pre (enc_props protoid skipdh ps ++ post)
    (enc_prop_len (nodh p) p + blen (enc_props protoid skipdh ps)) spi0 s) as (s1 & Hat1 & ->);
    try done; try lia.
  { intros q Hq E. apply NoDup_app in Hnd as (_ & Hdis & _). apply (Hdis (prop_key p)).
    - rewrite <- E. by apply list_elem_of_fmap_2.
    - by left. }
  { unfold more. by destruct ps. }
  { unfold more. destruct ps as [|p' ps]; [left; simpl; split; [done|unfold blen; simpl; lia]|right].
    split; [done|]. pose proof (enc_props_pos p' ps) as Hpos. unfold sizeof_sap in Hpos. lia. }
  simpl peer_props. rewrite Z.add_simpl_l. destruct ps as [|p' ps].
  { unfold more. exists s1. split; [done|]. done. }
  unfold more. destruct (IH fuel (props ++ [peer_prop spi0 (nodh p) p])
    (pre ++ enc_prop IKEV1_PAYLOAD_PROPOSAL (nodh p) p) (next_spi spi0 p) s1) as (s2 & E2 & Hat2);
    try done.
  - simpl in *. lia.
  - rewrite fmap_app. simpl. unfold peer_prop. rewrite foldl_key. by rewrite <- app_assoc.
  - by rewrite <- app_assoc.
  - exists s2. split; [done|]. by rewrite <- app_assoc in Hat2.
Qed.
End payload.

(** ** Transforms come back as they were *)

(** The transform a peer builds: its key length is the attribute's. *)
Definition peer_xform (x : iked_transform) : iked_transform :=
  mk_transform (xform_type x) (xform_id x) (xform_length x) (xform_length x) (xform_score x).

(** Every transform is new and scored by those before it. *)
Definition xforms_built (xs : list iked_transform) : Prop :=
  ∀ ys x zs, xs = ys ++ x :: zs →
    xform_score x = xform_new_score (xform_type x) ys ∧
    existsb (xform_is (xform_type x) (xform_id x) (xform_length x)) ys = false.

Lemma wf_built p : prop_wf p → xforms_built (prop_xforms p).
Proof.
  intros [Hs Hu _ _ _] ys x zs E. assert (Hx : prop_xforms p !! length ys = Some x).
  { rewrite E. by rewrite lookup_app_r, Nat.sub_diag by lia. }
  split.
  - rewrite (Hs _ _ Hx), E. by rewrite take_app_length.
  - apply not_true_is_false. intros (y & Hy & His)%existsb_exists.
    apply list_elem_of_In, list_elem_of_lookup in Hy as [j Hj].
    assert (Hj' : prop_xforms p !! j = Some y) by (rewrite E; by apply lookup_app_l_Some).
    pose proof (Hu _ _ _ _ Hj' Hx His). apply lookup_lt_Some in Hj. lia.
Qed.

Lemma filter_split {A} (P : A → Prop) `{∀ x, Decision (P x)} xs ys x zs :
  filter P xs = ys ++ x :: zs → ∃ a c, xs = a ++ x :: c ∧ filter P a = ys ∧ P x.
Proof.
  revert ys. induction xs as [|y xs IH]; intros ys E; [by destruct ys|].
  rewrite filter_cons in E. case_decide as HP.
  - destruct ys as [|y' ys]; simplify_eq/=.
    + by exists [], xs.
    + destruct (IH ys) as (a & c & -> & Ha & Hx); [done|].
      exists (y' :: a), c. split_and!; [done| |done]. by rewrite filter_cons_True, Ha.
  - destruct (IH ys E) as (a & c & -> & Ha & Hx). exists (y :: a), c.
    split_and!; [done| |done]. by rewrite filter_cons_False.
Qed.

Lemma sent_built nodh xs : xforms_built xs → xforms_built (sent_xforms nodh xs).
Proof.
  intros Hb. destruct nodh; [|done]. intros ys x zs E.
  apply filter_split in E as (a & c & Exs & <- & Hx). destruct (Hb _ _ _ Exs) as [Hs He]. split.
  - rewrite Hs. unfold is_dh in Hx. apply Z.eqb_neq in Hx. rewrite !xform_new_score_count.
    do 2 f_equal. unfold xform_count. do 2 f_equal. rewrite list_filter_filter_l; [done|].
    intros y Hy. unfold is_dh. apply Z.eqb_neq. congruence.
  - apply not_true_is_false. intros (y & Hy & His)%existsb_exists.
    apply list_elem_of_In, list_elem_of_filter in Hy as [_ Hy].
    apply not_true_iff_false in He. apply He, existsb_exists. exists y.
    split; [by apply list_elem_of_In|done].
Qed.

Lemma new_score_peer type xs : xform_new_score type (peer_xform <$> xs) = xform_new_score type xs.
Proof.
  unfold xform_new_score. generalize 1 as n. induction xs as [|x xs IH]; intros n; [done|].
  simpl. apply IH.
Qed.

Lemma existsb_peer type id len xs :
  existsb (xform_is type id len) (peer_xform <$> xs) = existsb (xform_is type id len) xs.
Proof. induction xs as [|x xs IH]; [done|]. rewrite fmap_cons. cbn [existsb]. by rewrite IH. Qed.

Lemma add_xform_new p ys x :
  xform_ok x → prop_xforms p = peer_xform <$> ys → Z.of_nat (length ys) < 2 ^ 24 →
  xform_score x = xform_new_score (xform_type x) ys →
  existsb (xform_is (xform_type x) (xform_id x) (xform_length x)) ys = false →
  add_xform p x = set_prop_xforms (peer_xform <$> (ys ++ [x])) p.
Proof.
  intros Hok Hp Hl Hs He. pose proof (xform_ok_type _ Hok). destruct Hok as (Hk & Hid & Hlen).
  unfold add_xform, config_add_transform. rewrite Hk, Hp, existsb_peer, He, new_score_peer, <- Hs.
  cbn [negb snd]. rewrite fmap_app. do 2 f_equal. unfold peer_xform, to_u8, to_u16, to_u32.
  pose proof (xform_new_score_range (xform_type x) ys). simpl. rewrite !Z.mod_small by lia. done.
Qed.

Lemma foldl_built p ys xs :
  Forall xform_ok xs → prop_xforms p = peer_xform <$> ys → xforms_built (ys ++ xs) →
  Z.of_nat (length (ys ++ xs)) < 2 ^ 24 →
  foldl add_xform p xs = set_prop_xforms (peer_xform <$> (ys ++ xs)) p.
Proof.
  revert p ys. induction xs as [|x xs IH]; intros p ys Hok Hp Hb Hl.
  { simpl. rewrite app_nil_r, <- Hp. by destruct p. }
  apply Forall_cons in Hok as [Hx Hxs]. destruct (Hb ys x xs eq_refl) as [Hs He].
  simpl. rewrite length_app in Hl. simpl in Hl.
  rewrite (add_xform_new p ys x) by (done || lia).
  rewrite (IH _ (ys ++ [x])); [|done|done|by rewrite <- app_assoc|].
  - by rewrite <- app_assoc.
  - rewrite !length_app. simpl. lia.
Qed.

(** ** The round trip *)

Section view.
Context (protoid : Z) (skipdh : bool).

(** What a peer that parses the proposals sent gets. *)
Fixpoint peer_view (spi0 : Z) (ps : list iked_proposal) : list iked_proposal :=
  match ps with
  | [] => []
  | p :: ps =>
      set_prop_xforms (peer_xform <$> sent_xforms (prop_skipdh protoid skipdh p) (prop_xforms p))
        (peer_base spi0 p) :: peer_view (next_spi spi0 p) ps
  end.

(** A proposal that can be sent: well formed, and within the fields of the
    payload. *)
Record sendable (p : iked_proposal) : Prop := {
  sn_wf : prop_wf p;
  sn_id : 0 ≤ prop_id p < 256;
  sn_proto : 0 ≤ prop_protoid p < 256;
  sn_spi : spi_size (prop_localspi p) = 0 ∨
    (spi_size (prop_localspi p) = 4 ∧ 0 ≤ spi (prop_localspi p) < 2 ^ 32) ∨
    (spi_size (prop_localspi p) = 8 ∧ 0 ≤ spi (prop_localspi p) < 2 ^ 64);
  sn_count : Z.of_nat (length (prop_xforms p)) < 256 }.

Lemma sent_incl nodh xs x : x ∈ sent_xforms nodh xs → x ∈ xs.
Proof. unfold sent_xforms. destruct nodh; [|done]. by intros [_ ?]%list_elem_of_filter. Qed.

Lemma sent_length nodh xs : (length (sent_xforms nodh xs) ≤ length xs)%nat.
Proof. unfold sent_xforms. destruct nodh; [apply length_filter|done]. Qed.

Lemma enc_xforms_le xs : blen (enc_xforms xs) ≤ 12 * Z.of_nat (length xs).
Proof.
  induction xs as [|x xs IH]; [done|]. cbn [enc_xforms length].
  rewrite blen_app, blen_enc_xform. pose proof (xform_len_range x). lia.
Qed.

Lemma sendable_ok nodh p : sendable p → prop_ok nodh p.
Proof.
  intros [[_ _ Ht Hw _] Hid Hpr Hspi Hn]. pose proof (sent_length nodh (prop_xforms p)) as Hl.
  constructor; try done; try lia.
  - apply Forall_forall. intros x Hx%sent_incl. split_and!; [by apply Ht|apply Hw..]; done.
  - unfold enc_prop_len, sizeof_sap.
    pose proof (enc_xforms_le (sent_xforms nodh (prop_xforms p))).
    assert (blen (enc_spi (prop_localspi p)) ≤ 8)
      by (unfold enc_spi; repeat case_match; unfold blen; simpl; lia). lia.
Qed.

Lemma peer_props_view spi0 ps :
  Forall sendable ps → peer_props protoid skipdh spi0 ps = peer_view spi0 ps.
Proof.
  revert spi0. induction ps as [|p ps IH]; intros spi0 Hs; [done|].
  apply Forall_cons in Hs as [Hp Hps]. simpl. rewrite IH by done. f_equal.
  unfold peer_prop. set (nodh := prop_skipdh protoid skipdh p).
  pose proof (sent_length nodh (prop_xforms p)). pose proof (sn_count _ Hp).
  rewrite (foldl_built _ []); [done|..].
  - apply (po_xforms _ _ (sendable_ok nodh p Hp)).
  - done.
  - apply sent_built, wf_built, Hp.
  - simpl. lia.
Qed.
End view.

(** C15: what [ikev2_add_proposals] writes, [ikev2_pld_sa] reads back: for
    proposals within the limits of the payload, the builder appends bytes [x]
    to the message and reports their length, and a peer that finds [x]
    anywhere in a message obtains exactly the proposals sent: number, protocol,
    SPI and transforms in the order of preference, with the scores the peer
    would compute, and no group where groups are left out. *)
Theorem sa_payload_roundtrip cap c l hdr ipsec_sa_init protoid initiator sendikespi skipdh
    props props' :
  0 < cap < 2 ^ 32 →
  assign_spis hdr ipsec_sa_init protoid initiator sendikespi props 0 = Some props' →
  let sent := sent_props protoid props' in
  sent ≠ [] → Forall sendable sent → NoDup (prop_key <$> sent) →
  (∀ q, q ∈ props → Z.of_nat (length (prop_xforms q)) < 256) →
  blen c + blen (enc_props protoid skipdh sent) ≤ cap →
  ∃ x,
    ikev2_add_proposals hdr ipsec_sa_init protoid initiator sendikespi skipdh props (st cap c l) =
      Ok ((blen x, props'), st cap (c ++ x) l) ∧
    ∀ pre post s,
      blen (pre ++ x ++ post) < 2 ^ 32 → at_sa (pre ++ x ++ post) [] s →
      ∃ s', ikev2_pld_sa (blen pre) (blen x) s = Ok (0, s') ∧
        msg_proposals (ps_msg s') = peer_view protoid skipdh 0 sent.
Proof.
  intros Hcap Ha sent Hne Hs Hnd Hx Hc. exists (enc_props protoid skipdh sent). split.
  { apply add_proposals_run; try done. intros q Hq. specialize (Hx q Hq). lia. }
  intros pre post s Hb Hat. unfold ikev2_pld_sa. erewrite bind_run; [|reflexivity].
  rewrite (as_data _ _ _ Hat).
  assert (Hlen : ∀ ps, Z.of_nat (length ps) ≤ blen (enc_props protoid skipdh ps)).
  { induction ps as [|p ps IH]; [done|]. cbn [enc_props length]. rewrite blen_app, blen_enc_prop.
    pose proof (prop_len_pos (prop_skipdh protoid skipdh p) p) as Hp. unfold sizeof_sap in Hp. lia. }
  destruct (sa_loop_run protoid skipdh (S (Z.to_nat (blen (enc_props protoid skipdh sent))))
    (pre ++ enc_props protoid skipdh sent ++ post) [] sent pre post 0 s) as (s' & E & Hat');
    try done.
  - apply (Forall_impl _ _ _ Hs). intros p Hp. by apply sendable_ok.
  - specialize (Hlen sent). lia.
  - exists s'. split; [done|]. rewrite (as_props _ _ _ Hat'). by apply peer_props_view.
Qed.

(** Two IKE proposals, sent by the initiator without SPIs. *)
Definition sample_props : list iked_proposal :=
  [config_build 1 IKEV2_SAPROTO_IKE
     [(IKEV2_XFORMTYPE_ENCR, 12, 256, 256); (IKEV2_XFORMTYPE_PRF, 5, 0, 0);
      (IKEV2_XFORMTYPE_INTEGR, 12, 0, 0); (IKEV2_XFORMTYPE_DH, 31, 0, 0)];
   config_build 2 IKEV2_SAPROTO_IKE
     [(IKEV2_XFORMTYPE_ENCR, 20, 128, 128); (IKEV2_XFORMTYPE_DH, 14, 0, 0)]].

Lemma sample_sendable : Forall sendable sample_props.
Proof.
  apply Forall_forall. intros p Hp. unfold sample_props in Hp.
  repeat (apply elem_of_cons in Hp as [->|Hp];
    [constructor; [|vm_compute; done|vm_compute; done|by left|vm_compute; done]|]);
    [..|by apply elem_of_nil in Hp];
    (apply build_wf; [|done]); intros * H; repeat (apply elem_of_cons in H as [H|H];
      [simplify_eq; lia|]); by apply elem_of_nil in H.
Qed.

Lemma sa_payload_roundtrip_witness :
  ∃ x,
    ikev2_add_proposals (mk_sahdr 1 2 true) (λ _, None) IKEV2_SAPROTO_IKE true false false
      sample_props (st 8192 [] []) = Ok ((blen x, sample_props), st 8192 x []) ∧
    ∀ pre post s,
      blen (pre ++ x ++ post) < 2 ^ 32 → at_sa (pre ++ x ++ post) [] s →
      ∃ s', ikev2_pld_sa (blen pre) (blen x) s = Ok (0, s') ∧
        msg_proposals (ps_msg s') = peer_view IKEV2_SAPROTO_IKE false 0 sample_props.
Proof.
  apply (sa_payload_roundtrip 8192 [] [] (mk_sahdr 1 2 true) (λ _, None) IKEV2_SAPROTO_IKE true false
    false sample_props sample_props).
  - lia.
  - reflexivity.
  - discriminate.
  - apply sample_sendable.
  - apply (bool_decide_eq_true_1 (NoDup _)). vm_compute. reflexivity.
  - intros q Hq. apply (sn_count _ (proj1 (Forall_forall _ _) sample_sendable q Hq)).
  - vm_compute. discriminate.
Defined.
