(* ===== verification/Queue.v ===== *)
(** * Sending and retransmitting: [ikev2_msg_send], the message queues

    An SA keeps the requests it sent until they are answered and the
    responses it sent until they age out. Each entry of a queue holds the
    fragments of one message. [node] is what the sending side works on: the SA,
    counters, what the network and the allocator will answer, and the datagrams
    handed to the network so far. *)

From S2P Require Import Prelude Types SaState Ibuf Build.

Definition IKED_RETRANSMIT_TIMEOUT : Z := 2.
Definition IKED_RESPONSE_TIMEOUT : Z := 120.
Definition IKED_RETRANSMIT_TRIES : Z := 5.
Definition IKED_IKE_SA_DELETE_TIMEOUT : Z := 120.

(** What [sendtofrom] does: send, or fail with [errno] being [EADDRNOTAVAIL]
    or something else. *)
Inductive net_result := Sent | NotSent (addrnotavail : bool).

(** Counters of [struct iked_stats], 64 bit each. *)
Record msg_stats := mk_msg_stats {
  ms_sent : Z; ms_send_failures : Z; ms_rcvd : Z; ms_rcvd_busy : Z; ms_rcvd_dropped : Z;
  ms_retransmit_request : Z; ms_retransmit_response : Z; ms_retransmit_limit : Z;
  ms_frag_sent : Z; ms_frag_send_failures : Z; ms_negotiate_failures : Z }.
Definition eta_ms (r : msg_stats) : msg_stats :=
  mk_msg_stats (ms_sent r) (ms_send_failures r) (ms_rcvd r) (ms_rcvd_busy r) (ms_rcvd_dropped r)
    (ms_retransmit_request r) (ms_retransmit_response r) (ms_retransmit_limit r)
    (ms_frag_sent r) (ms_frag_send_failures r) (ms_negotiate_failures r).
Definition inc_sent (r : msg_stats) : msg_stats :=
  ltac:(upd eta_ms ms_sent r (to_u64 (ms_sent r + 1))).
Definition inc_send_failures (r : msg_stats) : msg_stats :=
  ltac:(upd eta_ms ms_send_failures r (to_u64 (ms_send_failures r + 1))).
Definition inc_rcvd (r : msg_stats) : msg_stats :=
  ltac:(upd eta_ms ms_rcvd r (to_u64 (ms_rcvd r + 1))).
Definition inc_rcvd_busy (r : msg_stats) : msg_stats :=
  ltac:(upd eta_ms ms_rcvd_busy r (to_u64 (ms_rcvd_busy r + 1))).
Definition inc_rcvd_dropped (r : msg_stats) : msg_stats :=
  ltac:(upd eta_ms ms_rcvd_dropped r (to_u64 (ms_rcvd_dropped r + 1))).
Definition inc_retransmit_request (r : msg_stats) : msg_stats :=
  ltac:(upd eta_ms ms_retransmit_request r (to_u64 (ms_retransmit_request r + 1))).
Definition inc_retransmit_response (r : msg_stats) : msg_stats :=
  ltac:(upd eta_ms ms_retransmit_response r (to_u64 (ms_retransmit_response r + 1))).
Definition inc_retransmit_limit (r : msg_stats) : msg_stats :=
  ltac:(upd eta_ms ms_retransmit_limit r (to_u64 (ms_retransmit_limit r + 1))).
Definition inc_frag_sent (r : msg_stats) : msg_stats :=
  ltac:(upd eta_ms ms_frag_sent r (to_u64 (ms_frag_sent r + 1))).
Definition inc_frag_send_failures (r : msg_stats) : msg_stats :=
  ltac:(upd eta_ms ms_frag_send_failures r (to_u64 (ms_frag_send_failures r + 1))).
Definition inc_negotiate_failures (r : msg_stats) : msg_stats :=
  ltac:(upd eta_ms ms_negotiate_failures r (to_u64 (ms_negotiate_failures r + 1))).

(** [nd_sa] is the SA ([None] once it was freed or when there is none),
    [nd_satimer] its timer; [nd_buf] the message under construction; [nd_rand]
    the bytes [arc4random_buf] will return; [nd_civ] the counter [encr_civ];
    [nd_run] what the cipher context was last run on. *)
Record node := mk_node {
  nd_sa : option iked_sa;
  nd_satimer : option Z;
  nd_stats : sa_stats;
  nd_cnt : msg_stats;
  nd_net : list net_result;
  nd_alloc : list bool;
  nd_out : list bytes;
  nd_buf : ibuf;
  nd_rand : bytes;
  nd_civ : Z;
  nd_run : option (bytes * bytes * bytes * bytes) }.
Definition eta_nd (r : node) : node :=
  mk_node (nd_sa r) (nd_satimer r) (nd_stats r) (nd_cnt r) (nd_net r) (nd_alloc r) (nd_out r)
    (nd_buf r) (nd_rand r) (nd_civ r) (nd_run r).
Definition set_nd_sa (v : option iked_sa) (r : node) : node := ltac:(upd eta_nd nd_sa r v).
Definition set_nd_satimer (v : option Z) (r : node) : node := ltac:(upd eta_nd nd_satimer r v).
Definition set_nd_stats (v : sa_stats) (r : node) : node := ltac:(upd eta_nd nd_stats r v).
Definition set_nd_cnt (v : msg_stats) (r : node) : node := ltac:(upd eta_nd nd_cnt r v).
Definition set_nd_net (v : list net_result) (r : node) : node := ltac:(upd eta_nd nd_net r v).
Definition set_nd_alloc (v : list bool) (r : node) : node := ltac:(upd eta_nd nd_alloc r v).
Definition set_nd_out (v : list bytes) (r : node) : node := ltac:(upd eta_nd nd_out r v).
Definition set_nd_buf (v : ibuf) (r : node) : node := ltac:(upd eta_nd nd_buf r v).
Definition set_nd_rand (v : bytes) (r : node) : node := ltac:(upd eta_nd nd_rand r v).
Definition set_nd_civ (v : Z) (r : node) : node := ltac:(upd eta_nd nd_civ r v).
Definition set_nd_run (v : option (bytes * bytes * bytes * bytes)) (r : node) : node :=
  ltac:(upd eta_nd nd_run r v).

Abbreviation N := (M node).

Definition n_alloc : N bool := λ s,
  match nd_alloc s with [] => Ok (true, s) | a :: l => Ok (a, set_nd_alloc l s) end.
(** An allocation whose result is used without a look at it. *)
Definition n_must : N unit := a ← n_alloc; if negb a then fail Foom else mret tt.
Definition count (f : msg_stats → msg_stats) : N unit :=
  modify (λ s, set_nd_cnt (f (nd_cnt s)) s).
Definition upd_nsa (f : iked_sa → iked_sa) : N unit :=
  modify (λ s, set_nd_sa (f <$> nd_sa s) s).

(** [sendtofrom]; what the network accepted is on record. *)
Definition sendtofrom (data : bytes) : N net_result := λ s,
  match nd_net s with
  | [] => Ok (Sent, set_nd_out (nd_out s ++ [data]) s)
  | Sent :: l => Ok (Sent, set_nd_out (nd_out s ++ [data]) (set_nd_net l s))
  | r :: l => Ok (r, set_nd_net l s)
  end.

(** [ibuf_new(data, len)]; [None] for [data] is the null pointer. *)
Definition n_new (data : option bytes) (len : Z) : N (option ibuf) :=
  a ← n_alloc; lift (ibuf_new a data len).

(** Run a builder on a buffer, and on the message. *)
Definition withbuf {A} (b : ibuf) (m : B A) : N (A * ibuf) := λ s,
  match m (mk_bstate b (nd_alloc s)) with
  | Ok (a, t) => Ok ((a, bs_buf t), set_nd_alloc (bs_alloc t) s)
  | Fault f => Fault f
  end.
Definition onbuf {A} (m : B A) : N A :=
  b ← gets nd_buf;
  r ← withbuf b m;
  _ ← modify (set_nd_buf r.2);
  mret r.1.

(** ** The queues *)

(** [TAILQ_FIRST(&mr->mrt_frags)], which is dereferenced. *)
Definition mrt_first (mr : iked_msg_retransmit) : out queued_msg :=
  match mrt_frags mr with [] => Fault Fnull | m :: _ => Ok m end.

Fixpoint ikev2_msg_lookup (queue : list iked_msg_retransmit) (msgid exchange : Z)
  : out (option nat) :=
  match queue with
  | [] => Ok None
  | mr :: queue =>
      m ← mrt_first mr;
      if (qm_msgid m =? msgid) && (qm_exchange m =? exchange) then Ok (Some O)
      else r ← ikev2_msg_lookup queue msgid exchange; Ok (option_map S r)
  end.

Definition ikev2_msg_dispose (queue : list iked_msg_retransmit) (i : nat)
  : list iked_msg_retransmit := take i queue ++ drop (S i) queue.

Fixpoint ikev2_msg_prevail (queue : list iked_msg_retransmit) (msgid : Z)
  : out (list iked_msg_retransmit) :=
  match queue with
  | [] => Ok []
  | mr :: queue =>
      m ← mrt_first mr;
      r ← ikev2_msg_prevail queue msgid;
      Ok (if qm_msgid m <? msgid then r else mr :: r)
  end.

Definition mrt_add (m : queued_msg) (mr : iked_msg_retransmit) : iked_msg_retransmit :=
  mk_mrt (mrt_frags mr ++ [m]) (mrt_tries mr) (mrt_timer mr).

(** The queue with the message, [None] when memory runs out. *)
Definition ikev2_msg_enqueue (queue : list iked_msg_retransmit) (m : queued_msg) (timeout : Z)
  : N (option (list iked_msg_retransmit)) :=
  o ← lift (ikev2_msg_lookup queue (qm_msgid m) (qm_exchange m));
  match o with
  | Some i => mret (Some (alter (mrt_add m) i queue))
  | None =>
      a ← n_alloc;
      mret (if (a : bool) then Some (queue ++ [mk_mrt [m] 0 (Some timeout)]) else None)
  end.

(** ** [ikev2_msg_send] *)

(** [ikev2_msg_copy] of the message being sent: a copy in a static buffer. *)
Definition ikev2_msg_copy (data : bytes) : N (option bytes) :=
  a ← n_alloc;
  if negb a then mret None
  else
    a ← n_alloc;
    match ibuf_static a with
    | None => mret None
    | Some buf => r ← withbuf buf (b_add data); mret (if r.1 =? 0 then Some data else None)
    end.

(** The four zero bytes that mark IKE on the NAT traversal port. *)
Definition natt_marker : bytes := zeros 4.

(** The buffer handed to the network, [None] when memory runs out. *)
Definition send_natt (isnatt : bool) (buf : ibuf) : N (option ibuf) :=
  if negb isnatt then mret (Some buf)
  else
    new ← n_new (Some natt_marker) (blen natt_marker);
    match new with
    | None => mret None
    | Some new =>
        data ← lift (ibuf_data buf (ibuf_size buf));
        r ← withbuf new (b_add data);
        mret (if r.1 =? -1 then None else Some r.2)
    end.

(** Hand the data to the network and count; an SA whose address is gone
    starts to close. *)
Definition msg_transmit (sa : option iked_sa) (data : bytes) : N unit :=
  r ← sendtofrom data;
  match r with
  | Sent => count inc_sent
  | NotSent unavail =>
      _ ← match sa with
          | Some sa =>
              if unavail then
                modify (λ s, let '(sa, st) := sa_state_set IKEV2_STATE_CLOSING sa (nd_stats s) in
                  set_nd_satimer (Some IKED_IKE_SA_DELETE_TIMEOUT)
                    (set_nd_sa (Some sa) (set_nd_stats st s)))
              else mret tt
          | None => mret tt
          end;
      count inc_send_failures
  end.

(** Keep a copy for retransmission. *)
Definition msg_keep (hdr : ike_header) (msgid : Z) (response : bool) (data : bytes) : N Z :=
  osa ← gets nd_sa;
  match osa with
  | None => mret 0
  | Some sa =>
      m ← ikev2_msg_copy data;
      match m with
      | None => mret (-1)
      | Some data =>
          let m := mk_queued_msg msgid (ike_exchange hdr) response data in
          if has_bit (ike_flags hdr) IKEV2_FLAG_RESPONSE then
            q ← ikev2_msg_enqueue (sa_responses sa) m IKED_RESPONSE_TIMEOUT;
            match q with
            | None => mret (-1)
            | Some q => _ ← upd_nsa (set_sa_responses q); mret 0
            end
          else
            q ← ikev2_msg_enqueue (sa_requests sa) m IKED_RETRANSMIT_TIMEOUT;
            match q with
            | None => mret (-1)
            | Some q => _ ← upd_nsa (set_sa_requests q); mret 0
            end
      end
  end.

(** [msg_natt] of a message being sent is never set. *)
Definition ikev2_msg_send (msgid : Z) (response : bool) : N Z :=
  buf ← gets nd_buf;
  match ibuf_seek buf 0 sizeof_ike_header with
  | None => mret (-1)
  | Some p =>
      h ← lift (load (ib_buf buf) p sizeof_ike_header);
      sa ← gets nd_sa;
      b ← send_natt (match sa with Some sa => sa_natt sa | None => false end) buf;
      match b with
      | None => mret (-1)
      | Some buf =>
          _ ← modify (set_nd_buf buf);
          data ← lift (ibuf_data buf (ibuf_size buf));
          _ ← msg_transmit sa data;
          msg_keep (dec_ike_header h) msgid response data
      end
  end.

(** ** Timeouts *)

(** [ikev2_msg_response_timeout] on the entry [i] of the responses. *)
Definition ikev2_msg_response_timeout (i : nat) : N unit :=
  upd_nsa (λ sa, set_sa_responses (ikev2_msg_dispose (sa_responses sa) i) sa).

(** Send the fragments of an entry again; [false] at the first failure. *)
Fixpoint resend (frags : list queued_msg) : N bool :=
  match frags with
  | [] => mret true
  | m :: frags =>
      r ← sendtofrom (qm_data m);
      match r with Sent => resend frags | NotSent _ => mret false end
  end.

(** [ikev2_msg_retransmit_timeout] on the entry [i] of the requests; the SA
    is freed when a message cannot be sent or was sent often enough. *)
Definition ikev2_msg_retransmit_timeout (i : nat) : N unit :=
  osa ← gets nd_sa;
  match osa with
  | None => fail Fnull
  | Some sa =>
      match sa_requests sa !! i with
      | None => fail Fnull
      | Some mr =>
          _ ← lift (mrt_first mr);
          if mrt_tries mr <? IKED_RETRANSMIT_TRIES then
            ok ← resend (mrt_frags mr);
            if negb ok then _ ← modify (set_nd_sa None); count inc_send_failures
            else
              _ ← upd_nsa (set_sa_requests (<[i := mk_mrt (mrt_frags mr) (mrt_tries mr + 1)
                    (Some (IKED_RETRANSMIT_TIMEOUT * Z.shiftl 2 (mrt_tries mr)))]> (sa_requests sa)));
              count inc_retransmit_request
          else
            _ ← count inc_retransmit_limit;
            modify (set_nd_sa None)
      end
  end.

(** ** Invariant *)

(** An entry holds the fragments of one message, at least one of them, was
    tried at most as often as allowed, and its timer runs. *)
Record mrt_ok (mr : iked_msg_retransmit) : Prop := {
  mo_first : ∃ m ms, mrt_frags mr = m :: ms ∧
    Forall (λ m', qm_msgid m' = qm_msgid m ∧ qm_exchange m' = qm_exchange m) ms;
  mo_tries : 0 ≤ mrt_tries mr ≤ IKED_RETRANSMIT_TRIES;
  mo_timer : is_Some (mrt_timer mr) }.

(** The message an entry is about. *)
Definition mrt_key (mr : iked_msg_retransmit) : option (Z * Z) :=
  (λ m, (qm_msgid m, qm_exchange m)) <$> head (mrt_frags mr).

(** No two entries are about the same message. *)
Record queue_wf (q : list iked_msg_retransmit) : Prop := {
  qw_entries : Forall mrt_ok q;
  qw_keys : NoDup (mrt_key <$> q) }.

Lemma mrt_key_first mr m ms :
  mrt_frags mr = m :: ms → mrt_key mr = Some (qm_msgid m, qm_exchange m).
Proof. unfold mrt_key. by intros ->. Qed.

Lemma lookup_spec q msgid exchange :
  Forall mrt_ok q →
  ∃ o, ikev2_msg_lookup q msgid exchange = Ok o ∧
    match o with
    | Some i => ∃ mr, q !! i = Some mr ∧ mrt_key mr = Some (msgid, exchange)
    | None => Some (msgid, exchange) ∉ (mrt_key <$> q)
    end.
Proof.
  induction 1 as [|mr q [(m & ms & Hf & Hms) _ _] Hq IH]; simpl.
  { eexists. split; [done|]. apply not_elem_of_nil. }
  unfold mrt_first. rewrite Hf. simpl. destruct IH as (o & -> & IH).
  pose proof (mrt_key_first _ _ _ Hf) as Hk.
  destruct ((qm_msgid m =? msgid) && (qm_exchange m =? exchange)) eqn:E; bool_facts.
  - eexists. split; [done|]. exists mr. split; [done|]. rewrite Hk. by subst.
  - eexists. split; [done|]. destruct o as [i|]; simpl; [done|].
    rewrite not_elem_of_cons. split; [|done]. rewrite Hk. intros [= -> ->].
    by rewrite !Z.eqb_refl in E.
Qed.

Lemma mrt_key_some mr : mrt_ok mr → is_Some (mrt_key mr).
Proof. intros [(m & ms & Hf & _) _ _]. rewrite (mrt_key_first _ _ _ Hf). done. Qed.

Lemma mrt_key_add m mr : mrt_ok mr → mrt_key (mrt_add m mr) = mrt_key mr.
Proof. intros [(m0 & ms & Hf & _) _ _]. unfold mrt_key, mrt_add. simpl. by rewrite Hf. Qed.

Lemma mrt_add_ok m mr :
  mrt_ok mr → mrt_key mr = Some (qm_msgid m, qm_exchange m) → mrt_ok (mrt_add m mr).
Proof.
  intros [(m0 & ms & Hf & Hms) Ht Htm] Hk. rewrite (mrt_key_first _ _ _ Hf) in Hk.
  simplify_eq/=. constructor; [|done..]. exists m0, (ms ++ [m]). unfold mrt_add. simpl.
  rewrite Hf. split; [done|]. apply Forall_app. split; [done|]. by apply Forall_singleton.
Qed.

Lemma alter_insert {A} (f : A → A) i (l : list A) x :
  l !! i = Some x → alter f i l = <[i := f x]> l.
Proof. revert i. induction l; intros [|i] H; simplify_eq/=; [done|]. f_equal. by apply IHl. Qed.

Lemma queue_wf_update q i mr mr' :
  queue_wf q → q !! i = Some mr → mrt_ok mr' → mrt_key mr' = mrt_key mr → queue_wf (<[i := mr']> q).
Proof.
  intros [He Hk] Hi Hok Hkey. constructor.
  - by apply Forall_insert.
  - rewrite list_fmap_insert, Hkey. rewrite list_insert_id; [done|]. by rewrite list_lookup_fmap, Hi.
Qed.

Lemma queue_wf_sublist q q' : sublist q' q → queue_wf q → queue_wf q'.
Proof.
  intros Hs [He Hk]. constructor.
  - rewrite Forall_forall in *. intros mr Hmr. apply He. by eapply elem_of_submseteq, sublist_submseteq.
  - eapply sublist_NoDup; [done|]. by apply fmap_sublist.
Qed.

(** The entry about [msgid] and [exchange], if any. *)
Definition queue_frags (q : list iked_msg_retransmit) (msgid exchange : Z) : list queued_msg :=
  match ikev2_msg_lookup q msgid exchange with
  | Ok (Some i) => default [] (mrt_frags <$> q !! i)
  | _ => []
  end.

Lemma key_unique q i j mr mr' :
  queue_wf q → q !! i = Some mr → q !! j = Some mr' → mrt_key mr = mrt_key mr' → i = j.
Proof.
  intros [_ Hk] Hi Hj E. apply (NoDup_lookup _ _ _ (mrt_key mr) Hk).
  - by rewrite list_lookup_fmap, Hi.
  - by rewrite list_lookup_fmap, Hj, E.
Qed.

Lemma queue_frags_at q i mr msgid exchange :
  queue_wf q → q !! i = Some mr → mrt_key mr = Some (msgid, exchange) →
  queue_frags q msgid exchange = mrt_frags mr.
Proof.
  intros Hq Hi Hk. unfold queue_frags. destruct (lookup_spec q msgid exchange) as (o & -> & Ho);
    [apply Hq|]. destruct o as [j|].
  - destruct Ho as (mr' & Hj & Hk'). rewrite (key_unique q i j mr mr') in Hi by congruence.
    by rewrite Hi.
  - exfalso. apply Ho. rewrite <- Hk. apply list_elem_of_fmap. exists mr. split; [done|].
    by eapply list_elem_of_lookup_2.
Qed.

Lemma queue_frags_none q msgid exchange :
  Forall mrt_ok q → Some (msgid, exchange) ∉ (mrt_key <$> q) → queue_frags q msgid exchange = [].
Proof.
  intros Hq Hn. unfold queue_frags. destruct (lookup_spec q msgid exchange Hq) as (o & -> & Ho).
  destruct o as [i|]; [|done]. destruct Ho as (mr & Hi & Hk). exfalso. apply Hn. rewrite <- Hk.
  apply list_elem_of_fmap. exists mr. split; [done|]. by eapply list_elem_of_lookup_2.
Qed.

Lemma queue_snoc q m timeout :
  queue_wf q → Some (qm_msgid m, qm_exchange m) ∉ (mrt_key <$> q) →
  let q' := q ++ [mk_mrt [m] 0 (Some timeout)] in
  queue_wf q' ∧ queue_frags q' (qm_msgid m) (qm_exchange m) = [m].
Proof.
  intros [He Hk] Hn q'.
  assert (Hq' : queue_wf q').
  { constructor.
    - apply Forall_app. split; [done|]. apply Forall_singleton. constructor; [by exists m, []|done|done].
    - unfold q'. rewrite fmap_app. apply NoDup_app. split_and!; [done| |apply NoDup_singleton].
      intros k Hin [= ->]%list_elem_of_singleton. done. }
  split; [done|].
  assert (Hl : q' !! length q = Some (mk_mrt [m] 0 (Some timeout)))
    by (unfold q'; by rewrite lookup_app_r, Nat.sub_diag by done).
  by rewrite (queue_frags_at _ _ _ _ _ Hq' Hl).
Qed.

(** Queueing a message appends it to the fragments of its entry, which is
    new if there was none, and leaves the other entries alone. *)
Definition enqueued (q q' : list iked_msg_retransmit) (m : queued_msg) : Prop :=
  queue_wf q' ∧
  queue_frags q' (qm_msgid m) (qm_exchange m) = queue_frags q (qm_msgid m) (qm_exchange m) ++ [m] ∧
  (∀ mr, mr ∈ q → mrt_key mr ≠ Some (qm_msgid m, qm_exchange m) → mr ∈ q').

Lemma alter_enqueued q m i mr :
  queue_wf q → q !! i = Some mr → mrt_key mr = Some (qm_msgid m, qm_exchange m) →
  enqueued q (alter (mrt_add m) i q) m.
Proof.
  intros Hq Hi Hkey. pose proof Hq as [He Hk].
  assert (Hok : mrt_ok mr) by (by eapply Forall_lookup_1 in He).
  rewrite (alter_insert _ i _ mr) by done.
  assert (Hq' : queue_wf (<[i:=mrt_add m mr]> q)).
  { eapply queue_wf_update; [done|done|by apply mrt_add_ok|by apply mrt_key_add]. }
  split_and!; [done|..].
  - rewrite (queue_frags_at q i mr) by done.
    rewrite (queue_frags_at _ i (mrt_add m mr)); [done|done|..].
    + apply list_lookup_insert_eq. by eapply lookup_lt_Some.
    + by rewrite mrt_key_add.
  - intros mr' [j Hj]%list_elem_of_lookup_1 Hn. apply (list_elem_of_lookup_2 _ j).
    rewrite list_lookup_insert_ne; [done|]. intros ->. congruence.
Qed.

Lemma enqueue_spec q m timeout s :
  queue_wf q →
  ∃ o l, ikev2_msg_enqueue q m timeout s = Ok (o, set_nd_alloc l s) ∧
    match o with Some q' => enqueued q q' m | None => nd_alloc s ≠ [] end ∧
    (nd_alloc s = [] → l = []).
Proof.
  intros Hq. unfold ikev2_msg_enqueue. pose proof Hq as [He Hk].
  destruct (lookup_spec q (qm_msgid m) (qm_exchange m) He) as (o & E & Ho). rewrite E.
  destruct o as [i|].
  - destruct Ho as (mr & Hi & Hkey). exists (Some (alter (mrt_add m) i q)), (nd_alloc s).
    split_and!; [by destruct s|by eapply alter_enqueued|done].
  - destruct (queue_snoc q m timeout Hq Ho) as [Hq' Hf].
    assert (enqueued q (q ++ [mk_mrt [m] 0 (Some timeout)]) m).
    { split_and!; [done|by rewrite Hf, queue_frags_none|]. intros mr Hmr _.
      apply elem_of_app. by left. }
    unfold n_alloc, mbind, M_bind, lift. simpl. destruct s as [????? [|[] l]]; simpl.
    + by eexists (Some _), [].
    + by eexists (Some _), l.
    + by eexists None, l.
Qed.

Definition mrt_msgid (mr : iked_msg_retransmit) : Z := default 0 (fst <$> mrt_key mr).

Lemma prevail_spec q msgid :
  Forall mrt_ok q →
  ikev2_msg_prevail q msgid = Ok (filter (λ mr, msgid ≤ mrt_msgid mr) q).
Proof.
  induction 1 as [|mr q [(m & ms & Hf & _) _ _] _ IH]; [done|]. simpl. unfold mrt_first.
  rewrite Hf. simpl. rewrite IH. simpl. rewrite filter_cons.
  assert (E : mrt_msgid mr = qm_msgid m) by (unfold mrt_msgid; by rewrite (mrt_key_first _ _ _ Hf)).
  case_decide; destruct (Z.ltb_spec (qm_msgid m) msgid); try done; lia.
Qed.

Lemma dispose_wf q i : queue_wf q → queue_wf (ikev2_msg_dispose q i).
Proof.
  intros Hq. eapply queue_wf_sublist; [|done]. unfold ikev2_msg_dispose.
  rewrite <- (take_drop i q) at 3. apply sublist_app; [done|].
  rewrite <- Nat.add_1_r, <- drop_drop. apply sublist_drop.
Qed.

(** ** Sending *)

Lemma set_nd_alloc_id s : set_nd_alloc (nd_alloc s) s = s.
Proof. by destruct s. Qed.

Lemma n_alloc_run s :
  ∃ a l, n_alloc s = Ok (a, set_nd_alloc l s) ∧ (nd_alloc s = [] → a = true ∧ l = []).
Proof.
  unfold n_alloc. destruct (nd_alloc s) as [|a l] eqn:E; [exists true, []|by exists a, l].
  split; [|done]. by rewrite <- E, set_nd_alloc_id.
Qed.

Lemma withbuf_add b c data s :
  holds b c → blen data < size_max →
  ∃ r b' l, withbuf b (b_add data) s = Ok ((r, b'), set_nd_alloc l s) ∧
    (r = 0 ∧ holds b' (c ++ data) ∨ r = -1 ∧ b' = b) ∧
    (nd_alloc s = [] → 0 < blen data → blen c + blen data ≤ IKED_MSGBUF_MAX → r = 0 ∧ l = []).
Proof.
  intros Hb Hd. destruct (holds_add data b c (nd_alloc s) Hb Hd) as (r & b' & l & E & Hr & Hl).
  exists r, b', l. split_and!; [|done|done]. unfold withbuf. by rewrite E.
Qed.

(** What goes over the wire. *)
Definition wire (sa : iked_sa) (data : bytes) : bytes :=
  if sa_natt sa then natt_marker ++ data else data.

Lemma blen_wire sa data : blen data ≤ blen (wire sa data) ≤ blen data + 4.
Proof. unfold wire. destruct (sa_natt sa); rewrite ?blen_app; change (blen natt_marker) with 4; lia. Qed.

Lemma n_new_run c s :
  blen c ≤ IKED_MSGBUF_MAX →
  ∃ o l, n_new (Some c) (blen c) s = Ok (o, set_nd_alloc l s) ∧
    (∀ b, o = Some b → holds b c) ∧ (nd_alloc s = [] → is_Some o ∧ l = []).
Proof.
  intros Hc. unfold n_new. destruct (n_alloc_run s) as (a & l & E & Ha).
  rewrite (bind_run _ _ _ _ _ E). destruct a.
  - destruct (holds_new c Hc) as (b & Hn & Hb). exists (Some b), l. unfold lift. rewrite Hn.
    split_and!; [done|by intros ? [= <-]|]. intros Hs. by destruct (Ha Hs) as [_ ->].
  - exists None, l. split_and!; [|done|intros Hs; by destruct (Ha Hs)]. unfold lift, ibuf_new, ibuf_dynamic.
    by destruct (_ || _).
Qed.

Lemma send_natt_spec sa b data s :
  holds b data → 0 < blen data →
  ∃ o l, send_natt (sa_natt sa) b s = Ok (o, set_nd_alloc l s) ∧
    (∀ b', o = Some b' → holds b' (wire sa data)) ∧
    (nd_alloc s = [] → blen (wire sa data) ≤ IKED_MSGBUF_MAX → is_Some o ∧ l = []).
Proof.
  intros Hb Hp. unfold send_natt, wire. destruct (sa_natt sa); cbn [negb].
  2:{ exists (Some b), (nd_alloc s). rewrite set_nd_alloc_id. split_and!; [done| |done].
      by intros ? [= <-]. }
  destruct (n_new_run natt_marker s) as (o & l & E & Ho & Ha); [done|].
  rewrite (bind_run _ _ _ _ _ E). pose proof (holds_max _ _ Hb) as Hmax. destruct o as [new|].
  2:{ exists None, l. split_and!; [done..|]. intros Hs. by destruct (Ha Hs) as [[??] _]. }
  unfold lift. rewrite (holds_data _ _ Hb). erewrite bind_run; [|reflexivity].
  destruct (withbuf_add new natt_marker data (set_nd_alloc l s)) as (r & b' & l' & E' & Hr & Hl);
    [by apply Ho|unfold IKED_MSGBUF_MAX, size_max in *; lia|].
  rewrite (bind_run _ _ _ _ _ E'). exists (if r =? -1 then None else Some b'), l'.
  split_and!; [done|..].
  - intros b'' H. by destruct Hr as [[-> ?]|[-> ->]]; simplify_eq/=.
  - intros Hs. rewrite blen_app. intros Hle. destruct (Ha Hs) as [_ ->].
    by destruct (Hl eq_refl Hp Hle) as [-> ->].
Qed.

Lemma msg_copy_spec data s :
  blen data ≤ IKED_MSGBUF_MAX → 0 < blen data →
  ∃ o l, ikev2_msg_copy data s = Ok (o, set_nd_alloc l s) ∧ (∀ d, o = Some d → d = data) ∧
    (nd_alloc s = [] → is_Some o ∧ l = []).
Proof.
  intros Hd Hp. unfold ikev2_msg_copy. destruct (n_alloc_run s) as (a & l & E & Ha).
  rewrite (bind_run _ _ _ _ _ E). destruct a; cbn [negb].
  2:{ exists None, l. split_and!; [done..|]. intros Hs. by destruct (Ha Hs). }
  destruct (n_alloc_run (set_nd_alloc l s)) as (a & l' & E' & Ha').
  rewrite (bind_run _ _ _ _ _ E'). destruct a; simpl.
  2:{ exists None, l'. split_and!; [done..|]. intros Hs. destruct (Ha Hs) as [_ ->]. by destruct Ha'. }
  destruct (withbuf_add (static_buf IKED_MSGBUF_MAX []) [] data
    (set_nd_alloc l' (set_nd_alloc l s))) as (r & b' & l'' & E'' & Hr & Hl);
    [by apply holds_static|unfold IKED_MSGBUF_MAX, size_max in *; lia|].
  erewrite bind_run; [|exact E'']. exists (if r =? 0 then Some data else None), l''.
  split_and!; [done|by intros d; destruct (r =? 0); intros [= <-]|].
  intros Hs. destruct (Ha Hs) as [_ ->]. destruct (Ha' eq_refl) as [_ ->].
  by destruct (Hl eq_refl Hp Hd) as [-> ->].
Qed.

(** The queues after a message was sent on an SA: a response goes to the
    responses, a request to the requests, and nothing else changes. *)
Definition queued (hdr : ike_header) (m : queued_msg) (r : Z) (sa sa' : iked_sa) : Prop :=
  let kept q q' := if r =? 0 then enqueued q q' m else q' = q in
  if has_bit (ike_flags hdr) IKEV2_FLAG_RESPONSE
  then sa_requests sa' = sa_requests sa ∧ kept (sa_responses sa) (sa_responses sa')
  else sa_responses sa' = sa_responses sa ∧ kept (sa_requests sa) (sa_requests sa').

(** An SA but for its queues. *)
Definition sa_rest (sa : iked_sa) : iked_sa := set_sa_requests [] (set_sa_responses [] sa).

Lemma msg_keep_spec hdr msgid response data sa s :
  nd_sa s = Some sa → queue_wf (sa_requests sa) → queue_wf (sa_responses sa) →
  blen data ≤ IKED_MSGBUF_MAX → 0 < blen data →
  wp never (msg_keep hdr msgid response data) (λ r s', nd_out s' = nd_out s ∧
    nd_net s' = nd_net s ∧
    (∃ sa', nd_sa s' = Some sa' ∧ sa_rest sa' = sa_rest sa ∧
      queued hdr (mk_queued_msg msgid (ike_exchange hdr) response data) r sa sa') ∧
    (nd_alloc s = [] → r = 0 ∧ nd_alloc s' = [])) s.
Proof.
  intros Hs Hq Hp Hd Hpos. unfold msg_keep. apply wp_bind, wp_gets. rewrite Hs.
  apply wp_bind. destruct (msg_copy_spec data s Hd Hpos) as (o & l & E & Ho & Ha).
  unfold wp at 1. rewrite E. destruct o as [d|].
  2:{ apply wp_ret. split_and!; [done|done| |intros H; by destruct (Ha H) as [[??] _]].
      exists sa. split_and!; [done..|]. unfold queued. by destruct (has_bit _ _). }
  rewrite (Ho d eq_refl). set (m := mk_queued_msg _ _ _ _). unfold queued.
  destruct (has_bit _ _).
  - destruct (enqueue_spec (sa_responses sa) m IKED_RESPONSE_TIMEOUT (set_nd_alloc l s) Hp)
      as (q & l' & E' & Hq' & Hl'). apply wp_bind. unfold wp at 1. rewrite E'. destruct q as [q|].
    + apply wp_bind, wp_modify, wp_ret.
      split_and!; [done|done| |intros H; split; [done|]; simpl; by apply Hl', Ha].
      exists (set_sa_responses q sa). simpl. by rewrite Hs.
    + apply wp_ret. split_and!; [done|done|by exists sa|]. intros H. by destruct (Ha H) as [_ ->].
  - destruct (enqueue_spec (sa_requests sa) m IKED_RETRANSMIT_TIMEOUT (set_nd_alloc l s) Hq)
      as (q & l' & E' & Hq' & Hl'). apply wp_bind. unfold wp at 1. rewrite E'. destruct q as [q|].
    + apply wp_bind, wp_modify, wp_ret.
      split_and!; [done|done| |intros H; split; [done|]; simpl; by apply Hl', Ha].
      exists (set_sa_requests q sa). simpl. by rewrite Hs.
    + apply wp_ret. split_and!; [done|done|by exists sa|]. intros H. by destruct (Ha H) as [_ ->].
Qed.

(** The answer of the network to the next datagram. *)
Definition next_net (s : node) : net_result := default Sent (head (nd_net s)).

Lemma transmit_spec sa data s :
  nd_sa s = Some sa →
  ∃ s' sa', msg_transmit (Some sa) data s = Ok (tt, s') ∧ nd_sa s' = Some sa' ∧
    nd_alloc s' = nd_alloc s ∧ sa_requests sa' = sa_requests sa ∧ sa_responses sa' = sa_responses sa ∧
    nd_out s' = nd_out s ++ (if next_net s is Sent then [data] else []) ∧
    nd_net s' = tail (nd_net s) ∧ (next_net s ≠ NotSent true → sa' = sa).
Proof.
  intros Hs. unfold msg_transmit, sendtofrom, next_net, mbind, M_bind. simpl.
  destruct (nd_net s) as [|[|u] l] eqn:Hn; simpl.
  - eexists _, sa. by split_and!.
  - eexists _, sa. by split_and!.
  - rewrite app_nil_r. destruct u; [|eexists _, sa; by split_and!].
    simpl. destruct (sa_state_set IKEV2_STATE_CLOSING sa (nd_stats s)) as [sa' st] eqn:E.
    assert (H : sa' = (sa_state_set IKEV2_STATE_CLOSING sa (nd_stats s)).1) by (by rewrite E).
    eexists _, sa'. split_and!; try done; rewrite H; unfold sa_state_set; simpl; by destruct (_ && _).
Qed.

Lemma msg_send_run s sa data msgid response :
  nd_sa s = Some sa → queue_wf (sa_requests sa) → queue_wf (sa_responses sa) →
  holds (nd_buf s) data → sizeof_ike_header ≤ blen data →
  let hdr := dec_ike_header (sub_bytes 0 sizeof_ike_header data) in
  ∃ r s' sa', ikev2_msg_send msgid response s = Ok (r, s') ∧ nd_sa s' = Some sa' ∧
    (nd_out s' = nd_out s ++ (if next_net s is Sent then [wire sa data] else []) ∨
     r = -1 ∧ nd_out s' = nd_out s) ∧
    queued hdr (mk_queued_msg msgid (ike_exchange hdr) response (wire sa data)) r sa sa' ∧
    (next_net s ≠ NotSent true → sa_state sa' = sa_state sa) ∧
    (nd_alloc s = [] → blen (wire sa data) ≤ IKED_MSGBUF_MAX →
       r = 0 ∧ nd_alloc s' = [] ∧ nd_net s' = tail (nd_net s) ∧
       (next_net s ≠ NotSent true → sa_rest sa' = sa_rest sa)).
Proof.
  intros Hs Hq Hp Hb Hlen hdr. unfold sizeof_ike_header in Hlen.
  pose proof (holds_max _ _ Hb) as Hmax. unfold IKED_MSGBUF_MAX in Hmax.
  unfold ikev2_msg_send. erewrite bind_run; [|reflexivity].
  rewrite seek_spec; [|apply Hb|unfold size_max; lia|unfold size_max, sizeof_ike_header; lia].
  rewrite (ho_content _ _ Hb), (ho_rpos _ _ Hb).
  rewrite (proj2 (Z.leb_le _ _)) by (unfold sizeof_ike_header; lia). change (0 + 0) with 0. cbv beta iota.
  assert (El : load (ib_buf (nd_buf s)) 0 sizeof_ike_header = Ok (sub_bytes 0 sizeof_ike_header data)).
  { pose proof (data_spec (nd_buf s) sizeof_ike_header (ho_wf _ _ Hb)) as H.
    rewrite (ho_content _ _ Hb) in H. unfold ibuf_data in H. rewrite (ho_rpos _ _ Hb) in H.
    rewrite H by (unfold sizeof_ike_header; lia). done. }
  unfold lift at 1. rewrite El. erewrite bind_run; [|reflexivity]. fold hdr.
  erewrite bind_run; [|reflexivity]. rewrite Hs.
  destruct (send_natt_spec sa (nd_buf s) data s Hb ltac:(lia)) as (o & l & E & Ho & Ha).
  rewrite (bind_run _ _ _ _ _ E). destruct o as [b|].
  2:{ exists (-1), (set_nd_alloc l s), sa. split_and!; [done..|by right| |done|].
      - unfold queued. by destruct (has_bit _ _).
      - intros Hn Hw. by destruct (Ha Hn Hw) as [[??] _]. }
  pose proof (Ho b eq_refl) as Hb'. pose proof (blen_wire sa data) as Hw.
  pose proof (holds_max _ _ Hb') as Hmax'. erewrite bind_run; [|reflexivity].
  rewrite (holds_data _ _ Hb'). erewrite bind_run; [|reflexivity].
  set (s1 := set_nd_buf b (set_nd_alloc l s)).
  destruct (transmit_spec sa (wire sa data) s1 Hs) as (s2 & sa2 & E2 & Hs2 & Ha2 & Hq2 & Hp2 & Ho2 & Hn2 & Hc2).
  rewrite (bind_run _ _ _ _ _ E2).
  pose proof (msg_keep_spec hdr msgid response (wire sa data) sa2 s2 Hs2) as H.
  rewrite Hq2, Hp2 in H. specialize (H Hq Hp Hmax' ltac:(lia)).
  apply wp_total in H as (r & s3 & E3 & Ho3 & Hn3 & (sa3 & Hs3 & Hst & Hqd) & Ha3).
  exists r, s3, sa3. rewrite E3, Ho3, Ho2. split_and!; try done.
  - by left.
  - unfold queued in *. by rewrite Hq2, Hp2 in Hqd.
  - intros Hn. rewrite <- (Hc2 Hn). exact (f_equal sa_state Hst).
  - intros Hn Hle. destruct Ha3 as [Hr Ha3]; [rewrite Ha2; by destruct (Ha Hn Hle) as [_ ->]|].
    split_and!; [done|done|by rewrite Hn3, Hn2|]. intros Hx. by rewrite Hst, (Hc2 Hx).
Qed.


(** ** Retransmission *)

Lemma resend_run frags s :
  nd_net s = [] →
  resend frags s = Ok (true, set_nd_out (nd_out s ++ (qm_data <$> frags)) s).
Proof.
  revert s. induction frags as [|m frags IH]; intros s Hn; simpl.
  - rewrite app_nil_r. by destruct s.
  - unfold sendtofrom, mbind, M_bind. rewrite Hn, IH by done. simpl. by rewrite <- app_assoc.
Qed.

Definition retried (mr : iked_msg_retransmit) : iked_msg_retransmit :=
  mk_mrt (mrt_frags mr) (mrt_tries mr + 1) (Some (2 ^ (mrt_tries mr + 2))).

Lemma timeout_retry s sa i mr :
  nd_sa s = Some sa → sa_requests sa !! i = Some mr → mrt_ok mr → nd_net s = [] →
  mrt_tries mr < IKED_RETRANSMIT_TRIES →
  ∃ s', ikev2_msg_retransmit_timeout i s = Ok (tt, s') ∧ nd_net s' = [] ∧
    nd_sa s' = Some (set_sa_requests (<[i := retried mr]> (sa_requests sa)) sa) ∧
    nd_out s' = nd_out s ++ (qm_data <$> mrt_frags mr).
Proof.
  intros Hs Hi [(m & ms & Hf & _) Ht _] Hn Hlt. unfold ikev2_msg_retransmit_timeout.
  erewrite bind_run; [|reflexivity]. rewrite Hs, Hi. unfold lift, mrt_first. rewrite Hf.
  erewrite bind_run; [|reflexivity]. rewrite (proj2 (Z.ltb_lt _ _)) by done.
  erewrite bind_run; [|by apply resend_run]. cbn [negb]. eexists. split; [reflexivity|].
  split_and!; [done| |done]. cbn. rewrite Hs. simpl. do 4 f_equal. unfold retried. rewrite Hf.
  do 2 f_equal. rewrite Z.shiftl_mul_pow2 by lia. unfold IKED_RETRANSMIT_TIMEOUT.
  rewrite Z.pow_add_r by lia. lia.
Qed.

Lemma timeout_limit s sa i mr :
  nd_sa s = Some sa → sa_requests sa !! i = Some mr → mrt_ok mr →
  IKED_RETRANSMIT_TRIES ≤ mrt_tries mr →
  ∃ s', ikev2_msg_retransmit_timeout i s = Ok (tt, s') ∧ nd_sa s' = None ∧ nd_out s' = nd_out s.
Proof.
  intros Hs Hi [(m & ms & Hf & _) Ht _] Hge. unfold ikev2_msg_retransmit_timeout.
  erewrite bind_run; [|reflexivity]. rewrite Hs, Hi. unfold lift, mrt_first. rewrite Hf.
  erewrite bind_run; [|reflexivity]. rewrite (proj2 (Z.ltb_ge _ _)) by done. by eexists.
Qed.

(** The timer of a request fires [n] times in a row. *)
Fixpoint timeouts (n : nat) (i : nat) : N unit :=
  match n with
  | O => mret tt
  | S n => _ ← ikev2_msg_retransmit_timeout i; timeouts n i
  end.

(** The entry after [n] retries. *)
Definition retries (n : nat) (mr : iked_msg_retransmit) : iked_msg_retransmit := Nat.iter n retried mr.

Lemma retries_frags n mr : mrt_frags (retries n mr) = mrt_frags mr.
Proof. by induction n. Qed.
Lemma retries_tries n mr : mrt_tries (retries n mr) = mrt_tries mr + Z.of_nat n.
Proof.
  induction n as [|n IH]; [by rewrite Z.add_0_r|].
  change (retries (S n) mr) with (retried (retries n mr)). simpl. lia.
Qed.

Lemma timeouts_snoc n i s s1 :
  timeouts n i s = Ok (tt, s1) → timeouts (S n) i s = ikev2_msg_retransmit_timeout i s1.
Proof.
  revert s. induction n as [|n IH]; intros s H.
  - injection H as <-. simpl. unfold mbind, M_bind. by destruct (ikev2_msg_retransmit_timeout i s) as [[[] ?]|].
  - cbn [timeouts] in H |- *. unfold mbind, M_bind in H |- *.
    destruct (ikev2_msg_retransmit_timeout i s) as [[[] s']|]; [|done]. by apply IH.
Qed.

Lemma timeouts_run n s sa i mr :
  nd_sa s = Some sa → sa_requests sa !! i = Some mr → mrt_ok mr → nd_net s = [] →
  mrt_tries mr + Z.of_nat n ≤ IKED_RETRANSMIT_TRIES →
  ∃ s', timeouts n i s = Ok (tt, s') ∧ nd_net s' = [] ∧
    nd_sa s' = Some (set_sa_requests (<[i := retries n mr]> (sa_requests sa)) sa) ∧
    nd_out s' = nd_out s ++ concat (replicate n (qm_data <$> mrt_frags mr)).
Proof.
  intros Hs Hi Hok Hn. pose proof (lookup_lt_Some _ _ _ Hi) as Hlt. induction n as [|n IH]; intros Ht.
  - exists s. rewrite app_nil_r. split_and!; [done..| |done].
    unfold retries. simpl. rewrite list_insert_id by done. rewrite Hs. by destruct sa.
  - destruct IH as (s1 & E1 & Hn1 & Hs1 & Ho1); [lia|].
    rewrite (timeouts_snoc _ _ _ _ E1).
    destruct (timeout_retry s1 _ i (retries n mr) Hs1) as (s2 & E2 & Hn2 & Hs2 & Ho2); try done.
    + simpl. by apply list_lookup_insert_eq.
    + destruct Hok as [Hf Htr Htm]. constructor.
      * by rewrite retries_frags.
      * rewrite retries_tries. lia.
      * by destruct n.
    + rewrite retries_tries. lia.
    + exists s2. split_and!; [done|done| |].
      * rewrite Hs2. simpl. by rewrite list_insert_insert_eq.
      * rewrite Ho2, Ho1, retries_frags, <- app_assoc. f_equal.
        rewrite replicate_S_end, concat_app. simpl. by rewrite app_nil_r.
Qed.

(** C30: an unanswered request is sent again at most [IKED_RETRANSMIT_TRIES]
    times: each time its timer fires, the very fragments that were sent go out
    again in order and the timer is set to twice the last delay (4, 8, ... 64
    seconds); when the timer fires once more the SA is given up, and nothing is
    sent. *)
Theorem retransmit_backoff s sa i mr n :
  nd_sa s = Some sa → sa_requests sa !! i = Some mr → mrt_ok mr → mrt_tries mr = 0 →
  nd_net s = [] → (n ≤ 5)%nat →
  (∃ s', timeouts n i s = Ok (tt, s') ∧
    nd_out s' = nd_out s ++ concat (replicate n (qm_data <$> mrt_frags mr)) ∧
    nd_sa s' = Some (set_sa_requests (<[i := mk_mrt (mrt_frags mr) (Z.of_nat n)
      (if (n =? 0)%nat then mrt_timer mr else Some (2 ^ (Z.of_nat n + 1)))]> (sa_requests sa)) sa)) ∧
  ∃ s', timeouts 6 i s = Ok (tt, s') ∧ nd_sa s' = None ∧
    nd_out s' = nd_out s ++ concat (replicate 5 (qm_data <$> mrt_frags mr)).
Proof.
  intros Hs Hi Hok Ht Hn Hle. pose proof (lookup_lt_Some _ _ _ Hi) as Hlt. split.
  - destruct (timeouts_run n s sa i mr) as (s' & E & _ & Hs' & Ho);
      [done..|unfold IKED_RETRANSMIT_TRIES; lia|].
    exists s'. split_and!; [done|done|]. rewrite Hs'. do 4 f_equal.
    destruct n as [|n]; [by destruct mr; simplify_eq/=|].
    change (retries (S n) mr) with (retried (retries n mr)). unfold retried.
    rewrite retries_frags, retries_tries, Ht. cbn [Nat.eqb]. do 2 f_equal; [lia|]. f_equal. lia.
  - destruct (timeouts_run 5 s sa i mr) as (s' & E & _ & Hs' & Ho);
      [done..|unfold IKED_RETRANSMIT_TRIES; lia|].
    rewrite (timeouts_snoc _ _ _ _ E), <- Ho.
    apply (timeout_limit s' _ i (retries 5 mr) Hs').
    + simpl. by apply list_lookup_insert_eq.
    + destruct Hok as [Hf Htr Htm]. constructor; [by rewrite retries_frags| |done].
      rewrite retries_tries, Ht. unfold IKED_RETRANSMIT_TRIES. lia.
    + rewrite retries_tries, Ht. unfold IKED_RETRANSMIT_TRIES. lia.
Qed.

(** ** Examples *)

(** A request of two fragments waiting for its answer. *)
Definition demo_request : iked_msg_retransmit :=
  mk_mrt [mk_queued_msg 3 35 false [x01; x02]; mk_queued_msg 3 35 false [x03]] 0 (Some 2).

Definition demo_node (sa : iked_sa) (data : bytes) : node :=
  mk_node (Some sa) None demo_stats (mk_msg_stats 0 0 0 0 0 0 0 0 0 0 0) [] [] []
    (static_buf IKED_MSGBUF_MAX data) [] 0 None.

Lemma demo_request_ok : mrt_ok demo_request.
Proof.
  constructor; [|done|done]. eexists _, _. split; [done|]. by apply Forall_singleton.
Qed.

Lemma queue_wf_nil : queue_wf [].
Proof. constructor; [done|apply NoDup_nil_2]. Qed.

(** An IKE header of an INFORMATIONAL request with message id 3. *)
Definition demo_header : bytes :=
  be_encode 8 1 ++ be_encode 8 2 ++ [bZ 46; bZ 32; bZ 37; bZ 8] ++ be_encode 4 3 ++ be_encode 4 28.


Lemma retransmit_backoff_witness :
  let s := demo_node (set_sa_requests [demo_request] demo_sa) [] in
  (∃ s', timeouts 2 0 s = Ok (tt, s') ∧
    nd_out s' = [[x01; x02]; [x03]; [x01; x02]; [x03]] ∧
    nd_sa s' = Some (set_sa_requests [mk_mrt (mrt_frags demo_request) 2 (Some 8)] demo_sa)) ∧
  ∃ s', timeouts 6 0 s = Ok (tt, s') ∧ nd_sa s' = None ∧
    nd_out s' = concat (replicate 5 [[x01; x02]; [x03]]).
Proof.
  apply (retransmit_backoff (demo_node (set_sa_requests [demo_request] demo_sa) [])
    (set_sa_requests [demo_request] demo_sa) 0 demo_request 2).
  - reflexivity.
  - reflexivity.
  - apply demo_request_ok.
  - reflexivity.
  - reflexivity.
  - lia.
Defined.
