(* ===== verification/Encrypt.v ===== *)
(** * Protecting messages: [ikev2_msg_encrypt], [ikev2_msg_integr]

    The sending side of [ikev2_msg.c]: a message is built in a static buffer,
    its payloads are padded and encrypted in a second one, and the checksum or
    tag goes into the room left at the end. The cipher is OpenSSL; it is an
    interface here ([Encrypter]); the counter of initialisation vectors and the
    random bytes are in the state of [Queue.v]. A failed allocation inside [crypto.c] that the
    callers do not look at is the fault [Foom]. *)

From S2P Require Import Prelude Types SaState Proposals Ibuf Build Parse ParseSk Queue.

(** Encryption as [cipher_init_encrypt], [cipher_aad], [cipher_update] and
    [cipher_final] do it, and the tag [cipher_gettag] returns afterwards;
    [None] when OpenSSL reports an error. *)
Class Encrypter := {
  ext_encrypt : iked_cipher → bytes → bytes → bytes → bytes → option bytes;
  ext_tag : iked_cipher → bytes → bytes → bytes → bytes → Z → option bytes }.

(** A cipher without padding keeps the length, a tag has the length asked
    for, and decryption inverts encryption: under the tag for the
    authenticated ciphers (those with a salt), without one for the others. *)
Class EncrypterLaws `{!External, !Encrypter} := {
  ext_encrypt_length c key iv aad pt ct :
    ext_encrypt c key iv aad pt = Some ct → blen ct = blen pt;
  ext_tag_length c key iv aad pt n tag : ext_tag c key iv aad pt n = Some tag → blen tag = n;
  ext_decrypt_aead c key iv aad pt ct n tag :
    0 < encr_saltlength c → ext_encrypt c key iv aad pt = Some ct →
    ext_tag c key iv aad pt n = Some tag → ext_decrypt c key iv aad tag ct = Some pt;
  ext_decrypt_plain c key iv pt ct :
    encr_saltlength c = 0 → ext_encrypt c key iv [] pt = Some ct →
    ext_decrypt c key iv [] [] ct = Some pt }.

(** [arc4random_buf]; an exhausted stream goes on with zeros. *)
Definition n_random (n : Z) : N bytes := λ s,
  let r := take (Z.to_nat n) (nd_rand s) in
  Ok (r ++ zeros (n - blen r), set_nd_rand (drop (Z.to_nat n) (nd_rand s)) s).

(** ** Encryption *)

(** [cipher_setiv(encr, NULL, 0)]: a counter for the authenticated ciphers
    (in the byte order of the host), random bytes for the others. *)
Definition cipher_setiv (c : iked_cipher) : N (option bytes) :=
  if (encr_id c =? IKEV2_XFORMENCR_AES_GCM_16) || (encr_id c =? IKEV2_XFORMENCR_AES_GCM_12) then
    if negb (encr_ivlength c =? 8) then mret None
    else
      a ← n_alloc;
      civ ← gets nd_civ;
      _ ← modify (set_nd_civ (to_u64 (civ + 1)));
      mret (if negb a then None else Some (rev (be_encode 8 civ)))
  else
    a ← n_alloc;
    if negb a then mret None else iv ← n_random (encr_ivlength c); mret (Some iv).

(** [cipher_init_encrypt]: the nonce of the ciphers with a salt is a buffer of
    its own; a missing vector is not noticed. [false] is the result -1. *)
Definition cipher_init_encrypt (c : iked_cipher) (iv : option bytes) : N bool :=
  if 0 <? encr_saltlength c then
    nonce ← n_alloc;
    if negb nonce then mret false
    else match iv with None => fail Foom | Some _ => n_alloc end
  else match iv with None => fail Foom | Some _ => mret true end.

(** Padding and its length, at the end of the payloads. *)
Definition encrypt_pad (src : ibuf) (pad : Z) : N (Z * ibuf) :=
  r ← (if negb (pad =? 0) then
         rnd ← n_random pad;
         withbuf src (o ← b_reserve pad;
           match o with None => mret (-1) | Some p => _ ← b_put p rnd; mret 0 end)
       else mret (0, src));
  if negb (r.1 =? 0) then mret r else withbuf r.2 (b_add [bZ pad]).

Section encrypt.
Context `{!External, !Encrypter}.

(** From [cipher_setiv] on: the vector, the ciphertext, and room for the
    checksum. *)
Definition encrypt_out (c : iked_cipher) (h : iked_hash) (key aad : bytes) (src : ibuf)
    (encrlen : Z) : N (option ibuf) :=
  _ ← n_must;
  iv ← cipher_setiv c;
  ok ← cipher_init_encrypt c iv;
  match (if negb ok then None else iv) with
  | None => mret None
  | Some iv =>
      dst ← n_new (Some iv) (blen iv);
      match dst with
      | None => mret None
      | Some dst =>
          out ← n_new None (cipher_outlength c encrlen);
          match out with
          | None => mret None
          | Some _ =>
              let aad := if hash_isaead h then aad else [] in
              pt ← lift (ibuf_data src encrlen);
              match ext_encrypt c key iv aad pt with
              | None => mret None
              | Some ct =>
                  _ ← modify (set_nd_run (Some (key, iv, aad, pt)));
                  r ← (if blen ct =? 0 then mret (0, dst) else withbuf dst (b_add ct));
                  if negb (r.1 =? 0) then mret None
                  else
                    r ← withbuf r.2 (o ← b_reserve (hash_length h);
                      match o with
                      | None => mret (-1)
                      | Some p => _ ← b_put p (zeros (hash_length h)); mret 0
                      end);
                    mret (if r.1 =? 0 then Some r.2 else None)
              end
          end
      end
  end.

(** [aad] is the message so far. *)
Definition ikev2_msg_encrypt (osa : option iked_sa) (src aad : ibuf) : N (option ibuf) :=
  match osa with
  | None => mret None
  | Some sa =>
      match sa_encr sa, sa_integr sa with
      | Some c, Some h =>
          let encr := if sh_initiator (sa_hdr sa) then sa_key_iencr sa else sa_key_rencr sa in
          let len := ibuf_size src in
          let encrlen := roundup (len + 1) (cipher_length c) in
          let pad := to_u8 (encrlen - (len + 1)) in
          r ← encrypt_pad src pad;
          if negb (r.1 =? 0) then mret None
          else match encr with
          | None => fail Fnull
          | Some key =>
              aad ← lift (ibuf_data aad (ibuf_size aad));
              encrypt_out c h key aad r.2 encrlen
          end
      | _, _ => mret None
      end
  end.

(** The sizes, before encryption, so that the headers are authenticated as
    they are sent. [pld] and [hdr] point into the message. *)
Definition ikev2_msg_encrypt_prepare (osa : option iked_sa) (pld : Z) (e : ibuf) (hdr : Z)
    (firstpayload : Z) (fragmentation : bool) : N Z :=
  match osa with
  | None => mret (-1)
  | Some sa =>
      match sa_encr sa, sa_integr sa with
      | Some c, Some h =>
          let len := ibuf_size e in
          let encrlen := roundup (len + 1) (cipher_length c) in
          let outlen := cipher_outlength c encrlen in
          let pldlen := (cipher_ivlength c + outlen + hash_length h)%sz in
          r ← onbuf (ikev2_next_payload pld
                (pldlen + (if fragmentation then sizeof_frag_payload else 0))%sz firstpayload);
          if r =? -1 then mret (-1)
          else
            buf ← gets nd_buf;
            onbuf (ikev2_set_header hdr (ibuf_size buf + pldlen - sizeof_ike_header)%sz)
      | _, _ => mret (-1)
      end
  end.

(** ** The checksum *)

(** What is copied to the end of the message: the truncated digest of the
    rest, or the tag; [None] is [goto done]. *)
Definition msg_integr_value (sa : iked_sa) (c : iked_cipher) (h : iked_hash) (src : ibuf)
  : N (option bytes) :=
  if negb (hash_isaead h) then
    match (if sh_initiator (sa_hdr sa) then sa_key_iauth sa else sa_key_rauth sa) with
    | None => fail Fnull
    | Some key =>
        _ ← n_must;
        data ← lift (ibuf_data src (ibuf_size src - hash_length h)%sz);
        let tmp := ext_mac h key data in
        let tmplen := if negb (hash_trunc h =? 0) && (hash_trunc h <? blen tmp)
                      then hash_trunc h else blen tmp in
        mret (if tmplen =? hash_length h then Some tmp else None)
    end
  else
    run ← gets nd_run;
    mret (match run with
          | None => None
          | Some (key, iv, aad, pt) => ext_tag c key iv aad pt (hash_keylength h)
          end).

Definition ikev2_msg_integr (osa : option iked_sa) : N Z :=
  match osa with
  | None => mret (-1)
  | Some sa =>
      match sa_encr sa, sa_integr sa with
      | Some c, Some h =>
          src ← gets nd_buf;
          let integrlen := hash_length h in
          tmp ← n_new None (hash_keylength h);
          match tmp with
          | None => mret (-1)
          | Some _ =>
              o ← msg_integr_value sa c h src;
              match o with
              | None => mret (-1)
              | Some tmp =>
                  match ibuf_seek src (ibuf_size src - integrlen)%sz integrlen with
                  | None => mret (-1)
                  | Some ptr =>
                      v ← lift (rd tmp 0 integrlen);
                      _ ← onbuf (b_put ptr v);
                      mret 0
                  end
              end
          end
      | _, _ => mret (-1)
      end
  end.
End encrypt.

(** ** What encryption produces *)

(** Only the random bytes, the counter and the cipher context change. *)
Definition crypto_only (s s' : node) : Prop :=
  ∃ r c u, s' = set_nd_rand r (set_nd_civ c (set_nd_run u s)).

Lemma crypto_only_refl s : crypto_only s s.
Proof. exists (nd_rand s), (nd_civ s), (nd_run s). by destruct s. Qed.
Lemma crypto_only_trans s1 s2 s3 : crypto_only s1 s2 → crypto_only s2 s3 → crypto_only s1 s3.
Proof. intros (r & c & u & ->) (r' & c' & u' & ->). by exists r', c', u'. Qed.
#[global] Instance crypto_only_preorder : PreOrder crypto_only.
Proof. split; [exact crypto_only_refl|exact crypto_only_trans]. Qed.

Lemma set_nd_alloc_nil s : nd_alloc s = [] → set_nd_alloc [] s = s.
Proof. intros H. by rewrite <- H, set_nd_alloc_id. Qed.

(** The lengths the algorithms work with, and a cipher that accepts its
    key. *)
Record suite_ok (c : iked_cipher) (h : iked_hash) : Prop := {
  su_block : 1 ≤ encr_length c ≤ 64;
  su_iv : 1 ≤ encr_ivlength c ≤ 64;
  su_hash : 1 ≤ hash_length h ≤ hash_length_f h;
  su_digest : hash_length_f h ≤ 64;
  su_aead : hash_isaead h = true → hash_trunc h = 0;
  su_salt : hash_isaead h = (0 <? encr_saltlength c);
  su_salt_pos : 0 ≤ encr_saltlength c;
  su_gcm : encr_id c = IKEV2_XFORMENCR_AES_GCM_16 ∨ encr_id c = IKEV2_XFORMENCR_AES_GCM_12 →
    encr_ivlength c = 8 }.

Definition cipher_works `{!Encrypter} (c : iked_cipher) (h : iked_hash) (key : bytes) : Prop :=
  ∀ iv aad pt, blen iv = encr_ivlength c → blen pt mod encr_length c = 0 →
    is_Some (ext_encrypt c key iv aad pt) ∧ is_Some (ext_tag c key iv aad pt (hash_keylength h)).

Lemma random_run n s :
  0 ≤ n → ∃ rnd s', n_random n s = Ok (rnd, s') ∧ blen rnd = n ∧ crypto_only s s'.
Proof.
  intros Hn. eexists _, _. split; [reflexivity|]. split.
  - unfold zeros, blen. rewrite !length_app, length_replicate, length_take. lia.
  - exists (drop (Z.to_nat n) (nd_rand s)), (nd_civ s), (nd_run s). by destruct s.
Qed.

Lemma n_alloc_plenty s : nd_alloc s = [] → n_alloc s = Ok (true, s).
Proof. intros Ha. unfold n_alloc. by rewrite Ha. Qed.

Lemma n_must_run s : nd_alloc s = [] → n_must s = Ok (tt, s).
Proof. intros Ha. unfold n_must. by erewrite bind_run; [|by apply n_alloc_plenty]. Qed.

Lemma init_encrypt_run c iv s : nd_alloc s = [] → cipher_init_encrypt c (Some iv) s = Ok (true, s).
Proof.
  intros Ha. unfold cipher_init_encrypt. destruct (0 <? encr_saltlength c); [|done].
  erewrite bind_run; [|by apply n_alloc_plenty]. by apply n_alloc_plenty.
Qed.

Lemma setiv_run c h s :
  suite_ok c h → nd_alloc s = [] →
  ∃ iv s', cipher_setiv c s = Ok (Some iv, s') ∧ blen iv = encr_ivlength c ∧ crypto_only s s'.
Proof.
  intros Hs Ha. unfold cipher_setiv. destruct (_ || _) eqn:E.
  - rewrite (su_gcm _ _ Hs) by (apply orb_true_iff in E as [?|?]; bool_facts; auto).
    change (negb (8 =? 8)) with false. eexists _, _. split.
    { erewrite bind_run; [|by apply n_alloc_plenty]. reflexivity. }
    split.
    + unfold blen. by rewrite length_rev, length_be_encode.
    + exists (nd_rand s), (to_u64 (nd_civ s + 1)), (nd_run s). by destruct s.
  - destruct (random_run (encr_ivlength c) s) as (iv & s' & E' & Hl & Hc); [pose proof (su_iv _ _ Hs); lia|].
    exists iv, s'. split; [|done]. erewrite bind_run; [|by apply n_alloc_plenty].
    cbn [negb]. by rewrite (bind_run _ _ _ _ _ E').
Qed.

(** Reserving room and filling it is adding. *)
Lemma reserve_put_add n data b s :
  blen data = n →
  withbuf b (o ← b_reserve n;
    match o with None => mret (-1) | Some p => _ ← b_put p data; mret 0 end) s =
  withbuf b (b_add data) s.
Proof. by intros <-. Qed.

Lemma withbuf_fits b c data s :
  holds b c → nd_alloc s = [] → 0 < blen data → blen c + blen data ≤ IKED_MSGBUF_MAX →
  ∃ b', withbuf b (b_add data) s = Ok ((0, b'), s) ∧ holds b' (c ++ data).
Proof.
  intros Hb Ha Hp Hm. pose proof (blen_nonneg c).
  destruct (withbuf_add b c data s Hb) as (r & b' & l & E & Hr & Hl);
    [unfold IKED_MSGBUF_MAX, size_max in *; lia|].
  destruct (Hl Ha Hp Hm) as [-> ->]. exists b'. rewrite E, set_nd_alloc_nil by done.
  split; [done|]. by destruct Hr as [[_ ?]|[? _]].
Qed.

Lemma new_run c s :
  blen c ≤ IKED_MSGBUF_MAX → nd_alloc s = [] →
  ∃ b, n_new (Some c) (blen c) s = Ok (Some b, s) ∧ holds b c.
Proof.
  intros Hc Ha. destruct (n_new_run c s Hc) as (o & l & E & Ho & Hl).
  destruct (Hl Ha) as [[b ->] ->]. exists b. rewrite E, set_nd_alloc_nil by done. auto.
Qed.

Lemma new_zeros_run n s :
  0 ≤ n ≤ IKED_MSGBUF_MAX → nd_alloc s = [] →
  ∃ b, n_new None n s = Ok (Some b, s) ∧ holds b (zeros n).
Proof.
  intros Hn Ha. destruct (new_run (zeros n) s) as (b & E & Hb); [rewrite blen_zeros; lia|done|].
  exists b. split; [|exact Hb]. rewrite <- E, blen_zeros by lia. unfold n_new, mbind, M_bind.
  destruct (n_alloc s) as [[a s']|]; [|done]. unfold lift. by rewrite new_zeros_eq by lia.
Qed.

Lemma pad_run src pt pad s :
  holds src pt → nd_alloc s = [] → 0 ≤ pad < 256 → blen pt + pad + 1 ≤ IKED_MSGBUF_MAX →
  ∃ rnd b s', encrypt_pad src pad s = Ok ((0, b), s') ∧ blen rnd = pad ∧
    holds b (pt ++ rnd ++ [bZ pad]) ∧ crypto_only s s'.
Proof.
  intros Hb Ha Hp Hm. unfold encrypt_pad. pose proof (blen_nonneg pt).
  destruct (Z.eqb_spec pad 0) as [->|Hne]; cbn [negb].
  - erewrite bind_run; [|reflexivity]. simpl.
    destruct (withbuf_fits src pt [bZ 0] s Hb Ha) as (b & E & Hh); [done|by change (blen [_]) with 1; lia|].
    exists [], b, s. by rewrite E.
  - destruct (random_run pad s) as (rnd & s1 & E1 & Hl & Hc); [lia|].
    assert (Ha1 : nd_alloc s1 = []) by (destruct Hc as (?&?&?&->); done).
    destruct (withbuf_fits src pt rnd s1 Hb Ha1) as (b1 & E2 & Hh1); [lia|lia|].
    erewrite bind_run; [|rewrite (bind_run _ _ _ _ _ E1), reserve_put_add by done; exact E2].
    simpl. destruct (withbuf_fits b1 (pt ++ rnd) [bZ pad] s1 Hh1 Ha1) as (b2 & E3 & Hh2);
      [done|rewrite blen_app; change (blen [_]) with 1; lia|].
    exists rnd, b2, s1. rewrite E3. rewrite <- app_assoc in Hh2. done.
Qed.

(** The static buffer of a message under construction. It is opaque: its
    unused part is large. *)
Definition msgbuf (m : bytes) : ibuf := static_buf IKED_MSGBUF_MAX m.

Lemma holds_msgbuf m : blen m ≤ IKED_MSGBUF_MAX → holds (msgbuf m) m.
Proof. apply holds_static. Qed.
Lemma msgbuf_new : ibuf_static true = Some (msgbuf []).
Proof. reflexivity. Qed.
Lemma msgbuf_st m l : mk_bstate (msgbuf m) l = st IKED_MSGBUF_MAX m l.
Proof. done. Qed.
#[global] Opaque msgbuf.

(** A builder run on the message in its static buffer. *)
Definition msg_is (s : node) (m : bytes) : Prop :=
  nd_buf s = msgbuf m ∧ nd_alloc s = [].
Abbreviation set_msg m := (set_nd_buf (msgbuf m)).

Lemma onbuf_run {A} (k : B A) a m m' s :
  msg_is s m → k (st IKED_MSGBUF_MAX m []) = Ok (a, st IKED_MSGBUF_MAX m' []) →
  onbuf k s = Ok (a, set_msg m' s).
Proof.
  intros [Hb Ha] Hk. unfold onbuf, withbuf, gets, modify, mbind, M_bind. rewrite Hb, Ha.
  rewrite msgbuf_st, Hk, <- msgbuf_st. simpl. rewrite set_nd_alloc_nil by done. done.
Qed.

Lemma msg_is_set m s : nd_alloc s = [] → msg_is (set_msg m s) m.
Proof. done. Qed.

Lemma msg_crypto s s' m : msg_is s m → crypto_only s s' → msg_is s' m.
Proof. by intros ? (?&?&?&->). Qed.

Lemma roundup_spec x y : 0 < y → x ≤ roundup x y < x + y ∧ roundup x y mod y = 0.
Proof.
  intros Hy. unfold roundup. pose proof (Z.div_mod (x + (y - 1)) y) as Hd.
  pose proof (Z.mod_pos_bound (x + (y - 1)) y Hy). split; [nia|]. apply Z.mod_mul. lia.
Qed.

(** The padding of [len] bytes of payloads. *)
Definition padding (c : iked_cipher) (len : Z) : Z := roundup (len + 1) (cipher_length c) - (len + 1).

(** The plaintext, vector and ciphertext of a protected payload. *)
Record sealed `{!Encrypter} (c : iked_cipher) (h : iked_hash) (key aad pt : bytes)
    (iv rnd ct : bytes) : Prop := {
  se_iv : blen iv = encr_ivlength c;
  se_rnd : blen rnd = padding c (blen pt);
  se_ct : ext_encrypt c key iv (if hash_isaead h then aad else [])
    (pt ++ rnd ++ [bZ (padding c (blen pt))]) = Some ct }.

Section run.
Context `{!External, !Encrypter, !EncrypterLaws} (c : iked_cipher) (h : iked_hash) (key : bytes).
Hypothesis Hsuite : suite_ok c h.
Hypothesis Hworks : cipher_works c h key.

Lemma encrypt_out_run aad src pt s :
  holds src pt → nd_alloc s = [] → blen pt mod encr_length c = 0 → 0 < blen pt →
  encr_ivlength c + blen pt + hash_length h ≤ IKED_MSGBUF_MAX →
  ∃ iv ct b s', encrypt_out c h key aad src (blen pt) s = Ok (Some b, s') ∧
    blen iv = encr_ivlength c ∧
    ext_encrypt c key iv (if hash_isaead h then aad else []) pt = Some ct ∧
    nd_run s' = Some (key, iv, if hash_isaead h then aad else [], pt) ∧
    holds b (iv ++ ct ++ zeros (hash_length h)) ∧ crypto_only s s'.
Proof.
  intros Hb Ha Hmod Hpos Hmax. pose proof Hsuite as [Hblk Hiv Hh _ _ _ _ _]. unfold encrypt_out.
  destruct (setiv_run c h s Hsuite Ha) as (iv & s1 & E1 & Hl & Hc).
  assert (Ha1 : nd_alloc s1 = []) by (destruct Hc as (?&?&?&->); done).
  erewrite bind_run; [|by apply n_must_run]. rewrite (bind_run _ _ _ _ _ E1).
  erewrite bind_run; [|by apply init_encrypt_run]. cbn [negb].
  destruct (new_run iv s1) as (b1 & E2 & Hh1); [lia|done|]. rewrite (bind_run _ _ _ _ _ E2).
  unfold cipher_outlength. rewrite roundup_mult by (lia || done).
  destruct (new_zeros_run (blen pt) s1) as (b2 & E3 & _); [lia|done|]. rewrite (bind_run _ _ _ _ _ E3).
  rewrite <- (holds_size _ _ Hb). unfold lift at 1. rewrite (holds_data _ _ Hb).
  erewrite bind_run; [|reflexivity]. cbv zeta. set (a := if hash_isaead h then aad else []).
  destruct (Hworks iv a pt Hl Hmod) as [[ct Hct] _]. rewrite Hct.
  pose proof (ext_encrypt_length _ _ _ _ _ _ Hct) as Hlct. erewrite bind_run; [|reflexivity].
  rewrite (proj2 (Z.eqb_neq _ _)) by lia. set (s2 := set_nd_run _ s1).
  assert (Hc2 : crypto_only s s2).
  { etrans; [exact Hc|]. exists (nd_rand s1), (nd_civ s1), (Some (key, iv, a, pt)). by destruct s1. }
  assert (Ha2 : nd_alloc s2 = []) by done.
  destruct (withbuf_fits b1 iv ct s2 Hh1 Ha2) as (b3 & E4 & Hh3); [lia|lia|].
  rewrite (bind_run _ _ _ _ _ E4). cbn [fst snd Z.eqb negb].
  destruct (withbuf_fits b3 (iv ++ ct) (zeros (hash_length h)) s2 Hh3 Ha2) as (b4 & E5 & Hh4);
    [rewrite blen_zeros; lia|rewrite blen_app, blen_zeros; lia|].
  erewrite bind_run; [|rewrite reserve_put_add by (apply blen_zeros; lia); exact E5].
  exists iv, ct, b4, s2. rewrite <- app_assoc in Hh4. split_and!; done.
Qed.

Lemma encrypt_run sa src aad pt a s :
  sa_encr sa = Some c → sa_integr sa = Some h →
  (if sh_initiator (sa_hdr sa) then sa_key_iencr sa else sa_key_rencr sa) = Some key →
  holds src pt → holds aad a → nd_alloc s = [] →
  encr_ivlength c + roundup (blen pt + 1) (encr_length c) + hash_length h ≤ IKED_MSGBUF_MAX →
  ∃ iv rnd ct b s', ikev2_msg_encrypt (Some sa) src aad s = Ok (Some b, s') ∧
    sealed c h key a pt iv rnd ct ∧
    nd_run s' = Some (key, iv, if hash_isaead h then a else [],
      pt ++ rnd ++ [bZ (padding c (blen pt))]) ∧
    holds b (iv ++ ct ++ zeros (hash_length h)) ∧ crypto_only s s'.
Proof.
  intros Hc Hh Hkey Hb Haad Ha Hmax. pose proof Hsuite as [Hblk Hiv Hhl _ _ _ _ _].
  destruct (roundup_spec (blen pt + 1) (encr_length c)) as [Hr Hm]; [lia|].
  unfold ikev2_msg_encrypt. rewrite Hc, Hh, Hkey, (holds_size _ _ Hb). cbv zeta.
  fold (padding c (blen pt)). assert (Hpad : 0 ≤ padding c (blen pt) < 256)
    by (unfold padding, cipher_length; lia).
  unfold to_u8. rewrite Z.mod_small by lia.
  destruct (pad_run src pt (padding c (blen pt)) s Hb Ha Hpad) as (rnd & b1 & s1 & E1 & Hl & Hh1 & Hc1);
    [unfold padding, cipher_length; lia|].
  rewrite (bind_run _ _ _ _ _ E1). cbn [fst snd Z.eqb negb].
  unfold lift. rewrite (holds_data _ _ Haad). erewrite bind_run; [|reflexivity].
  set (p := pt ++ rnd ++ [bZ (padding c (blen pt))]) in *.
  assert (Hp : blen p = roundup (blen pt + 1) (encr_length c)).
  { unfold p. rewrite !blen_app, Hl. change (blen [_]) with 1. unfold padding, cipher_length. lia. }
  unfold cipher_length. rewrite <- Hp.
  assert (Ha1 : nd_alloc s1 = []) by (destruct Hc1 as (?&?&?&->); done).
  destruct (encrypt_out_run a b1 p s1 Hh1 Ha1) as (iv & ct & b & s2 & E2 & Hliv & Hct & Hrun & Hb2 & Hc2);
    [by rewrite Hp|pose proof (blen_nonneg pt); lia|lia|].
  exists iv, rnd, ct, b, s2. simpl. rewrite E2. split_and!; try done. by etrans.
Qed.
(** The checksum of the message [m], or the tag of the last encryption. *)
Definition checksum (ikey : bytes) (m iv aad pt v : bytes) : Prop :=
  blen v = hash_length h ∧
  if hash_isaead h then ext_tag c key iv aad pt (hash_keylength h) = Some v
  else v = sub_bytes 0 (hash_length h) (ext_mac h ikey m).

Context `{!ExternalLaws}.

Lemma mac_tmplen ikey m :
  let tmp := ext_mac h ikey m in
  blen tmp = hash_length_f h ∧
  (if negb (hash_trunc h =? 0) && (hash_trunc h <? blen tmp) then hash_trunc h else blen tmp) =
    hash_length h.
Proof.
  pose proof Hsuite as [_ _ Hl _ _ _ _ _]. pose proof (ext_mac_length h ikey m ltac:(lia)) as E.
  simpl. rewrite E. split; [done|]. unfold hash_length in *.
  destruct (Z.eqb_spec (hash_trunc h) 0); simpl in *; [done|].
  destruct (Z.ltb_spec (hash_trunc h) (hash_length_f h)); lia.
Qed.

Lemma integr_value_run sa ikey m iv aad pt buf s :
  (hash_isaead h = false →
   (if sh_initiator (sa_hdr sa) then sa_key_iauth sa else sa_key_rauth sa) = Some ikey) →
  holds buf (m ++ zeros (hash_length h)) → nd_alloc s = [] → nd_run s = Some (key, iv, aad, pt) →
  blen iv = encr_ivlength c → blen pt mod encr_length c = 0 →
  ∃ tmp, msg_integr_value sa c h buf s = Ok (Some tmp, s) ∧ hash_length h ≤ blen tmp ∧
    checksum ikey m iv aad pt (sub_bytes 0 (hash_length h) tmp).
Proof.
  intros Hk Hb Ha Hrun Hiv Hpt. pose proof Hsuite as [_ _ Hl _ Ht _ _ _]. unfold msg_integr_value, checksum.
  destruct (hash_isaead h) eqn:Hae; cbn [negb].
  - erewrite bind_run; [|reflexivity]. rewrite Hrun.
    destruct (Hworks iv aad pt Hiv Hpt) as [_ [tag Htag]]. exists tag.
    pose proof (ext_tag_length _ _ _ _ _ _ _ Htag) as Hlt.
    assert (Eh : hash_length h = blen tag)
      by (rewrite Hlt; unfold hash_length, hash_keylength; by rewrite Ht).
    rewrite Htag, Eh, sub_bytes_all. split_and!; done || lia.
  - rewrite (Hk eq_refl). erewrite bind_run; [|by apply n_must_run]. rewrite (holds_size _ _ Hb), blen_app, blen_zeros by lia. pose proof (blen_nonneg m).
    pose proof (holds_max _ _ Hb) as Hm. rewrite blen_app, blen_zeros in Hm by lia.
    unfold IKED_MSGBUF_MAX in Hm.
    rewrite sz_sub_id by (unfold size_max; lia). rewrite Z.add_simpl_r. unfold lift.
    rewrite data_spec; [|apply Hb|rewrite (ho_content _ _ Hb), blen_app, blen_zeros; lia].
    rewrite (ho_content _ _ Hb).
    replace (take (Z.to_nat (blen m)) _) with m by (unfold blen; by rewrite Nat2Z.id, take_app_length).
    erewrite bind_run; [|reflexivity]. destruct (mac_tmplen ikey m) as [E1 E2].
    exists (ext_mac h ikey m). rewrite E2, Z.eqb_refl. split_and!; [done|lia|..|done].
    rewrite blen_sub_bytes; lia.
Qed.

Lemma integr_run sa ikey m iv aad pt s :
  sa_encr sa = Some c → sa_integr sa = Some h →
  (hash_isaead h = false →
   (if sh_initiator (sa_hdr sa) then sa_key_iauth sa else sa_key_rauth sa) = Some ikey) →
  msg_is s (m ++ zeros (hash_length h)) → blen m + hash_length h ≤ IKED_MSGBUF_MAX →
  nd_run s = Some (key, iv, aad, pt) → blen iv = encr_ivlength c → blen pt mod encr_length c = 0 →
  ∃ v, ikev2_msg_integr (Some sa) s = Ok (0, set_msg (m ++ v) s) ∧ checksum ikey m iv aad pt v.
Proof.
  intros Hc Hh Hk Hmsg Hmax Hrun Hiv Hpt. pose proof Hsuite as [_ _ Hl Hd _ _ _ _].
  pose proof (blen_nonneg m) as Hm. unfold IKED_MSGBUF_MAX in Hmax.
  pose proof Hmsg as [Hb Ha]. set (z := zeros (hash_length h)) in *.
  assert (Hz : blen z = hash_length h) by (apply blen_zeros; lia).
  assert (Hho : holds (nd_buf s) (m ++ z))
    by (rewrite Hb; apply holds_msgbuf; rewrite blen_app; unfold IKED_MSGBUF_MAX; lia).
  unfold ikev2_msg_integr. rewrite Hc, Hh. erewrite bind_run; [|reflexivity].
  destruct (new_zeros_run (hash_keylength h) s) as (b & E & _);
    [unfold hash_keylength, IKED_MSGBUF_MAX; lia|done|]. rewrite (bind_run _ _ _ _ _ E).
  destruct (integr_value_run sa ikey m iv aad pt _ s Hk Hho Ha Hrun Hiv Hpt) as (tmp & E1 & Hlt & Hv).
  rewrite (bind_run _ _ _ _ _ E1). rewrite (holds_size _ _ Hho), blen_app, Hz.
  rewrite sz_sub_id, Z.add_simpl_r by (unfold size_max; lia).
  rewrite seek_spec; [|apply Hho|unfold size_max; lia..].
  rewrite (ho_content _ _ Hho), (ho_rpos _ _ Hho), blen_app, Hz, Z.leb_refl. cbv beta iota.
  set (v := sub_bytes 0 (hash_length h) tmp) in *. exists v. split; [|done].
  unfold lift, rd. rewrite !(proj2 (Z.leb_le _ _)) by lia. simpl.
  erewrite bind_run; [|reflexivity]. fold v. pose proof (proj1 Hv) as Hlv.
  erewrite bind_run; [|eapply onbuf_run; [exact Hmsg|]].
  2:{ rewrite <- (Z.add_0_r (blen m)). apply put_tail; lia. }
  assert (E3 : upd_at 0 v z = v).
  { unfold upd_at. simpl. rewrite drop_ge by (unfold blen in *; lia). by rewrite app_nil_r. }
  by rewrite E3.
Qed.
End run.

(** ** The vectors of the authenticated ciphers *)

(** [n] vectors in a row; a vector that could not be allocated is not used. *)
Fixpoint cipher_setivs (c : iked_cipher) (n : nat) : N (list bytes) :=
  match n with
  | O => mret []
  | S n =>
      iv ← cipher_setiv c;
      ivs ← cipher_setivs c n;
      mret (match iv with Some iv => iv :: ivs | None => ivs end)
  end.

Definition civ_bytes (civ : Z) : bytes := rev (be_encode 8 civ).

Lemma civ_bytes_inj a b : 0 ≤ a < 2 ^ 64 → 0 ≤ b < 2 ^ 64 → civ_bytes a = civ_bytes b → a = b.
Proof.
  intros Ha Hb H. apply (f_equal (@rev byte)) in H. unfold civ_bytes in H. rewrite !rev_involutive in H.
  apply (f_equal (be_decode 0)) in H. by rewrite !be_decode_encode in H by (simpl; lia).
Qed.

Section vectors.
Context (c : iked_cipher).
Hypothesis Hid : encr_id c = IKEV2_XFORMENCR_AES_GCM_16 ∨ encr_id c = IKEV2_XFORMENCR_AES_GCM_12.
Hypothesis Hiv : encr_ivlength c = 8.

Lemma setiv_step s :
  ∃ a l, cipher_setiv c s = Ok (if a : bool then Some (civ_bytes (nd_civ s)) else None,
      set_nd_civ (to_u64 (nd_civ s + 1)) (set_nd_alloc l s)) ∧
    (nd_alloc s = [] → a = true ∧ l = []).
Proof.
  unfold cipher_setiv. rewrite Hiv.
  assert ((encr_id c =? IKEV2_XFORMENCR_AES_GCM_16) || (encr_id c =? IKEV2_XFORMENCR_AES_GCM_12) = true)
    as -> by (destruct Hid as [->| ->]; done).
  change (negb (8 =? 8)) with false. cbv iota. unfold mbind, M_bind, n_alloc.
  destruct (nd_alloc s) as [|a l] eqn:E.
  - exists true, []. split; [|done]. destruct s; simpl in *; by subst.
  - exists a, l. split; [by destruct a|done].
Qed.

Lemma setivs_run n s :
  Z.of_nat n ≤ 2 ^ 64 → 0 ≤ nd_civ s < 2 ^ 64 →
  ∃ ivs s', cipher_setivs c n s = Ok (ivs, s') ∧ NoDup ivs ∧
    (∀ iv, iv ∈ ivs → ∃ i, 0 ≤ i < Z.of_nat n ∧ iv = civ_bytes ((nd_civ s + i) mod 2 ^ 64)) ∧
    (nd_alloc s = [] → length ivs = n).
Proof.
  revert s. induction n as [|n IH]; intros s Hn Hc.
  { exists [], s. split_and!; [done|apply NoDup_nil_2|by intros ? ?%elem_of_nil|done]. }
  destruct (setiv_step s) as (a & l & E & Ha). set (s1 := set_nd_civ _ _) in E.
  pose proof (Z.mod_pos_bound (nd_civ s + 1) (2 ^ 64) ltac:(lia)) as Hb.
  destruct (IH s1) as (ivs & s' & E1 & Hnd & Hin & Hlen); [lia|exact Hb|].
  assert (Hstep : ∀ iv, iv ∈ ivs → ∃ i, 1 ≤ i < Z.of_nat (S n) ∧
    iv = civ_bytes ((nd_civ s + i) mod 2 ^ 64)).
  { intros iv (i & Hi & ->)%Hin. exists (i + 1). split; [lia|]. f_equal. simpl. unfold to_u64.
    rewrite Z.add_mod_idemp_l by lia. f_equal. lia. }
  exists (if a then civ_bytes (nd_civ s) :: ivs else ivs), s'. split_and!.
  - cbn [cipher_setivs]. rewrite (bind_run _ _ _ _ _ E), (bind_run _ _ _ _ _ E1). by destruct a.
  - destruct a; [|done]. apply NoDup_cons. split; [|done]. intros (i & Hi & Ei)%Hstep.
    apply civ_bytes_inj in Ei; [|lia|apply Z.mod_pos_bound; lia]. symmetry in Ei.
    destruct (Z_lt_le_dec (nd_civ s + i) (2 ^ 64)).
    + rewrite Z.mod_small in Ei by lia. lia.
    + rewrite <- (Z.mod_add _ (-1)), Z.mod_small in Ei by lia. lia.
  - assert (Hin' : ∀ iv, iv ∈ ivs → ∃ i, 0 ≤ i < Z.of_nat (S n) ∧
      iv = civ_bytes ((nd_civ s + i) mod 2 ^ 64)).
    { intros iv (i & Hi & ->)%Hstep. exists i. split; [lia|done]. }
    destruct a; [|done]. intros iv [->|Hiv']%elem_of_cons; [|by apply Hin']. exists 0.
    split; [lia|]. by rewrite Z.add_0_r, Z.mod_small.
  - intros Hal. destruct (Ha Hal) as [-> ->]. simpl. by rewrite Hlen.
Qed.
End vectors.

(** C33: an authenticated cipher never sees a vector twice: over up to 2^64
    messages the vectors [cipher_setiv] returns are pairwise different, also
    when some could not be allocated, and with memory there is one for every
    message. *)
Theorem aead_iv_unique c n s :
  encr_id c = IKEV2_XFORMENCR_AES_GCM_16 ∨ encr_id c = IKEV2_XFORMENCR_AES_GCM_12 →
  encr_ivlength c = 8 → Z.of_nat n ≤ 2 ^ 64 → 0 ≤ nd_civ s < 2 ^ 64 →
  ∃ ivs s', cipher_setivs c n s = Ok (ivs, s') ∧ NoDup ivs ∧ (nd_alloc s = [] → length ivs = n).
Proof.
  intros Hid Hiv Hn Hc. destruct (setivs_run c Hid Hiv n s Hn Hc) as (ivs & s' & E & Hnd & _ & Hl).
  by exists ivs, s'.
Qed.

Lemma aead_iv_unique_witness :
  let c := mk_cipher IKEV2_XFORMENCR_AES_GCM_16 1 8 4 20 2020 in
  let s := set_nd_civ (2 ^ 64 - 1) (demo_node demo_sa []) in
  ∃ ivs s', cipher_setivs c 3 s = Ok (ivs, s') ∧ NoDup ivs ∧ (nd_alloc s = [] → length ivs = 3%nat).
Proof.
  intros c s. apply aead_iv_unique.
  - by left.
  - reflexivity.
  - lia.
  - simpl. lia.
Defined.
