(* ===== verification/Crypto.v ===== *)
(** * Algorithms: [hash_new] and [cipher_new] of [crypto.c], and their choice

    The tables of the supported algorithms with their lengths, and
    [ikev2_sa_negotiate_common] of [ikev2.c], which negotiates the proposals
    of an IKE SA and sets its algorithms up. What it leaves in the SA is a
    suite as encryption and decryption expect it. *)

From S2P Require Import Prelude Types SaState Proposals Negotiate Ibuf Parse ParseSk Queue Encrypt.

Definition IKEV2_XFORMPRF_HMAC_MD5 : Z := 1.
Definition IKEV2_XFORMPRF_HMAC_SHA1 : Z := 2.
Definition IKEV2_XFORMPRF_AES128_XCBC : Z := 4.
Definition IKEV2_XFORMPRF_HMAC_SHA2_256 : Z := 5.
Definition IKEV2_XFORMPRF_HMAC_SHA2_384 : Z := 6.
Definition IKEV2_XFORMPRF_HMAC_SHA2_512 : Z := 7.
Definition IKEV2_XFORMAUTH_HMAC_MD5_96 : Z := 1.
Definition IKEV2_XFORMAUTH_HMAC_SHA1_96 : Z := 2.
Definition IKEV2_XFORMAUTH_HMAC_SHA2_256_128 : Z := 12.
Definition IKEV2_XFORMAUTH_HMAC_SHA2_384_192 : Z := 13.
Definition IKEV2_XFORMAUTH_HMAC_SHA2_512_256 : Z := 14.
Definition IKEV2_XFORMAUTH_AES_GCM_12 : Z := 2019.
Definition IKEV2_XFORMAUTH_AES_GCM_16 : Z := 2020.

(** The digest sizes of the OpenSSL headers. *)
Definition MD5_DIGEST_LENGTH : Z := 16.
Definition SHA_DIGEST_LENGTH : Z := 20.
Definition SHA256_DIGEST_LENGTH : Z := 32.
Definition SHA384_DIGEST_LENGTH : Z := 48.
Definition SHA512_DIGEST_LENGTH : Z := 64.

(** The ciphers of OpenSSL that are used, and what it says of them. *)
Inductive evp_cipher :=
  | EVP_des_ede3_cbc
  | EVP_aes_128_cbc | EVP_aes_192_cbc | EVP_aes_256_cbc
  | EVP_aes_128_gcm | EVP_aes_256_gcm.

Class Evp := {
  EVP_CIPHER_block_size : evp_cipher → Z;
  EVP_CIPHER_key_length : evp_cipher → Z;
  EVP_CIPHER_iv_length : evp_cipher → Z }.

Class EvpLaws `{!Evp} := {
  evp_block_size c : EVP_CIPHER_block_size c =
    match c with EVP_des_ede3_cbc => 8 | EVP_aes_128_gcm | EVP_aes_256_gcm => 1 | _ => 16 end;
  evp_key_length c : EVP_CIPHER_key_length c =
    match c with
    | EVP_aes_128_cbc | EVP_aes_128_gcm => 16
    | EVP_des_ede3_cbc | EVP_aes_192_cbc => 24
    | EVP_aes_256_cbc | EVP_aes_256_gcm => 32
    end;
  evp_iv_length c : EVP_CIPHER_iv_length c =
    match c with EVP_des_ede3_cbc => 8 | EVP_aes_128_gcm | EVP_aes_256_gcm => 12 | _ => 16 end }.

(** The local variables of [hash_new]; [ha_md] is [md != NULL]. *)
Record hash_algo := mk_hash_algo {
  ha_md : bool; ha_length : Z; ha_fixedkey : Z; ha_trunc : Z; ha_isaead : bool }.

Definition hash_none : hash_algo := mk_hash_algo false 0 0 0 false.

(** The [switch] of [hash_new] for pseudo-random functions. *)
Definition prf_algo (id : Z) : hash_algo :=
  if id =? IKEV2_XFORMPRF_HMAC_MD5 then mk_hash_algo true MD5_DIGEST_LENGTH 0 0 false
  else if id =? IKEV2_XFORMPRF_HMAC_SHA1 then mk_hash_algo true SHA_DIGEST_LENGTH 0 0 false
  else if id =? IKEV2_XFORMPRF_HMAC_SHA2_256 then mk_hash_algo true SHA256_DIGEST_LENGTH 0 0 false
  else if id =? IKEV2_XFORMPRF_HMAC_SHA2_384 then mk_hash_algo true SHA384_DIGEST_LENGTH 0 0 false
  else if id =? IKEV2_XFORMPRF_HMAC_SHA2_512 then mk_hash_algo true SHA512_DIGEST_LENGTH 0 0 false
  else if id =? IKEV2_XFORMPRF_AES128_XCBC then
    let fixedkey := 128 / 8 in mk_hash_algo false fixedkey fixedkey 0 false
  else hash_none.

(** And for integrity. *)
Definition integr_algo (id : Z) : hash_algo :=
  if id =? IKEV2_XFORMAUTH_HMAC_MD5_96 then mk_hash_algo true MD5_DIGEST_LENGTH 0 12 false
  else if id =? IKEV2_XFORMAUTH_HMAC_SHA1_96 then mk_hash_algo true SHA_DIGEST_LENGTH 0 12 false
  else if id =? IKEV2_XFORMAUTH_HMAC_SHA2_256_128 then
    mk_hash_algo true SHA256_DIGEST_LENGTH 0 16 false
  else if id =? IKEV2_XFORMAUTH_HMAC_SHA2_384_192 then
    mk_hash_algo true SHA384_DIGEST_LENGTH 0 24 false
  else if id =? IKEV2_XFORMAUTH_HMAC_SHA2_512_256 then
    mk_hash_algo true SHA512_DIGEST_LENGTH 0 32 false
  else if id =? IKEV2_XFORMAUTH_AES_GCM_12 then mk_hash_algo false 12 0 0 true
  else if id =? IKEV2_XFORMAUTH_AES_GCM_16 then mk_hash_algo false 16 0 0 true
  else hash_none.

Definition hash_row (type id : Z) : hash_algo :=
  if type =? IKEV2_XFORMTYPE_PRF then prf_algo id
  else if type =? IKEV2_XFORMTYPE_INTEGR then integr_algo id
  else hash_none.

Definition hash_new (type id : Z) : N (option iked_hash) :=
  let a := hash_row type id in
  if negb (ha_isaead a) && negb (ha_md a) then mret None
  else
    ok ← n_alloc;
    if negb ok then mret None
    else
      let hash := mk_hash id (ha_length a) (ha_trunc a) (ha_isaead a) type (ha_fixedkey a) in
      if ha_isaead a then mret (Some hash)
      else
        ctx ← n_alloc;
        if negb (ctx : bool) then mret None else mret (Some hash).

Section cipher_new.
Context `{!Evp}.

(** The [switch] of [cipher_new]. *)
Definition cipher_algo (id id_length : Z) : option iked_cipher :=
  let cbc c :=
    let length := EVP_CIPHER_block_size c in
    let ivlength := EVP_CIPHER_iv_length c in
    mk_cipher id length (if negb (ivlength =? 0) then ivlength else length) 0
      (EVP_CIPHER_key_length c) 0 in
  if id =? IKEV2_XFORMENCR_3DES then Some (cbc EVP_des_ede3_cbc)
  else if id =? IKEV2_XFORMENCR_AES_CBC then
    cbc <$> (if id_length =? 128 then Some EVP_aes_128_cbc
             else if id_length =? 192 then Some EVP_aes_192_cbc
             else if id_length =? 256 then Some EVP_aes_256_cbc
             else None)
  else if (id =? IKEV2_XFORMENCR_AES_GCM_16) || (id =? IKEV2_XFORMENCR_AES_GCM_12) then
    (λ c,
      let authid := if id =? IKEV2_XFORMENCR_AES_GCM_16 then IKEV2_XFORMAUTH_AES_GCM_16
                    else IKEV2_XFORMAUTH_AES_GCM_12 in
      let saltlength := 4 in
      mk_cipher id (EVP_CIPHER_block_size c) 8 saltlength
        (EVP_CIPHER_key_length c + saltlength) authid) <$>
    (if id_length =? 128 then Some EVP_aes_128_gcm
     else if id_length =? 256 then Some EVP_aes_256_gcm
     else None)
  else None.

Definition cipher_new (type id id_length : Z) : N (option iked_cipher) :=
  match (if type =? IKEV2_XFORMTYPE_ENCR then cipher_algo id id_length else None) with
  | None => mret None
  | Some encr =>
      ok ← n_alloc;
      if negb ok then mret None
      else
        ctx ← n_alloc;
        if negb (ctx : bool) then mret None else mret (Some encr)
  end.

(** ** Choosing the algorithms of an SA *)

(** A step that looks at the SA. *)
Definition with_sa {A} (k : iked_sa → N A) : N A :=
  osa ← gets nd_sa;
  match osa with None => fail Fnull | Some sa => k sa end.

(** Set a component of the SA from the result of a constructor; [false] is
    [return (-1)]. *)
Definition install {A} (set : option A → iked_sa → iked_sa) (m : N (option A)) : N bool :=
  o ← m;
  _ ← upd_nsa (set o);
  mret (bool_decide (is_Some o)).

Definition negotiate_encr : N bool := with_sa (λ sa,
  if bool_decide (is_Some (sa_encr sa)) then mret true
  else match config_findtransform (sa_proposals sa) IKEV2_XFORMTYPE_ENCR 0 with
  | None => mret false
  | Some x => install set_sa_encr (cipher_new (xform_type x) (xform_id x) (xform_length x))
  end).

(** For AEAD ciphers integrity is implicit. *)
Definition negotiate_aead : N bool := with_sa (λ sa,
  match sa_encr sa with
  | None => fail Fnull
  | Some c =>
      if negb (encr_authid c =? 0) && negb (bool_decide (is_Some (sa_integr sa)))
      then install set_sa_integr (hash_new IKEV2_XFORMTYPE_INTEGR (encr_authid c))
      else mret true
  end).

Definition negotiate_prf : N bool := with_sa (λ sa,
  if bool_decide (is_Some (sa_prf sa)) then mret true
  else match config_findtransform (sa_proposals sa) IKEV2_XFORMTYPE_PRF 0 with
  | None => mret false
  | Some x => install set_sa_prf (hash_new (xform_type x) (xform_id x))
  end).

Definition negotiate_integr : N bool := with_sa (λ sa,
  if bool_decide (is_Some (sa_integr sa)) then mret true
  else match config_findtransform (sa_proposals sa) IKEV2_XFORMTYPE_INTEGR 0 with
  | None => mret false
  | Some x => install set_sa_integr (hash_new (xform_type x) (xform_id x))
  end).

(** [local] are the proposals of the policy, [peer] those of the message. *)
Definition ikev2_sa_negotiate_common (local peer : list iked_proposal) (groupid : Z) : N Z :=
  with_sa (λ sa,
    let '(r, props) := proposals_negotiate false groupid (Some (sa_proposals sa)) local peer in
    _ ← upd_nsa (λ sa, set_sa_proposals (default (sa_proposals sa) props) sa);
    if negb (r =? 0) then _ ← count inc_negotiate_failures; mret (-1)
    else
      _ ← upd_nsa (λ sa, if sa_stateok sa IKEV2_STATE_SA_INIT
                         then sa_stateflags_or IKED_REQ_SA sa else sa);
      ok ← negotiate_encr;
      if negb ok then mret (-1)
      else
        ok ← negotiate_aead;
        if negb ok then mret (-1)
        else
          ok ← negotiate_prf;
          if negb ok then mret (-1)
          else
            ok ← negotiate_integr;
            mret (if negb ok then -1 else 0)).
End cipher_new.

(** ** What the tables hold *)

(** An algorithm for [IKEV2_XFORMTYPE_PRF] or [IKEV2_XFORMTYPE_INTEGR]. *)
Record hash_ok (type id : Z) (h : iked_hash) : Prop := {
  hk_id : hash_id h = id;
  hk_length : 12 ≤ hash_length h ≤ hash_length_f h;
  hk_digest : hash_length_f h ≤ 64;
  hk_fixedkey : hash_fixedkey h = 0;
  hk_prf : type = IKEV2_XFORMTYPE_PRF → hash_isaead h = false ∧ hash_trunc h = 0;
  hk_aead : hash_isaead h = true → hash_trunc h = 0 ∧
    (id = IKEV2_XFORMAUTH_AES_GCM_12 ∨ id = IKEV2_XFORMAUTH_AES_GCM_16);
  hk_gcm : type = IKEV2_XFORMTYPE_INTEGR →
    id = IKEV2_XFORMAUTH_AES_GCM_12 ∨ id = IKEV2_XFORMAUTH_AES_GCM_16 → hash_isaead h = true }.

Lemma hash_row_ok type id a :
  a = hash_row type id → negb (ha_isaead a) && negb (ha_md a) = false →
  hash_ok type id (mk_hash id (ha_length a) (ha_trunc a) (ha_isaead a) type (ha_fixedkey a)).
Proof.
  unfold hash_row, prf_algo, integr_algo.
  repeat match goal with |- context [Z.eqb ?x ?y] => destruct (Z.eqb_spec x y); [subst x|] end;
    intros -> Ha; try discriminate Ha; constructor; vm_compute; intuition discriminate.
Qed.

Lemma hash_new_run type id s :
  ∃ o l, hash_new type id s = Ok (o, set_nd_alloc l s) ∧ ∀ h, o = Some h → hash_ok type id h.
Proof.
  unfold hash_new. set (a := hash_row type id).
  destruct (negb (ha_isaead a) && negb (ha_md a)) eqn:Ea.
  { exists None, (nd_alloc s). split; [by destruct s|done]. }
  destruct (n_alloc_run s) as (ok & l & E & _). rewrite (bind_run _ _ _ _ _ E).
  destruct ok; cbn [negb]; [|by exists None, l].
  assert (Hok : hash_ok type id
    (mk_hash id (ha_length a) (ha_trunc a) (ha_isaead a) type (ha_fixedkey a))).
  { by apply hash_row_ok. }
  destruct (ha_isaead a).
  { exists (Some (mk_hash id (ha_length a) (ha_trunc a) true type (ha_fixedkey a))), l.
    split; [done|]. by intros h [= <-]. }
  destruct (n_alloc_run (set_nd_alloc l s)) as (ctx & l' & E' & _). rewrite (bind_run _ _ _ _ _ E').
  destruct ctx; cbn [negb]; eexists _, l'; (split; [reflexivity|]); [by intros h [= <-]|done].
Qed.

(** An algorithm for [IKEV2_XFORMTYPE_ENCR]. *)
Record cipher_ok (c : iked_cipher) : Prop := {
  ci_block : 1 ≤ encr_length c ≤ 16;
  ci_iv : 8 ≤ encr_ivlength c ≤ 16;
  ci_key : 16 ≤ encr_fixedkey c ≤ 36;
  ci_gcm : encr_id c = IKEV2_XFORMENCR_AES_GCM_16 ∨ encr_id c = IKEV2_XFORMENCR_AES_GCM_12 →
    encr_ivlength c = 8;
  ci_kind : (encr_saltlength c = 0 ∧ encr_authid c = 0) ∨
    (encr_saltlength c = 4 ∧
     (encr_authid c = IKEV2_XFORMAUTH_AES_GCM_12 ∨ encr_authid c = IKEV2_XFORMAUTH_AES_GCM_16)) }.

Section negotiated.
Context `{!Evp, !EvpLaws}.

Lemma cipher_algo_ok id len c : cipher_algo id len = Some c → cipher_ok c.
Proof.
  unfold cipher_algo.
  repeat match goal with |- context [Z.eqb ?x ?y] => destruct (Z.eqb_spec x y) as [?|?]; [try subst x|] end;
    simpl; intros Hc; try discriminate Hc; injection Hc as <-; constructor; cbn; rewrite ?evp_block_size, ?evp_key_length, ?evp_iv_length;
    vm_compute; intuition discriminate.
Qed.

Lemma cipher_new_run type id len s :
  ∃ o l, cipher_new type id len s = Ok (o, set_nd_alloc l s) ∧ ∀ c, o = Some c → cipher_ok c.
Proof.
  unfold cipher_new. destruct (if type =? _ then _ else _) as [c|] eqn:Ec.
  2:{ exists None, (nd_alloc s). split; [by destruct s|done]. }
  assert (Hc : cipher_ok c) by (case_match; [by eapply cipher_algo_ok|done]).
  destruct (n_alloc_run s) as (ok & l & E & _). rewrite (bind_run _ _ _ _ _ E).
  destruct ok; cbn [negb]; [|by exists None, l].
  destruct (n_alloc_run (set_nd_alloc l s)) as (ctx & l' & E' & _). rewrite (bind_run _ _ _ _ _ E').
  destruct ctx; cbn [negb]; eexists _, l'; (split; [reflexivity|]); [by intros h [= <-]|done].
Qed.

Lemma wp_with_sa {A} F (k : iked_sa → N A) Q sa s :
  nd_sa s = Some sa → wp F (k sa) Q s → wp F (with_sa k) Q s.
Proof. intros Hs Hk. unfold with_sa. apply wp_bind, wp_gets. by rewrite Hs. Qed.

Lemma install_wp {A} (set : option A → iked_sa → iked_sa) (m : N (option A)) (P : A → Prop) sa s :
  nd_sa s = Some sa → (∃ o l, m s = Ok (o, set_nd_alloc l s) ∧ ∀ a, o = Some a → P a) →
  wp never (install set m)
    (λ ok s', ∃ o, nd_sa s' = Some (set o sa) ∧ ok = bool_decide (is_Some o) ∧ ∀ a, o = Some a → P a) s.
Proof.
  intros Hs (o & l & E & Ho). unfold install. apply wp_bind. unfold wp at 1. rewrite E.
  apply wp_bind, wp_modify, wp_ret. exists o. simpl. by rewrite Hs.
Qed.

(** The transforms the SA's algorithms are taken from. *)
Definition from_policy (local : list iked_proposal) (sa : iked_sa) : Prop :=
  ∀ prop x, prop ∈ sa_proposals sa → x ∈ prop_xforms prop →
    ∃ pl tl, pl ∈ local ∧ tl ∈ prop_xforms pl ∧ x = rescore tl.

Lemma find_xform_in xs type x : find_xform xs type (-1) = Some x → x ∈ xs ∧ xform_type x = type.
Proof.
  induction xs as [|y xs IH]; simpl; [done|]. destruct (Z.eqb_spec (xform_type y) type).
  - intros [= <-]. split; [by left|done].
  - intros [? ?]%IH. split; [by right|done].
Qed.

Lemma findtransform_in props type x :
  config_findtransform props type 0 = Some x →
  ∃ prop, prop ∈ props ∧ x ∈ prop_xforms prop ∧ xform_type x = type.
Proof.
  unfold config_findtransform. induction props as [|prop props IH]; simpl; [done|].
  destruct (find_xform _ _ _) as [y|] eqn:E.
  - intros [= <-]. apply find_xform_in in E as [??]. exists prop. split_and!; [by left|done..].
  - intros (p & ? & ?)%IH. exists p. split; [by right|done].
Qed.

Lemma negotiate_encr_wp sa s :
  nd_sa s = Some sa → sa_encr sa = None →
  wp never negotiate_encr (λ ok s', ∃ o, nd_sa s' = Some (set_sa_encr o sa) ∧
    (ok = true → is_Some o) ∧ ∀ c, o = Some c → cipher_ok c) s.
Proof.
  intros Hs He. apply (wp_with_sa _ _ _ sa); [done|]. rewrite He, bool_decide_false by (by intros []).
  destruct (config_findtransform _ _ _) as [x|].
  - eapply wp_mono; [apply install_wp; [done|apply cipher_new_run]|]. cbv beta.
    intros ok s' (o & ? & -> & ?). exists o. split_and!; [done| |done]. apply bool_decide_eq_true.
  - apply wp_ret. exists None. split_and!; [|done..]. rewrite Hs. destruct sa; simpl in *; by subst.
Qed.

Lemma negotiate_aead_wp sa c s :
  nd_sa s = Some sa → sa_encr sa = Some c → sa_integr sa = None →
  wp never negotiate_aead (λ ok s', ∃ o, nd_sa s' = Some (set_sa_integr o sa) ∧
    (ok = true → encr_authid c ≠ 0 → is_Some o) ∧
    ∀ h, o = Some h → encr_authid c ≠ 0 ∧ hash_ok IKEV2_XFORMTYPE_INTEGR (encr_authid c) h) s.
Proof.
  intros Hs Hc Hi. apply (wp_with_sa _ _ _ sa); [done|]. rewrite Hc, Hi.
  rewrite bool_decide_false by (by intros []). destruct (Z.eqb_spec (encr_authid c) 0) as [E|E]; cbn [negb andb].
  - apply wp_ret. exists None. split_and!; [|done..]. rewrite Hs. destruct sa; simpl in *; by subst.
  - eapply wp_mono; [apply install_wp; [done|apply hash_new_run]|]. cbv beta.
    intros ok s' (o & ? & -> & Ho). exists o. split_and!; [done| |].
    + intros Hb _. by apply bool_decide_eq_true in Hb.
    + intros h Hh. split; [done|by apply Ho].
Qed.

Lemma negotiate_prf_wp sa s :
  nd_sa s = Some sa → sa_prf sa = None →
  wp never negotiate_prf (λ ok s', ∃ o, nd_sa s' = Some (set_sa_prf o sa) ∧ (ok = true → is_Some o) ∧
    ∀ p, o = Some p → ∃ id, hash_ok IKEV2_XFORMTYPE_PRF id p) s.
Proof.
  intros Hs He. apply (wp_with_sa _ _ _ sa); [done|]. rewrite He, bool_decide_false by (by intros []).
  destruct (config_findtransform _ _ _) as [x|] eqn:Ex.
  - apply findtransform_in in Ex as (prop & _ & _ & ->).
    eapply wp_mono; [apply install_wp; [done|apply hash_new_run]|]. cbv beta.
    intros ok s' (o & ? & -> & Ho). exists o. split_and!; [done|apply bool_decide_eq_true|].
    intros p Hp. eexists. by apply Ho.
  - apply wp_ret. exists None. split_and!; [|done..]. rewrite Hs. destruct sa; simpl in *; by subst.
Qed.

Lemma negotiate_integr_wp local sa s :
  nd_sa s = Some sa → from_policy local sa →
  wp never negotiate_integr (λ ok s', ∃ o, nd_sa s' = Some (set_sa_integr o sa) ∧ (ok = true → is_Some o) ∧
    ∀ h, o = Some h → sa_integr sa = Some h ∨ sa_integr sa = None ∧ ∃ pl tl, pl ∈ local ∧
      tl ∈ prop_xforms pl ∧ xform_type tl = IKEV2_XFORMTYPE_INTEGR ∧
      hash_ok IKEV2_XFORMTYPE_INTEGR (xform_id tl) h) s.
Proof.
  intros Hs Hp. apply (wp_with_sa _ _ _ sa); [done|].
  destruct (sa_integr sa) as [h0|] eqn:Ei.
  { rewrite bool_decide_true by (by eexists). apply wp_ret. exists (Some h0).
    split_and!; [|done|by intros h [= <-]; left]. rewrite Hs. destruct sa; simpl in *; by subst. }
  rewrite bool_decide_false by (by intros []).
  destruct (config_findtransform _ _ _) as [x|] eqn:Ex.
  - apply findtransform_in in Ex as (prop & Hin & Hx & Ht).
    destruct (Hp prop x Hin Hx) as (pl & tl & Hpl & Htl & ->). simpl in Ht.
    eapply wp_mono; [apply install_wp; [done|apply hash_new_run]|]. cbv beta.
    intros ok s' (o & ? & -> & Ho). exists o. split_and!; [done|apply bool_decide_eq_true|].
    intros h Hh. right. split; [done|]. exists pl, tl. split_and!; try done. simpl in Ho. rewrite Ht in Ho. by apply Ho.
  - apply wp_ret. exists None. split_and!; [|done..]. rewrite Hs. destruct sa; simpl in *; by subst.
Qed.

Lemma suite_from_tables c id h :
  cipher_ok c → hash_ok IKEV2_XFORMTYPE_INTEGR id h →
  (if encr_authid c =? 0 then id < 1024 else id = encr_authid c) → suite_ok c h.
Proof.
  intros [Hb Hi _ Hg Hk] [_ Hl Hd _ _ Ha Hgcm] Hid.
  assert (Hsalt : hash_isaead h = (0 <? encr_saltlength c)).
  { destruct Hk as [[-> E]|[-> E]].
    - rewrite E in Hid. simpl in Hid. destruct (hash_isaead h); [|done].
      destruct (Ha eq_refl) as [_ [->| ->]]; done.
    - assert (encr_authid c ≠ 0) as Hz by (by destruct E as [->| ->]).
      rewrite (proj2 (Z.eqb_neq _ _)) in Hid by done. apply Hgcm; [done|by rewrite Hid]. }
  constructor; try done; try lia. intros Hae. by apply Ha.
Qed.

(** The algorithms of an SA after negotiation. *)
Record algorithms_ok (sa : iked_sa) (c : iked_cipher) (h p : iked_hash) : Prop := {
  al_encr : sa_encr sa = Some c;
  al_integr : sa_integr sa = Some h;
  al_prf : sa_prf sa = Some p;
  al_suite : suite_ok c h;
  al_key : 16 ≤ encr_fixedkey c ≤ 36;
  al_prf_plain : hash_isaead p = false ∧ hash_trunc p = 0 ∧ hash_fixedkey p = 0;
  al_prf_length : 12 ≤ hash_length_f p ≤ 64 }.

Lemma negotiate_algorithms_wp local sa s :
  nd_sa s = Some sa → sa_encr sa = None → sa_integr sa = None → sa_prf sa = None →
  from_policy local sa →
  (∀ pl tl, pl ∈ local → tl ∈ prop_xforms pl → xform_type tl = IKEV2_XFORMTYPE_INTEGR →
     xform_id tl < 1024) →
  wp never
    (ok ← negotiate_encr;
     if negb ok then mret (-1)
     else
       ok ← negotiate_aead;
       if negb ok then mret (-1)
       else
         ok ← negotiate_prf;
         if negb ok then mret (-1)
         else ok ← negotiate_integr; mret (if negb ok then -1 else 0))
    (λ r s', (r = 0 ∨ r = -1) ∧
       (r = 0 → ∃ sa' c h p, nd_sa s' = Some sa' ∧ algorithms_ok sa' c h p)) s.
Proof.
  intros Hs He Hi Hp Hfrom Hwire.
  apply wp_bind. eapply wp_mono; [by apply (negotiate_encr_wp sa)|]. cbv beta.
  intros ok s1 (oc & Hs1 & Hok1 & Hc). destruct ok; cbn [negb]; [|apply wp_ret; split; [by right|done]].
  destruct (Hok1 eq_refl) as [c ->]. specialize (Hc c eq_refl).
  apply wp_bind. eapply wp_mono; [by apply (negotiate_aead_wp (set_sa_encr (Some c) sa) c)|]. cbv beta.
  intros ok s2 (oh & Hs2 & Hok2 & Hh). destruct ok; cbn [negb]; [|apply wp_ret; split; [by right|done]].
  apply wp_bind. eapply wp_mono; [by apply (negotiate_prf_wp _ _ Hs2)|]. cbv beta.
  intros ok s3 (op & Hs3 & Hok3 & Hprf). destruct ok; cbn [negb]; [|apply wp_ret; split; [by right|done]].
  destruct (Hok3 eq_refl) as [p ->]. destruct (Hprf p eq_refl) as [pid Hpk].
  apply wp_bind. eapply wp_mono; [apply (negotiate_integr_wp local _ _ Hs3); exact Hfrom|]. cbv beta.
  intros ok s4 (oi & Hs4 & Hok4 & Hint). apply wp_ret.
  destruct ok; cbn [negb]; [|split; [by right|done]]. split; [by left|]. intros _.
  destruct (Hok4 eq_refl) as [h ->]. eexists _, c, h, p. split; [exact Hs4|].
  destruct Hpk as [_ Hpl Hpd Hpf Hpp _ _]. destruct (Hpp eq_refl) as [Hpa Hpt].
  assert (hash_length p = hash_length_f p) as El by (unfold hash_length; by rewrite Hpt).
  constructor; try done; [| |lia].
  - destruct (Hint h eq_refl) as [Eh|(Eh & pl & tl & Hpl' & Htl & Ht & Hk)]; simpl in Eh.
    + destruct (Hh h Eh) as [Ha Hk]. apply (suite_from_tables c (encr_authid c) h Hc Hk).
      by rewrite (proj2 (Z.eqb_neq _ _)).
    + apply (suite_from_tables c (xform_id tl) h Hc Hk). destruct (Z.eqb_spec (encr_authid c) 0) as [E|E].
      * by eapply Hwire.
      * destruct (Hok2 eq_refl E) as [? ->]. done.
  - apply Hc.
Qed.
End negotiated.


(** The documented lengths. *)
Definition sample_evp : Evp := {|
  EVP_CIPHER_block_size c :=
    match c with EVP_des_ede3_cbc => 8 | EVP_aes_128_gcm | EVP_aes_256_gcm => 1 | _ => 16 end;
  EVP_CIPHER_key_length c :=
    match c with
    | EVP_aes_128_cbc | EVP_aes_128_gcm => 16
    | EVP_des_ede3_cbc | EVP_aes_192_cbc => 24
    | EVP_aes_256_cbc | EVP_aes_256_gcm => 32
    end;
  EVP_CIPHER_iv_length c :=
    match c with EVP_des_ede3_cbc => 8 | EVP_aes_128_gcm | EVP_aes_256_gcm => 12 | _ => 16 end |}.

Lemma sample_evp_laws : @EvpLaws sample_evp.
Proof. by constructor; intros []. Defined.

