(* ===== verification/ParseAlloc.v ===== *)
(** * The parser and memory; its guarantees

    The parser takes the outcomes of its allocations from a list, and puts
    nothing back: it leaves a suffix of it, whatever it parses, and it runs
    into a null pointer for want of memory only when the list has a failure.
    With this, and with the specifications of [ParseTop], the guarantees of
    [ikev2_pld_parse] are complete. *)

From S2P Require Import Prelude Types SaState Proposals Ibuf Parse ParseSa ParsePld.
From S2P Require Import ParseNotify ParseEap ParseSk Samples ParseTop.

(** [m] spends allocations, faults with [Foom] only when one fails, and leaves
    the SA alone but for its fragments and requests, whatever the message. *)
Class Spends {A} (m : P A) : Prop := spends s :
  match m s with
  | Ok (_, s') => ps_alloc s' `suffix_of` ps_alloc s ∧ sa_core <$> ps_sa s' = sa_core <$> ps_sa s
  | Fault f => f = Foom → false ∈ ps_alloc s
  end.

(** Code without allocations. *)
Class NoOom {A} (o : out A) : Prop := no_oom : o ≠ Fault Foom.

Lemma plenty {A} (m : P A) `{!Spends m} s a s' : ps_alloc s = [] → m s = Ok (a, s') → ps_alloc s' = [].
Proof.
  intros Hs E. pose proof (spends (m := m) s) as H. rewrite E, Hs in H. by apply suffix_nil_inv, H.
Qed.

(** With memory to spare, nothing fails. *)
Lemma wp_plenty {A} (m : P A) `{!Spends m} Q s :
  false ∉ ps_alloc s → wp oom_only m Q s → wp never m Q s.
Proof.
  intros Hs. pose proof (spends (m := m) s) as H. unfold wp, oom_only. destruct (m s) as [[]|f]; [done|].
  intros Hf. by apply Hs, H.
Qed.

#[global] Instance no_oom_ok {A} (a : A) : NoOom (Ok a).
Proof. done. Qed.
#[global] Instance no_oom_rd b off len : NoOom (rd b off len).
Proof. unfold NoOom, rd. by case_match. Qed.
#[global] Instance no_oom_bind {A B} (o : out A) (k : A → out B) :
  NoOom o → (∀ a, NoOom (k a)) → NoOom (o ≫= k).
Proof. intros Ho Hk. unfold mbind, out_bind, NoOom in *. destruct o; [apply Hk|congruence]. Qed.

Ltac head_of t := lazymatch t with ?f _ => head_of f | _ => t end.
Ltac no_oom_tac :=
  repeat first
    [ apply _ | discriminate
    | apply no_oom_bind; [|intros]
    | match goal with |- NoOom (match ?x with _ => _ end) => destruct x end
    | progress cbv zeta
    | match goal with |- NoOom ?o => let f := head_of o in unfold f end ].

#[global] Instance no_oom_tss_loop n msgbuf offset left : NoOom (pld_tss_loop n msgbuf offset left).
Proof. revert offset left. induction n; intros; simpl; no_oom_tac. Qed.
#[global] Instance no_oom_reassemble els e offset : NoOom (reassemble_loop els e offset).
Proof. revert e offset. induction els as [|[]]; intros; simpl; no_oom_tac. Qed.

#[global] Instance spends_ret {A} (a : A) : Spends (mret a).
Proof. intros s. unfold mret, M_ret. done. Qed.
#[global] Instance spends_bind {A B} (m : P A) (k : A → P B) :
  Spends m → (∀ a, Spends (k a)) → Spends (m ≫= k).
Proof.
  intros Hm Hk s. unfold mbind, M_bind. pose proof (spends (m := m) s) as H1.
  destruct (m s) as [[a s1]|]; [|done]. pose proof (spends (m := k a) s1) as H2.
  destruct (k a s1) as [[b s2]|].
  { destruct H1 as [H1 H1'], H2 as [H2 H2']. split; [by etrans|congruence]. }
  intros Hf. destruct H1 as [[l ->] _].
  apply elem_of_app. right. by apply H2.
Qed.
#[global] Instance spends_gets {A} (f : pstate → A) : Spends (gets f).
Proof. intros s. unfold gets. done. Qed.
Lemma spends_fail {A} f : f ≠ Foom → Spends (A := A) (fail f).
Proof. intros Hf s. unfold fail. by intros ->. Qed.
Lemma spends_lift {A} (o : out A) : NoOom o → Spends (lift o).
Proof. intros Ho s. unfold lift. destruct o; [done|]. intros ->. by destruct Ho. Qed.
#[global] Instance spends_alloc : Spends next_alloc.
Proof.
  intros s. unfold next_alloc. destruct (ps_alloc s) as [|a l] eqn:E; simpl; [by rewrite E|].
  split; [by apply suffix_cons_r|done].
Qed.
#[global] Instance spends_must_alloc : Spends must_alloc.
Proof.
  intros s. unfold must_alloc, mbind, M_bind, next_alloc.
  destruct (ps_alloc s) as [|[] l] eqn:E; simpl; [by rewrite E|split; [by apply suffix_cons_r|done]|].
  intros _. by left.
Qed.
#[global] Instance spends_cipher_start c : Spends (cipher_start c).
Proof.
  intros s. unfold cipher_start, mbind, M_bind, next_alloc.
  destruct (ps_alloc s) as [|[] [|[] [|[] l]]] eqn:E; destruct (0 <? encr_saltlength c); simpl;
    repeat (rewrite ?E; simpl);
    first [done | split; [|done]; first [by exists [] | by eexists [_] | by eexists [_; _] | by eexists [_; _; _]]
      | intros _; repeat (apply elem_of_cons; first [by left|right])].
Qed.
#[global] Instance spends_rand : Spends next_rand.
Proof. intros s. unfold next_rand. by destruct (ps_rand s). Qed.
Lemma spends_modify f :
  (∀ s, ps_alloc (f s) = ps_alloc s) → (∀ s, ps_sa (f s) = ps_sa s) → Spends (modify f).
Proof. intros Hf Hs s. simpl. by rewrite Hf, Hs. Qed.
#[global] Instance spends_upd_cur f : Spends (upd_cur f).
Proof. apply spends_modify; intros s; unfold set_cur; by destruct (ps_emsg s). Qed.
#[global] Instance spends_upd_parent f : Spends (upd_parent f).
Proof. by apply spends_modify. Qed.
Lemma spends_upd_sa f : (∀ sa, sa_core (f sa) = sa_core sa) → Spends (upd_sa f).
Proof.
  intros Hf s. simpl. split; [done|]. destruct (ps_sa s); simpl; [|done]. by rewrite Hf.
Qed.

(** One step of the analysis of a handler. *)
Ltac spends_step :=
  first
    [ apply _
    | apply spends_lift; no_oom_tac; fail
    | apply spends_fail; discriminate
    | apply spends_upd_sa; reflexivity
    | apply spends_modify; intros; (done || (unfold set_cur; by case_match))
    | apply spends_bind; [|intros]
    | match goal with |- Spends (match ?x with _ => _ end) => destruct x end
    | progress cbv zeta ].
Ltac spends_tac := repeat spends_step.

#[global] Instance spends_emit e : Spends (emit e).
Proof. by apply spends_modify. Qed.
#[global] Instance spends_buf_new buf off len : Spends (buf_new buf off len).
Proof. unfold buf_new. spends_tac. Qed.
#[global] Instance spends_buf_zeros len : Spends (buf_zeros len).
Proof. unfold buf_zeros. spends_tac. Qed.
#[global] Instance spends_print_hex_at lev buf off len : Spends (print_hex_at lev buf off len).
Proof. unfold print_hex_at. spends_tac. Qed.
#[global] Instance spends_print_hex buf off len : Spends (print_hex buf off len).
Proof. apply spends_print_hex_at. Qed.
#[global] Instance spends_print_hexval buf off len : Spends (print_hexval buf off len).
Proof. apply spends_print_hex_at. Qed.
#[global] Instance spends_frompeer : Spends ikev2_msg_frompeer.
Proof. apply spends_gets. Qed.

(** ** SA payloads *)

#[global] Instance spends_attr_loop fuel msgbuf offset total :
  Spends (ikev2_pld_attr_loop fuel msgbuf offset total).
Proof. revert offset total. induction fuel; intros; simpl; spends_tac. Qed.
#[global] Instance spends_pld_attr offset total : Spends (ikev2_pld_attr offset total).
Proof. unfold ikev2_pld_attr. spends_tac. Qed.
#[global] Instance spends_add_transform type id length keylength :
  Spends (prop_add_transform type id length keylength).
Proof. unfold prop_add_transform. spends_tac. Qed.
#[global] Instance spends_xform_loop fuel msgbuf offset total :
  Spends (ikev2_pld_xform_loop fuel msgbuf offset total).
Proof. revert offset total. induction fuel; intros; simpl; spends_tac. Qed.
#[global] Instance spends_pld_xform offset total : Spends (ikev2_pld_xform offset total).
Proof. unfold ikev2_pld_xform. spends_tac. Qed.
#[global] Instance spends_sa_proposal sap spi : Spends (pld_sa_proposal sap spi).
Proof. unfold pld_sa_proposal. spends_tac. Qed.
#[global] Instance spends_sa_xforms sap offset total : Spends (pld_sa_xforms sap offset total).
Proof. unfold pld_sa_xforms. spends_tac. Qed.
#[global] Instance spends_sa_loop fuel msgbuf offset left spi :
  Spends (ikev2_pld_sa_loop fuel msgbuf offset left spi).
Proof. revert offset left spi. induction fuel; intros; simpl; spends_tac. Qed.
#[global] Instance spends_pld_sa offset left : Spends (ikev2_pld_sa offset left).
Proof. unfold ikev2_pld_sa. spends_tac. Qed.

(** ** The other payloads *)

Section handlers.
Context `{!External}.

#[global] Instance spends_pld_ke offset left : Spends (ikev2_pld_ke offset left).
Proof. unfold ikev2_pld_ke. spends_tac. Qed.
#[global] Instance spends_pld_nonce offset left : Spends (ikev2_pld_nonce offset left).
Proof. unfold ikev2_pld_nonce. spends_tac. Qed.
#[global] Instance spends_get_string ptr len : Spends (get_string ptr len).
Proof. unfold get_string. spends_tac. Qed.
#[global] Instance spends_print_id id n : Spends (ikev2_print_id id n).
Proof. unfold ikev2_print_id. spends_tac. Qed.
#[global] Instance spends_pld_id offset left payload : Spends (ikev2_pld_id offset left payload).
Proof. unfold ikev2_pld_id. spends_tac. Qed.
#[global] Instance spends_pld_cert offset left : Spends (ikev2_pld_cert offset left).
Proof. unfold ikev2_pld_cert. spends_tac. Qed.
#[global] Instance spends_pld_certreq offset left : Spends (ikev2_pld_certreq offset left).
Proof. unfold ikev2_pld_certreq. spends_tac. Qed.
#[global] Instance spends_pld_auth offset left : Spends (ikev2_pld_auth offset left).
Proof. unfold ikev2_pld_auth. spends_tac. Qed.
#[global] Instance spends_pld_delete offset left : Spends (ikev2_pld_delete offset left).
Proof. unfold ikev2_pld_delete. spends_tac. Qed.
#[global] Instance spends_pld_tss offset left : Spends (ikev2_pld_tss offset left).
Proof. unfold ikev2_pld_tss. spends_tac. Qed.

#[global] Instance spends_nat_detection len type fp : Spends (ikev2_nat_detection len type fp).
Proof. unfold ikev2_nat_detection. spends_tac. Qed.
#[global] Instance spends_sighash fuel msgbuf buf left : Spends (sighash_loop fuel msgbuf buf left).
Proof. revert buf left. induction fuel; intros; simpl; spends_tac. Qed.
#[global] Instance spends_pld_notify offset left : Spends (ikev2_pld_notify offset left).
Proof.
  unfold ikev2_pld_notify, notify_dispatch, notify_nat_detection, notify_authentication_failed,
    notify_invalid_ke, notify_flag_encrypted, notify_rekey_sa, notify_ipcomp,
    notify_mobike_supported, notify_transport_mode, notify_update_sa_addresses, notify_cookie2,
    notify_cookie, notify_fragmentation_supported, notify_signature_hash.
  spends_tac.
Qed.

#[global] Instance spends_cfg_attribute type msgbuf ptr clen :
  Spends (cfg_attribute type msgbuf ptr clen).
Proof. unfold cfg_attribute, cfg_address, cfg_addr. spends_tac. Qed.
#[global] Instance spends_cp_loop fuel msgbuf ptr len : Spends (pld_cp_loop fuel msgbuf ptr len).
Proof. revert ptr len. induction fuel; intros; simpl; spends_tac. Qed.
#[global] Instance spends_pld_cp offset left : Spends (ikev2_pld_cp offset left).
Proof. unfold ikev2_pld_cp. spends_tac. Qed.
#[global] Instance spends_eap_mschap sa msgbuf data eap : Spends (eap_mschap sa msgbuf data eap).
Proof. unfold eap_mschap. spends_tac. Qed.
#[global] Instance spends_eap_parse msgbuf data response : Spends (eap_parse msgbuf data response).
Proof. unfold eap_parse, eap_validate_id_response, eap_parse_mschap, eap_ms_text, upd_eap. spends_tac. Qed.
#[global] Instance spends_pld_eap offset left : Spends (ikev2_pld_eap offset left).
Proof. unfold ikev2_pld_eap. spends_tac. Qed.

(** ** Encrypted payloads and the chain *)

#[global] Instance spends_decrypt osa msg src : Spends (ikev2_msg_decrypt osa msg src).
Proof. unfold ikev2_msg_decrypt, msg_decrypt_integr, msg_decrypt_payload. spends_tac. Qed.

Section chain.
Context (payloads : Z → Z → Z → P Z) (Hpay : ∀ a b c, Spends (payloads a b c)).

#[local] Instance spends_payloads a b c : Spends (payloads a b c).
Proof. apply Hpay. Qed.
#[local] Instance spends_pld_e next offset left : Spends (ikev2_pld_e payloads next offset left).
Proof. unfold ikev2_pld_e, set_frags, parse_decrypted. spends_tac. Qed.
#[local] Instance spends_pld_ef next offset left : Spends (ikev2_pld_ef payloads next offset left).
Proof.
  unfold ikev2_pld_ef, ef_accept, ef_store, ef_done, ef_dropall, ikev2_frags_reassemble,
    reassemble_done, parse_decrypted, set_frags, upd_stats. spends_tac.
Qed.
#[local] Instance spends_switch msgbuf e payload pld offset left :
  Spends (pld_switch payloads msgbuf e payload pld offset left).
Proof. unfold pld_switch. spends_tac. Qed.
Lemma spends_loop fuel msgbuf e offset length total payload :
  Spends (payloads_loop fuel payloads msgbuf e offset length total payload).
Proof.
  revert offset total payload. induction fuel; intros; simpl; [by apply spends_fail|].
  unfold ikev2_send_informational. spends_tac.
Qed.
End chain.

#[global] Instance spends_pld_payloads depth offset length payload :
  Spends (ikev2_pld_payloads depth offset length payload).
Proof.
  revert offset length payload. induction depth; intros; [by apply spends_fail|].
  cbn [ikev2_pld_payloads]. spends_step. spends_step. intros. by apply spends_loop.
Qed.

#[global] Instance spends_pld_parse hdr offset : Spends (ikev2_pld_parse hdr offset).
Proof. unfold ikev2_pld_parse. spends_tac. Qed.
End handlers.

#[global] Instance spends_quick_loop fuel msgbuf offset length total payload :
  Spends (quick_loop fuel msgbuf offset length total payload).
Proof. revert offset total payload. induction fuel; intros; simpl; spends_tac. Qed.
#[global] Instance spends_parse_quick hdr offset : Spends (ikev2_pld_parse_quick hdr offset).
Proof. unfold ikev2_pld_parse_quick. spends_tac. Qed.

(** ** The parser's guarantees *)

Lemma safe_or_oom {A} (m : P A) `{!Spends m} Q s :
  wp oom_only m Q s →
  (∃ a s', m s = Ok (a, s') ∧ Q a s') ∨ (m s = Fault Foom ∧ false ∈ ps_alloc s).
Proof.
  intros [H|E]%wp_oom_only; [by left|right]. split; [done|].
  pose proof (spends (m := m) s) as H. rewrite E in H. by apply H.
Qed.





