(* ===== verification/Recv.v ===== *)
(** * Receiving messages: [ikev2_recv], message ids and retransmission

    What [ikev2.c] and [ikev2_msg.c] do with a datagram that belongs to an SA:
    the window of message ids, answering a repeated request from the queue of
    responses, matching a response with the request it answers, and the front
    of the handlers of both directions, up to where the message is known to be
    valid. What an exchange does with a valid message is behind an interface
    ([Exchanges]), which promises to leave the window alone. *)

From stdpp Require Import sorting.
From S2P Require Import Prelude Types SaState Proposals Ibuf Build Parse ParseSk ParseTop Queue.
From S2P Require Import Samples ParseAlloc.
#[local] Open Scope Z_scope.

(** The state while a message is handled: the SA with its queues, and the
    parser with the message. [rs_policy] are the flags of the SA's policy;
    [rs_natt] and [rs_valid] the fields [msg_natt] and [msg_valid] of the
    message. [sa_last_recvd], [sa_peer] and [sa_fd], which nothing modelled
    reads, are left out. *)
Record rstate := mk_rstate {
  rs_nd : node;
  rs_ps : pstate;
  rs_policy : Z;
  rs_natt : bool;
  rs_valid : bool }.
Definition eta_rs (r : rstate) : rstate :=
  mk_rstate (rs_nd r) (rs_ps r) (rs_policy r) (rs_natt r) (rs_valid r).
Definition set_rs_nd (v : node) (r : rstate) : rstate := ltac:(upd eta_rs rs_nd r v).
Definition set_rs_ps (v : pstate) (r : rstate) : rstate := ltac:(upd eta_rs rs_ps r v).
Definition set_rs_valid (v : bool) (r : rstate) : rstate := ltac:(upd eta_rs rs_valid r v).

Abbreviation R := (M rstate).

Definition rs_sa (s : rstate) : option iked_sa := nd_sa (rs_nd s).

(** Code that works on the SA and its queues. *)
Definition on_node {A} (m : N A) : R A := λ s,
  match m (rs_nd s) with
  | Ok (a, n) => Ok (a, set_rs_nd n s)
  | Fault f => Fault f
  end.

(** The parser works on the same SA and the same memory. *)
Definition on_parser {A} (m : P A) : R A := λ s,
  match m (set_ps_sa (rs_sa s) (set_ps_alloc (nd_alloc (rs_nd s)) (rs_ps s))) with
  | Ok (a, p) =>
      Ok (a, set_rs_ps p (set_rs_nd (set_nd_sa (ps_sa p) (set_nd_alloc (ps_alloc p) (rs_nd s))) s))
  | Fault f => Fault f
  end.

(** What the code goes through before it follows [sa]. *)
Definition with_rsa {A} (k : iked_sa → R A) : R A :=
  osa ← gets rs_sa;
  match osa with None => fail Fnull | Some sa => k sa end.

(** ** The exchanges *)

(** [ex_notifies] is [ikev2_handle_notifies], [ex_update_spi] the call of
    [sa_new] for an IKE_SA_INIT response ([false]: the SA is not the one it
    belongs to), [ex_init] and [ex_resp] the [switch] over the exchange at the
    end of [ikev2_init_recv] and [ikev2_resp_recv], from [ikev2_enable_natt] on
    for the initiator. [ex_no_sa] are the two handlers for a message that
    belongs to no SA. *)
Class Exchanges := {
  ex_notifies : R Z;
  ex_update_spi : ike_header → R bool;
  ex_init : ike_header → R unit;
  ex_resp : ike_header → R unit;
  ex_no_sa : ike_header → bool → R unit }.

(** ** [ikev2_msg.c] *)

Definition ikev2_msg_valid_ike_sa (hdr : ike_header) (osa : option iked_sa) (policy : bool) : Z :=
  match osa with
  | None => -1
  | Some sa =>
      if negb policy then -1
      else if sa_state sa =? IKEV2_STATE_CLOSED then -1
      else if sa_state sa =? IKEV2_STATE_CLOSING then
        if (Z.land (ike_flags hdr) (Z.lor IKEV2_FLAG_INITIATOR IKEV2_FLAG_RESPONSE) =?
            IKEV2_FLAG_INITIATOR) &&
           (ike_exchange hdr =? IKEV2_EXCHANGE_INFORMATIONAL) then 0
        else -1
      else 0
  end.

(** Answer from the queue: [-2] when there is no response, [0] when it was
    sent again or the request was a later fragment, [-1] on failure. *)
Definition ikev2_msg_retransmit_response (hdr : ike_header) : R Z := with_rsa (λ sa,
  o ← lift (ikev2_msg_lookup (sa_responses sa) (ike_msgid hdr) (ike_exchange hdr));
  match o with
  | None => mret (-2)
  | Some i =>
      skip ← (if ike_nextpayload hdr =? IKEV2_PAYLOAD_SKF then
                off ← gets (λ s, msg_offset (ps_msg (rs_ps s)));
                r ← on_parser (ikev2_pld_parse_quick hdr off);
                num ← gets (λ s, msg_frag_num (ps_msg (rs_ps s)));
                mret (negb (r =? 0) || negb (num =? 1))
              else mret false);
      if (skip : bool) then mret 0
      else match sa_responses sa !! i with
      | None => fail Fnull
      | Some mr =>
          ok ← on_node (resend (mrt_frags mr));
          if negb ok then _ ← on_node (count inc_send_failures); mret (-1)
          else
            _ ← on_node (upd_nsa (set_sa_responses (<[i := mk_mrt (mrt_frags mr) (mrt_tries mr)
                  (Some IKED_RESPONSE_TIMEOUT)]> (sa_responses sa))));
            _ ← on_node (count inc_retransmit_response);
            mret 0
      end
  end).

(** ** The handlers *)

Section recv.
Context `{!External, !Exchanges}.

(** [socket_af] knows two families. *)
Definition socket_ok (a : sockaddr) : bool :=
  (sa_family a =? AF_INET) || (sa_family a =? AF_INET6).

(** The addresses the peer used last; [false] drops the message. *)
Definition update_addresses : R bool :=
  m ← gets (λ s, ps_msg (rs_ps s));
  if negb (socket_ok (msg_peer m)) then
    _ ← on_node (count inc_rcvd_dropped); mret false
  else
    _ ← on_node (upd_nsa (set_sa_local (msg_local m)));
    if negb (socket_ok (msg_local m)) then
      _ ← on_node (count inc_rcvd_dropped); mret false
    else mret true.

Definition parse_message (hdr : ike_header) : R Z :=
  off ← gets (λ s, msg_offset (ps_msg (rs_ps s)));
  on_parser (ikev2_pld_parse hdr off).

(** [ikev2_init_recv] of a message with an SA; [false] is a [return]. *)
Definition init_check (hdr : ike_header) : R bool :=
  osa ← gets rs_sa;
  if ikev2_msg_valid_ike_sa hdr osa true =? -1 then mret false
  else if ike_exchange hdr =? IKEV2_EXCHANGE_IKE_SA_INIT then ex_update_spi hdr
  else mret ((ike_exchange hdr =? IKEV2_EXCHANGE_IKE_AUTH) ||
             (ike_exchange hdr =? IKEV2_EXCHANGE_CREATE_CHILD_SA) ||
             (ike_exchange hdr =? IKEV2_EXCHANGE_INFORMATIONAL)).

Definition ikev2_init_recv (hdr : ike_header) : R unit :=
  ok ← init_check hdr;
  if negb ok then mret tt
  else
    r ← parse_message hdr;
    if negb (r =? 0) then mret tt
    else
      ok ← update_addresses;
      if negb ok then mret tt
      else with_rsa (λ sa,
        if negb (frag_count (sa_fragments sa) =? 0) then mret tt
        else
          peer ← on_parser ikev2_msg_frompeer;
          if negb peer then mret tt
          else
            r ← ex_notifies;
            if negb (r =? 0) then mret tt else ex_init hdr).

(** [ikev2_resp_recv] of a message with an SA. *)
Definition resp_check (hdr : ike_header) : R bool :=
  osa ← gets rs_sa;
  if ike_exchange hdr =? IKEV2_EXCHANGE_IKE_SA_INIT then mret false
  else if ike_exchange hdr =? IKEV2_EXCHANGE_IKE_AUTH then
    mret (negb (ikev2_msg_valid_ike_sa hdr osa true =? -1) &&
          negb (match osa with Some sa => sa_stateok sa IKEV2_STATE_VALID | None => false end))
  else if (ike_exchange hdr =? IKEV2_EXCHANGE_CREATE_CHILD_SA) ||
          (ike_exchange hdr =? IKEV2_EXCHANGE_INFORMATIONAL) then
    mret (negb (ikev2_msg_valid_ike_sa hdr osa true =? -1))
  else mret false.

Definition ikev2_resp_recv (hdr : ike_header) : R unit :=
  ok ← resp_check hdr;
  if negb ok then mret tt
  else
    r ← parse_message hdr;
    if negb (r =? 0) then mret tt
    else
      peer ← on_parser ikev2_msg_frompeer;
      if negb peer then mret tt
      else
        r ← ex_notifies;
        osa ← gets rs_sa;
        if negb (r =? 0) || negb (bool_decide (is_Some osa)) then mret tt
        else
          ok ← update_addresses;
          if negb ok then mret tt
          else with_rsa (λ sa,
            if negb (frag_count (sa_fragments sa) =? 0) then mret tt
            else
              _ ← modify (set_rs_valid true);
              natt ← gets rs_natt;
              _ ← (if natt && negb (sa_natt sa) then on_node (upd_nsa (set_sa_natt true)) else mret tt);
              ex_resp hdr).

(** ** [ikev2_recv] *)

Definition sa_free : R unit := on_node (modify (set_nd_sa None)).

(** What the caller does next: go on as initiator or not, or drop the
    message. *)
Inductive verdict := Handle (initiator : bool) | Done.

Definition drop_message : R verdict := _ ← on_node (count inc_rcvd_dropped); mret Done.

(** The bit of [sa_stateflags] an exchange of ours raised. *)
Definition request_flag (hdr : ike_header) : Z :=
  if ike_exchange hdr =? IKEV2_EXCHANGE_INFORMATIONAL then IKED_REQ_INF
  else if ike_exchange hdr =? IKEV2_EXCHANGE_CREATE_CHILD_SA then IKED_REQ_CHILDSA
  else 0.

(** A response: is there a request it answers? *)
Definition recv_response (hdr : ike_header) (initiator : bool) : R verdict := with_rsa (λ sa,
  if negb (to_u32 (ike_msgid hdr + 1) =? sa_reqid sa) then drop_message
  else
    mr ← lift (ikev2_msg_lookup (sa_requests sa) (ike_msgid hdr) (ike_exchange hdr));
    if negb (ike_exchange hdr =? IKEV2_EXCHANGE_INFORMATIONAL) &&
       negb (bool_decide (is_Some mr)) && (frag_count (sa_fragments sa) =? 0) then drop_message
    else
      let flag := request_flag hdr in
      if negb (flag =? 0) && (Z.land (sa_stateflags sa) flag =? 0) then drop_message
      else
        let initiator := if negb (flag =? 0) then true else initiator in
        _ ← match mr with
            | Some i =>
                if negb (ike_nextpayload hdr =? IKEV2_PAYLOAD_SKF) then
                  on_node (upd_nsa (set_sa_requests (ikev2_msg_dispose (sa_requests sa) i)))
                else mret tt
            | None => mret tt
            end;
        mret (Handle initiator)).

(** A request: is it new? *)
Definition recv_request (hdr : ike_header) (initiator : bool) : R verdict := with_rsa (λ sa,
  if ike_msgid hdr <? sa_msgid sa then drop_message
  else
    let initiator := if negb (request_flag hdr =? 0) then false else initiator in
    r ← ikev2_msg_retransmit_response hdr;
    if negb (r =? -2) then
      _ ← (if r =? -1 then sa_free else mret tt); mret Done
    else if sa_msgid_set sa && (ike_msgid hdr =? sa_msgid sa) then
      _ ← on_node (count inc_rcvd_busy); mret Done
    else
      _ ← on_node (upd_nsa (set_sa_msgid_current (ike_msgid hdr)));
      mret (Handle initiator)).

(** A closed SA makes room for another IKE_SA_INIT request with its SPI. *)
Definition replaced (hdr : ike_header) (data : bytes) (sa : iked_sa) : bool :=
  match sa_1stmsg sa with
  | None => false
  | Some first =>
      (sa_state sa =? IKEV2_STATE_CLOSED) &&
      (ike_exchange hdr =? IKEV2_EXCHANGE_IKE_SA_INIT) && (ike_msgid hdr =? 0) &&
      negb (bool_decide (data = first))
  end.

(** After the handlers. *)
Definition recv_finish (hdr : ike_header) (response : bool) : R unit :=
  valid ← gets rs_valid;
  _ ← (if negb response && valid then with_rsa (λ sa,
         q ← lift (ikev2_msg_prevail (sa_responses sa) (ike_msgid hdr));
         on_node (upd_nsa (λ sa, set_sa_responses q
           (set_sa_msgid_set true (set_sa_msgid (sa_msgid_current sa) sa)))))
       else mret tt);
  with_rsa (λ sa, if sa_state sa =? IKEV2_STATE_CLOSED then sa_free else mret tt).

(** What [ikev2_recv] does once it has found an SA. *)
Definition recv_known (hdr : ike_header) (data : bytes) (initiator response : bool) (sa : iked_sa) : R unit :=
  if negb (ike_exchange hdr =? IKEV2_EXCHANGE_IKE_SA_INIT) &&
     negb (ike_nextpayload hdr =? IKEV2_PAYLOAD_SK) &&
     negb (ike_nextpayload hdr =? IKEV2_PAYLOAD_SKF) then
    on_node (count inc_rcvd_dropped)
  else if negb response && replaced hdr data sa then
    _ ← sa_free; ex_no_sa hdr initiator
  else
    v ← (if response then recv_response hdr initiator else recv_request hdr initiator);
    match v with
    | Done => mret tt
    | Handle initiator =>
        _ ← (if initiator then ikev2_init_recv hdr else ikev2_resp_recv hdr);
        recv_finish hdr response
    end.

(** The message as it was read from the socket is in [rs_ps], the SA found by
    [sa_lookup] in [rs_nd]. [policy_lookup] gives an SA its own policy; without
    an SA it comes first in [ex_no_sa]. *)
Definition ikev2_recv : R unit :=
  m ← gets (λ s, ps_msg (rs_ps s));
  let data := msg_data m in
  if negb (seek_ok data (msg_offset m) sizeof_ike_header) then mret tt
  else
    b ← lift (rd data (msg_offset m) sizeof_ike_header);
    let hdr := dec_ike_header b in
    if blen data <? (ike_length hdr - msg_offset m)%sz then mret tt
    else
      _ ← on_node (count inc_rcvd);
      let initiator := negb (has_bit (ike_flags hdr) IKEV2_FLAG_INITIATOR) in
      let response := has_bit (ike_flags hdr) IKEV2_FLAG_RESPONSE in
      _ ← modify (λ s, set_rs_ps (set_ps_msg (set_msg_response response
                   (set_msg_policy (Some (rs_policy s)) m)) (rs_ps s)) s);
      osa ← gets rs_sa;
      match osa with
      | None => ex_no_sa hdr initiator
      | Some sa => recv_known hdr data initiator response sa
      end.
End recv.

(** ** What leaves the window alone *)

(** The ids of requests: the last one taken, whether there was one, and the
    one being answered. *)
Definition window (sa : iked_sa) : Z * bool * Z := (sa_msgid sa, sa_msgid_set sa, sa_msgid_current sa).

(** The SA is gone or has its window; with [v], the message is no more valid
    than before. *)
Definition kept (v : bool) (s s' : rstate) : Prop :=
  (rs_sa s' = None ∨ window <$> rs_sa s' = window <$> rs_sa s) ∧ (v = true → rs_valid s' = rs_valid s).

Class Keeps (v : bool) {A} (m : R A) : Prop := keeps s a s' : m s = Ok (a, s') → kept v s s'.

(** What the exchanges promise: only [ikev2_recv] itself writes the window
    and only [ikev2_resp_recv] declares a message valid. *)
Class ExchangesLaws `{!Exchanges} := {
  #[global] keeps_notifies :: Keeps true ex_notifies;
  #[global] keeps_update_spi hdr :: Keeps true (ex_update_spi hdr);
  #[global] keeps_init hdr :: Keeps true (ex_init hdr);
  #[global] keeps_resp hdr :: Keeps true (ex_resp hdr) }.

#[global] Instance kept_preorder v : PreOrder (kept v).
Proof.
  split.
  - intros s. split; [by right|done].
  - intros s1 s2 s3 [H1 V1] [H2 V2]. split.
    + destruct H2 as [H2|H2]; [by left|]. destruct H1 as [H1|H1]; [|right; congruence].
      left. rewrite H1 in H2. by destruct (rs_sa s3).
    + intros Hv. rewrite V2, V1; done.
Qed.

Lemma keeps_weaken {A} v (m : R A) : Keeps true m → Keeps v m.
Proof. intros H s a s' E. destruct (H _ _ _ E) as [H1 H2]. split; [done|]. intros _. by apply H2. Qed.

#[global] Instance keeps_ret v {A} (a : A) : Keeps v (mret a).
Proof. intros s b s' [= <- <-]. done. Qed.
#[global] Instance keeps_bind v {A B} (m : R A) (k : A → R B) :
  Keeps v m → (∀ a, Keeps v (k a)) → Keeps v (m ≫= k).
Proof.
  intros Hm Hk s b s'. unfold mbind, M_bind. destruct (m s) as [[a s1]|] eqn:E; [|done].
  intros E'. etrans; [by eapply Hm|by eapply Hk].
Qed.
#[global] Instance keeps_gets v {A} (f : rstate → A) : Keeps v (gets f).
Proof. intros s a s' [= <- <-]. done. Qed.
#[global] Instance keeps_fail v {A} f : Keeps (A := A) v (fail f).
Proof. by intros s a s'. Qed.
#[global] Instance keeps_lift v {A} (o : out A) : Keeps v (lift o).
Proof. intros s a s'. unfold lift. destruct o; [|done]. by intros [= <- <-]. Qed.
#[global] Instance keeps_with_rsa v {A} (k : iked_sa → R A) : (∀ sa, Keeps v (k sa)) → Keeps v (with_rsa k).
Proof. intros Hk. unfold with_rsa. apply keeps_bind; [apply _|]. intros [sa|]; apply _. Qed.
#[global] Instance keeps_sa_free v : Keeps v sa_free.
Proof. intros s a s' [= <- <-]. split; [by left|done]. Qed.

#[global] Instance keeps_parser v {A} (m : P A) : Spends m → Keeps v (on_parser m).
Proof.
  intros Hm s a s'. unfold on_parser.
  pose proof (Hm (set_ps_sa (rs_sa s) (set_ps_alloc (nd_alloc (rs_nd s)) (rs_ps s)))) as H.
  destruct (m _) as [[b p]|]; [|done]. intros [= <- <-]. split; [right|done].
  destruct H as [_ H]. simpl in H. unfold rs_sa at 1. simpl.
  destruct (ps_sa p) as [sa|], (rs_sa s) as [sa'|]; simpl in *; try done. f_equal.
  apply (inj Some) in H. exact (f_equal window H).
Qed.

(** Code on the SA and its queues. *)
Lemma keeps_node v {A} (m : N A) :
  (∀ n a n', m n = Ok (a, n') →
     nd_sa n' = None ∨ window <$> nd_sa n' = window <$> nd_sa n) → Keeps v (on_node m).
Proof.
  intros Hm s a s'. unfold on_node. destruct (m (rs_nd s)) as [[b n]|] eqn:E; [|done].
  intros [= <- <-]. split; [|done]. exact (Hm _ _ _ E).
Qed.
#[global] Instance keeps_count v f : Keeps v (on_node (count f)).
Proof. apply keeps_node. intros n a n' [= <- <-]. by right. Qed.
Lemma keeps_upd_nsa v f : (∀ sa, window (f sa) = window sa) → Keeps v (on_node (upd_nsa f)).
Proof.
  intros Hf. apply keeps_node. intros n a n' [= <- <-]. right. simpl.
  destruct (nd_sa n); simpl; [by rewrite Hf|done].
Qed.
Lemma resend_sa frags n ok n' : resend frags n = Ok (ok, n') → nd_sa n' = nd_sa n.
Proof.
  revert n. induction frags as [|m frags IH]; intros n; simpl; [by intros [= <- <-]|].
  unfold mbind, M_bind, sendtofrom.
  destruct (nd_net n) as [|[|u] l]; [intros E; by apply IH in E| |by intros [= <- <-]].
  intros E. by apply IH in E.
Qed.
#[global] Instance keeps_resend v frags : Keeps v (on_node (resend frags)).
Proof. apply keeps_node. intros n a n' E. right. by rewrite (resend_sa _ _ _ _ E). Qed.

Ltac keeps_step :=
  first
    [ apply _
    | apply keeps_upd_nsa; reflexivity
    | apply keeps_weaken; apply _
    | apply keeps_with_rsa; intros
    | apply keeps_bind; [|intros]
    | match goal with |- Keeps _ (match ?x with _ => _ end) => destruct x end
    | progress cbv zeta ].
Ltac keeps_tac := repeat keeps_step.

#[global] Instance keeps_retransmit v hdr : Keeps v (ikev2_msg_retransmit_response hdr).
Proof. unfold ikev2_msg_retransmit_response. keeps_tac. Qed.

Section handlers.
Context `{!External, !Exchanges, !ExchangesLaws}.

#[global] Instance keeps_frompeer v : Keeps v (on_parser ikev2_msg_frompeer).
Proof. apply _. Qed.
#[global] Instance keeps_addresses v : Keeps v update_addresses.
Proof. unfold update_addresses. keeps_tac. Qed.
#[global] Instance keeps_parse_message v hdr : Keeps v (parse_message hdr).
Proof. unfold parse_message. keeps_tac. Qed.
#[global] Instance keeps_init_check v hdr : Keeps v (init_check hdr).
Proof. unfold init_check. keeps_tac. Qed.
#[global] Instance keeps_init_recv v hdr : Keeps v (ikev2_init_recv hdr).
Proof. unfold ikev2_init_recv. keeps_tac. Qed.
#[global] Instance keeps_resp_check v hdr : Keeps v (resp_check hdr).
Proof. unfold resp_check. keeps_tac. Qed.
#[local] Instance keeps_set_valid b : Keeps false (modify (set_rs_valid b)).
Proof. intros s a s' [= <- <-]. split; [by right|done]. Qed.
#[global] Instance keeps_resp_recv hdr : Keeps false (ikev2_resp_recv hdr).
Proof. unfold ikev2_resp_recv. keeps_tac. Qed.
#[global] Instance keeps_response v hdr i : Keeps v (recv_response hdr i).
Proof. unfold recv_response, drop_message. keeps_tac. Qed.
End handlers.

(** ** Requests are taken once *)

Definition msg_hdr (m : iked_message) : ike_header :=
  dec_ike_header (sub_bytes (msg_offset m) sizeof_ike_header (msg_data m)).

(** A datagram arrives: a fresh message for the SA. *)
Definition arrive (m : iked_message) (natt : bool) (s : rstate) : rstate :=
  mk_rstate (rs_nd s) (set_ps_emsg None (set_ps_msg m (rs_ps s))) (rs_policy s) natt false.

(** The request that was handed to its exchange, if the message was one. *)
Definition taken (m : iked_message) (s' : rstate) : list Z :=
  if negb (has_bit (ike_flags (msg_hdr m)) IKEV2_FLAG_RESPONSE) && rs_valid s'
  then [ike_msgid (msg_hdr m)] else [].

Lemma bind_inv {A B} (m : R A) (k : A → R B) s b s' :
  (m ≫= k) s = Ok (b, s') → ∃ a s1, m s = Ok (a, s1) ∧ k a s1 = Ok (b, s').
Proof. unfold mbind, M_bind. destruct (m s) as [[a s1]|]; [eauto|done]. Qed.

Lemma with_rsa_inv {A} (k : iked_sa → R A) s a s' :
  with_rsa k s = Ok (a, s') → ∃ sa, rs_sa s = Some sa ∧ k sa s = Ok (a, s').
Proof.
  intros H. apply bind_inv in H as (o & s1 & [= <- <-] & H). destruct (rs_sa s) as [sa|]; [eauto|done].
Qed.

(** [recv_request] goes on only with a new id, which it notes. *)
Lemma recv_request_run hdr i s v s' sa :
  rs_sa s = Some sa → recv_request hdr i s = Ok (v, s') →
  rs_valid s' = rs_valid s ∧
  match v with
  | Done => rs_sa s' = None ∨ window <$> rs_sa s' = window <$> rs_sa s
  | Handle _ =>
      (rs_sa s' = None ∨
       window <$> rs_sa s' = Some (sa_msgid sa, sa_msgid_set sa, ike_msgid hdr)) ∧
      sa_msgid sa ≤ ike_msgid hdr ∧ (sa_msgid_set sa = true → sa_msgid sa < ike_msgid hdr)
  end.
Proof.
  intros Hs H. apply with_rsa_inv in H as (sa' & Hs' & H). rewrite Hs in Hs'. injection Hs' as <-.
  destruct (Z.ltb_spec (ike_msgid hdr) (sa_msgid sa)) as [Hlt|Hle].
  { assert (Keeps true drop_message) as Hk by (unfold drop_message; keeps_tac).
    unfold drop_message in Hk, H. pose proof (Hk _ _ _ H) as [Hw Hv].
    apply bind_inv in H as (u & s1 & _ & [= <- <-]). split; [by apply Hv|done]. }
  apply bind_inv in H as (r & s1 & Er & H). pose proof (keeps_retransmit true hdr _ _ _ Er) as [Hw Hv].
  destruct (negb (r =? -2)).
  { apply bind_inv in H as (u & s2 & E2 & [= <- <-]).
    assert (Hk : Keeps true (if r =? -1 then sa_free else mret tt)) by keeps_tac.
    assert (kept true s s2) as [Hw' Hv'] by (etrans; [exact (conj Hw Hv)|exact (Hk _ _ _ E2)]).
    split; [by apply Hv'|done]. }
  destruct (sa_msgid_set sa && (ike_msgid hdr =? sa_msgid sa)) eqn:Eb.
  { apply bind_inv in H as (u & s2 & E2 & [= <- <-]).
    assert (kept true s s2) as [Hw' Hv']
      by (etrans; [exact (conj Hw Hv)|exact (keeps_count true _ _ _ _ E2)]).
    split; [by apply Hv'|done]. }
  apply bind_inv in H as (u & s2 & [= <- <-] & [= <- <-]). simpl. split; [by apply Hv|]. split; [|split].
  - rewrite Hs in Hw. unfold rs_sa in *. simpl.
    destruct (nd_sa (rs_nd s1)) as [sa1|]; simpl; [right|by left].
    destruct Hw as [?|Hw]; [done|]. simpl in Hw. injection Hw as H1 H2 H3.
    unfold window. simpl. by rewrite H1, H2.
  - done.
  - intros Hset. rewrite Hset in Eb. simpl in Eb. lia.
Qed.

Lemma recv_finish_run hdr response s s' :
  recv_finish hdr response s = Ok (tt, s') →
  rs_valid s' = rs_valid s ∧ ∃ sa, rs_sa s = Some sa ∧
  (rs_sa s' = None ∨ window <$> rs_sa s' =
     Some (if negb response && rs_valid s
           then (sa_msgid_current sa, true, sa_msgid_current sa) else window sa)).
Proof.
  intros H. apply bind_inv in H as (v & s0 & [= <- <-] & H). apply bind_inv in H as (u & s1 & E1 & H).
  apply with_rsa_inv in H as (sa1 & Hs1 & H).
  assert (Hk : Keeps true (if sa_state sa1 =? IKEV2_STATE_CLOSED then sa_free else mret tt)) by keeps_tac.
  pose proof (Hk _ _ _ H) as [Hw Hv]. rewrite (Hv eq_refl), Hs1 in *.
  destruct (negb response && rs_valid s).
  - apply with_rsa_inv in E1 as (sa & Hs & E1). apply bind_inv in E1 as (q & s2 & Eq & E1).
    unfold lift in Eq. destruct (ikev2_msg_prevail _ _); [|done]. injection Eq as <- <-.
    injection E1 as <- <-. split; [done|]. exists sa. split; [done|].
    unfold rs_sa in Hs1, Hs. simpl in Hs1. rewrite Hs in Hs1. injection Hs1 as <-. exact Hw.
  - injection E1 as <- <-. split; [done|]. exists sa1. split; [done|]. exact Hw.
Qed.

Section session.
Context `{!External, !Exchanges, !ExchangesLaws}.

(** What a message may do to the window. *)
Definition advanced (m : iked_message) (sa : iked_sa) (s' : rstate) : Prop :=
  rs_sa s' = None ∨
  match taken m s' with
  | [] => (λ sa', (sa_msgid sa', sa_msgid_set sa')) <$> rs_sa s' = Some (sa_msgid sa, sa_msgid_set sa)
  | ids => ids = [ike_msgid (msg_hdr m)] ∧
      sa_msgid sa ≤ ike_msgid (msg_hdr m) ∧
      (sa_msgid_set sa = true → sa_msgid sa < ike_msgid (msg_hdr m)) ∧
      (λ sa', (sa_msgid sa', sa_msgid_set sa')) <$> rs_sa s' = Some (ike_msgid (msg_hdr m), true)
  end.

Lemma advanced_kept m sa s s' :
  rs_sa s = Some sa → rs_valid s = false → kept true s s' → advanced m sa s'.
Proof.
  intros Hs Hv [Hw Hv']. destruct Hw as [|Hw]; [by left|right]. unfold taken.
  rewrite (Hv' eq_refl), Hv, andb_false_r. rewrite Hs in Hw. destruct (rs_sa s'); [|done].
  simpl in *. by injection Hw as -> -> _.
Qed.

Lemma handler_run hdr (i : bool) s s' :
  (if i then ikev2_init_recv hdr else ikev2_resp_recv hdr) s = Ok (tt, s') → kept false s s'.
Proof. destruct i; intros E; [exact (keeps_init_recv false hdr _ _ _ E)|exact (keeps_resp_recv hdr _ _ _ E)]. Qed.

(** A request that is handed to its handler. *)
Lemma request_advanced m i j s s1 s2 sa :
  rs_sa s = Some sa → has_bit (ike_flags (msg_hdr m)) IKEV2_FLAG_RESPONSE = false →
  recv_request (msg_hdr m) i s = Ok (Handle j, s1) →
  kept false s1 s2 → ∀ s', recv_finish (msg_hdr m) false s2 = Ok (tt, s') → advanced m sa s'.
Proof.
  intros Hs Hr Hq [Hw2 _] s' Hf.
  destruct (recv_request_run _ _ _ _ _ _ Hs Hq) as (Hv & Hw1 & Hle & Hlt).
  destruct (recv_finish_run _ _ _ _ Hf) as (Hv' & sa2 & Hs2 & [Hw'|Hw']); [by left|right].
  rewrite Hs2 in Hw2. destruct Hw2 as [|Hw2]; [done|].
  destruct Hw1 as [Hw1|Hw1]; [by rewrite Hw1 in Hw2|]. rewrite Hw1 in Hw2.
  simpl in Hw2. injection Hw2 as Q1 Q2 Q3. unfold taken. rewrite Hr, Hv'. simpl in *.
  destruct (rs_sa s') as [sa'|]; [|done]. simpl in *.
  destruct (rs_valid s2); unfold window in Hw'; injection Hw' as E1 E2 _; rewrite E1, E2; [|by rewrite Q1, Q2].
  rewrite Q3. auto.
Qed.

(** The part of [ikev2_recv] that has found an SA. *)
Lemma recv_known_advanced m (i : bool) s s' sa :
  let hdr := msg_hdr m in
  let response := has_bit (ike_flags hdr) IKEV2_FLAG_RESPONSE in
  rs_sa s = Some sa → rs_valid s = false →
  response = true ∨ replaced hdr (msg_data m) sa = false →
  recv_known hdr (msg_data m) i response sa s = Ok (tt, s') → advanced m sa s'.
Proof.
  intros hdr response Hs Hv Hrep E. unfold recv_known in E. destruct (negb _ && _ && _).
  { apply keeps_count with (v := true) in E. by apply (advanced_kept m sa s). }
  replace (negb response && replaced hdr (msg_data m) sa) with false in E
    by (destruct Hrep as [->| ->]; [done|by rewrite andb_false_r]).
  apply bind_inv in E as (v & s1 & E1 & E). destruct response eqn:Er.
  - pose proof (keeps_response true _ _ _ _ _ E1) as K1. destruct v as [j|].
    + apply bind_inv in E as ([] & s2 & E2 & E). apply handler_run in E2.
      destruct (recv_finish_run _ _ _ _ E) as (_ & sa2 & Hs2 & [|Hw]); [by left|right].
      assert (K : kept false s s2) by (etrans; [destruct K1; split; done|done]).
      destruct K as [[K|K] _]; rewrite Hs2, ?Hs in K; [done|].
      unfold taken. fold hdr response. rewrite Er. simpl in *. destruct (rs_sa s'); [|done].
      simpl in *. unfold window in *. congruence.
    + injection E as <-. by apply (advanced_kept m sa s).
  - destruct v as [j|].
    + apply bind_inv in E as ([] & s2 & E2 & E). apply handler_run in E2.
      by eapply request_advanced.
    + injection E as <-. destruct (recv_request_run _ _ _ _ _ _ Hs E1) as [Hv' Hw].
      apply (advanced_kept m sa s); [done..|]. split; [done|]. by intros _.
Qed.

(** What runs of [ikev2_recv] do for an SA that stays. *)
Lemma recv_advanced m natt s sa s' :
  rs_sa s = Some sa →
  has_bit (ike_flags (msg_hdr m)) IKEV2_FLAG_RESPONSE = true ∨
    replaced (msg_hdr m) (msg_data m) sa = false →
  ikev2_recv (arrive m natt s) = Ok (tt, s') → advanced m sa s'.
Proof.
  intros Hs Hrep E. unfold ikev2_recv in E.
  apply bind_inv in E as (m' & s0 & [= <- <-] & E). cbn [ps_msg rs_ps arrive set_ps_emsg set_ps_msg] in E.
  assert (Hs0 : rs_sa (arrive m natt s) = Some sa) by done.
  assert (Hv0 : rs_valid (arrive m natt s) = false) by done.
  set (s0 := arrive m natt s) in *. clearbody s0. clear s Hs.
  destruct (negb (seek_ok _ _ _)).
  { injection E as <-. by apply (advanced_kept m sa s0). }
  apply bind_inv in E as (b & s1 & Er & E). unfold lift in Er.
  unfold rd in Er. destruct (_ && _); [|done]. injection Er as <- <-. fold (msg_hdr m) in E.
  destruct (blen (msg_data m) <? _).
  { injection E as <-. by apply (advanced_kept m sa s0). }
  apply bind_inv in E as (u & s1 & [= <- <-] & E).
  apply bind_inv in E as (u & s2 & [= <- <-] & E).
  apply bind_inv in E as (osa & s2 & [= <- <-] & E).
  match type of E with context [rs_sa ?st] => change (rs_sa st) with (rs_sa s0) in E end.
  rewrite Hs0 in E. by apply recv_known_advanced in E.
Qed.

(** The life of an SA from [s] to [s']: messages arrive, and between them
    anything happens that leaves the window alone. The ids are those of the
    requests that were taken. *)
Inductive session (s : rstate) : list Z → rstate → Prop :=
  | session_start : session s [] s
  | session_recv ids s1 sa m natt s2 :
      session s ids s1 → rs_sa s1 = Some sa →
      has_bit (ike_flags (msg_hdr m)) IKEV2_FLAG_RESPONSE = true ∨
        replaced (msg_hdr m) (msg_data m) sa = false →
      ikev2_recv (arrive m natt s1) = Ok (tt, s2) → is_Some (rs_sa s2) →
      session s (ids ++ taken m s2) s2
  | session_other ids s1 s2 :
      session s ids s1 → kept false s1 s2 → is_Some (rs_sa s2) → session s ids s2.

(** The window after the requests [ids]. *)
Definition window_after (sa : iked_sa) (ids : list Z) (sa' : iked_sa) : Prop :=
  match last ids with
  | Some id => sa_msgid sa' = id ∧ sa_msgid_set sa' = true
  | None => sa_msgid sa' = sa_msgid sa ∧ sa_msgid_set sa' = sa_msgid_set sa
  end.

Definition ids_ok (sa : iked_sa) (ids : list Z) : Prop :=
  StronglySorted Z.lt ids ∧ Forall (λ id, sa_msgid sa ≤ id) ids ∧
  (sa_msgid_set sa = true → Forall (λ id, sa_msgid sa < id) ids).

Lemma ids_ok_snoc sa ids sa1 id :
  ids_ok sa ids → window_after sa ids sa1 → sa_msgid sa1 ≤ id →
  (sa_msgid_set sa1 = true → sa_msgid sa1 < id) → ids_ok sa (ids ++ [id]).
Proof.
  unfold window_after. intros (Hs & Hge & Hgt) Hw Hle Hlt.
  assert (Hup : Forall (λ x, x < id) ids).
  { destruct (last ids) as [x|] eqn:El; [|by rewrite last_None in El; subst].
    destruct Hw as [<- Hset]. specialize (Hlt Hset).
    apply last_Some in El as [l ->]. apply Forall_app. split; [|by repeat constructor].
    apply Forall_forall. intros y Hy.
    assert (y < sa_msgid sa1); [|lia].
    eapply StronglySorted_app_1_elem_of; [exact Hs|done|set_solver]. }
  split; [|split].
  - apply StronglySorted_app_2; [|done|by repeat constructor].
    intros x y Hx Hy. apply list_elem_of_singleton in Hy as ->. by eapply Forall_forall in Hup.
  - apply Forall_app. split; [done|]. constructor; [|done].
    destruct (last ids) as [x|] eqn:El; destruct Hw as [Hw _]; [|lia].
    apply last_Some in El as [l ->]. apply Forall_app in Hge as [_ Hge].
    apply Forall_cons in Hge as [Hge _]. lia.
  - intros Hset. apply Forall_app. split; [by apply Hgt|]. constructor; [|done].
    destruct (last ids) as [x|] eqn:El; destruct Hw as [Hw Hw']; [|rewrite Hw' in Hlt; specialize (Hlt Hset); lia].
    specialize (Hgt Hset). apply last_Some in El as [l ->]. apply Forall_app in Hgt as [_ Hgt].
    apply Forall_cons in Hgt as [Hgt _]. lia.
Qed.

Lemma session_ids s ids s' sa :
  session s ids s' → rs_sa s = Some sa →
  ∃ sa', rs_sa s' = Some sa' ∧ ids_ok sa ids ∧ window_after sa ids sa'.
Proof.
  intros Hss Hs. induction Hss as [|ids s1 sa1 m natt s2 _ IH Hs1 Hrep E [sa2 Hs2]|ids s1 s2 _ IH [K _] [sa2 Hs2]].
  - exists sa. split; [done|]. split; [|done]. repeat split; constructor.
  - destruct IH as (sa1' & Hs1' & Hok & Hw). rewrite Hs1 in Hs1'. injection Hs1' as <-.
    exists sa2. split; [done|].
    destruct (recv_advanced _ _ _ _ _ Hs1 Hrep E) as [Ha|Ha]; [by rewrite Ha in Hs2|].
    rewrite Hs2 in Ha. simpl in Ha. destruct (taken m s2) as [|x l].
    + rewrite app_nil_r. split; [done|]. injection Ha as E1 E2. unfold window_after in *. by rewrite E1, E2.
    + destruct Ha as ([= -> ->] & Hle & Hlt & Ha). injection Ha as E1 E2.
      split; [by eapply ids_ok_snoc|]. unfold window_after. by rewrite last_snoc.
  - destruct IH as (sa1 & Hs1 & Hok & Hw). exists sa2. split; [done|]. split; [done|].
    rewrite Hs1, Hs2 in K. destruct K as [|K]; [done|]. simpl in K. injection K as E1 E2 _.
    unfold window_after in *. by rewrite E1, E2.
Qed.

End session.


(** ** Repeated requests *)

Lemma lookup_at q i mr msgid exchange :
  queue_wf q → q !! i = Some mr → mrt_key mr = Some (msgid, exchange) →
  ikev2_msg_lookup q msgid exchange = Ok (Some i).
Proof.
  intros Hq Hi Hk. destruct (lookup_spec q msgid exchange) as (o & E & Ho); [apply Hq|].
  rewrite E. destruct o as [j|].
  - destruct Ho as (mr' & Hj & Hk'). by rewrite (key_unique q i j mr mr') by congruence.
  - exfalso. apply Ho. rewrite <- Hk. apply list_elem_of_fmap. exists mr. split; [done|].
    by eapply list_elem_of_lookup_2.
Qed.

(** The datagram holds the header and all the bytes it announces. *)
Definition whole (m : iked_message) : bool :=
  seek_ok (msg_data m) (msg_offset m) sizeof_ike_header &&
  ((0 <=? msg_offset m) && (msg_offset m + sizeof_ike_header <=? blen (msg_data m))) &&
  negb (blen (msg_data m) <? (ike_length (msg_hdr m) - msg_offset m)%sz).

(** The state in which [ikev2_recv] has noted the header. *)
Definition noted (m : iked_message) (natt : bool) (s : rstate) : rstate :=
  let s := arrive m natt s in
  set_rs_ps (set_ps_msg (set_msg_response (has_bit (ike_flags (msg_hdr m)) IKEV2_FLAG_RESPONSE)
    (set_msg_policy (Some (rs_policy s)) m)) (rs_ps s))
    (set_rs_nd (set_nd_cnt (inc_rcvd (nd_cnt (rs_nd s))) (rs_nd s)) s).

Section repeated.
Context `{!External, !Exchanges}.

Lemma recv_run m natt s sa :
  whole m = true → rs_sa s = Some sa →
  ikev2_recv (arrive m natt s) =
  recv_known (msg_hdr m) (msg_data m) (negb (has_bit (ike_flags (msg_hdr m)) IKEV2_FLAG_INITIATOR))
    (has_bit (ike_flags (msg_hdr m)) IKEV2_FLAG_RESPONSE) sa (noted m natt s).
Proof.
  unfold whole. intros Hw Hs. apply andb_true_iff in Hw as [Hw Hl]. apply andb_true_iff in Hw as [Hk Ho].
  apply andb_true_iff in Ho as [Ho1 Ho2]. apply negb_true_iff in Hl. unfold ikev2_recv.
  erewrite bind_run by reflexivity. cbn [ps_msg rs_ps arrive set_ps_emsg set_ps_msg]. rewrite Hk.
  cbn [negb]. erewrite bind_run by (unfold lift, rd; rewrite Ho1, Ho2; reflexivity).
  fold (msg_hdr m). rewrite Hl. erewrite bind_run by reflexivity. erewrite bind_run by reflexivity.
  erewrite bind_run by reflexivity.
  match goal with |- context [rs_sa ?st] => change (rs_sa st) with (rs_sa s) end. by rewrite Hs.
Qed.

(** The SA and its queues after the response [k] was sent again. *)
Definition answered (k : nat) (mr : iked_msg_retransmit) (sa : iked_sa) (n : node) : node :=
  set_nd_cnt (inc_retransmit_response (nd_cnt n))
    (set_nd_sa (Some (set_sa_responses (<[k := mk_mrt (mrt_frags mr) (mrt_tries mr)
        (Some IKED_RESPONSE_TIMEOUT)]> (sa_responses sa)) sa))
      (set_nd_out (nd_out n ++ (qm_data <$> mrt_frags mr)) n)).

Lemma retransmit_response_run hdr s sa k mr :
  rs_sa s = Some sa → queue_wf (sa_responses sa) → sa_responses sa !! k = Some mr →
  mrt_key mr = Some (ike_msgid hdr, ike_exchange hdr) →
  ike_nextpayload hdr ≠ IKEV2_PAYLOAD_SKF → nd_net (rs_nd s) = [] →
  ikev2_msg_retransmit_response hdr s = Ok (0, set_rs_nd (answered k mr sa (rs_nd s)) s).
Proof.
  intros Hs Hq Hk Hkey Hskf Hnet. unfold ikev2_msg_retransmit_response, with_rsa.
  erewrite bind_run by reflexivity. rewrite Hs.
  erewrite bind_run by (unfold lift; by rewrite (lookup_at _ _ _ _ _ Hq Hk Hkey)). cbn beta iota.
  rewrite (proj2 (Z.eqb_neq _ _)) by done. erewrite bind_run by reflexivity. cbn beta iota. rewrite Hk.
  erewrite bind_run by (unfold on_node; by rewrite (resend_run _ _ Hnet)). cbn [negb].
  erewrite bind_run by reflexivity. erewrite bind_run by reflexivity.
  unfold rs_sa in Hs. cbn. by rewrite Hs.
Qed.

Lemma recv_request_repeated hdr i s sa k mr :
  rs_sa s = Some sa → queue_wf (sa_responses sa) → sa_responses sa !! k = Some mr →
  mrt_key mr = Some (ike_msgid hdr, ike_exchange hdr) → sa_msgid sa ≤ ike_msgid hdr →
  ike_nextpayload hdr ≠ IKEV2_PAYLOAD_SKF → nd_net (rs_nd s) = [] →
  recv_request hdr i s = Ok (Done, set_rs_nd (answered k mr sa (rs_nd s)) s).
Proof.
  intros Hs Hq Hk Hkey Hle Hskf Hnet. unfold recv_request. unfold with_rsa at 1.
  erewrite bind_run by reflexivity. rewrite Hs, (proj2 (Z.ltb_ge _ _)) by done.
  by erewrite bind_run by by apply (retransmit_response_run _ _ sa k mr).
Qed.


(** ** Responses are matched before they are authenticated *)

(** A protected IKE_AUTH response to the last request the SA has sent. *)
Definition auth_response (m : iked_message) (sa : iked_sa) : bool :=
  whole m && has_bit (ike_flags (msg_hdr m)) IKEV2_FLAG_RESPONSE &&
  negb (has_bit (ike_flags (msg_hdr m)) IKEV2_FLAG_INITIATOR) &&
  (ike_exchange (msg_hdr m) =? IKEV2_EXCHANGE_IKE_AUTH) &&
  (ike_nextpayload (msg_hdr m) =? IKEV2_PAYLOAD_SK) &&
  (to_u32 (ike_msgid (msg_hdr m) + 1) =? sa_reqid sa).

Lemma auth_response_run m natt s sa :
  rs_sa s = Some sa → auth_response m sa = true →
  ikev2_recv (arrive m natt s) =
    (v ← recv_response (msg_hdr m) true;
     match v with
     | Done => mret tt
     | Handle i =>
         _ ← (if i then ikev2_init_recv (msg_hdr m) else ikev2_resp_recv (msg_hdr m));
         recv_finish (msg_hdr m) true
     end) (noted m natt s) ∧
  ike_exchange (msg_hdr m) = IKEV2_EXCHANGE_IKE_AUTH ∧
  ike_nextpayload (msg_hdr m) = IKEV2_PAYLOAD_SK ∧ to_u32 (ike_msgid (msg_hdr m) + 1) = sa_reqid sa.
Proof.
  unfold auth_response. rewrite !andb_true_iff, negb_true_iff, !Z.eqb_eq. intros Hs (((((Hw & Hr) & Hi) & Hx) & Hn) & Hid).
  split; [|done]. rewrite (recv_run m natt s sa Hw Hs), Hr, Hi. unfold recv_known. by rewrite Hx, Hn.
Qed.

(** The SA when its request [i] was disposed of. *)
Definition unasked (i : nat) (sa : iked_sa) : iked_sa :=
  set_sa_requests (ikev2_msg_dispose (sa_requests sa) i) sa.

Lemma recv_response_found hdr s sa i :
  rs_sa s = Some sa → ike_exchange hdr = IKEV2_EXCHANGE_IKE_AUTH →
  ike_nextpayload hdr = IKEV2_PAYLOAD_SK → to_u32 (ike_msgid hdr + 1) = sa_reqid sa →
  ikev2_msg_lookup (sa_requests sa) (ike_msgid hdr) IKEV2_EXCHANGE_IKE_AUTH = Ok (Some i) →
  recv_response hdr true s =
    Ok (Handle true, set_rs_nd (set_nd_sa (Some (unasked i sa)) (rs_nd s)) s).
Proof.
  intros Hs Hx Hn Hid Hl. unfold recv_response, with_rsa, request_flag. erewrite bind_run by reflexivity.
  rewrite Hs, Hid, Z.eqb_refl, Hx, Hn. cbn [negb]. erewrite bind_run by (unfold lift; by rewrite Hl).
  cbn. unfold mbind, M_bind, on_node, upd_nsa, modify. unfold rs_sa in Hs. by rewrite Hs.
Qed.

Lemma recv_response_lost hdr s sa :
  rs_sa s = Some sa → ike_exchange hdr = IKEV2_EXCHANGE_IKE_AUTH →
  to_u32 (ike_msgid hdr + 1) = sa_reqid sa → frag_count (sa_fragments sa) = 0 →
  ikev2_msg_lookup (sa_requests sa) (ike_msgid hdr) IKEV2_EXCHANGE_IKE_AUTH = Ok None →
  recv_response hdr true s = drop_message s.
Proof.
  intros Hs Hx Hid Hf Hl. unfold recv_response, with_rsa. erewrite bind_run by reflexivity.
  rewrite Hs, Hid, Z.eqb_refl, Hx. cbn [negb]. erewrite bind_run by (unfold lift; by rewrite Hl).
  by rewrite Hf.
Qed.

Lemma lookup_disposed q i mr msgid exchange :
  queue_wf q → q !! i = Some mr → mrt_key mr = Some (msgid, exchange) →
  ikev2_msg_lookup (ikev2_msg_dispose q i) msgid exchange = Ok None.
Proof.
  intros Hq Hi Hk. pose proof (dispose_wf q i Hq) as Hd.
  destruct (lookup_spec (ikev2_msg_dispose q i) msgid exchange) as (o & -> & Ho); [apply Hd|].
  destruct o as [j|]; [|done]. destruct Ho as (mr' & Hj & Hk'). exfalso.
  apply list_elem_of_lookup_2 in Hj. unfold ikev2_msg_dispose in Hj.
  apply elem_of_app in Hj as [Hj|Hj]; apply list_elem_of_lookup in Hj as [k Hj].
  - apply lookup_take_Some in Hj as [Hj Hlt].
    assert (i = k) by (apply (key_unique q i k mr mr'); [done..|congruence]). lia.
  - rewrite lookup_drop in Hj.
    assert (i = S i + k)%nat by (apply (key_unique q i _ mr mr'); [done..|congruence]). lia.
Qed.

Lemma rejected_init_recv hdr s sa r s2 :
  rs_sa s = Some sa → ikev2_msg_valid_ike_sa hdr (Some sa) true = 0 →
  ike_exchange hdr = IKEV2_EXCHANGE_IKE_AUTH → parse_message hdr s = Ok (r, s2) → r ≠ 0 →
  ikev2_init_recv hdr s = Ok (tt, s2).
Proof.
  intros Hs Hv Hx Hp Hr. unfold ikev2_init_recv.
  assert (Hc : init_check hdr s = Ok (true, s)).
  { unfold init_check. erewrite bind_run by reflexivity. by rewrite Hs, Hv, Hx. }
  erewrite bind_run by exact Hc. cbn [negb]. erewrite bind_run by exact Hp. by rewrite (proj2 (Z.eqb_neq _ _) Hr).
Qed.

Lemma finish_response hdr s sa :
  rs_sa s = Some sa → sa_state sa ≠ IKEV2_STATE_CLOSED → recv_finish hdr true s = Ok (tt, s).
Proof.
  intros Hs Hc. unfold recv_finish, with_rsa. do 3 erewrite bind_run by reflexivity.
  by rewrite Hs, (proj2 (Z.eqb_neq _ _) Hc).
Qed.

Lemma valid_not_closed hdr sa :
  ikev2_msg_valid_ike_sa hdr (Some sa) true = 0 → sa_state sa ≠ IKEV2_STATE_CLOSED.
Proof. unfold ikev2_msg_valid_ike_sa. simpl. intros Hv E. by rewrite E in Hv. Qed.

(** C34: A response is matched with its request by its header alone: one that
    the parser rejects (as forged, for one) still removes the waiting IKE_AUTH
    request, which is then never sent again, and from then on every response to
    that request is dropped, genuine or not. *)
Theorem rejected_response_drops_request m natt s sa i mr r s2 :
  rs_sa s = Some sa → auth_response m sa = true →
  queue_wf (sa_requests sa) → sa_requests sa !! i = Some mr →
  mrt_key mr = Some (ike_msgid (msg_hdr m), IKEV2_EXCHANGE_IKE_AUTH) →
  ikev2_msg_valid_ike_sa (msg_hdr m) (Some sa) true = 0 → frag_count (sa_fragments sa) = 0 →
  parse_message (msg_hdr m)
    (set_rs_nd (set_nd_sa (Some (unasked i sa)) (rs_nd (noted m natt s))) (noted m natt s)) = Ok (r, s2) →
  r ≠ 0 → rs_sa s2 = Some (unasked i sa) →
  ikev2_recv (arrive m natt s) = Ok (tt, s2) ∧
  ∀ m' natt', auth_response m' sa = true → ike_msgid (msg_hdr m') = ike_msgid (msg_hdr m) →
    ∃ s3, ikev2_recv (arrive m' natt' s2) = Ok (tt, s3) ∧ rs_sa s3 = rs_sa s2 ∧
      nd_cnt (rs_nd s3) = inc_rcvd_dropped (inc_rcvd (nd_cnt (rs_nd s2))).
Proof.
  intros Hs Hm Hq Hi Hk Hv Hf Hp Hr Hs2. split.
  - destruct (auth_response_run m natt s sa Hs Hm) as (-> & Hx & Hn & Hid).
    erewrite bind_run; [|apply (recv_response_found _ _ sa i); [done..|by apply (lookup_at _ _ mr)]].
    cbn beta iota. erewrite bind_run; [|by apply (rejected_init_recv _ _ (unasked i sa) r s2)].
    apply (finish_response _ _ (unasked i sa)); [done|]. by apply valid_not_closed in Hv.
  - intros m' natt' Hm' Hid'.
    destruct (auth_response_run m' natt' s2 (unasked i sa) Hs2 Hm') as (-> & Hx & Hn & Hid).
    eexists. split.
    + erewrite bind_run; [|rewrite (recv_response_lost _ _ (unasked i sa)); [reflexivity|done..|]].
      * reflexivity.
      * apply (lookup_disposed _ _ mr); [done..|]. by rewrite Hid'.
    + by split.
Qed.
End repeated.

(** ** Examples *)

(** A cipher that takes a ciphertext for genuine when it starts with zero, and
    exchanges of which the initiator's end in a valid SA. *)
Definition demo_decrypt (ct : bytes) : option bytes := if hd x00 ct is x00 then Some ct else None.
#[local] Instance demo_receiver : External := sample_external demo_decrypt.
#[local] Instance demo_exchanges : Exchanges := {|
  ex_notifies := mret 0;
  ex_update_spi := λ _, mret true;
  ex_init := λ _, on_node (upd_nsa (set_sa_state IKEV2_STATE_VALID));
  ex_resp := λ _, mret tt;
  ex_no_sa := λ _ _, mret tt |}.
#[local] Instance demo_exchanges_laws : ExchangesLaws.
Proof. constructor; intros; [apply keeps_ret..|by apply keeps_upd_nsa|apply keeps_ret]. Qed.

(** A message with an encrypted nonce; [first] is the first byte of the
    ciphertext. *)
Definition demo_recv_msg (exchange flags id first : Z) : iked_message := sample_msg
  (bs ([0;0;0;0;0;0;0;1; 0;0;0;0;0;0;0;2; 46; 32; exchange; flags; 0;0;0;id; 0;0;0;88] ++
       [40; 0; 0; 60] ++ [0;0;0;0;0;0;0;0] ++
       [first; 0; 0; 20] ++ [1;2;3;4;5;6;7;8;9;10;11;12;13;14;15;16] ++
       [0;0;0;0;0;0;0;0;0;0;0;11] ++ replicate 16 0)).

Definition demo_rstate (sa : iked_sa) : rstate :=
  mk_rstate (set_nd_buf (static_buf 16 []) (demo_node sa [])) (sample_state []) 0 false false.

(** The state after a message was received. *)
Definition demo_received (m : iked_message) (s : rstate) : rstate :=
  match ikev2_recv (arrive m false s) with Ok (_, s') => s' | Fault _ => s end.

(** Requests 3, again 3, then 5. *)
Definition demo_req (id : Z) : iked_message := demo_recv_msg IKEV2_EXCHANGE_INFORMATIONAL 8 id 0.
Definition demo_once : rstate := demo_received (demo_req 3) (demo_rstate sample_sa).
Definition demo_twice : rstate := demo_received (demo_req 3) demo_once.
Definition demo_then : rstate := demo_received (demo_req 5) demo_twice.

Ltac demo_step st :=
  eapply (session_recv _ _ st _ _ false);
    [|vm_compute; reflexivity|right; vm_compute; reflexivity|vm_compute; reflexivity|vm_compute; eauto].

Lemma demo_session : session (demo_rstate sample_sa) [3; 5] demo_then.
Proof.
  change [3; 5] with (([] ++ [3]) ++ [] ++ [5]).
  replace [5] with (taken (demo_req 5) demo_then) by (vm_compute; reflexivity).
  replace [3] with (taken (demo_req 3) demo_once) by (vm_compute; reflexivity).
  replace ([] ++ taken (demo_req 5) demo_then)
    with (taken (demo_req 3) demo_twice ++ taken (demo_req 5) demo_then) by (vm_compute; reflexivity).
  rewrite app_assoc.
  demo_step demo_twice. demo_step demo_once. demo_step (demo_rstate sample_sa).
  apply session_start.
Qed.


(** An SA that has answered request 3 with two messages. *)
Definition demo_response : iked_msg_retransmit :=
  mk_mrt [mk_queued_msg 3 37 true [x01; x02]; mk_queued_msg 3 37 true [x03]] 0 (Some 2).
Definition demo_answered : iked_sa :=
  set_sa_msgid_set true (set_sa_msgid 3 (set_sa_responses [demo_response] sample_sa)).


(** A response that is not authentic, for an IKE_AUTH request that waits for
    its answer: it is not processed, but the request is gone, and then the
    genuine response is dropped. *)
Definition demo_asked : iked_msg_retransmit := mk_mrt [mk_queued_msg 3 35 false [x01]] 0 (Some 2).
Definition demo_waiting : iked_sa :=
  set_sa_requests [demo_asked] (set_sa_reqid 4
    (set_sa_hdr (mk_sahdr 1 2 true) sample_sa)).
Definition demo_forged : iked_message := demo_recv_msg IKEV2_EXCHANGE_IKE_AUTH 32 3 255.
Definition demo_genuine : iked_message := demo_recv_msg IKEV2_EXCHANGE_IKE_AUTH 32 3 0.

Example forged_then_genuine :
  let s := demo_rstate demo_waiting in
  sa_state <$> rs_sa (demo_received demo_genuine s) = Some IKEV2_STATE_VALID ∧
  (sa_requests <$> rs_sa (demo_received demo_forged s) = Some [] ∧
   sa_state <$> rs_sa (demo_received demo_forged s) = Some (sa_state demo_waiting)) ∧
  rs_sa (demo_received demo_genuine (demo_received demo_forged s)) =
    rs_sa (demo_received demo_forged s).
Proof. vm_compute. auto. Qed.

(** The same through the theorem. *)
Definition demo_rejected : Z * rstate :=
  let s := noted demo_forged false (demo_rstate demo_waiting) in
  match parse_message (msg_hdr demo_forged)
          (set_rs_nd (set_nd_sa (Some (unasked 0 demo_waiting)) (rs_nd s)) s) with
  | Ok p => p
  | Fault _ => (0, s)
  end.

Lemma rejected_response_drops_request_witness :
  ikev2_recv (arrive demo_forged false (demo_rstate demo_waiting)) = Ok (tt, demo_rejected.2) ∧
  ∃ s3, ikev2_recv (arrive demo_genuine false demo_rejected.2) = Ok (tt, s3) ∧
    rs_sa s3 = rs_sa demo_rejected.2.
Proof.
  destruct (rejected_response_drops_request demo_forged false (demo_rstate demo_waiting) demo_waiting 0
    demo_asked demo_rejected.1 demo_rejected.2) as [E Hg]; try (vm_compute; reflexivity).
  - constructor; [|apply NoDup_singleton]. apply Forall_singleton. constructor; [|done|done].
    eexists _, _. split; [reflexivity|]. constructor.
  - vm_compute. discriminate.
  - split; [exact E|]. destruct (Hg demo_genuine false) as (s3 & E3 & Hs3 & _);
      [vm_compute; reflexivity..|]. exists s3. split; assumption.
Defined.
