(* ===== verification/Send.v ===== *)
(** * Sending protected messages: [ikev2_msg_send_encrypt], fragmentation

    A message is built in clear, encrypted, and handed to [ikev2_msg_send];
    one that would not fit a packet is cut into fragments first. The daemon
    parses the messages it sends in one piece, as if they had been received. *)

From S2P Require Import Prelude Types SaState Proposals Ibuf Build Parse ParseSk Queue.
From S2P Require Import ParseTop Encrypt.

Definition IKEV2_IPV4_OVERHEAD : Z := 20 + 8 + 28.
Definition IKEV2_MAXLEN_IPV4_FRAG : Z := 576 - IKEV2_IPV4_OVERHEAD.
Definition IKEV2_IPV6_OVERHEAD : Z := 40 + 8 + 28.
Definition IKEV2_MAXLEN_IPV6_FRAG : Z := 1280 - IKEV2_IPV6_OVERHEAD.

(** [ikev2_msg_id]: the id of the next request. *)
Definition ikev2_msg_id : N Z :=
  osa ← gets nd_sa;
  match osa with
  | None => fail Fnull
  | Some sa =>
      _ ← modify (set_nd_sa (Some (set_sa_reqid (to_u32 (sa_reqid sa + 1)) sa)));
      mret (sa_reqid sa)
  end.

Definition maxlen_frag (sa : iked_sa) : Z :=
  if sa_family (sa_local sa) =? AF_INET then IKEV2_MAXLEN_IPV4_FRAG else IKEV2_MAXLEN_IPV6_FRAG.

(** Non-zero when the message has to be cut (or the SA is unusable). *)
Definition ikev2_check_frag_oversize (osa : option iked_sa) (buf : ibuf) : Z :=
  match osa with
  | None => -1
  | Some sa =>
      match sa_encr sa, sa_integr sa with
      | Some c, Some h =>
          let len := ibuf_length (Some buf) in
          if (maxlen_frag sa <=? (len + cipher_ivlength c + cipher_length c + hash_length h)%sz) &&
             sa_frag sa then 1 else 0
      | _, _ => -1
      end
  end.

(** [ikev2_msg_init]: a new message in [nd_buf]; [false] when memory runs
    out. *)
Definition ikev2_msg_init : N bool :=
  a ← n_alloc;
  match ibuf_static a with
  | None => mret false
  | Some b => _ ← modify (set_nd_buf b); mret true
  end.

Definition response_flag (response : bool) : Z := if response then IKEV2_FLAG_RESPONSE else 0.

Section send.
Context `{!External, !Encrypter} (verbose : Z) (peer : sockaddr).

(** From [ikev2_msg_encrypt_prepare] to [ikev2_msg_integr]: [false] is
    [goto done]. *)
Definition msg_seal (sa : iked_sa) (pld hdr : Z) (e : ibuf) (firstpayload : Z)
    (fragmentation : bool) : N bool :=
  r ← ikev2_msg_encrypt_prepare (Some sa) pld e hdr firstpayload fragmentation;
  if r =? -1 then mret false
  else
    buf ← gets nd_buf;
    e ← ikev2_msg_encrypt (Some sa) e buf;
    match e with
    | None => mret false
    | Some e =>
        data ← lift (ibuf_data e (ibuf_size e));
        r ← onbuf (b_add data);
        if negb (r =? 0) then mret false
        else r ← ikev2_msg_integr (Some sa); mret (r =? 0)
    end.

(** The encrypted message in one piece. *)
Definition msg_build_sk (sa : iked_sa) (e : ibuf) (msgid exchange firstpayload : Z)
    (response : bool) : N bool :=
  hdr ← onbuf (ikev2_add_header (sa_hdr sa) msgid IKEV2_PAYLOAD_SK exchange
                 (response_flag response));
  match hdr with
  | None => mret false
  | Some hdr =>
      pld ← onbuf ikev2_add_payload;
      match pld with
      | None => mret false
      | Some pld => msg_seal sa pld hdr e firstpayload false
      end
  end.

(** One fragment, of the [len] bytes at [offset] of [input]. *)
Definition msg_build_skf (sa : iked_sa) (input : ibuf) (offset len : Z) (frag_num frag_total : Z)
    (msgid exchange firstpayload : Z) (response : bool) : N bool :=
  hdr ← onbuf (ikev2_add_header (sa_hdr sa) msgid IKEV2_PAYLOAD_SKF exchange
                 (response_flag response));
  match hdr with
  | None => mret false
  | Some hdr =>
      pld ← onbuf ikev2_add_payload;
      match pld with
      | None => mret false
      | Some pld =>
          frag ← onbuf (b_reserve sizeof_frag_payload);
          match frag with
          | None => mret false
          | Some frag =>
              _ ← onbuf (b_put frag (be_encode 2 frag_num));
              _ ← onbuf (b_put (frag + 2) (be_encode 2 frag_total));
              data ← match ibuf_seek input offset 0 with
                     | None => mret None
                     | Some p => d ← lift (load (ib_buf input) p len); mret (Some d)
                     end;
              e ← n_new data len;
              match e with
              | None => mret false
              | Some e => msg_seal sa pld hdr e firstpayload true
              end
          end
      end
  end.

(** The loop over the fragments; [fuel] bounds their number. *)
Fixpoint send_fragments (fuel : nat) (sa : iked_sa) (input : ibuf) (max_len left offset : Z)
    (frag_num frag_total : Z) (msgid exchange firstpayload : Z) (response : bool) : N Z :=
  match fuel with
  | O => fail Ffuel
  | S fuel =>
      if negb (frag_num <=? frag_total) then mret 0
      else
        ok ← ikev2_msg_init;
        if negb ok then _ ← count inc_frag_send_failures; mret (-1)
        else
          let len := Z.min left max_len in
          ok ← msg_build_skf sa input offset len frag_num frag_total msgid exchange firstpayload
                 response;
          if negb ok then _ ← count inc_frag_send_failures; mret (-1)
          else
            r ← ikev2_msg_send msgid response;
            if r =? -1 then _ ← count inc_frag_send_failures; mret (-1)
            else
              _ ← count inc_frag_sent;
              send_fragments fuel sa input max_len (left - len)%sz (offset + len)%sz
                (frag_num + 1)%sz frag_total msgid exchange 0 response
  end.

Definition ikev2_send_encrypted_fragments (input : ibuf) (exchange firstpayload : Z)
    (response : bool) : N Z :=
  osa ← gets nd_sa;
  match osa with
  | None => _ ← count inc_frag_send_failures; mret (-1)
  | Some sa =>
      match sa_encr sa, sa_integr sa with
      | Some c, Some h =>
          let left := ibuf_length (Some input) in
          let max_len := (maxlen_frag sa - cipher_ivlength c - cipher_length c - hash_length h)%sz in
          let frag_total := left / max_len + 1 in
          msgid ← (if response then mret (sa_msgid_current sa) else ikev2_msg_id);
          send_fragments (S (S (Z.to_nat frag_total))) sa input max_len left 0 1 frag_total msgid
            exchange firstpayload response
      | _, _ => _ ← count inc_frag_send_failures; mret (-1)
      end
  end.

(** The message the daemon parses after building it: as [ikev2_msg_init] and
    [ikev2_msg_send_encrypt] leave it, without a policy. *)
Definition own_msg (sa : iked_sa) (response : bool) (data : bytes) : iked_message :=
  mk_message data 0 peer (sa_local sa) response false 0 0 false None [] [] spi_zero
    None 0 None id_zero id_zero id_zero id_zero [] None [] [] 0 0 eap_msg_zero 0 0 None 0 0
    None None None 0 false None None 0.

(** [(void)ikev2_pld_parse(env, hdr, &resp, 0)]; what it leaves in the
    message is freed with it. Nothing of it depends on random numbers or on
    NAT traversal being forced. *)
Definition parse_own (sa : iked_sa) (response : bool) : N unit := λ s,
  let data := ibuf_content (nd_buf s) in
  let p := mk_pstate verbose (nd_alloc s) [] false (nd_sa s) (own_msg sa response data) None
             (mk_frag_stats 0 0 0 0) [] in
  match ikev2_pld_parse (dec_ike_header (sub_bytes 0 sizeof_ike_header data)) 0 p with
  | Ok (_, p') => Ok (tt, set_nd_sa (ps_sa p') (set_nd_alloc (ps_alloc p') s))
  | Fault f => Fault f
  end.

Definition ikev2_msg_send_encrypt (e : ibuf) (exchange firstpayload : Z) (response : bool) : N Z :=
  osa ← gets nd_sa;
  if negb (ikev2_check_frag_oversize osa e =? 0) then
    ikev2_send_encrypted_fragments e exchange firstpayload response
  else match osa with
  | None => fail Fnull
  | Some sa =>
      ok ← ikev2_msg_init;
      if negb ok then mret (-1)
      else
        msgid ← (if response then mret (sa_msgid_current sa) else ikev2_msg_id);
        ok ← msg_build_sk sa e msgid exchange firstpayload response;
        if negb ok then mret (-1)
        else _ ← parse_own sa response; ikev2_msg_send msgid response
  end.
End send.

(** ** The bytes of a protected message *)

Definition enc_header (hdr : iked_sahdr) (msgid nextpayload exchange flags length : Z) : bytes :=
  be_encode 8 (sh_ispi hdr) ++ be_encode 8 (sh_rspi hdr) ++
  [bZ nextpayload; bZ IKEV2_VERSION; bZ exchange;
   bZ (if sh_initiator hdr then Z.lor flags IKEV2_FLAG_INITIATOR else flags)] ++
  be_encode 4 msgid ++ be_encode 4 length.

Definition enc_payload (nextpayload length : Z) : bytes := [bZ nextpayload; x00] ++ be_encode 2 length.

Lemma blen_enc_header hdr msgid np ex fl n : blen (enc_header hdr msgid np ex fl n) = 28.
Proof. done. Qed.
Lemma blen_enc_payload np n : blen (enc_payload np n) = 4.
Proof. done. Qed.

Section built.
Context (cap : Z).
Hypothesis Hcap : 0 < cap < 2 ^ 32.

Lemma add_header_run hdr msgid np ex fl l :
  28 ≤ cap →
  ikev2_add_header hdr msgid np ex fl (st cap [] l) =
    Ok (Some 0, st cap (enc_header hdr msgid np ex fl 28) l).
Proof.
  intros Hc. unfold ikev2_add_header.
  erewrite bind_run; [|apply (reserve_run cap Hcap [] l 28); [lia|change (blen []) with 0; lia]].
  change ([] ++ zeros 28) with (zeros 28). change (blen []) with 0. cbv beta iota.
  repeat (erewrite bind_run; [|apply put_run; [lia|by vm_compute]];
    cbv beta).
  reflexivity.
Qed.

Lemma add_payload_run c l :
  blen c + 4 ≤ cap →
  ikev2_add_payload (st cap c l) =
    Ok (Some (blen c), st cap (c ++ ([bZ IKEV2_PAYLOAD_NONE; x00] ++ host16 4)) l).
Proof. intros Hc. unfold ikev2_add_payload, sizeof_payload. brun. done. Qed.

Lemma next_payload_run c y np n l :
  4 ≤ blen y → 0 ≤ n → n + 4 ≤ UINT16_MAX →
  ikev2_next_payload (blen c) n np (st cap (c ++ y) l) =
    Ok (0, st cap (c ++ upd_at 0 [bZ np] (upd_at 2 (be_encode 2 (n + 4)) y)) l).
Proof.
  intros Hy Hn Hmax. unfold ikev2_next_payload, UINT16_MAX, sizeof_payload in *.
  rewrite sz_add_id by (unfold size_max; lia). rewrite (proj2 (Z.ltb_ge _ _)) by lia.
  erewrite bind_run; [|apply put_tail; [lia|change (blen (be_encode 2 _)) with 2; lia]].
  erewrite bind_run; [|apply put_tail0; change (blen [_]) with 1].
  - by rewrite (Z.add_comm 4).
  - unfold upd_at, blen in *. rewrite !length_app, length_take, length_drop. simpl. lia.
Qed.

Lemma set_header_run hdr msgid np ex fl n len y l :
  0 ≤ len → len + 28 < 2 ^ 32 →
  ikev2_set_header 0 len (st cap (enc_header hdr msgid np ex fl n ++ y) l) =
    Ok (0, st cap (enc_header hdr msgid np ex fl (28 + len) ++ y) l).
Proof.
  intros Hl Hm. unfold ikev2_set_header, sizeof_ike_header, to_u32, UINT32_MAX.
  rewrite Z.mod_small by lia. rewrite (proj2 (Z.ltb_ge _ _)) by lia.
  erewrite bind_run; [|apply put_run; [lia|]].
  - reflexivity.
  - rewrite blen_app, blen_enc_header. pose proof (blen_nonneg y). vm_compute (blen (be_encode 4 _)). lia.
Qed.
End built.

(** ** Running the sender *)

Lemma msgbuf_cap : 0 < IKED_MSGBUF_MAX < 2 ^ 32.
Proof. done. Qed.

(** An SA with keys for its own role, whose algorithms work. *)
Record sender_ok `{!Encrypter} (sa : iked_sa) (c : iked_cipher) (h : iked_hash)
    (key ikey : bytes) : Prop := {
  so_encr : sa_encr sa = Some c;
  so_integr : sa_integr sa = Some h;
  so_key : (if sh_initiator (sa_hdr sa) then sa_key_iencr sa else sa_key_rencr sa) = Some key;
  so_ikey : hash_isaead h = false →
    (if sh_initiator (sa_hdr sa) then sa_key_iauth sa else sa_key_rauth sa) = Some ikey;
  so_suite : suite_ok c h;
  so_works : cipher_works c h key }.

(** The length of the encrypted part for [n] bytes of payloads. *)
Definition sealed_len (c : iked_cipher) (h : iked_hash) (n : Z) : Z :=
  encr_ivlength c + roundup (n + 1) (encr_length c) + hash_length h.

(** A message up to its encrypted part; [f] is the fragment header, if any. *)
Definition enc_front (hd : Z → bytes) (firstpayload : Z) (f : bytes) (n : Z) : bytes :=
  hd (32 + blen f + n) ++ enc_payload firstpayload (4 + blen f + n) ++ f.

Section sending.
Context `{!External, !ExternalLaws, !Encrypter, !EncrypterLaws}.
Context (sa : iked_sa) (c : iked_cipher) (h : iked_hash) (key ikey : bytes).
Hypothesis Hok : sender_ok sa c h key ikey.

Lemma sealed_len_pos n : 0 ≤ n → n + 3 ≤ sealed_len c h n.
Proof.
  intros Hn. pose proof (so_suite _ _ _ _ _ Hok) as [Hb Hi Hh _ _ _ _ _]. unfold sealed_len.
  destruct (roundup_spec (n + 1) (encr_length c)) as [? _]; lia.
Qed.

Lemma prepare_run msgid np ex fl f e pt fp s :
  holds e pt → blen f = 0 ∨ blen f = 4 →
  let n := sealed_len c h (blen pt) in
  let hd := enc_header (sa_hdr sa) msgid np ex fl in
  32 + blen f + n ≤ IKED_MSGBUF_MAX →
  msg_is s (hd 28 ++ ([bZ IKEV2_PAYLOAD_NONE; x00] ++ host16 4) ++ f) →
  ikev2_msg_encrypt_prepare (Some sa) 28 e 0 fp (negb (blen f =? 0)) s =
    Ok (0, set_msg (enc_front hd fp f n) s).
Proof.
  intros He Hf n hd Hmax Hmsg. pose proof Hok as [Hc Hh _ _ Hsu _]. pose proof Hsu as [Hb Hi Hl _ _ _ _ _].
  pose proof (blen_nonneg pt) as Hpt. pose proof (sealed_len_pos _ Hpt) as Hn. fold n in Hn.
  unfold IKED_MSGBUF_MAX in Hmax. destruct (roundup_spec (blen pt + 1) (encr_length c)) as [Hr Hm]; [lia|].
  unfold ikev2_msg_encrypt_prepare. rewrite Hc, Hh. cbv zeta.
  rewrite (holds_size _ _ He). unfold cipher_outlength, cipher_length, cipher_ivlength.
  rewrite (roundup_mult (roundup _ _)) by (lia || done).
  assert ((encr_ivlength c + roundup (blen pt + 1) (encr_length c) + hash_length h)%sz = n) as ->.
  { unfold n, sealed_len in *. by rewrite sz_add_id by (unfold size_max; lia). }
  assert ((n + (if negb (blen f =? 0)%Z then sizeof_frag_payload else 0))%sz = n + blen f) as ->.
  { destruct Hf as [E|E]; rewrite E; simpl; rewrite sz_add_id by (unfold size_max, sizeof_frag_payload; lia); done. }
  erewrite bind_run; [|eapply onbuf_run; [exact Hmsg|]].
  2:{ apply (next_payload_run IKED_MSGBUF_MAX (hd 28)); [|lia|unfold UINT16_MAX; lia].
      rewrite blen_app. change (blen ([_; _] ++ _)) with 4. lia. }
  cbv beta. change (0 =? -1) with false. cbv iota. erewrite bind_run; [|reflexivity].
  set (y := upd_at 0 _ _).
  assert (Hy : y = enc_payload fp (4 + blen f + n) ++ f).
  { unfold y. replace (n + blen f + 4) with (4 + blen f + n) by lia. reflexivity. }
  rewrite Hy. clear y Hy. set (y := enc_payload _ _ ++ f).
  assert (Hy : blen y = 4 + blen f) by (unfold y; by rewrite blen_app).
  assert (Hs : ibuf_size (nd_buf (set_msg (hd 28 ++ y) s)) = 32 + blen f).
  { simpl. rewrite (holds_size _ (hd 28 ++ y)).
    - rewrite blen_app, Hy. unfold hd. rewrite blen_enc_header. lia.
    - apply holds_msgbuf. rewrite blen_app, Hy. unfold hd, IKED_MSGBUF_MAX.
      rewrite blen_enc_header. lia. }
  rewrite Hs, sz_sub_id by (unfold size_max, sizeof_ike_header; lia).
  erewrite onbuf_run; [|apply msg_is_set, Hmsg|apply set_header_run;
    unfold sizeof_ike_header; lia].
  unfold enc_front, sizeof_ike_header. fold y.
  by replace (28 + (32 + blen f + n - 28)) with (32 + blen f + n) by lia.
Qed.
(** [m] is [front] followed by the payloads [pt], protected. *)
Definition protected (front pt m : bytes) : Prop :=
  ∃ iv rnd ct v, m = front ++ iv ++ ct ++ v ∧ sealed c h key front pt iv rnd ct ∧
    checksum c h key ikey (front ++ iv ++ ct) iv (if hash_isaead h then front else [])
      (pt ++ rnd ++ [bZ (padding c (blen pt))]) v.

Lemma sealed_lens front pt iv rnd ct :
  sealed c h key front pt iv rnd ct →
  blen ct = roundup (blen pt + 1) (encr_length c) ∧
  blen (pt ++ rnd ++ [bZ (padding c (blen pt))]) = blen ct.
Proof.
  intros [Hiv Hr Hct]. rewrite (ext_encrypt_length _ _ _ _ _ _ Hct), !blen_app, Hr.
  change (blen [_]) with 1. unfold padding, cipher_length. lia.
Qed.

Lemma blen_front msgid np ex fl fp f n :
  blen (enc_front (enc_header (sa_hdr sa) msgid np ex fl) fp f n) = 32 + blen f.
Proof. unfold enc_front. rewrite !blen_app, blen_enc_header, blen_enc_payload. lia. Qed.

Lemma seal_run msgid np ex fl f e pt fp s :
  holds e pt → blen f = 0 ∨ blen f = 4 →
  let n := sealed_len c h (blen pt) in
  let hd := enc_header (sa_hdr sa) msgid np ex fl in
  32 + blen f + n ≤ IKED_MSGBUF_MAX →
  msg_is s (hd 28 ++ ([bZ IKEV2_PAYLOAD_NONE; x00] ++ host16 4) ++ f) →
  ∃ m s', msg_seal sa 28 0 e fp (negb (blen f =? 0)) s = Ok (true, set_msg m s') ∧
    crypto_only s s' ∧ protected (enc_front hd fp f n) pt m.
Proof.
  intros He Hf n hd Hmax Hmsg. pose proof Hok as [Hc Hh Hkey Hikey Hsu Hw].
  pose proof Hsu as [Hb Hi Hl _ _ _ _ _]. pose proof (blen_nonneg f) as Hf0.
  unfold msg_seal. rewrite (bind_run _ _ _ _ _ (prepare_run _ _ _ _ _ _ _ _ _ He Hf Hmax Hmsg)).
  change (0 =? -1) with false. cbv iota. fold n hd. set (fr := enc_front hd fp f n).
  assert (Hfr : blen fr = 32 + blen f) by apply blen_front.
  erewrite bind_run; [|reflexivity]. pose proof Hmsg as [_ Ha].
  assert (Hhf : holds (nd_buf (set_msg fr s)) fr).
  { apply holds_msgbuf. unfold n, sealed_len in Hmax.
    destruct (roundup_spec (blen pt + 1) (encr_length c)); pose proof (blen_nonneg pt); lia. }
  destruct (encrypt_run c h key Hsu Hw sa e (nd_buf (set_msg fr s)) pt fr (set_msg fr s) Hc Hh Hkey He
    Hhf Ha) as (iv & rnd & ct & b & s1 & E1 & Hse & Hrun & Hb1 & Hc1);
    [unfold n, sealed_len in Hmax; lia|].
  rewrite (bind_run _ _ _ _ _ E1). unfold lift. rewrite (holds_data _ _ Hb1).
  erewrite bind_run; [|reflexivity]. set (z := zeros (hash_length h)).
  assert (Hz : blen z = hash_length h) by (apply blen_zeros; lia).
  destruct (sealed_lens _ _ _ _ _ Hse) as [Hlct Hlp]. pose proof Hse as [Hliv Hlr Hct].
  assert (Hall : blen (fr ++ iv ++ ct ++ z) = 32 + blen f + n)
    by (rewrite !blen_app, Hfr, Hliv, Hlct, Hz; unfold n, sealed_len; lia).
  assert (Hm1 : msg_is s1 fr) by (eapply msg_crypto; [|exact Hc1]; done).
  erewrite bind_run; [|eapply onbuf_run; [exact Hm1|apply add_run;
    [exact msgbuf_cap|by rewrite <- blen_app, Hall]]].
  change (negb (0 =? 0)) with false. cbv iota.
  replace (fr ++ iv ++ ct ++ z) with ((fr ++ iv ++ ct) ++ z) in * by (by rewrite <- !app_assoc).
  destruct (integr_run c h key Hsu Hw sa ikey (fr ++ iv ++ ct) iv (if hash_isaead h then fr else [])
    (pt ++ rnd ++ [bZ (padding c (blen pt))]) (set_msg ((fr ++ iv ++ ct) ++ z) s1))
    as (v & E2 & Hv); try done.
  - apply msg_is_set, Hm1.
  - rewrite blen_app in Hall. lia.
  - rewrite Hlp, Hlct. apply roundup_spec. lia.
  - rewrite (bind_run _ _ _ _ _ E2). destruct Hc1 as (r & k & u & ->).
    eexists ((fr ++ iv ++ ct) ++ v), (set_nd_rand r (set_nd_civ k (set_nd_run u s))).
    split_and!; [done|by exists r, k, u|]. exists iv, rnd, ct, v. by rewrite <- !app_assoc.
Qed.
Lemma crypto_set_msg a m s s1 :
  crypto_only (set_msg a s) s1 → ∃ s', crypto_only s s' ∧ set_msg m s1 = set_msg m s'.
Proof.
  intros (r & k & u & ->). exists (set_nd_rand r (set_nd_civ k (set_nd_run u s))).
  split; [by exists r, k, u|done].
Qed.

(** The front of a message in one piece, and of a fragment. *)
Definition sk_front (msgid ex fp : Z) (response : bool) (len : Z) : bytes :=
  enc_front (enc_header (sa_hdr sa) msgid IKEV2_PAYLOAD_SK ex (response_flag response)) fp []
    (sealed_len c h len).
Definition skf_front (msgid ex fp num total : Z) (response : bool) (len : Z) : bytes :=
  enc_front (enc_header (sa_hdr sa) msgid IKEV2_PAYLOAD_SKF ex (response_flag response)) fp
    (be_encode 2 num ++ be_encode 2 total) (sealed_len c h len).

Lemma build_sk_run e pt msgid ex fp response s :
  holds e pt → msg_is s [] → 32 + sealed_len c h (blen pt) ≤ IKED_MSGBUF_MAX →
  ∃ m s', msg_build_sk sa e msgid ex fp response s = Ok (true, set_msg m s') ∧
    crypto_only s s' ∧ protected (sk_front msgid ex fp response (blen pt)) pt m.
Proof.
  intros He Hmsg Hmax. unfold msg_build_sk.
  erewrite bind_run; [|eapply onbuf_run; [exact Hmsg|by apply add_header_run]]. cbv beta iota.
  erewrite bind_run; [|eapply onbuf_run; [apply msg_is_set, Hmsg|by apply add_payload_run]].
  cbv beta iota. rewrite blen_enc_header. set (hd := enc_header _ _ _ _ _ _).
  rewrite <- (app_nil_r (_ ++ host16 4)).
  destruct (seal_run msgid IKEV2_PAYLOAD_SK ex (response_flag response) [] e pt fp
    (set_msg (hd ++ ([bZ IKEV2_PAYLOAD_NONE; x00] ++ host16 4) ++ []) s))
    as (m & s1 & E & Hc & Hp); [done|by left|done|apply msg_is_set, Hmsg|].
  destruct (crypto_set_msg _ m _ _ Hc) as (s' & Hc' & Es). exists m, s'.
  split_and!; [|done..]. rewrite <- Es. exact E.
Qed.

Lemma build_skf_run input data offset len num total msgid ex fp response s :
  holds input data → msg_is s [] → 0 ≤ offset → 0 ≤ len → offset + len ≤ blen data →
  36 + sealed_len c h len ≤ IKED_MSGBUF_MAX →
  ∃ m s', msg_build_skf sa input offset len num total msgid ex fp response s =
      Ok (true, set_msg m s') ∧
    crypto_only s s' ∧
    protected (skf_front msgid ex fp num total response len) (sub_bytes offset len data) m.
Proof.
  intros He Hmsg Ho Hl Hol Hmax. unfold msg_build_skf.
  pose proof (holds_max _ _ He) as Hdm. unfold IKED_MSGBUF_MAX in Hdm.
  assert (Hlen : blen (sub_bytes offset len data) = len) by (by apply blen_sub_bytes).
  erewrite bind_run; [|eapply onbuf_run; [exact Hmsg|by apply add_header_run]]. cbv beta iota.
  erewrite bind_run; [|eapply onbuf_run; [apply msg_is_set, Hmsg|by apply add_payload_run]].
  cbv beta iota. rewrite blen_enc_header. set (hd := enc_header _ _ _ _ _ _).
  set (c0 := hd ++ _). assert (Hc0 : blen c0 = 32) by done.
  erewrite bind_run; [|eapply onbuf_run; [apply msg_is_set, Hmsg|apply reserve_run; [exact msgbuf_cap|done|by rewrite Hc0]]].
  cbv beta iota. rewrite Hc0. unfold sizeof_frag_payload.
  erewrite bind_run; [|eapply onbuf_run; [apply msg_is_set, Hmsg|rewrite <- Hc0; by apply put_tail0]].
  erewrite bind_run; [|eapply onbuf_run; [apply msg_is_set, Hmsg|
    rewrite <- Hc0; apply put_tail; [lia|by vm_compute]]].
  set (f := upd_at 2 _ _). assert (Hf : f = be_encode 2 num ++ be_encode 2 total) by reflexivity.
  rewrite seek_spec; [|apply He|unfold size_max; lia..]. rewrite (ho_content _ _ He), (ho_rpos _ _ He).
  rewrite (proj2 (Z.leb_le _ _)) by lia. rewrite Z.add_0_l. cbv beta iota.
  assert (Eld : load (ib_buf input) offset len = Ok (sub_bytes offset len data)).
  { apply holds_load; done. }
  unfold lift at 1. erewrite bind_run; [|unfold mbind, M_bind; rewrite Eld; reflexivity].
  set (piece := sub_bytes offset len data) in *. rewrite <- Hlen.
  destruct (new_run piece (set_msg (c0 ++ f) s)) as (e & E1 & Hpe);
    [unfold IKED_MSGBUF_MAX; lia|apply Hmsg|].
  erewrite bind_run; [|exact E1]. cbv beta iota.
  destruct (seal_run msgid IKEV2_PAYLOAD_SKF ex (response_flag response) f e piece fp
    (set_msg (hd ++ ([bZ IKEV2_PAYLOAD_NONE; x00] ++ host16 4) ++ f) s))
    as (m & s1 & E & Hc & Hp); [done|by right|by rewrite Hlen|apply msg_is_set, Hmsg|].
  destruct (crypto_set_msg _ m _ _ Hc) as (s' & Hc' & Es). exists m, s'.
  split_and!; [|done|exact Hp]. rewrite <- Es. exact E.
Qed.
End sending.
