(* ===== verification/Protect.v ===== *)
(** * What is sent protected is received

    The two ends of an IKE SA hold the same algorithms and keys and opposite
    roles. A message built by [msg_build_sk] or [msg_build_skf] passes the
    checks of [ikev2_msg_decrypt] at the other end, which recovers exactly the
    payloads; the parser goes on with them and with the first payload type the
    sender gave. *)

From S2P Require Import Prelude Types SaState Proposals Ibuf Build Parse ParseSk Queue.
From S2P Require Import Samples ParseTop ParseFrag ParseAlloc Encrypt Send.

(** The other end of the SA of [sender_ok]. *)
Record receiver_ok (sa : iked_sa) (c : iked_cipher) (h : iked_hash) (key ikey : bytes) : Prop := {
  ro_encr : sa_encr sa = Some c;
  ro_integr : sa_integr sa = Some h;
  ro_key : (if negb (sh_initiator (sa_hdr sa)) then sa_key_iencr sa else sa_key_rencr sa) = Some key;
  ro_ikey : hash_isaead h = false →
    (if negb (sh_initiator (sa_hdr sa)) then sa_key_iauth sa else sa_key_rauth sa) = Some ikey }.

Lemma print_hex_at_run buf off len s :
  0 ≤ off → 0 ≤ len → off + len ≤ blen buf → print_hex buf off len s = Ok (tt, s).
Proof.
  intros Ho Hl Hb.
  assert (H : wp never (print_hex buf off len) (λ _ s', s' = s) s) by (by repeat pstep).
  apply wp_total in H as ([] & s' & -> & ->). done.
Qed.

Lemma rd_run {S} buf off len (s : S) :
  0 ≤ off → 0 ≤ len → off + len ≤ blen buf →
  lift (rd buf off len) s = Ok (sub_bytes off len buf, s).
Proof. intros. unfold lift, rd. by rewrite !(proj2 (Z.leb_le _ _)) by lia. Qed.

Lemma must_alloc_run s : ps_alloc s = [] → must_alloc s = Ok (tt, s).
Proof. intros Ha. unfold must_alloc. by erewrite bind_run; [|by apply next_alloc_run]. Qed.

Lemma cipher_start_run c s : ps_alloc s = [] → cipher_start c s = Ok (true, s).
Proof.
  intros Ha. unfold cipher_start. erewrite bind_run; [|by apply next_alloc_run].
  destruct (0 <? encr_saltlength c); [|done].
  erewrite bind_run; [|by apply next_alloc_run]. by apply next_alloc_run.
Qed.

Section receive.
Context `{!External, !ExternalLaws, !Encrypter, !EncrypterLaws}.
Context (c : iked_cipher) (h : iked_hash) (key ikey : bytes).
Hypothesis Hsuite : suite_ok c h.

Lemma integr_accepts m src v s :
  ps_alloc s = [] → hash_isaead h = false → blen v = hash_length h →
  v = sub_bytes 0 (hash_length h) (ext_mac h ikey m) → blen src < 2 ^ 32 →
  msg_decrypt_integr h (Some ikey) (m ++ v) (src ++ v) (blen src) (hash_length h) s = Ok (true, s).
Proof.
  intros Ha Hae Hv Ev Hs. pose proof Hsuite as [_ _ Hl Hd _ _ _ _]. unfold msg_decrypt_integr.
  pose proof (blen_nonneg m). pose proof (blen_nonneg src).
  erewrite bind_run; [|apply buf_zeros_run; [done|unfold hash_keylength, IKED_MSGBUF_MAX; lia]].
  rewrite bool_decide_true by done. cbn [negb]. erewrite bind_run; [|by apply must_alloc_run].
  rewrite blen_app, Hv, Z.add_simpl_r.
  erewrite bind_run; [|apply rd_run; rewrite ?blen_app; lia].
  rewrite sub_bytes_app_l, sub_bytes_all by lia. cbv zeta.
  pose proof (ext_mac_length h ikey m ltac:(lia)) as Em.
  rewrite seek_ok_true; [|lia|lia|rewrite blen_app; lia|rewrite blen_app; unfold size_max; lia].
  cbn [negb]. erewrite bind_run; [|apply rd_run; lia].
  erewrite bind_run; [|apply rd_run; rewrite ?blen_app; lia].
  rewrite <- Ev, sub_bytes_app_r, Z.sub_diag, <- Hv, sub_bytes_all by lia.
  rewrite bool_decide_true by done. cbn [negb].
  erewrite bind_run; [|apply print_hex_at_run; lia]. done.
Qed.

(** The text behind the padding. *)
Lemma unpad pt rnd s :
  blen rnd = padding c (blen pt) →
  let p := pt ++ rnd ++ [bZ (padding c (blen pt))] in blen p < 2 ^ 32 →
  (pad ← (if blen p =? 0 then mret 0 else b ← lift (rd p (blen p - 1) 1); mret (fld8 b 0));
   _ ← print_hex p 0 (blen p);
   let size := (blen p - pad - 1) mod size_max in
   mret (if blen p <? size then None else Some (sub_bytes 0 size p))) s = Ok (Some pt, s).
Proof.
  intros Hr p Hp. pose proof Hsuite as [Hb _ _ _ _ _ _ _]. pose proof (blen_nonneg pt).
  destruct (roundup_spec (blen pt + 1) (encr_length c)) as [Hru _]; [lia|].
  assert (Hpad : 0 ≤ padding c (blen pt) < 256) by (unfold padding, cipher_length; lia).
  assert (Hlen : blen p = blen pt + padding c (blen pt) + 1)
    by (unfold p; rewrite !blen_app, Hr; change (blen [_]) with 1; lia).
  rewrite (proj2 (Z.eqb_neq _ _)) by lia.
  assert (Elast : sub_bytes (blen p - 1) 1 p = [bZ (padding c (blen pt))]).
  { unfold p at 2. rewrite app_assoc, sub_bytes_app_r by (rewrite blen_app; lia).
    rewrite blen_app, Hr, Hlen. by replace (_ - _) with 0 by lia. }
  erewrite bind_run; [|erewrite bind_run; [|apply rd_run; lia]; rewrite Elast; reflexivity].
  erewrite bind_run; [|apply print_hex_at_run; lia].
  assert (fld8 [bZ (padding c (blen pt))] 0 = padding c (blen pt)) as ->.
  { unfold fld8, sub_bytes. simpl. rewrite Zb_bZ. by rewrite Z.mod_small by lia. }
  cbv zeta. rewrite Hlen. rewrite Z.mod_small by (unfold size_max; lia).
  replace (_ - _ - 1) with (blen pt) by lia. rewrite (proj2 (Z.ltb_ge _ _)) by lia.
  unfold p. by rewrite sub_bytes_app_l, sub_bytes_all by lia.
Qed.

(** Decryption accepts what [sealed] and [checksum] describe. *)
Lemma payload_opens front pt iv rnd ct v s :
  ps_alloc s = [] → sealed c h key front pt iv rnd ct →
  checksum c h key ikey (front ++ iv ++ ct) iv (if hash_isaead h then front else [])
    (pt ++ rnd ++ [bZ (padding c (blen pt))]) v →
  blen ct ≤ IKED_MSGBUF_MAX →
  msg_decrypt_payload c h (Some key) (front ++ iv ++ ct ++ v) (iv ++ ct ++ v)
    (cipher_ivlength c) (blen ct) (blen iv + blen ct) (hash_length h) s = Ok (Some pt, s).
Proof.
  intros Ha Hse [Hv Hcv] Hmax. destruct (sealed_lens c h key _ _ _ _ _ Hse) as [Hct Hlp].
  pose proof Hse as [Hiv Hr He]. pose proof Hsuite as [Hb Hi Hl _ _ Hsalt Hs0 _].
  pose proof (blen_nonneg ct). pose proof (blen_nonneg front). unfold IKED_MSGBUF_MAX in Hmax.
  unfold msg_decrypt_payload, cipher_ivlength. rewrite <- Hiv.
  erewrite bind_run; [|by apply must_alloc_run].
  erewrite bind_run; [|apply rd_run; rewrite ?blen_app; lia].
  erewrite bind_run; [|by apply cipher_start_run]. cbn [negb].
  rewrite sub_bytes_app_l, sub_bytes_all by lia.
  assert (Et : sub_bytes (blen iv + blen ct) (hash_length h) (iv ++ ct ++ v) = v).
  { rewrite app_assoc, sub_bytes_app_r by (rewrite blen_app; lia).
    rewrite blen_app, Z.sub_diag, <- Hv. apply sub_bytes_all. }
  assert (Ec : sub_bytes (blen iv) (blen ct) (iv ++ ct ++ v) = ct).
  { rewrite sub_bytes_app_r, Z.sub_diag, sub_bytes_app_l by lia. apply sub_bytes_all. }
  assert (Hm : blen ct mod encr_length c = 0) by (rewrite Hct; apply roundup_spec; lia).
  destruct (hash_isaead h) eqn:Hae.
  - erewrite bind_run; [|apply rd_run; rewrite ?blen_app; lia]. rewrite Et.
    erewrite bind_run; [|apply buf_zeros_run; [done|]].
    2:{ unfold cipher_outlength, IKED_MSGBUF_MAX. rewrite roundup_mult by (lia || done). lia. }
    cbv beta iota. replace (blen (front ++ _) - _) with (blen front) by (rewrite blen_app; lia).
    erewrite bind_run; [|erewrite bind_run; [|apply print_hex_at_run; rewrite ?blen_app; lia];
      apply rd_run; rewrite ?blen_app; lia].
    rewrite sub_bytes_app_l, sub_bytes_all by lia.
    erewrite bind_run; [|apply rd_run; rewrite ?blen_app; lia]. rewrite Ec.
    symmetry in Hsalt. apply Z.ltb_lt in Hsalt.
    rewrite (ext_decrypt_aead _ _ _ _ _ _ _ _ Hsalt He Hcv).
    apply unpad; [done|lia].
  - erewrite bind_run; [|reflexivity].
    erewrite bind_run; [|apply buf_zeros_run; [done|]].
    2:{ unfold cipher_outlength, IKED_MSGBUF_MAX. rewrite roundup_mult by (lia || done). lia. }
    cbv beta iota. erewrite bind_run; [|reflexivity].
    erewrite bind_run; [|apply rd_run; rewrite ?blen_app; lia]. rewrite Ec.
    symmetry in Hsalt. apply Z.ltb_ge in Hsalt.
    assert (Hsz : encr_saltlength c = 0) by lia. rewrite (ext_decrypt_plain _ _ _ _ _ Hsz He).
    apply unpad; [done|lia].
Qed.
(** The other end recovers the payloads. *)
Lemma decrypt_protected sa front pt m s :
  receiver_ok sa c h key ikey → protected c h key ikey front pt m → ps_alloc s = [] →
  blen m ≤ IKED_MSGBUF_MAX →
  ikev2_msg_decrypt (Some sa) m (drop (length front) m) s = Ok (Some pt, s).
Proof.
  intros [Hc Hh Hk Hik] (iv & rnd & ct & v & -> & Hse & Hck) Ha Hmax.
  destruct (sealed_lens c h key _ _ _ _ _ Hse) as [Hct Hlp]. pose proof Hse as [Hiv Hr He].
  pose proof Hck as [Hv Hcv]. pose proof Hsuite as [Hb Hi Hl _ _ _ _ _].
  rewrite drop_app_length. unfold ikev2_msg_decrypt. rewrite Hc, Hh.
  set (encr := if negb _ then sa_key_iencr sa else _) in Hk.
  set (integr := if negb _ then sa_key_iauth sa else _) in Hik.
  assert ((if negb (sh_initiator (sa_hdr sa)) then (sa_key_iencr sa, sa_key_iauth sa)
           else (sa_key_rencr sa, sa_key_rauth sa)) = (encr, integr)) as ->
    by (unfold encr, integr; by destruct (sh_initiator (sa_hdr sa))).
  rewrite Hk. cbv zeta. rewrite !blen_app, Hv in Hmax. rewrite !blen_app, Hv.
  unfold IKED_MSGBUF_MAX in Hmax.
  pose proof (blen_nonneg front). pose proof (blen_nonneg ct).
  replace (blen iv + (blen ct + hash_length h) - hash_length h - cipher_ivlength c)
    with (blen ct) by (unfold cipher_ivlength; lia).
  replace (blen iv + (blen ct + hash_length h) - hash_length h) with (blen iv + blen ct) by lia.
  rewrite !(proj2 (Z.ltb_ge _ _)) by lia. cbn [orb]. unfold cipher_ivlength.
  do 3 (erewrite bind_run; [|apply print_hex_at_run; rewrite ?blen_app; lia]).
  assert (Hm : blen ct mod encr_length c = 0) by (rewrite Hct; apply roundup_spec; lia).
  erewrite bind_run.
  2:{ destruct (hash_isaead h) eqn:Hae; cbn [negb]; [reflexivity|]. rewrite (Hik eq_refl).
      rewrite <- blen_app, !app_assoc, <- (app_assoc front).
      apply integr_accepts; try done. rewrite blen_app. lia. }
  cbn [negb]. unfold cipher_length. rewrite Hm. cbn [Z.eqb negb].
  apply (payload_opens front pt iv rnd ct v); try done. unfold IKED_MSGBUF_MAX. lia.
Qed.
End receive.

(** ** Parsing a protected message *)

Lemma buf_new_run buf off len s :
  ps_alloc s = [] → 0 ≤ off → 0 ≤ len ≤ IKED_MSGBUF_MAX → off + len ≤ blen buf →
  blen buf < 2 ^ 32 →
  buf_new buf off len s = Ok (Some (sub_bytes off len buf), s).
Proof.
  intros Ha Ho Hl Hb Hmax. unfold buf_new. erewrite bind_run; [|by apply next_alloc_run].
  destruct (new_spec_len true (drop (Z.to_nat off) buf) len) as (o & E & Hn).
  { unfold blen in *. rewrite length_drop. lia. }
  { unfold blen, size_max in *. rewrite length_drop. lia. }
  unfold lift, mbind, M_bind. rewrite E. destruct o as [b|]; simpl.
  - destruct Hn as (_ & _ & _ & ->). do 3 f_equal.
  - destruct Hn as [?|?]; [done|lia].
Qed.

(** The fields a receiver reads of the front of a message. *)
Lemma front_fields hdr msgid np ex fl fp f n rest :
  0 ≤ np < 256 → 0 ≤ fp < 256 → 0 ≤ n → 32 + blen f + n < 2 ^ 16 →
  let m := enc_front (enc_header hdr msgid np ex fl) fp f n ++ rest in
  let ih := dec_ike_header m in
  let pl := dec_payload (sub_bytes 28 4 m) in
  ike_nextpayload ih = np ∧ ike_length ih = 32 + blen f + n ∧
  ike_flags ih = (if sh_initiator hdr then Z.lor fl IKEV2_FLAG_INITIATOR else fl) mod 256 ∧
  pld_nextpayload pl = fp ∧ pld_length pl = 4 + blen f + n.
Proof.
  intros Hnp Hfp Hn Hmax m ih pl. pose proof (blen_nonneg f).
  assert (E8 : ∀ z, be_decode 0 [bZ z] = z mod 256) by (intros z; simpl; by rewrite Zb_bZ).
  split_and!.
  - change (ike_nextpayload ih) with (be_decode 0 [bZ np]). rewrite E8. apply Z.mod_small. lia.
  - change (ike_length ih) with (be_decode 0 (be_encode 4 (32 + blen f + n))).
    apply be_decode_encode. simpl. lia.
  - apply E8.
  - change (pld_nextpayload pl) with (be_decode 0 [bZ fp]). rewrite E8. apply Z.mod_small. lia.
  - change (pld_length pl) with (be_decode 0 (be_encode 2 (4 + blen f + n))).
    apply be_decode_encode. simpl. lia.
Qed.

Lemma frag_fields hdr msgid ex fp n response num total m :
  0 ≤ num < 2 ^ 16 → 0 ≤ total < 2 ^ 16 →
  (∃ rest, m = enc_front (enc_header hdr msgid IKEV2_PAYLOAD_SKF ex (response_flag response)) fp
    (be_encode 2 num ++ be_encode 2 total) n ++ rest) →
  dec_frag_payload (sub_bytes 32 4 m) = mk_frag_payload num total.
Proof.
  intros Hn Ht [rest ->].
  change (mk_frag_payload (be_decode 0 (be_encode 2 num)) (be_decode 0 (be_encode 2 total)) =
    mk_frag_payload num total).
  by rewrite !be_decode_encode by (simpl; lia).
Qed.

(** The state of the other end when the datagram [m] arrives. *)
Record arrived (s : pstate) (sa : iked_sa) (m : bytes) : Prop := {
  ar_sa : ps_sa s = Some sa;
  ar_emsg : ps_emsg s = None;
  ar_data : msg_data (ps_msg s) = m;
  ar_plain : msg_e (ps_msg s) = false;
  ar_alloc : ps_alloc s = [] }.

(** What the loop over the payloads makes of the result of a protected
    payload from the peer. *)
Definition loop_result (r : Z) : P Z :=
  fp ← ikev2_msg_frompeer;
  if negb (r =? 0) && (fp : bool) then _ ← ikev2_send_informational; mret (-1) else mret 0.

Section parse.
Context `{!External, !ExternalLaws, !Encrypter, !EncrypterLaws}.
Context (c : iked_cipher) (h : iked_hash) (key ikey : bytes) (sa : iked_sa).
Hypothesis Hok : sender_ok sa c h key ikey.
Context (rsa : iked_sa).

(** A message comes from the peer when it was sent in the other role. *)
Lemma frompeer_run msgid np ex fp f n rest response s :
  0 ≤ np < 256 → 0 ≤ fp < 256 → 0 ≤ n → 32 + blen f + n < 2 ^ 16 →
  arrived s rsa (enc_front (enc_header (sa_hdr sa) msgid np ex (response_flag response)) fp f n ++ rest) →
  frompeer s = xorb (sh_initiator (sa_hdr rsa)) (sh_initiator (sa_hdr sa)).
Proof.
  intros Hnp Hfp Hn Hmax [Hs _ Hd _ _].
  destruct (front_fields (sa_hdr sa) msgid np ex (response_flag response) fp f n rest Hnp Hfp Hn Hmax)
    as (_ & _ & Hfl & _ & _).
  unfold frompeer. rewrite Hs, Hd. rewrite (proj2 (Z.ltb_ge _ _)).
  2:{ rewrite blen_app, blen_front. unfold sizeof_ike_header. pose proof (blen_nonneg f).
      pose proof (blen_nonneg rest). lia. }
  match goal with |- context [ike_flags ?x] => assert (ike_flags x = ike_flags (dec_ike_header
    (enc_front (enc_header (sa_hdr sa) msgid np ex (response_flag response)) fp f n ++ rest))) as ->
    by reflexivity end.
  rewrite Hfl. by destruct (sh_initiator (sa_hdr rsa)), (sh_initiator (sa_hdr sa)), response.
Qed.

Lemma pld_payloads_S depth offset length payload :
  ikev2_pld_payloads (S depth) offset length payload =
    (m ← gets cur;
     payloads_loop (S (Z.to_nat (length - offset))) (ikev2_pld_payloads depth) (msg_data m)
       (if msg_e m then IKED_E else 0) offset length (length - offset)%sz payload).
Proof. done. Qed.

(** A protected payload is the last one: the loop ends after it. *)
Lemma loop_protected fuel payloads m offset length total np pld s :
  np = IKEV2_PAYLOAD_SK ∨ np = IKEV2_PAYLOAD_SKF → offset < length →
  ikev2_validate_pld m offset total = Ok (Some pld) →
  payloads_loop (S fuel) payloads m 0 offset length total np s =
    ((if np =? IKEV2_PAYLOAD_SK
      then ikev2_pld_e payloads (pld_nextpayload pld) (offset + sizeof_payload)%sz
             (pld_length pld - sizeof_payload)%sz
      else ikev2_pld_ef payloads (pld_nextpayload pld) (offset + sizeof_payload)%sz
             (pld_length pld - sizeof_payload)%sz) ≫= loop_result) s.
Proof.
  intros Hnp Hlt Hv. simpl payloads_loop. rewrite (proj2 (Z.ltb_lt _ _)) by done.
  unfold lift at 1. rewrite Hv. destruct Hnp as [->| ->]; reflexivity.
Qed.

(** The front of the message is read, and the payload dispatched. *)
Lemma parse_front_run msgid np ex fp f n m pt response s :
  np = IKEV2_PAYLOAD_SK ∨ np = IKEV2_PAYLOAD_SKF → 0 ≤ fp < 256 → 0 ≤ n →
  32 + blen f + n ≤ IKED_MSGBUF_MAX →
  protected c h key ikey
    (enc_front (enc_header (sa_hdr sa) msgid np ex (response_flag response)) fp f n) pt m →
  blen m = 32 + blen f + n → arrived s rsa m →
  ikev2_pld_parse (dec_ike_header m) 0 s =
    ((if np =? IKEV2_PAYLOAD_SK then ikev2_pld_e (ikev2_pld_payloads 1) fp 32 (blen f + n)
      else ikev2_pld_ef (ikev2_pld_payloads 1) fp 32 (blen f + n)) ≫= loop_result) s.
Proof.
  intros Hnp Hfp Hn Hmax (iv & rnd & ct & v & Em & _ & _) Hm Har. pose proof (blen_nonneg f).
  set (rest := iv ++ ct ++ v) in Em. unfold IKED_MSGBUF_MAX in Hmax.
  destruct (front_fields (sa_hdr sa) msgid np ex (response_flag response) fp f n rest)
    as (Ein & Eil & _ & Epn & Epl); [destruct Hnp as [->| ->]; done|done|done|lia|].
  rewrite <- Em in Ein, Eil, Epn, Epl. pose proof Har as [Hs He Hd Hpl _].
  assert (Hcur : cur s = ps_msg s) by (unfold cur; by rewrite He).
  unfold ikev2_pld_parse. erewrite bind_run; [|reflexivity]. rewrite Hcur, Hd, Hm, Eil, Ein.
  rewrite Z.ltb_irrefl. change (0 + sizeof_ike_header)%sz with 28.
  rewrite pld_payloads_S. erewrite bind_run; [|reflexivity]. rewrite Hcur, Hd, Hpl.
  rewrite sz_sub_id by (unfold size_max; lia).
  rewrite (loop_protected _ _ _ _ _ _ _ (dec_payload (sub_bytes 28 4 m))); [|done|lia|].
  - rewrite Epl, Epn. change (28 + sizeof_payload)%sz with 32. unfold sizeof_payload.
    rewrite sz_sub_id by (unfold size_max; lia). by replace (4 + blen f + n - 4) with (blen f + n) by lia.
  - unfold ikev2_validate_pld, sizeof_payload. rewrite (proj2 (Z.ltb_ge _ 4)) by lia.
    unfold rd. rewrite !(proj2 (Z.leb_le _ _)) by lia. simpl andb. cbv iota.
    unfold mbind, out_bind. rewrite Epl. rewrite !(proj2 (Z.ltb_ge _ _)) by lia. done.
Qed.
Lemma protected_len msgid np ex fl fp f pt m :
  protected c h key ikey (enc_front (enc_header (sa_hdr sa) msgid np ex fl) fp f
    (sealed_len c h (blen pt))) pt m →
  blen m = 32 + blen f + sealed_len c h (blen pt).
Proof.
  intros (iv & rnd & ct & v & -> & Hse & [Hv _]).
  destruct (sealed_lens c h key _ _ _ _ _ Hse) as [Hct _]. pose proof Hse as [Hiv _ _].
  rewrite !blen_app, blen_front, Hv, Hct, Hiv. unfold sealed_len. lia.
Qed.

Lemma protected_drop front pt m n :
  protected c h key ikey front pt m → blen m = blen front + n →
  sub_bytes (blen front) n m = drop (length front) m.
Proof.
  intros _ Hm. unfold sub_bytes, blen in *. rewrite Nat2Z.id. apply take_ge. rewrite length_drop. lia.
Qed.

Lemma sealed_len_range pt : 0 ≤ blen pt ∧ 0 ≤ sealed_len c h (blen pt).
Proof.
  pose proof (blen_nonneg pt). pose proof (sealed_len_pos sa c h key ikey Hok (blen pt)). lia.
Qed.

Hypothesis Hrcv : receiver_ok rsa c h key ikey.
Hypothesis Hrole : sh_initiator (sa_hdr rsa) = negb (sh_initiator (sa_hdr sa)).

(** A message in one piece. *)
Lemma sk_received msgid ex fp response pt m s :
  0 ≤ fp < 256 → protected c h key ikey (sk_front sa c h msgid ex fp response (blen pt)) pt m →
  blen m ≤ IKED_MSGBUF_MAX → arrived s rsa m → frag_arr (sa_fragments rsa) = None →
  ikev2_pld_parse (dec_ike_header m) 0 s =
    (parse_decrypted (ikev2_pld_payloads 1) pt fp ≫= loop_result) s.
Proof.
  intros Hfp Hp Hmax Har Hfr. unfold sk_front in Hp. pose proof (protected_len _ _ _ _ _ _ _ _ Hp) as Hm.
  destruct (sealed_len_range pt) as [Hpt0 Hn]. set (n := sealed_len c h (blen pt)) in *.
  change (blen []) with 0 in Hm. unfold IKED_MSGBUF_MAX in Hmax.
  rewrite (parse_front_run msgid IKEV2_PAYLOAD_SK ex fp [] n m pt response s);
    [|by left|done|done|change (blen []) with 0; unfold IKED_MSGBUF_MAX; lia|done|done|done].
  change (IKEV2_PAYLOAD_SK =? IKEV2_PAYLOAD_SK) with true. cbv iota.
  change (blen [] + n) with n. pose proof Har as [Hs He Hd Hpl Ha].
  assert (Hfrom : frompeer s = true).
  { pose proof Hp as (iv & rnd & ct & v & Em & _ & _). rewrite Em in Har.
    rewrite (frompeer_run msgid IKEV2_PAYLOAD_SK ex fp [] n (iv ++ ct ++ v) response);
      [|done|done|done|change (blen []) with 0; lia|exact Har].
    rewrite Hrole. by destruct (sh_initiator (sa_hdr sa)). }
  unfold mbind, M_bind. f_equal. unfold ikev2_pld_e. erewrite bind_run; [|reflexivity].
  assert (Hcur : cur s = ps_msg s) by (unfold cur; by rewrite He). rewrite Hcur, Hd.
  erewrite bind_run; [|reflexivity]. rewrite Hs, Hfr, bool_decide_false by (by intros [??]).
  set (fr := enc_front _ _ _ _) in Hp.
  assert (Hfl : blen fr = 32) by (unfold fr; by rewrite blen_front).
  erewrite bind_run; [|apply buf_new_run; unfold IKED_MSGBUF_MAX; try done; lia].
  unfold ikev2_msg_frompeer. erewrite bind_run; [|reflexivity]. rewrite Hfrom.
  rewrite <- Hfl, (protected_drop fr pt m n Hp) by lia.
  erewrite bind_run; [|eapply decrypt_protected; try done; apply Hok]. done.
Qed.

(** A fragment. *)
Lemma skf_received msgid ex fp num total response pt m s :
  0 ≤ fp < 256 → 1 ≤ num ≤ total → total ≤ IKED_FRAG_TOTAL_MAX →
  protected c h key ikey (skf_front sa c h msgid ex fp num total response (blen pt)) pt m →
  blen m ≤ IKED_MSGBUF_MAX → arrived s rsa m →
  ikev2_pld_parse (dec_ike_header m) 0 s =
    ((_ ← upd_stats stat_rcvd; ef_accept (ikev2_pld_payloads 1) fp num total pt) ≫= loop_result) s.
Proof.
  intros Hfp Hnum Htot Hp Hmax Har. unfold skf_front in Hp. set (f := be_encode 2 num ++ _) in Hp.
  assert (Hf : blen f = 4) by done.
  pose proof (protected_len _ _ _ _ _ _ _ _ Hp) as Hm. rewrite Hf in Hm.
  destruct (sealed_len_range pt) as [Hpt0 Hn]. set (n := sealed_len c h (blen pt)) in *.
  unfold IKED_MSGBUF_MAX, IKED_FRAG_TOTAL_MAX in *.
  rewrite (parse_front_run msgid IKEV2_PAYLOAD_SKF ex fp f n m pt response s);
    [|by right|done|done|unfold IKED_MSGBUF_MAX; lia|done|lia|done].
  change (IKEV2_PAYLOAD_SKF =? IKEV2_PAYLOAD_SK) with false. cbv iota.
  pose proof Har as [Hs He Hd Hpl Ha]. unfold mbind, M_bind. f_equal.
  unfold ikev2_pld_ef. erewrite bind_run; [|reflexivity].
  assert (Hcur : cur s = ps_msg s) by (unfold cur; by rewrite He). rewrite Hcur, Hd.
  erewrite bind_run; [|reflexivity]. rewrite Hs, Hf.
  assert (Ev : ikev2_validate_ef m 32 (4 + n) = Ok (Some (mk_frag_payload num total))).
  { unfold ikev2_validate_ef, sizeof_frag_payload. rewrite (proj2 (Z.ltb_ge _ _)) by lia.
    unfold rd. rewrite !(proj2 (Z.leb_le _ _)) by lia. simpl andb. cbv iota.
    unfold mbind, out_bind. do 2 f_equal. apply (frag_fields (sa_hdr sa) msgid ex fp n response); [lia..|].
    destruct Hp as (iv & rnd & ct & v & Em & _ & _). by eexists. }
  unfold lift at 1. rewrite Ev. erewrite bind_run; [|reflexivity]. cbv beta iota zeta.
  cbn [frag_num frag_total_w]. change (32 + sizeof_frag_payload)%sz with 36. unfold sizeof_frag_payload.
  rewrite sz_sub_id by (unfold size_max; lia). replace (4 + n - 4) with n by lia.
  erewrite bind_run; [|reflexivity]. unfold IKED_FRAG_TOTAL_MAX.
  rewrite (proj2 (Z.ltb_ge 111 _)) by lia. rewrite !(proj2 (Z.eqb_neq _ _)) by lia. cbn [orb].
  rewrite (proj2 (Z.ltb_ge _ _)) by lia. set (fr := enc_front _ _ _ _) in Hp.
  assert (Hfl : blen fr = 36) by (unfold fr; rewrite blen_front, Hf; lia).
  erewrite bind_run; [|apply buf_new_run; unfold IKED_MSGBUF_MAX; try done; lia].
  rewrite <- Hfl, (protected_drop fr pt m n Hp) by lia.
  erewrite bind_run; [|eapply decrypt_protected; try done; apply Hok]. done.
Qed.
End parse.

(** ** Sending in one piece *)

Section send_sk.
Context `{!External, !ExternalLaws, !Encrypter, !EncrypterLaws}.
Context (c : iked_cipher) (h : iked_hash) (key ikey : bytes) (sa : iked_sa).
Hypothesis Hok : sender_ok sa c h key ikey.
Context (verbose : Z) (peer : sockaddr).
Hypothesis Hquiet : verbose < 3.

(** The daemon's own parse of what it sends at most drops the fragments it
    is collecting. *)
Lemma parse_own_run sa1 msgid ex fp response pt m s :
  sa_hdr sa1 = sa_hdr sa → nd_sa s = Some sa1 → crypto_ok sa1 → frag_ok (sa_fragments sa1) →
  0 ≤ fp < 256 → protected c h key ikey (sk_front sa c h msgid ex fp response (blen pt)) pt m →
  blen m ≤ IKED_MSGBUF_MAX → msg_is s m →
  ∃ sa2, parse_own verbose peer sa response s = Ok (tt, set_nd_sa (Some sa2) s) ∧
    sa_core sa2 = sa_core sa1 ∧ sa_requests sa2 = sa_requests sa1 ∧
    sa_responses sa2 = sa_responses sa1.
Proof.
  intros Hhdr Hs Hcr Hfr Hfp Hp Hmax [Hb Ha]. unfold sk_front in Hp.
  pose proof (protected_len c h key ikey sa _ _ _ _ _ _ _ _ Hp) as Hm.
  destruct (sealed_len_range c h key ikey sa Hok pt) as [Hpt0 Hn].
  set (n := sealed_len c h (blen pt)) in *. change (blen []) with 0 in Hm.
  assert (Ec : ibuf_content (nd_buf s) = m) by (rewrite Hb; by apply holds_msgbuf).
  unfold parse_own. rewrite Ec, Ha, Hs. set (p := mk_pstate _ _ _ _ _ _ _ _ _).
  assert (Har : arrived p sa1 m) by done. unfold IKED_MSGBUF_MAX in Hmax.
  assert (Hnot : frompeer p = false).
  { pose proof Hp as (iv & rnd & ct & v & Em & _ & _). rewrite Em in Har.
    rewrite (frompeer_run sa sa1 msgid IKEV2_PAYLOAD_SK ex fp [] n (iv ++ ct ++ v) response);
      [|done|done|done|change (blen []) with 0; lia|exact Har].
    rewrite Hhdr. by destruct (sh_initiator (sa_hdr sa)). }
  assert (Htop : top_ok p).
  { constructor; try done; [|by intros ? [= <-]]. constructor; [simpl; lia|by rewrite Hnot]. }
  assert (dec_ike_header (sub_bytes 0 sizeof_ike_header m) = dec_ike_header m) as ->.
  { destruct Hp as (iv & rnd & ct & v & -> & _ & _). reflexivity. }
  assert (Hrun : wp never (ikev2_pld_parse (dec_ike_header m) 0)
    (λ _ s', sk_post p 0 s' ∧ same_requests p s') p).
  { apply wp_plenty; [apply _|by apply not_elem_of_nil|]. unfold wp. rewrite (parse_front_run c h key ikey sa sa1 msgid IKEV2_PAYLOAD_SK ex fp [] n m pt response p);
      [|by left|done|done|change (blen []) with 0; unfold IKED_MSGBUF_MAX; lia|done|done|done].
    change (IKEV2_PAYLOAD_SK =? IKEV2_PAYLOAD_SK) with true. cbv iota.
    match goal with |- context [(?k ≫= loop_result) p] =>
      change (wp oom_only (k ≫= loop_result) (λ _ s', sk_post p 0 s' ∧ same_requests p s') p) end.
    apply wp_bind. eapply wp_mono.
    - apply pld_e_keeps; [intros; by eapply payloads_decrypted|done|by intros ? [= <-]|lia|..].
      + change (blen []) with 0. lia.
      + change (blen []) with 0. simpl. lia.
    - intros r s1 [[Hx1 Hx2] Hx3]. unfold loop_result, ikev2_send_informational. repeat pstep.
      all: split; [split; [etrans; [exact Hx1|]; done|done]|done]. }
  apply wp_total in Hrun as (r & p' & E & [[Hsf Hq] Hreq]). rewrite E.
  destruct (sframe_sa _ _ sa1 Hsf eq_refl) as (sa2 & Hs2 & Hcore). exists sa2.
  unfold same_requests in Hreq. rewrite Hs2 in Hreq |- *. destruct Hreq as [Hr1 Hr2].
  apply (inj Some) in Hr1, Hr2.
  split_and!; try done. rewrite (plenty _ p r p' eq_refl E), set_nd_alloc_nil by done. done.
Qed.
Lemma msg_init_run s :
  nd_alloc s = [] → ikev2_msg_init s = Ok (true, set_msg [] s).
Proof. intros Ha. unfold ikev2_msg_init, n_alloc, mbind, M_bind. rewrite Ha, msgbuf_new. reflexivity. Qed.

(** The id of the next message, and the SA after taking it. *)
Definition next_msgid (response : bool) : Z := if response then sa_msgid_current sa else sa_reqid sa.
Definition numbered (response : bool) : iked_sa :=
  if response then sa else set_sa_reqid (to_u32 (sa_reqid sa + 1)) sa.

Lemma msg_id_run (response : bool) s :
  nd_sa s = Some sa →
  ((if response then mret (sa_msgid_current sa) else ikev2_msg_id) : N Z) s =
    Ok (next_msgid response, set_nd_sa (Some (numbered response)) s).
Proof.
  intros Hs. destruct response; simpl.
  - destruct s; simpl in *; by subst.
  - unfold ikev2_msg_id. erewrite bind_run; [|reflexivity]. by rewrite Hs.
Qed.

Lemma send_sk_run e pt ex fp response s :
  nd_sa s = Some sa → crypto_ok sa → frag_ok (sa_fragments sa) →
  queue_wf (sa_requests sa) → queue_wf (sa_responses sa) → nd_alloc s = [] → holds e pt →
  ikev2_check_frag_oversize (Some sa) e = 0 → 0 ≤ fp < 256 →
  36 + sealed_len c h (blen pt) ≤ IKED_MSGBUF_MAX →
  ∃ m s', ikev2_msg_send_encrypt verbose peer e ex fp response s = Ok (0, s') ∧
    nd_out s' = nd_out s ++ (if next_net s is Sent then [wire sa m] else []) ∧
    protected c h key ikey (sk_front sa c h (next_msgid response) ex fp response (blen pt)) pt m.
Proof.
  intros Hs Hcr Hfr Hq Hp Ha He Hov Hfp Hmax. unfold ikev2_msg_send_encrypt.
  erewrite bind_run; [|reflexivity]. rewrite Hs, Hov. change (negb (0 =? 0)) with false. cbv iota.
  erewrite bind_run; [|by apply msg_init_run]. cbn [negb].
  erewrite bind_run; [|by apply msg_id_run]. set (s1 := set_nd_sa _ (set_msg [] s)).
  destruct (build_sk_run sa c h key ikey Hok e pt (next_msgid response) ex fp response s1 He)
    as (m & s2 & E & (r & k & u & ->) & Hprot); [done|lia|].
  rewrite (bind_run _ _ _ _ _ E). cbn [negb].
  pose proof (protected_len c h key ikey sa _ _ _ _ _ _ _ _ Hprot) as Hm. change (blen []) with 0 in Hm.
  destruct (sealed_len_range c h key ikey sa Hok pt) as [Hpt0 Hn].
  set (s3 := set_msg m _).
  destruct (parse_own_run (numbered response) (next_msgid response) ex fp response pt m s3)
    as (sa2 & E2 & Hcore & Hr1 & Hr2).
  { clear. by destruct response. }
  { reflexivity. }
  { clear -Hcr. destruct response; [done|]. destruct Hcr as [H1' H2' H3']. by constructor. }
  { clear -Hfr. by destruct response. }
  { done. }
  { exact Hprot. }
  { lia. }
  { apply msg_is_set, Ha. }
  rewrite (bind_run _ _ _ _ _ E2).
  destruct (msg_send_run (set_nd_sa (Some sa2) s3) sa2 m (next_msgid response) response)
    as (r' & s' & sa' & E3 & _ & Hout & _ & _ & Hr0).
  - done.
  - rewrite Hr1. clear -Hq. by destruct response.
  - rewrite Hr2. clear -Hp. by destruct response.
  - apply holds_msgbuf. lia.
  - unfold sizeof_ike_header. lia.
  - assert (Hnatt : sa_natt sa2 = sa_natt sa).
    { transitivity (sa_natt (numbered response)); [exact (f_equal sa_natt Hcore)|clear; by destruct response]. }
    assert (Ew : wire sa2 m = wire sa m) by (unfold wire; by rewrite Hnatt).
    rewrite Ew in *. pose proof (blen_wire sa m).
    assert (r' = 0) as -> by (apply Hr0; [exact Ha|lia]).
    exists m, s'. rewrite E3. split_and!; [done| |done]. destruct Hout as [->|[? _]]; [|done]. done.
Qed.
End send_sk.

(** C2: what is sent protected in one piece is received: with the keys of the
    SA, memory, and payloads that fit, [ikev2_msg_send_encrypt] puts one
    message on the wire (or the network refuses it), and at the other end of
    the SA the parser accepts it and goes on with exactly the payloads and the
    first payload type that were sent. This holds for authenticated ciphers and
    for ciphers with a separate checksum, any padding and any vector. *)
Theorem sk_message_roundtrip `{!External, !ExternalLaws, !Encrypter, !EncrypterLaws}
    c h key ikey sa verbose peer e pt ex fp response s :
  sender_ok sa c h key ikey → verbose < 3 →
  nd_sa s = Some sa → crypto_ok sa → frag_ok (sa_fragments sa) →
  queue_wf (sa_requests sa) → queue_wf (sa_responses sa) → nd_alloc s = [] → holds e pt →
  ikev2_check_frag_oversize (Some sa) e = 0 → 0 ≤ fp < 256 →
  36 + sealed_len c h (blen pt) ≤ IKED_MSGBUF_MAX →
  ∃ m s', ikev2_msg_send_encrypt verbose peer e ex fp response s = Ok (0, s') ∧
    nd_out s' = nd_out s ++ (if next_net s is Sent then [wire sa m] else []) ∧
    ∀ rsa p, receiver_ok rsa c h key ikey →
      sh_initiator (sa_hdr rsa) = negb (sh_initiator (sa_hdr sa)) →
      frag_arr (sa_fragments rsa) = None → arrived p rsa m →
      ikev2_pld_parse (dec_ike_header m) 0 p =
        (parse_decrypted (ikev2_pld_payloads 1) pt fp ≫= loop_result) p.
Proof.
  intros Hok Hv Hs Hcr Hfr Hq Hp Ha He Hov Hfp Hmax.
  destruct (send_sk_run c h key ikey sa Hok verbose peer Hv e pt ex fp response s)
    as (m & s' & E & Hout & Hprot); try done.
  exists m, s'. split_and!; [done|done|]. intros rsa p Hr Hrole Hfa Har.
  pose proof (protected_len c h key ikey sa _ _ _ _ _ _ _ _ Hprot) as Hm. change (blen []) with 0 in Hm.
  eapply sk_received; [exact Hok|exact Hr|exact Hrole|exact Hfp|exact Hprot|lia|exact Har|exact Hfa].
Qed.

(** ** An example *)

(** The identity as an authenticated cipher. *)
Definition demo_encrypter : Encrypter := {|
  ext_encrypt _ _ _ _ pt := Some pt;
  ext_tag _ _ _ _ _ n := if 0 <=? n then Some (zeros n) else None |}.

#[local] Existing Instances demo_encrypter.
#[local] Instance demo_external : External := sample_external Some.

Lemma demo_external_laws : ExternalLaws.
Proof. apply sample_laws. by intros ct pt [= ->]. Defined.

Lemma demo_encrypter_laws : EncrypterLaws.
Proof.
  constructor.
  - by intros c key iv aad pt ct [= ->].
  - intros c key iv aad pt n tag. simpl. destruct (Z.leb_spec 0 n); [|done]. intros [= <-].
    by apply blen_zeros.
  - by intros c key iv aad pt ct n tag _ [= ->] _.
  - by intros c key iv pt ct _ [= ->].
Defined.

(** AES-GCM with tags of 16 bytes. *)
Definition demo_gcm : iked_cipher := mk_cipher IKEV2_XFORMENCR_AES_GCM_16 1 8 4 20 2020.
Definition demo_tag : iked_hash := mk_hash 2020 16 0 true IKEV2_XFORMTYPE_INTEGR 0.

Definition demo_end (initiator : bool) : iked_sa :=
  set_sa_encr (Some demo_gcm) (set_sa_integr (Some demo_tag)
    (set_sa_hdr (mk_sahdr 1 2 initiator) sample_sa)).

Lemma demo_suite : suite_ok demo_gcm demo_tag.
Proof. constructor; vm_compute; intuition discriminate. Qed.

Lemma demo_works key : cipher_works demo_gcm demo_tag key.
Proof. intros iv aad pt _ _. split; by eexists. Qed.

Lemma demo_sender : sender_ok (demo_end true) demo_gcm demo_tag [] [].
Proof. constructor; try reflexivity; [apply demo_suite|apply demo_works]. Qed.

Lemma demo_receiver : receiver_ok (demo_end false) demo_gcm demo_tag [] [].
Proof. by constructor. Qed.

Lemma demo_end_crypto i : crypto_ok (demo_end i).
Proof.
  constructor.
  - intros c [= <-]. vm_compute. intuition discriminate.
  - intros h [= <-]. vm_compute. intuition discriminate.
  - intros c h _ [= <-]. split_and!; [by eexists|by eexists|done].
Qed.

Definition demo_payload : bytes := bs [0; 0; 0; 8; 1; 2; 3; 4].

Lemma sk_message_roundtrip_witness :
  let s := demo_node (demo_end true) [] in
  ∃ m s', ikev2_msg_send_encrypt 0 (mk_sockaddr AF_INET 500 []) (msgbuf demo_payload)
      IKEV2_EXCHANGE_INFORMATIONAL IKEV2_PAYLOAD_NONCE false s = Ok (0, s') ∧
    nd_out s' = nd_out s ++ (if next_net s is Sent then [wire (demo_end true) m] else []) ∧
    ∀ rsa p, receiver_ok rsa demo_gcm demo_tag [] [] →
      sh_initiator (sa_hdr rsa) = negb (sh_initiator (sa_hdr (demo_end true))) →
      frag_arr (sa_fragments rsa) = None → arrived p rsa m →
      ikev2_pld_parse (dec_ike_header m) 0 p =
        (parse_decrypted (ikev2_pld_payloads 1) demo_payload IKEV2_PAYLOAD_NONCE ≫= loop_result) p.
Proof.
  apply (@sk_message_roundtrip demo_external demo_external_laws demo_encrypter demo_encrypter_laws
    demo_gcm demo_tag [] [] (demo_end true)).
  - apply demo_sender.
  - lia.
  - reflexivity.
  - apply demo_end_crypto.
  - reflexivity.
  - apply queue_wf_nil.
  - apply queue_wf_nil.
  - reflexivity.
  - apply holds_msgbuf. vm_compute. discriminate.
  - unfold ikev2_check_frag_oversize. cbn [ibuf_length].
    rewrite (holds_size _ demo_payload) by (apply holds_msgbuf; vm_compute; discriminate). reflexivity.
  - vm_compute. intuition discriminate.
  - vm_compute. discriminate.
Defined.
