(* ===== verification/FragSend.v ===== *)
(** * Fragmented messages, end to end

    [ikev2_send_encrypted_fragments] cuts the payloads into pieces and protects
    each one; the pieces on the wire put together are the payloads, and the
    other end reassembles them in whatever order they arrive. *)

From S2P Require Import Prelude Types SaState Proposals Ibuf Build Parse ParseSk Queue.
From S2P Require Import ParseTop ParseFrag ParseAlloc Encrypt Send Protect.

(** ** Cutting *)

Fixpoint chunks (k : nat) (max : Z) (d : bytes) : list bytes :=
  match k with
  | O => []
  | S k => take (Z.to_nat max) d :: chunks k max (drop (Z.to_nat max) d)
  end.

Lemma concat_chunks k max d :
  0 ≤ max → blen d ≤ Z.of_nat k * max → concat (chunks k max d) = d.
Proof.
  intros Hm. revert d. induction k as [|k IH]; intros d Hd.
  - destruct d; [done|]. unfold blen in Hd. simpl in Hd. lia.
  - simpl. rewrite IH; [by rewrite take_drop|]. unfold blen in *. rewrite length_drop. lia.
Qed.

Lemma length_chunks k max d : length (chunks k max d) = k.
Proof. revert d. induction k; intros d; simpl; [done|]. by f_equal. Qed.

Section frag_send.
Context `{!External, !ExternalLaws, !Encrypter, !EncrypterLaws}.
Context (c : iked_cipher) (h : iked_hash) (key ikey : bytes) (sa : iked_sa).
Hypothesis Hok : sender_ok sa c h key ikey.

(** [ms] are the messages of the pieces [ds], numbered from [num]; only the
    first one tells the type of the first payload. *)
Fixpoint frag_msgs (msgid ex : Z) (response : bool) (total num fp : Z) (ds ms : list bytes) : Prop :=
  match ds, ms with
  | [], [] => True
  | d :: ds, m :: ms =>
      protected c h key ikey (skf_front sa c h msgid ex fp num total response (blen d)) d m ∧
      frag_msgs msgid ex response total (num + 1) 0 ds ms
  | _, _ => False
  end.

(** The largest piece fits a buffer, with its headers and the marker. *)
Definition piece_fits (max : Z) : Prop :=
  0 < max ∧ ∀ n, 0 ≤ n ≤ max → 40 + sealed_len c h n ≤ IKED_MSGBUF_MAX.

Lemma frag_step input data offset len num total msgid ex fp response sa1 s :
  holds input data → 0 ≤ offset → 0 ≤ len → offset + len ≤ blen data →
  40 + sealed_len c h len ≤ IKED_MSGBUF_MAX →
  nd_sa s = Some sa1 → sa_natt sa1 = sa_natt sa →
  queue_wf (sa_requests sa1) → queue_wf (sa_responses sa1) → nd_alloc s = [] → nd_net s = [] →
  ∃ m s1 s2 sa2,
    ikev2_msg_init s = Ok (true, set_msg [] s) ∧
    msg_build_skf sa input offset len num total msgid ex fp response (set_msg [] s) = Ok (true, s1) ∧
    ikev2_msg_send msgid response s1 = Ok (0, s2) ∧
    protected c h key ikey (skf_front sa c h msgid ex fp num total response len)
      (sub_bytes offset len data) m ∧
    nd_out s2 = nd_out s ++ [wire sa m] ∧ nd_sa s2 = Some sa2 ∧ sa_natt sa2 = sa_natt sa ∧
    queue_wf (sa_requests sa2) ∧ queue_wf (sa_responses sa2) ∧ nd_alloc s2 = [] ∧ nd_net s2 = [].
Proof.
  intros Hin Ho Hl Hol Hmax Hs Hnatt Hq Hp Ha Hn.
  destruct (build_skf_run sa c h key ikey Hok input data offset len num total msgid ex fp response
    (set_msg [] s) Hin) as (m & s0 & E & (r & k & u & ->) & Hprot);
    [by split|exact Ho|exact Hl|exact Hol|lia|].
  assert (Hlen : blen (sub_bytes offset len data) = len) by (apply blen_sub_bytes; assumption).
  assert (Hm : blen m = 36 + sealed_len c h len).
  { rewrite <- Hlen in Hprot at 1. pose proof (protected_len c h key ikey sa _ _ _ _ _ _ _ _ Hprot) as Hm.
    rewrite Hlen in Hm. change (blen (be_encode 2 num ++ be_encode 2 total)) with 4 in Hm. lia. }
  pose proof (sealed_len_pos sa c h key ikey Hok len Hl) as Hsp.
  set (s1 := set_msg m _) in E.
  destruct (msg_send_run s1 sa1 m msgid response)
    as (r' & s2 & sa2 & E2 & Hs2 & Hout & Hqd & _ & Hr).
  - exact Hs.
  - exact Hq.
  - exact Hp.
  - apply holds_msgbuf. lia.
  - unfold sizeof_ike_header. lia.
  - assert (Ew : wire sa1 m = wire sa m) by (unfold wire; by rewrite Hnatt).
    pose proof (blen_wire sa m) as Hw. rewrite Ew in *.
    assert (Hnn : next_net s1 = Sent) by (unfold next_net; change (nd_net s1) with (nd_net s); by rewrite Hn).
    destruct Hr as (-> & Ha2 & Hn2 & Hrest); [exact Ha|lia|].
    change (nd_net s1) with (nd_net s) in Hn2. rewrite Hn in Hn2. rewrite Hnn in *.
    exists m, s1, s2, sa2. split_and!; [by apply msg_init_run|exact E|exact E2|exact Hprot| |exact Hs2
      | | | |exact Ha2|exact Hn2].
    + destruct Hout as [Hout|[Hx _]]; [exact Hout|discriminate Hx].
    + specialize (Hrest ltac:(discriminate)). rewrite <- Hnatt. exact (f_equal sa_natt Hrest).
    + clear -Hqd Hq Hp. unfold queued in Hqd. destruct (has_bit _ _); [by destruct Hqd as [-> _]|by destruct Hqd as [_ [? _]]].
    + clear -Hqd Hq Hp. unfold queued in Hqd. destruct (has_bit _ _); [by destruct Hqd as [_ [? _]]|by destruct Hqd as [-> _]].
Qed.

Lemma take_drop_sub offset max data left :
  0 ≤ offset → offset + left = blen data → 0 ≤ left → 0 ≤ max →
  sub_bytes offset (Z.min left max) data = take (Z.to_nat max) (drop (Z.to_nat offset) data).
Proof.
  intros Ho Hl Hl0 Hm. unfold sub_bytes, blen in *.
  destruct (Z.min_spec left max) as [[? ->]|[? ->]]; [|done].
  rewrite !take_ge; [done|rewrite length_drop; lia..].
Qed.

Lemma send_fragments_run k input data max msgid ex response total :
  holds input data → piece_fits max → total < 2 ^ 16 →
  ∀ fuel left offset num fp sa1 s,
  (k < fuel)%nat → 0 ≤ offset → 0 ≤ left → offset + left = blen data →
  (1 ≤ k)%nat → (Z.of_nat k - 1) * max ≤ left < Z.of_nat k * max →
  1 ≤ num → num + Z.of_nat k - 1 = total →
  nd_sa s = Some sa1 → sa_natt sa1 = sa_natt sa →
  queue_wf (sa_requests sa1) → queue_wf (sa_responses sa1) → nd_alloc s = [] → nd_net s = [] →
  ∃ ms s', send_fragments fuel sa input max left offset num total msgid ex fp response s = Ok (0, s') ∧
    nd_out s' = nd_out s ++ (wire sa <$> ms) ∧
    frag_msgs msgid ex response total num fp (chunks k max (drop (Z.to_nat offset) data)) ms.
Proof.
  intros Hin [Hmax Hfit] Htot. pose proof (holds_max _ _ Hin) as Hdm. unfold IKED_MSGBUF_MAX in Hdm.
  induction k as [|k IH]; intros fuel left offset num fp sa1 s Hf Ho Hl Hol Hk Hleft Hn1 Hnum
    Hs Hnatt Hq Hp Ha Hn; [lia|].
  destruct fuel as [|fuel]; [lia|]. cbn [send_fragments]. rewrite (proj2 (Z.leb_le num total)) by lia.
  cbn [negb]. set (len := Z.min left max).
  destruct (frag_step input data offset len num total msgid ex fp response sa1 s)
    as (m & s1 & s2 & sa2 & E0 & E1 & E2 & Hprot & Hout & Hs2 & Hnatt2 & Hq2 & Hp2 & Ha2 & Hn2);
    [exact Hin|exact Ho|lia|lia|apply Hfit; lia|assumption..|].
  rewrite (bind_run _ _ _ _ _ E0). cbn [negb]. cbv zeta. fold len.
  rewrite (bind_run _ _ _ _ _ E1). cbn [negb]. rewrite (bind_run _ _ _ _ _ E2).
  change (0 =? -1) with false. cbv iota. erewrite bind_run; [|reflexivity].
  assert (Hd : sub_bytes offset len data = take (Z.to_nat max) (drop (Z.to_nat offset) data))
    by (apply take_drop_sub; lia).
  assert (Hlen : blen (sub_bytes offset len data) = len) by (apply blen_sub_bytes; lia).
  rewrite sz_sub_id, !sz_add_id by (unfold size_max; lia).
  set (s3 := set_nd_cnt _ s2). destruct (decide (k = 0%nat)) as [->|Hk0].
  - destruct fuel as [|fuel]; [lia|]. cbn [send_fragments].
    rewrite (proj2 (Z.leb_gt _ _)) by lia. cbn [negb].
    exists [m], s3. split_and!; [reflexivity|exact Hout|]. cbn [chunks frag_msgs].
    rewrite <- Hd, Hlen. exact (conj Hprot I).
  - assert (max ≤ left) as Hml by (clear -Hleft Hk0 Hmax; nia).
    assert (len = max) as Em by (subst len; lia). clearbody len. subst len.
    destruct (IH fuel (left - max) (offset + max) (num + 1) 0 sa2 s3)
      as (ms & s' & E & Ho' & Hms);
      [lia|lia|lia|lia|lia|clear -Hleft; lia|lia|lia|assumption..|].
    exists (m :: ms), s'. split_and!; [exact E| |].
    + rewrite Ho'. change (nd_out s3) with (nd_out s2). rewrite Hout, <- app_assoc. reflexivity.
    + cbn [chunks frag_msgs]. rewrite <- Hd, Hlen. split; [exact Hprot|]. rewrite drop_drop.
      rewrite Z2Nat.inj_add in Hms by lia. exact Hms.
Qed.
(** The size of a piece, and their number. *)
Definition piece_len : Z := maxlen_frag sa - encr_ivlength c - encr_length c - hash_length h.
Definition pieces (pt : bytes) : nat := Z.to_nat (blen pt / piece_len + 1).

Lemma piece_len_range : 328 ≤ piece_len < 1204.
Proof.
  destruct (so_suite _ _ _ _ _ Hok) as [Hs1 Hs2 Hs3 Hs4 _ _ _ _]. unfold piece_len, maxlen_frag.
  destruct (_ =? _); unfold IKEV2_MAXLEN_IPV4_FRAG, IKEV2_MAXLEN_IPV6_FRAG, IKEV2_IPV4_OVERHEAD,
    IKEV2_IPV6_OVERHEAD; lia.
Qed.

(** A piece has at most the bytes that were set aside for it. *)
Lemma sealed_piece n : 0 ≤ n ≤ piece_len → sealed_len c h n ≤ maxlen_frag sa.
Proof.
  intros Hn. destruct (so_suite _ _ _ _ _ Hok) as [Hs1 _ _ _ _ _ _ _].
  destruct (roundup_spec (n + 1) (encr_length c)) as [Hr _]; [lia|].
  unfold piece_len in Hn. unfold sealed_len. lia.
Qed.

Lemma pieces_fit : piece_fits piece_len.
Proof.
  pose proof piece_len_range as Hr. split; [lia|]. intros n Hn. pose proof (sealed_piece n Hn) as Hs.
  unfold maxlen_frag in Hs. unfold IKED_MSGBUF_MAX. destruct (_ =? _);
    unfold IKEV2_MAXLEN_IPV4_FRAG, IKEV2_MAXLEN_IPV6_FRAG, IKEV2_IPV4_OVERHEAD,
    IKEV2_IPV6_OVERHEAD in Hs; lia.
Qed.

Lemma pieces_range pt :
  blen pt ≤ IKED_MSGBUF_MAX →
  1 ≤ Z.of_nat (pieces pt) ≤ 25 ∧
  (Z.of_nat (pieces pt) - 1) * piece_len ≤ blen pt < Z.of_nat (pieces pt) * piece_len.
Proof.
  intros Hm. pose proof piece_len_range as Hr. pose proof (blen_nonneg pt) as Hpt0.
  unfold pieces, IKED_MSGBUF_MAX in *. set (q := blen pt / piece_len).
  assert (0 ≤ q) by (apply Z.div_pos; lia).
  assert (q < 25) by (apply Z.div_lt_upper_bound; lia).
  rewrite Z2Nat.id by lia. pose proof (Z.div_mod (blen pt) piece_len) as Hd.
  pose proof (Z.mod_pos_bound (blen pt) piece_len). fold q in Hd. split; nia.
Qed.

Lemma send_pieces_run e pt ex fp response s :
  nd_sa s = Some sa → queue_wf (sa_requests sa) → queue_wf (sa_responses sa) → nd_alloc s = [] →
  nd_net s = [] → holds e pt →
  ∃ ms s', ikev2_send_encrypted_fragments e ex fp response s = Ok (0, s') ∧
    nd_out s' = nd_out s ++ (wire sa <$> ms) ∧
    frag_msgs (next_msgid sa response) ex response (Z.of_nat (pieces pt)) 1 fp
      (chunks (pieces pt) piece_len pt) ms.
Proof.
  intros Hs Hq Hp Ha Hn He. pose proof (pieces_range pt (holds_max _ _ He)) as [Hk Hl].
  pose proof piece_len_range as Hr. pose proof (blen_nonneg pt) as Hpt0.
  unfold ikev2_send_encrypted_fragments. erewrite bind_run; [|reflexivity].
  rewrite Hs, (so_encr _ _ _ _ _ Hok), (so_integr _ _ _ _ _ Hok). cbn [ibuf_length]. cbv zeta.
  rewrite (holds_size _ _ He). unfold cipher_ivlength, cipher_length.
  assert ((maxlen_frag sa - encr_ivlength c - encr_length c - hash_length h)%sz = piece_len) as ->
    by (unfold sz_sub; apply Z.mod_small; fold piece_len; unfold size_max; lia).
  erewrite bind_run; [|by apply msg_id_run].
  fold (pieces pt). assert (blen pt / piece_len + 1 = Z.of_nat (pieces pt)) as ->.
  { unfold pieces. rewrite Z2Nat.id; [done|]. pose proof (Z.div_pos (blen pt) piece_len). lia. }
  destruct (send_fragments_run (pieces pt) e pt piece_len (next_msgid sa response) ex response
    (Z.of_nat (pieces pt)) He pieces_fit) with (fuel := S (S (pieces pt))) (left := blen pt)
    (offset := 0) (num := 1) (fp := fp) (sa1 := numbered sa response)
    (s := set_nd_sa (Some (numbered sa response)) s) as (ms & s' & E & Hout & Hms);
    [lia|lia|lia|lia|lia|lia|lia|lia|lia|reflexivity| | | |exact Ha|exact Hn|].
  - by destruct response.
  - by destruct response.
  - by destruct response.
  - exists ms, s'. split_and!; [exact E|exact Hout|exact Hms].
Qed.
End frag_send.

(** ** Receiving the pieces *)

Section frag_receive.
Context `{!External, !ExternalLaws, !Encrypter, !EncrypterLaws}.
Context (c : iked_cipher) (h : iked_hash) (key ikey : bytes) (sa : iked_sa).
Hypothesis Hok : sender_ok sa c h key ikey.

(** Every datagram comes in a message of its own. *)
Context (fresh : bytes → iked_message).
Hypothesis Hfresh : ∀ d, msg_data (fresh d) = d ∧ msg_e (fresh d) = false.

(** The datagrams [ms] are parsed in the order [order]; the result is that
    of the last one. *)
Fixpoint receive_all (ms : list bytes) (order : list nat) : P Z :=
  match order with
  | [] => mret 0
  | i :: order =>
      let m := default [] (ms !! i) in
      _ ← modify (set_ps_msg (fresh m));
      r ← ikev2_pld_parse (dec_ike_header m) 0;
      match order with [] => mret r | _ :: _ => receive_all ms order end
  end.

(** The state once all have come: the last message, the counter, the queue. *)
Definition all_received (ds : list bytes) (fp : Z) (ms : list bytes) (order : list nat)
    (p : pstate) : pstate :=
  with_queue (queue_of ds (λ i, if (i =? 0)%nat then fp else 0) (seq 0 (length ds)))
    (set_ps_stats (Nat.iter (length order) stat_rcvd (ps_stats p))
      (set_ps_msg (fresh (default [] (last order ≫= (ms !!.)))) p)).

Lemma frag_msgs_lookup msgid ex response total num fp ds ms i d :
  frag_msgs c h key ikey sa msgid ex response total num fp ds ms → ds !! i = Some d →
  ∃ m, ms !! i = Some m ∧
    protected c h key ikey (skf_front sa c h msgid ex (if (i =? 0)%nat then fp else 0)
      (num + Z.of_nat i) total response (blen d)) d m.
Proof.
  revert num fp ms i. induction ds as [|d' ds IH]; intros num fp [|m ms] i; try done.
  intros [Hp Hms] Hi. destruct i as [|i].
  - injection Hi as <-. exists m. rewrite Z.add_0_r. done.
  - destruct (IH (num + 1) 0 ms i Hms Hi) as (m' & Hm & Hp'). exists m'. split; [exact Hm|].
    replace (num + Z.of_nat (S i)) with (num + 1 + Z.of_nat i) by lia.
    by destruct i.
Qed.

Section run.
Context (ds : list bytes) (fp msgid ex : Z) (response : bool) (ms : list bytes).
Let next (i : nat) : Z := if (i =? 0)%nat then fp else 0.
Hypothesis Hnum : 1 ≤ Z.of_nat (length ds) ≤ IKED_FRAG_TOTAL_MAX.
Hypothesis Hfp : 0 ≤ fp < 256.
Hypothesis Hsum : blen (concat ds) ≤ IKED_MSGBUF_MAX.
Hypothesis Hfits : ∀ d, d ∈ ds → 36 + sealed_len c h (blen d) ≤ IKED_MSGBUF_MAX.
Hypothesis Hms : frag_msgs c h key ikey sa msgid ex response (Z.of_nat (length ds)) 1 fp ds ms.

Lemma fits_plain d : d ∈ ds → blen d ≤ IKED_MSGBUF_MAX.
Proof. intros Hd. pose proof (blen_elem_concat _ _ Hd). lia. Qed.

(** One of them: its fragment goes into the queue. *)
Lemma receive_step i d p rsa :
  ds !! i = Some d → ps_sa p = Some rsa → ps_emsg p = None → ps_alloc p = [] →
  receiver_ok rsa c h key ikey →
  ∃ m, ms !! i = Some m ∧
    ikev2_pld_parse (dec_ike_header m) 0 (set_ps_msg (fresh m) p) =
      (ef_accept (ikev2_pld_payloads 1) (next i) (Z.of_nat i + 1) (Z.of_nat (length ds)) d
         ≫= loop_result)
      (set_ps_stats (stat_rcvd (ps_stats p)) (set_ps_msg (fresh m) p)).
Proof.
  intros Hd Hs He Ha Hr.
  destruct (frag_msgs_lookup _ _ _ _ _ _ _ _ _ _ Hms Hd) as (m & Hm & Hp). exists m.
  split; [exact Hm|]. fold (next i) in Hp. rewrite Z.add_comm in Hp.
  pose proof (protected_len c h key ikey sa _ _ _ _ _ _ _ _ Hp) as Hl.
  change (blen (be_encode 2 _ ++ be_encode 2 _)) with 4 in Hl.
  pose proof (Hfits d (list_elem_of_lookup_2 _ _ _ Hd)) as Hf.
  pose proof (lookup_lt_Some _ _ _ Hd) as Hlt.
  rewrite (skf_received c h key ikey sa Hok rsa Hr msgid ex (next i) (Z.of_nat i + 1)
    (Z.of_nat (length ds)) response d m).
  - reflexivity.
  - unfold next. destruct (_ =? _)%nat; lia.
  - lia.
  - apply Hnum.
  - exact Hp.
  - lia.
  - destruct (Hfresh m) as [Hf1 Hf2]. by constructor.
Qed.

Lemma last_result s : loop_result 0 s = Ok (0, s).
Proof. unfold loop_result, ikev2_msg_frompeer. erewrite bind_run; [|reflexivity]. done. Qed.

Lemma receive_all_run l order p rsa :
  l ++ order ≡ₚ seq 0 (length ds) → order ≠ [] → received_ok ds next l →
  ps_sa p = Some rsa → ps_emsg p = None → ps_alloc p = [] → receiver_ok rsa c h key ikey →
  queue_at ds next l (sa_fragments rsa) →
  receive_all ms order p =
    (deliver (ikev2_pld_payloads 1) (concat ds) fp ≫= loop_result) (all_received ds fp ms order p).
Proof.
  revert l p rsa. induction order as [|i order IH]; intros l p rsa Hp Hne Hl Hs He Ha Hr Hat; [done|].
  assert (Hnd : NoDup (l ++ i :: order)) by (rewrite Hp; apply NoDup_seq).
  assert (Hi : i ∉ l).
  { apply NoDup_app in Hnd as (_ & Hd & _). intros ?. by apply (Hd i); [|left]. }
  destruct (lookup_lt_is_Some_2 ds i) as [d Hd].
  { assert (i ∈ seq 0 (length ds)) as Hin%elem_of_seq; [|lia].
    rewrite <- Hp. apply elem_of_app. right. by left. }
  destruct (queue_of_snoc ds next fits_plain l i d Hl Hd Hi) as [Hl' _].
  pose proof (Permutation_length Hp) as Hlen. rewrite length_app, length_seq in Hlen. simpl in Hlen.
  destruct (receive_step i d p rsa Hd Hs He Ha Hr) as (m & Hm & Hstep).
  set (p1 := set_ps_stats _ _) in Hstep.
  pose proof (accept_step (ikev2_pld_payloads 1) ds next Hnum fits_plain l i d p1 rsa Hl Hd Hi Hs Ha Hat)
    as Hacc.
  cbn [receive_all]. rewrite Hm. cbn [from_option id]. cbv zeta.
  erewrite bind_run; [|reflexivity]. destruct order as [|j order].
  - rewrite length_app, (proj2 (Nat.eqb_eq _ _)) in Hacc by (simpl in *; lia).
    rewrite (queue_of_perm _ _ _ _ Hp) in Hacc.
    rewrite (reassemble_full _ ds next Hnum fits_plain p1 rsa Hsum Hs Ha) in Hacc.
    unfold mbind, M_bind in Hstep |- *. rewrite Hstep, Hacc.
    unfold all_received. cbn [length last Nat.iter]. cbn [mbind option_bind]. rewrite Hm. cbn [from_option id].
    fold next. change (set_ps_stats _ _) with p1. change (next 0%nat) with fp.
    destruct (deliver _ _ _ _) as [[a p2]|]; [|reflexivity].
    by destruct (loop_result a p2) as [[]|].
  - rewrite length_app, (proj2 (Nat.eqb_neq _ _)) in Hacc by (simpl in *; lia).
    rewrite (bind_run _ _ _ _ _ Hacc), last_result in Hstep.
    erewrite bind_run; [|exact Hstep].
    rewrite (IH (l ++ [i]) _ (set_sa_fragments (queue_of ds next (l ++ [i])) rsa)).
    + f_equal. unfold all_received. change (length (i :: j :: order)) with (S (length (j :: order))).
      rewrite Nat.iter_succ_r. change (last (i :: j :: order)) with (last (j :: order)).
      unfold with_queue, p1. cbn [ps_sa set_ps_sa set_ps_stats set_ps_msg eta_ps ps_stats].
      rewrite Hs. reflexivity.
    + by rewrite <- app_assoc.
    + done.
    + exact Hl'.
    + unfold with_queue. simpl. by rewrite Hs.
    + exact He.
    + exact Ha.
    + destruct Hr. by constructor.
    + by left.
Qed.
End run.
End frag_receive.

Lemma chunk_le k max d x : 0 ≤ max → x ∈ chunks k max d → blen x ≤ max.
Proof.
  intros Hm. revert d. induction k as [|k IH]; intros d; simpl; [by intros ?%elem_of_nil|].
  intros [->|Hx]%elem_of_cons; [|by eapply IH]. unfold blen. rewrite length_take. lia.
Qed.

Section frag_claims.
Context `{!External, !ExternalLaws, !Encrypter, !EncrypterLaws}.

Lemma length_frag_msgs c h key ikey sa msgid ex response total num fp ds ms :
  frag_msgs c h key ikey sa msgid ex response total num fp ds ms → length ms = length ds.
Proof.
  revert num fp ms. induction ds as [|d ds IH]; intros num fp [|m ms]; try done.
  intros [_ H3]. simpl. f_equal. by eapply IH.
Qed.

Lemma piece_size c h key ikey sa msgid ex response total num fp ds ms i d :
  frag_msgs c h key ikey sa msgid ex response total num fp ds ms → ds !! i = Some d →
  ∃ m, ms !! i = Some m ∧ blen m = 36 + sealed_len c h (blen d).
Proof.
  intros Hms Hd. destruct (frag_msgs_lookup c h key ikey sa _ _ _ _ _ _ _ _ _ _ Hms Hd)
    as (m & Hm & Hprot). exists m. split; [exact Hm|].
  rewrite (protected_len c h key ikey sa _ _ _ _ _ _ _ _ Hprot).
  change (blen (be_encode 2 _ ++ be_encode 2 _)) with 4. lia.
Qed.

Lemma oversize_run c h key ikey sa verbose peer e pt ex fp response s :
  sender_ok sa c h key ikey → nd_sa s = Some sa → queue_wf (sa_requests sa) →
  queue_wf (sa_responses sa) → nd_alloc s = [] → nd_net s = [] → holds e pt →
  ikev2_check_frag_oversize (Some sa) e = 1 →
  ∃ ms s', ikev2_msg_send_encrypt verbose peer e ex fp response s = Ok (0, s') ∧
    nd_out s' = nd_out s ++ (wire sa <$> ms) ∧
    frag_msgs c h key ikey sa (next_msgid sa response) ex response (Z.of_nat (pieces c h sa pt)) 1 fp
      (chunks (pieces c h sa pt) (piece_len c h sa) pt) ms.
Proof.
  intros Hok Hs Hq Hp Ha Hn He Hov.
  destruct (send_pieces_run c h key ikey sa Hok e pt ex fp response s Hs Hq Hp Ha Hn He)
    as (ms & s' & E & Hout & Hms).
  exists ms, s'. split_and!; [|exact Hout|exact Hms].
  unfold ikev2_msg_send_encrypt. erewrite bind_run; [|reflexivity]. by rewrite Hs, Hov.
Qed.

(** C3: a message that is cut into fragments arrives whole: when
    [ikev2_msg_send_encrypt] decides that the payloads are too long for one
    packet, it puts a list of datagrams on the wire such that the other end of
    the SA, parsing them in any order, reassembles exactly the payloads and
    goes on with them and with the first payload type that were sent. *)
Theorem fragmented_roundtrip c h key ikey sa verbose peer e pt ex fp response s :
  sender_ok sa c h key ikey → nd_sa s = Some sa → queue_wf (sa_requests sa) →
  queue_wf (sa_responses sa) → nd_alloc s = [] → nd_net s = [] → holds e pt →
  ikev2_check_frag_oversize (Some sa) e = 1 → 0 ≤ fp < 256 →
  ∃ ms s', ikev2_msg_send_encrypt verbose peer e ex fp response s = Ok (0, s') ∧
    nd_out s' = nd_out s ++ (wire sa <$> ms) ∧
    ∀ fresh order rsa p,
      (∀ d, msg_data (fresh d) = d ∧ msg_e (fresh d) = false) →
      order ≡ₚ seq 0 (length ms) → ps_sa p = Some rsa → ps_emsg p = None → ps_alloc p = [] →
      receiver_ok rsa c h key ikey → sa_fragments rsa = frag_zero →
      ∃ ds, concat ds = pt ∧ length ds = length ms ∧
        receive_all fresh ms order p =
          (deliver (ikev2_pld_payloads 1) pt fp ≫= loop_result) (all_received fresh ds fp ms order p).
Proof.
  intros Hok Hs Hq Hp Ha Hn He Hov Hfp.
  destruct (oversize_run c h key ikey sa verbose peer e pt ex fp response s Hok Hs Hq Hp Ha Hn He Hov)
    as (ms & s' & E & Hout & Hms).
  exists ms, s'. split_and!; [exact E|exact Hout|]. clear E Hout s'.
  intros fresh order rsa p Hfresh Ho Hrs He' Ha' Hr Hz. pose proof (holds_max _ _ He) as Hmax.
  destruct (pieces_range c h key ikey sa Hok pt Hmax) as [Hk Hl].
  destruct (pieces_fit c h key ikey sa Hok) as [Hpos Hfit].
  set (ds := chunks (pieces c h sa pt) (piece_len c h sa) pt) in *.
  assert (Hlen : length ds = pieces c h sa pt) by apply length_chunks.
  assert (Hcat : concat ds = pt) by (apply concat_chunks; lia).
  pose proof (length_frag_msgs _ _ _ _ _ _ _ _ _ _ _ _ _ Hms) as Hlm.
  exists ds. split_and!; [exact Hcat|by rewrite Hlm|]. rewrite <- Hlen in Hms, Hk.
  rewrite (receive_all_run c h key ikey sa Hok fresh Hfresh ds fp (next_msgid sa response) ex response ms)
    with (l := []) (rsa := rsa).
  - by rewrite Hcat.
  - unfold IKED_FRAG_TOTAL_MAX. lia.
  - exact Hfp.
  - by rewrite Hcat.
  - intros d Hd. pose proof (chunk_le _ _ _ _ (Z.lt_le_incl _ _ Hpos) Hd) as Hd'.
    pose proof (blen_nonneg d). specialize (Hfit (blen d)). lia.
  - exact Hms.
  - by rewrite <- Hlm.
  - intros ->. apply Permutation_length in Ho. rewrite length_seq in Ho. simpl in Ho. lia.
  - apply received_nil. unfold IKED_FRAG_TOTAL_MAX. lia.
  - exact Hrs.
  - exact He'.
  - exact Ha'.
  - exact Hr.
  - by right.
Qed.

(** C32: the size of the fragments: no fragment has more than 36 bytes above
    the length set aside for its encrypted part, so IPv4 packets stay below
    585 bytes and IPv6 packets below 1289 (with 4 more behind a NAT). The
    bound is reached, by the first of several fragments under a cipher with
    blocks of one byte such as AES-GCM: the headers of the payload and of the
    fragment are not accounted for, and the packet of 584 or 1288 bytes is
    above the 576 or 1280 that it was cut for. *)
Theorem fragment_datagram_size c h key ikey sa verbose peer e pt ex fp response s :
  sender_ok sa c h key ikey → nd_sa s = Some sa → queue_wf (sa_requests sa) →
  queue_wf (sa_responses sa) → nd_alloc s = [] → nd_net s = [] → holds e pt →
  ikev2_check_frag_oversize (Some sa) e = 1 →
  ∃ ms s', ikev2_msg_send_encrypt verbose peer e ex fp response s = Ok (0, s') ∧
    nd_out s' = nd_out s ++ (wire sa <$> ms) ∧ (1 ≤ length ms ≤ 25)%nat ∧
    (∀ m, m ∈ ms → blen m ≤ 36 + maxlen_frag sa) ∧
    (encr_length c = 1 → (2 ≤ length ms)%nat →
      ∃ m, m ∈ ms ∧ blen m = 36 + maxlen_frag sa).
Proof.
  intros Hok Hs Hq Hp Ha Hn He Hov.
  destruct (oversize_run c h key ikey sa verbose peer e pt ex fp response s Hok Hs Hq Hp Ha Hn He Hov)
    as (ms & s' & E & Hout & Hms).
  exists ms, s'. pose proof (holds_max _ _ He) as Hmax.
  destruct (pieces_range c h key ikey sa Hok pt Hmax) as [Hk Hl].
  pose proof (piece_len_range c h key ikey sa Hok) as Hpl.
  set (ds := chunks (pieces c h sa pt) (piece_len c h sa) pt) in *.
  assert (Hlen : length ds = pieces c h sa pt) by apply length_chunks.
  pose proof (length_frag_msgs _ _ _ _ _ _ _ _ _ _ _ _ _ Hms) as Hlm.
  pose proof (λ i d, piece_size c h key ikey sa _ _ _ _ _ _ _ _ i d Hms) as Hsize.
  split_and!; [exact E|exact Hout|lia|lia|..].
  - intros m [i Hi]%list_elem_of_lookup.
    destruct (lookup_lt_is_Some_2 ds i) as [d Hd]; [apply lookup_lt_Some in Hi; lia|].
    destruct (Hsize i d Hd) as (m' & Hm' & Hbl). rewrite Hi in Hm'. injection Hm' as <-.
    rewrite Hbl. assert (blen d ≤ piece_len c h sa).
    { eapply chunk_le; [lia|]. by eapply list_elem_of_lookup_2. }
    pose proof (sealed_piece c h key ikey sa Hok (blen d)). pose proof (blen_nonneg d). lia.
  - intros Hb Hlong. destruct (Hsize 0%nat (take (Z.to_nat (piece_len c h sa)) pt)) as (m & Hm & Hbl).
    { unfold ds. destruct (pieces c h sa pt); [lia|done]. }
    exists m. split; [by eapply list_elem_of_lookup_2|]. rewrite Hbl.
    assert (blen (take (Z.to_nat (piece_len c h sa)) pt) = piece_len c h sa) as ->
      by (unfold blen in *; rewrite length_take; nia).
    unfold sealed_len, roundup. rewrite Hb, Z.div_1_r, Z.mul_1_r. unfold piece_len. lia.
Qed.
End frag_claims.

(** ** An example *)

(** A payload of 1200 bytes goes out in three fragments. *)
Definition demo_long : bytes := zeros 1200.

Lemma demo_long_holds : holds (msgbuf demo_long) demo_long.
Proof. apply holds_msgbuf. vm_compute. discriminate. Qed.

Lemma demo_long_oversize : ikev2_check_frag_oversize (Some (demo_end true)) (msgbuf demo_long) = 1.
Proof.
  unfold ikev2_check_frag_oversize. cbn [ibuf_length]. rewrite (holds_size _ _ demo_long_holds).
  vm_compute. reflexivity.
Qed.

Lemma fragmented_roundtrip_witness :
  let s := demo_node (demo_end true) [] in
  ∃ ms s', @ikev2_msg_send_encrypt demo_external demo_encrypter 0 (mk_sockaddr AF_INET 500 [])
      (msgbuf demo_long) IKEV2_EXCHANGE_INFORMATIONAL IKEV2_PAYLOAD_NONCE false s = Ok (0, s') ∧
    nd_out s' = nd_out s ++ (wire (demo_end true) <$> ms) ∧
    ∀ fresh order rsa p,
      (∀ d, msg_data (fresh d) = d ∧ msg_e (fresh d) = false) →
      order ≡ₚ seq 0 (length ms) → ps_sa p = Some rsa → ps_emsg p = None → ps_alloc p = [] →
      receiver_ok rsa demo_gcm demo_tag [] [] → sa_fragments rsa = frag_zero →
      ∃ ds, concat ds = demo_long ∧ length ds = length ms ∧
        @receive_all demo_external fresh ms order p =
          (deliver (@ikev2_pld_payloads demo_external 1) demo_long IKEV2_PAYLOAD_NONCE ≫= loop_result)
            (all_received fresh ds IKEV2_PAYLOAD_NONCE ms order p).
Proof.
  apply (@fragmented_roundtrip demo_external demo_external_laws demo_encrypter demo_encrypter_laws
    demo_gcm demo_tag [] [] (demo_end true)).
  - apply demo_sender.
  - reflexivity.
  - apply queue_wf_nil.
  - apply queue_wf_nil.
  - reflexivity.
  - reflexivity.
  - apply demo_long_holds.
  - apply demo_long_oversize.
  - vm_compute. intuition discriminate.
Defined.

Lemma fragment_datagram_size_witness :
  let s := demo_node (demo_end true) [] in
  ∃ ms s', @ikev2_msg_send_encrypt demo_external demo_encrypter 0 (mk_sockaddr AF_INET 500 [])
      (msgbuf demo_long) IKEV2_EXCHANGE_INFORMATIONAL IKEV2_PAYLOAD_NONCE false s = Ok (0, s') ∧
    nd_out s' = nd_out s ++ (wire (demo_end true) <$> ms) ∧ (1 ≤ length ms ≤ 25)%nat ∧
    (∀ m, m ∈ ms → blen m ≤ 556) ∧
    (1 = 1 → (2 ≤ length ms)%nat → ∃ m, m ∈ ms ∧ blen m = 556).
Proof.
  apply (@fragment_datagram_size demo_external demo_external_laws demo_encrypter demo_encrypter_laws
    demo_gcm demo_tag [] [] (demo_end true) 0 (mk_sockaddr AF_INET 500 []) (msgbuf demo_long) demo_long).
  - apply demo_sender.
  - reflexivity.
  - apply queue_wf_nil.
  - apply queue_wf_nil.
  - reflexivity.
  - reflexivity.
  - apply demo_long_holds.
  - apply demo_long_oversize.
Defined.
