(* ===== verification/Keys.v ===== *)
(** * Keys: [ikev2_prfplus] and [ikev2_sa_keys] of [ikev2.c]

    The key material of an IKE SA: SKEYSEED from the nonces and the shared
    secret of the key exchange, expanded by prf+ and cut into the seven keys.
    The theorems show that the buffers hold exactly the bytes RFC 7296 asks
    for, and that the two ends of an exchange arrive at the same keys, those
    the other one expects. *)

From S2P Require Import Prelude Types SaState Proposals Ibuf Build Parse ParseSk Queue Encrypt Crypto.
From S2P Require Import Send Protect.

Definition IKED_NONCE_MIN : Z := 16.

(** [cipher_keylength]; the key of a cipher without a fixed length is what
    was set last, and every cipher of [cipher_new] has one. *)
Definition cipher_keylength (c : iked_cipher) (key : Z) : Z :=
  if negb (encr_fixedkey c =? 0) then encr_fixedkey c else key.

(** [dh_create_shared] of [dh.c]: the secret, [None] for -1. *)
Definition dh_create_shared (group : dh_group) (exchange : option bytes) : N (option ibuf) :=
  match dh_shared2 group with
  | Some shared2 =>
      match shared2 exchange with
      | None => mret None
      | Some secret => n_new (Some secret) (blen secret)
      end
  | None =>
      match exchange with
      | None => mret None
      | Some x =>
          if negb (blen x =? dh_getlen group) then mret None
          else
            o ← n_new None (dh_secretlen group);
            match o with
            | None => mret None
            | Some buf =>
                match dh_shared group x with
                | None => mret None
                | Some secret =>
                    nb ← lift (store (ib_buf buf) (ib_rpos buf) secret);
                    mret (Some (set_ib_buf nb buf))
                end
            end
      end
  end.

Section keys.
Context `{!External}.

(** [hash_final]: the digest goes to the buffer, and the length returned is
    the truncated one. *)
Definition hash_final (h : iked_hash) (key data : bytes) (dst : ibuf) : N (Z * ibuf) :=
  let mac := ext_mac h key data in
  nb ← lift (store (ib_buf dst) (ib_rpos dst) mac);
  let len := blen mac in
  mret (if negb (hash_trunc h =? 0) && (hash_trunc h <? len) then hash_trunc h else len,
        set_ib_buf nb dst).

(** ** prf+ *)

(** The loop, from round [i]; what [ibuf_add] returns is not looked at, and a
    buffer that could not be allocated is a null pointer. *)
Fixpoint prfplus_rounds (n : nat) (i : Z) (prf : iked_hash) (key : bytes) (seed : ibuf)
    (t1 : option ibuf) (t : ibuf) : N ibuf :=
  match n with
  | O => mret t
  | S n =>
      t2 ← (match t1 with Some b => mret (Some b) | None => n_new None 0 end);
      t1 ← n_new None (hash_keylength prf);
      match t2 with
      | None => fail Fnull
      | Some t2 =>
          sd ← lift (ibuf_data seed (ibuf_size seed));
          r ← withbuf t2 (b_add sd);
          let pad := to_u8 (i + 1) in
          r ← withbuf r.2 (b_add [bZ pad]);
          data ← lift (ibuf_data r.2 (ibuf_size r.2));
          match t1 with
          | None => fail Fnull
          | Some t1 =>
              f ← hash_final prf key data t1;
              if negb (f.1 =? hash_length prf) then fail Ffatal
              else
                d1 ← lift (ibuf_data f.2 (ibuf_size f.2));
                r ← withbuf t (b_add d1);
                prfplus_rounds n (i + 1) prf key seed (Some f.2) r.2
          end
      end
  end.

Definition ikev2_prfplus (prf : iked_hash) (key seed : ibuf) (keymatlen : Z) : N (option ibuf) :=
  kd ← lift (ibuf_data key (ibuf_size key));
  k ← n_new (Some kd) (ibuf_size key);
  match k with
  | None => mret None
  | Some _ =>
      t ← n_new None 0;
      match t with
      | None => mret None
      | Some t =>
          let rlen := roundup keymatlen (hash_length prf) / hash_length prf in
          if 255 <? rlen then fail Ffatal
          else
            t ← prfplus_rounds (Z.to_nat rlen) 0 prf kd seed None t;
            mret (Some t)
      end
  end.

(** ** The keys of an SA *)

(** The PRF key and the data for SKEYSEED; [None] is [goto done]. *)
Definition skeyseed_input (key : option bytes) (ni nr : bytes) (ilen rlen : Z) (dhsecret : ibuf)
  : N (option (bytes * ibuf)) :=
  match key with
  | None =>
      o ← n_new (Some ni) ilen;
      match o with
      | None => mret None
      | Some ninr =>
          d ← lift (rd nr 0 rlen);
          r ← withbuf ninr (b_add d);
          if negb (r.1 =? 0) then mret None
          else k ← lift (ibuf_data r.2 (ibuf_size r.2)); mret (Some (k, dhsecret))
      end
  | Some key =>
      d ← lift (rd ni 0 ilen);
      r ← withbuf dhsecret (b_add d);
      if negb (r.1 =? 0) then mret None
      else
        d ← lift (rd nr 0 rlen);
        r ← withbuf r.2 (b_add d);
        if negb (r.1 =? 0) then mret None else mret (Some (key, r.2))
  end.

(** SKEYSEED. *)
Definition skeyseed_new (prf : iked_hash) (key : bytes) (dhsecret : ibuf) : N (option ibuf) :=
  k ← n_new (Some key) (blen key);
  match k with
  | None => mret None
  | Some _ =>
      o ← n_new None (hash_keylength prf);
      match o with
      | None => mret None
      | Some skeyseed =>
          data ← lift (ibuf_data dhsecret (ibuf_size dhsecret));
          f ← hash_final prf key data skeyseed;
          let '(r, skeyseed) := ibuf_setsize f.2 f.1 in
          mret (if r =? -1 then None else Some skeyseed)
      end
  end.

(** S = Ni | Nr | SPIi | SPIr *)
Definition seed_new (hdr : iked_sahdr) (ni nr : bytes) : N (option ibuf) :=
  o ← n_new (Some ni) (blen ni);
  match o with
  | None => mret None
  | Some s =>
      r ← withbuf s (b_add nr);
      if negb (r.1 =? 0) then mret None
      else
        r ← withbuf r.2 (b_add (be_encode 8 (sh_ispi hdr)));
        if negb (r.1 =? 0) then mret None
        else
          r ← withbuf r.2 (b_add (be_encode 8 (sh_rspi hdr)));
          mret (if negb (r.1 =? 0) then None else Some r.2)
  end.

(** The next key of the material: what is left, and whether it was there. *)
Definition take_key (set : option bytes → iked_sa → iked_sa) (t : ibuf) (len : Z) : N (bool * ibuf) :=
  a ← n_alloc;
  r ← lift (ibuf_getdata a t len);
  _ ← upd_nsa (set (ibuf_content <$> r.1));
  mret (bool_decide (is_Some r.1), r.2).

Fixpoint take_keys (l : list ((option bytes → iked_sa → iked_sa) * Z)) (t : ibuf) : N bool :=
  match l with
  | [] => mret true
  | (set, len) :: l =>
      r ← take_key set t len;
      if negb r.1 then mret false else take_keys l r.2
  end.

(** What is cut out of the material, in this order. *)
Definition key_plan (c : iked_cipher) (h p : iked_hash) (ekey : Z)
  : list ((option bytes → iked_sa → iked_sa) * Z) :=
  let isaead := hash_isaead h in
  [(set_sa_key_d, hash_length p)] ++
  (if isaead then []
   else [(set_sa_key_iauth, hash_keylength h); (set_sa_key_rauth, hash_keylength h)]) ++
  [(set_sa_key_iencr, cipher_keylength c ekey); (set_sa_key_rencr, cipher_keylength c ekey);
   (set_sa_key_iprf, hash_length p); (set_sa_key_rprf, hash_length p)].

(** [key] is SK_d of the SA that is being rekeyed; [ekey] the length of the
    key the cipher had before. *)
Definition ikev2_sa_keys (key : option bytes) (ekey : Z) : N Z := with_sa (λ sa,
  match sa_encr sa, sa_prf sa, sa_integr sa, sa_dhgroup sa with
  | Some encr, Some prf, Some integr, Some group =>
      let isaead := hash_isaead integr in
      let nonceminlen := if negb (hash_fixedkey prf =? 0) then hash_fixedkey prf else IKED_NONCE_MIN in
      let ni := default [] (sa_inonce sa) in
      let nr := default [] (sa_rnonce sa) in
      if (blen ni <? nonceminlen) || negb (blen ni mod 2 =? 0) ||
         (blen nr <? nonceminlen) || negb (blen nr mod 2 =? 0) then mret (-1)
      else
        let '(ilen, rlen) :=
          if negb (hash_fixedkey prf =? 0) then (hash_fixedkey prf / 2, hash_fixedkey prf / 2)
          else (blen ni, blen nr) in
        o ← dh_create_shared group (sa_dhpeer sa);
        match o with
        | None => mret (-1)
        | Some dhsecret =>
            o ← skeyseed_input key ni nr ilen rlen dhsecret;
            match o with
            | None => mret (-1)
            | Some (k, dhsecret) =>
                o ← skeyseed_new prf k dhsecret;
                match o with
                | None => mret (-1)
                | Some skeyseed =>
                    o ← seed_new (sa_hdr sa) ni nr;
                    match o with
                    | None => mret (-1)
                    | Some s =>
                        let ilen := (hash_length prf +
                          ((if isaead then 0 else hash_keylength integr) +
                           (if isaead then 0 else hash_keylength integr) +
                           cipher_keylength encr ekey + cipher_keylength encr ekey +
                           hash_keylength prf + hash_keylength prf))%sz in
                        o ← ikev2_prfplus prf skeyseed s ilen;
                        match o with
                        | None => mret (-1)
                        | Some t =>
                            ok ← take_keys (key_plan encr integr prf ekey) t;
                            mret (if (ok : bool) then 0 else -1)
                        end
                    end
                end
            end
        end
  | _, _, _, _ => mret (-1)
  end).
End keys.

(** ** The reference *)

(** T1 = prf(K, S | 0x01), T2 = prf(K, T1 | S | 0x02), and so on. *)
Fixpoint prf_plus `{!External} (prf : iked_hash) (k s : bytes) (n : nat) (i : Z) (prev : bytes)
  : list bytes :=
  match n with
  | O => []
  | S n => let t := ext_mac prf k (prev ++ s ++ [bZ (i + 1)]) in t :: prf_plus prf k s n (i + 1) t
  end.

(** ** What the buffers hold *)

(** Overwriting the whole content. *)
Lemma holds_overwrite b c data :
  holds b c → blen data = blen c → 0 < blen data →
  ∃ nb, store (ib_buf b) (ib_rpos b) data = Ok nb ∧ holds (set_ib_buf nb b) data.
Proof.
  intros Hb Hl Hp. pose proof (holds_wpos _ _ Hb) as Hw. pose proof Hb as [Hwf Hc Hr Hm Hf].
  pose proof Hwf as [Ha Hpos Hmx]. destruct (ib_buf b) as [d|] eqn:Eb; [|lia].
  destruct (store_spec d (ib_rpos b) data) as (d' & E & Hd & _ & _ & Hs); [lia..|].
  exists (Some d'). split; [exact E|]. constructor; simpl; try done.
  - constructor; simpl; [lia|done|done].
  - unfold ibuf_content. simpl. rewrite Hw, Hr, Z.sub_0_r, <- Hl. by rewrite Hr in Hs.
Qed.

Section prfplus.
Context `{!External, !ExternalLaws}.
Context (prf : iked_hash).
Hypothesis Htrunc : hash_trunc prf = 0.
Hypothesis Hlen : 1 ≤ hash_length_f prf ≤ 64.

Lemma prf_length : hash_length prf = hash_length_f prf.
Proof. unfold hash_length. by rewrite Htrunc. Qed.

Lemma blen_prf key data : blen (ext_mac prf key data) = hash_length_f prf.
Proof. apply ext_mac_length. lia. Qed.

Lemma hash_final_run key data dst s :
  holds dst (zeros (hash_length_f prf)) →
  ∃ dst', hash_final prf key data dst s = Ok ((hash_length_f prf, dst'), s) ∧
    holds dst' (ext_mac prf key data).
Proof.
  intros Hd. unfold hash_final. pose proof (blen_prf key data) as Hl.
  destruct (holds_overwrite dst _ (ext_mac prf key data) Hd) as (nb & E & Hh);
    [rewrite Hl, blen_zeros; lia|lia|].
  eexists. split; [|exact Hh]. unfold lift. rewrite E. erewrite bind_run; [|reflexivity].
  by rewrite Htrunc, Hl.
Qed.

Lemma blen_prf_plus k sd n i prev :
  blen (concat (prf_plus prf k sd n i prev)) = Z.of_nat n * hash_length_f prf.
Proof.
  revert i prev. induction n as [|n IH]; intros i prev; [done|].
  cbn [prf_plus concat]. rewrite blen_app, IH, blen_prf. lia.
Qed.

Lemma prfplus_rounds_run n i key seed sd t1 prev t acc s :
  nd_alloc s = [] → holds seed sd → 0 < blen sd →
  match t1 with Some b => holds b prev | None => prev = [] end →
  holds t acc → 0 ≤ i → i + Z.of_nat n < 256 →
  blen prev ≤ hash_length_f prf → hash_length_f prf + blen sd + 1 ≤ IKED_MSGBUF_MAX →
  blen acc + Z.of_nat n * hash_length_f prf ≤ IKED_MSGBUF_MAX →
  ∃ t', prfplus_rounds n i prf key seed t1 t s = Ok (t', s) ∧
    holds t' (acc ++ concat (prf_plus prf key sd n i prev)).
Proof.
  intros Ha Hsd Hsd0. revert i t1 prev t acc.
  induction n as [|n IH]; intros i t1 prev t acc Hprev Ht Hi Hn Hp Hm Hacc.
  { exists t. rewrite app_nil_r. done. }
  pose proof (blen_nonneg prev) as Hp0. cbn [prfplus_rounds].
  assert (∃ t2, ((match t1 with Some b => mret (Some b) | None => n_new None 0 end) : N _) s =
    Ok (Some t2, s) ∧ holds t2 prev) as (t2 & E1 & H2).
  { destruct t1 as [b|]; [by exists b|]. subst prev.
    apply (new_zeros_run 0 s); [unfold IKED_MSGBUF_MAX; lia|done]. }
  rewrite (bind_run _ _ _ _ _ E1). unfold hash_keylength.
  destruct (new_zeros_run (hash_length_f prf) s) as (t1' & E2 & H1);
    [unfold IKED_MSGBUF_MAX; lia|done|].
  rewrite (bind_run _ _ _ _ _ E2). unfold lift at 1. rewrite (holds_data _ _ Hsd).
  erewrite bind_run; [|reflexivity].
  destruct (withbuf_fits t2 prev sd s H2 Ha Hsd0) as (b3 & E3 & H3); [lia|].
  rewrite (bind_run _ _ _ _ _ E3). cbn [snd]. cbv zeta.
  destruct (withbuf_fits b3 _ [bZ (to_u8 (i + 1))] s H3 Ha) as (b4 & E4 & H4);
    [done|rewrite blen_app; change (blen [_]) with 1; lia|].
  rewrite (bind_run _ _ _ _ _ E4). cbn [snd]. unfold lift at 1. rewrite (holds_data _ _ H4).
  erewrite bind_run; [|reflexivity].
  unfold to_u8 in *. rewrite Z.mod_small in * by lia. rewrite <- app_assoc in *.
  destruct (hash_final_run key (prev ++ sd ++ [bZ (i + 1)]) t1' s H1) as (t1'' & E5 & H5).
  rewrite (bind_run _ _ _ _ _ E5). cbn [fst snd]. rewrite prf_length, Z.eqb_refl. cbn [negb].
  unfold lift. rewrite (holds_data _ _ H5). erewrite bind_run; [|reflexivity].
  set (T := ext_mac prf key _) in *. assert (HT : blen T = hash_length_f prf) by apply blen_prf.
  destruct (withbuf_fits t acc T s Ht Ha) as (t' & E6 & H6); [lia|lia|].
  rewrite (bind_run _ _ _ _ _ E6). cbn [snd].
  destruct (IH (i + 1) (Some t1'') T t' (acc ++ T)) as (tf & Ef & Hf); [done|done|lia|lia|lia|lia|rewrite blen_app; lia|].
  exists tf. split; [exact Ef|]. cbn [prf_plus concat]. fold T. by rewrite app_assoc.
Qed.

(** The number of rounds for [n] bytes. *)
Definition rounds (n : Z) : nat := Z.to_nat (roundup n (hash_length prf) / hash_length prf).

Lemma rounds_range n :
  0 ≤ n ≤ 1024 → n ≤ Z.of_nat (rounds n) * hash_length_f prf < n + hash_length_f prf.
Proof.
  intros Hn. unfold rounds. rewrite prf_length.
  destruct (roundup_spec n (hash_length_f prf)) as [Hr Hm]; [lia|].
  assert (0 ≤ roundup n (hash_length_f prf) / hash_length_f prf) by (apply Z.div_pos; lia).
  rewrite Z2Nat.id by done. pose proof (Z.div_mod (roundup n (hash_length_f prf)) (hash_length_f prf)). lia.
Qed.

Lemma prfplus_run key kd seed sd n s :
  nd_alloc s = [] → holds key kd → holds seed sd → 0 < blen sd ≤ 4096 → 0 ≤ n ≤ 1024 →
  n ≤ 64 * hash_length_f prf →
  ∃ t, ikev2_prfplus prf key seed n s = Ok (Some t, s) ∧
    holds t (concat (prf_plus prf kd sd (rounds n) 0 [])).
Proof.
  intros Ha Hk Hsd Hs Hn Hn64. unfold ikev2_prfplus. unfold lift at 1. rewrite (holds_data _ _ Hk).
  erewrite bind_run; [|reflexivity]. rewrite (holds_size _ _ Hk).
  destruct (new_run kd s (holds_max _ _ Hk) Ha) as (b & E & _). rewrite (bind_run _ _ _ _ _ E).
  destruct (new_zeros_run 0 s) as (t & E1 & Ht); [unfold IKED_MSGBUF_MAX; lia|done|].
  rewrite (bind_run _ _ _ _ _ E1). cbv zeta. pose proof (rounds_range n Hn) as Hr.
  assert (Hq : roundup n (hash_length prf) / hash_length prf = Z.of_nat (rounds n)).
  { unfold rounds. rewrite Z2Nat.id; [done|]. rewrite prf_length. apply Z.div_pos; [|lia].
    destruct (roundup_spec n (hash_length_f prf)); lia. }
  assert (Z.of_nat (rounds n) < 66) by nia.
  rewrite Hq, (proj2 (Z.ltb_ge _ _)) by lia. fold (rounds n). rewrite Nat2Z.id.
  destruct (prfplus_rounds_run (rounds n) 0 kd seed sd None [] t [] s) as (t' & E2 & H2);
    try done; try (unfold IKED_MSGBUF_MAX; change (blen []) with 0; lia).
  rewrite (bind_run _ _ _ _ _ E2). exists t'. done.
Qed.
End prfplus.

(** ** Cutting the material *)

Fixpoint assign (l : list ((option bytes → iked_sa → iked_sa) * Z)) (mat : bytes) (sa : iked_sa)
  : iked_sa :=
  match l with
  | [] => sa
  | (set, len) :: l =>
      assign l (drop (Z.to_nat len) mat) (set (Some (take (Z.to_nat len) mat)) sa)
  end.

Lemma take_key_run set t len sa s :
  nd_sa s = Some sa → nd_alloc s = [] → ibuf_wf t → 0 ≤ len ≤ IKED_MSGBUF_MAX →
  len ≤ blen (ibuf_content t) →
  ∃ t', take_key set t len s =
      Ok ((true, t'), set_nd_sa (Some (set (Some (take (Z.to_nat len) (ibuf_content t))) sa)) s) ∧
    ibuf_wf t' ∧ ibuf_content t' = drop (Z.to_nat len) (ibuf_content t).
Proof.
  intros Hs Ha Hwf Hl Hc. unfold take_key, n_alloc, ibuf_getdata, ibuf_get_ibuf. unfold mbind at 1, M_bind at 1.
  rewrite Ha, ibuf_size_content by done. rewrite (proj2 (Z.ltb_ge _ _)) by lia.
  rewrite data_spec by (done || lia). set (d := take _ _).
  assert (Hd : blen d = len) by (unfold d, blen in *; rewrite length_take; lia).
  destruct (advance_spec t len Hwf) as [Hwf' Hc']; [lia|].
  set (t' := set_ib_rpos _ t) in *. exists t'. split; [|done].
  assert (E : ibuf_data (ibuf_from_buffer (Some d) len) (ibuf_size (ibuf_from_buffer (Some d) len)) = Ok d).
  { unfold ibuf_data, ibuf_size, ibuf_from_buffer, load, rd. simpl. rewrite sz_sub_id, Z.sub_0_r
      by (unfold IKED_MSGBUF_MAX, size_max in *; lia).
    rewrite !(proj2 (Z.leb_le _ _)) by lia. simpl. by rewrite <- Hd, sub_bytes_all. }
  assert (Es : ibuf_size (ibuf_from_buffer (Some d) len) = blen d).
  { unfold ibuf_size, ibuf_from_buffer. simpl. rewrite sz_sub_id; unfold IKED_MSGBUF_MAX, size_max in *; lia. }
  destruct (holds_new d) as (b & En & Hb); [lia|].
  unfold lift, mbind, M_bind, out_bind. cbn [fst snd]. rewrite E, Es, En. cbn [fst snd].
  unfold upd_nsa, modify. rewrite bool_decide_true by (by eexists). simpl. rewrite Hs. simpl.
  by rewrite (ho_content _ _ Hb).
Qed.

Lemma take_keys_run l t mat sa s :
  nd_sa s = Some sa → nd_alloc s = [] → ibuf_wf t → ibuf_content t = mat →
  Forall (λ x, 0 ≤ x.2 ≤ IKED_MSGBUF_MAX) l → foldr (λ x n, x.2 + n) 0 l ≤ blen mat →
  take_keys l t s = Ok (true, set_nd_sa (Some (assign l mat sa)) s).
Proof.
  revert t mat sa s. induction l as [|[set len] l IH]; intros t mat sa s Hs Ha Hwf Hc Hl Hm.
  { destruct s; simpl in *; by subst. }
  apply Forall_cons in Hl as [Hl0 Hl]. simpl in Hl0, Hm.
  assert (0 ≤ foldr (λ x n, x.2 + n) 0 l).
  { clear -Hl. induction Hl as [|[? n] l ?? IH]; simpl in *; lia. }
  destruct (take_key_run set t len sa s Hs Ha Hwf Hl0) as (t' & E & Hwf' & Hc'); [rewrite Hc; lia|].
  cbn [take_keys]. rewrite (bind_run _ _ _ _ _ E). cbn [fst snd negb].
  rewrite (IH t' (drop (Z.to_nat len) mat) (set (Some (take (Z.to_nat len) mat)) sa));
    [by rewrite Hc|simpl; by rewrite Hc|done|done|by rewrite Hc', Hc|done|].
  unfold blen in *. rewrite length_drop. lia.
Qed.

(** ** The steps of [ikev2_sa_keys] *)

(** The secret of the key exchange, and its length. *)
Definition dh_secret (group : dh_group) (exchange : option bytes) : option bytes :=
  match dh_shared2 group with
  | Some shared2 => shared2 exchange
  | None =>
      x ← exchange; if blen x =? dh_getlen group then dh_shared group x else None
  end.

Definition dh_agrees (group : dh_group) (exchange : option bytes) (g : bytes) : Prop :=
  dh_secret group exchange = Some g ∧ 0 < blen g ≤ 4096 ∧
  (dh_shared2 group = None → blen g = dh_secretlen group).

Lemma dh_create_shared_run group exchange g s :
  dh_agrees group exchange g → nd_alloc s = [] →
  ∃ b, dh_create_shared group exchange s = Ok (Some b, s) ∧ holds b g.
Proof.
  intros (Hg & Hl & Hsl) Ha. unfold dh_create_shared, dh_secret in *.
  destruct (dh_shared2 group) as [f|].
  { rewrite Hg. apply new_run; [unfold IKED_MSGBUF_MAX; lia|done]. }
  destruct exchange as [x|]; [|done]. simpl in Hg.
  destruct (blen x =? dh_getlen group); [|done]. cbn [negb]. specialize (Hsl eq_refl).
  destruct (new_zeros_run (dh_secretlen group) s) as (b & E & Hb);
    [unfold IKED_MSGBUF_MAX; lia|done|].
  rewrite (bind_run _ _ _ _ _ E), Hg.
  destruct (holds_overwrite b _ g Hb) as (nb & Es & Hh); [rewrite blen_zeros; lia|lia|].
  eexists. split; [|exact Hh]. unfold lift. rewrite Es. by erewrite bind_run; [|reflexivity].
Qed.

(** The PRF key and the data for SKEYSEED. *)
Definition seed_key (key : option bytes) (ni nr : bytes) : bytes := default (ni ++ nr) key.
Definition seed_data (key : option bytes) (ni nr g : bytes) : bytes :=
  if key is Some _ then g ++ ni ++ nr else g.

Section steps.
Context `{!External, !ExternalLaws}.
Context (ni nr : bytes).
Hypothesis Hni : 0 < blen ni ≤ 1024.
Hypothesis Hnr : 0 < blen nr ≤ 1024.

Lemma rd_all (d : bytes) : rd d 0 (blen d) = Ok d.
Proof.
  unfold rd. pose proof (blen_nonneg d). rewrite !(proj2 (Z.leb_le _ _)) by lia. simpl.
  by rewrite sub_bytes_all.
Qed.

Lemma skeyseed_input_run key b g s :
  nd_alloc s = [] → holds b g → 0 < blen g ≤ 4096 →
  ∃ b', skeyseed_input key ni nr (blen ni) (blen nr) b s = Ok (Some (seed_key key ni nr, b'), s) ∧
    holds b' (seed_data key ni nr g).
Proof.
  intros Ha Hb Hg. unfold skeyseed_input. destruct key as [key|].
  - unfold lift at 1. rewrite !rd_all. erewrite bind_run; [|reflexivity].
    destruct (withbuf_fits b g ni s Hb Ha) as (b1 & E1 & H1); [lia|unfold IKED_MSGBUF_MAX; lia|].
    rewrite (bind_run _ _ _ _ _ E1). cbn [fst snd Z.eqb negb]. erewrite bind_run; [|reflexivity].
    destruct (withbuf_fits b1 _ nr s H1 Ha) as (b2 & E2 & H2);
      [lia|rewrite blen_app; unfold IKED_MSGBUF_MAX; lia|].
    rewrite (bind_run _ _ _ _ _ E2). cbn [fst snd Z.eqb negb]. exists b2.
    split; [done|]. simpl. by rewrite app_assoc.
  - destruct (new_run ni s) as (b1 & E1 & H1); [unfold IKED_MSGBUF_MAX; lia|done|].
    rewrite (bind_run _ _ _ _ _ E1). unfold lift at 1. rewrite rd_all. erewrite bind_run; [|reflexivity].
    destruct (withbuf_fits b1 ni nr s H1 Ha) as (b2 & E2 & H2); [lia|unfold IKED_MSGBUF_MAX; lia|].
    rewrite (bind_run _ _ _ _ _ E2). cbn [fst snd Z.eqb negb]. unfold lift.
    rewrite (holds_data _ _ H2). erewrite bind_run; [|reflexivity]. by exists b.
Qed.

Lemma seed_new_run hdr s :
  nd_alloc s = [] →
  ∃ b, seed_new hdr ni nr s = Ok (Some b, s) ∧
    holds b (ni ++ nr ++ be_encode 8 (sh_ispi hdr) ++ be_encode 8 (sh_rspi hdr)).
Proof.
  intros Ha. unfold seed_new.
  assert (H8 : ∀ v, blen (be_encode 8 v) = 8) by done.
  destruct (new_run ni s) as (b1 & E1 & H1); [unfold IKED_MSGBUF_MAX; lia|done|].
  rewrite (bind_run _ _ _ _ _ E1).
  destruct (withbuf_fits b1 ni nr s H1 Ha) as (b2 & E2 & H2); [lia|unfold IKED_MSGBUF_MAX; lia|].
  rewrite (bind_run _ _ _ _ _ E2). cbn [fst snd Z.eqb negb].
  destruct (withbuf_fits b2 _ (be_encode 8 (sh_ispi hdr)) s H2 Ha) as (b3 & E3 & H3);
    [done|rewrite blen_app, H8; unfold IKED_MSGBUF_MAX; lia|].
  rewrite (bind_run _ _ _ _ _ E3). cbn [fst snd Z.eqb negb].
  destruct (withbuf_fits b3 _ (be_encode 8 (sh_rspi hdr)) s H3 Ha) as (b4 & E4 & H4);
    [done|rewrite !blen_app, !H8; unfold IKED_MSGBUF_MAX; lia|].
  rewrite (bind_run _ _ _ _ _ E4). cbn [fst snd Z.eqb negb]. exists b4. split; [done|].
  by rewrite !app_assoc in *.
Qed.

Lemma skeyseed_new_run prf key b data s :
  hash_trunc prf = 0 → 1 ≤ hash_length_f prf ≤ 64 →
  nd_alloc s = [] → blen key ≤ IKED_MSGBUF_MAX → holds b data →
  ∃ b', skeyseed_new prf key b s = Ok (Some b', s) ∧ holds b' (ext_mac prf key data).
Proof.
  intros Ht Hl Ha Hk Hb. unfold skeyseed_new.
  destruct (new_run key s Hk Ha) as (b0 & E0 & _). rewrite (bind_run _ _ _ _ _ E0). unfold hash_keylength.
  destruct (new_zeros_run (hash_length_f prf) s) as (b1 & E1 & H1);
    [unfold IKED_MSGBUF_MAX; lia|done|].
  rewrite (bind_run _ _ _ _ _ E1). unfold lift at 1. rewrite (holds_data _ _ Hb).
  erewrite bind_run; [|reflexivity].
  destruct (hash_final_run prf Ht Hl key data b1 s H1) as (b2 & E2 & H2).
  rewrite (bind_run _ _ _ _ _ E2). cbn [fst snd]. exists b2. split; [|exact H2].
  pose proof (holds_wpos _ _ H2) as Hw. rewrite (blen_prf prf Hl) in Hw.
  pose proof (wf_pos _ (ho_wf _ _ H2)) as Hpos. unfold ibuf_setsize.
  rewrite (proj2 (Z.ltb_ge _ _)) by lia. destruct b2; simpl in *. by subst.
Qed.
End steps.

(** ** The keys *)

Section sa_keys.
Context `{!External, !ExternalLaws}.

(** The length of the material, and the material. *)
Definition material_len (c : iked_cipher) (h p : iked_hash) : Z :=
  foldr (λ x n, x.2 + n) 0 (key_plan c h p 0).

Definition key_material (c : iked_cipher) (h p : iked_hash) (hdr : iked_sahdr) (key : option bytes)
    (ni nr g : bytes) : bytes :=
  let skeyseed := ext_mac p (seed_key key ni nr) (seed_data key ni nr g) in
  concat (prf_plus p skeyseed (ni ++ nr ++ be_encode 8 (sh_ispi hdr) ++ be_encode 8 (sh_rspi hdr))
    (rounds p (material_len c h p)) 0 []).

(** What [ikev2_sa_keys] needs: algorithms, nonces of even length and a
    secret. *)
Record keys_input (sa : iked_sa) (c : iked_cipher) (h p : iked_hash) (group : dh_group)
    (ni nr g : bytes) : Prop := {
  kin_alg : algorithms_ok sa c h p;
  kin_group : sa_dhgroup sa = Some group;
  kin_ni : sa_inonce sa = Some ni;
  kin_nr : sa_rnonce sa = Some nr;
  kin_ni_len : IKED_NONCE_MIN ≤ blen ni ≤ 1024 ∧ blen ni mod 2 = 0;
  kin_nr_len : IKED_NONCE_MIN ≤ blen nr ≤ 1024 ∧ blen nr mod 2 = 0;
  kin_dh : dh_agrees group (sa_dhpeer sa) g }.

Lemma plan_range sa c h p :
  algorithms_ok sa c h p →
  Forall (λ x, 0 ≤ x.2 ≤ IKED_MSGBUF_MAX) (key_plan c h p 0) ∧
  0 ≤ material_len c h p ≤ 1024 ∧ material_len c h p ≤ 64 * hash_length_f p.
Proof.
  intros [_ _ _ Hsu Hk (_ & Ht & _) Hl]. destruct Hsu as [_ _ Hh Hd _ _ _ _].
  assert (hash_length p = hash_length_f p) as Ep by (unfold hash_length; by rewrite Ht).
  unfold material_len, key_plan, cipher_keylength, hash_keylength. rewrite Ep.
  rewrite (proj2 (Z.eqb_neq (encr_fixedkey c) 0)) by lia. cbn [negb].
  destruct (hash_isaead h); cbn [app foldr snd]; unfold IKED_MSGBUF_MAX.
  all: split; [repeat (apply Forall_cons; split; [cbn [snd]; lia|]); apply Forall_nil_2|lia].
Qed.

Lemma material_len_need sa c h p :
  algorithms_ok sa c h p →
  material_len c h p = 3 * hash_length_f p + (if hash_isaead h then 0 else 2 * hash_length_f h) +
    2 * encr_fixedkey c.
Proof.
  intros [_ _ _ _ Hk (_ & Ht & _) _]. unfold material_len, key_plan, cipher_keylength, hash_keylength.
  assert (hash_length p = hash_length_f p) as -> by (unfold hash_length; by rewrite Ht).
  rewrite (proj2 (Z.eqb_neq (encr_fixedkey c) 0)) by lia.
  destruct (hash_isaead h); cbn [negb app foldr snd]; lia.
Qed.

Lemma sa_keys_run key sa c h p group ni nr g s :
  nd_sa s = Some sa → nd_alloc s = [] → keys_input sa c h p group ni nr g →
  blen (default [] key) ≤ IKED_MSGBUF_MAX →
  ikev2_sa_keys key 0 s =
    Ok (0, set_nd_sa (Some (assign (key_plan c h p 0)
      (key_material c h p (sa_hdr sa) key ni nr g) sa)) s).
Proof.
  intros Hs Ha [Halg Hgr Hni Hnr [Hni1 Hni2] [Hnr1 Hnr2] Hdh] Hkey.
  destruct (plan_range sa c h p Halg) as (Hplan & Hmat & Hmat64).
  pose proof Halg as [Hc Hh Hp Hsu Hk (_ & Ht & Hfx) Hl]. pose proof Hsu as [_ _ Hhl Hd _ _ _ _].
  unfold IKED_NONCE_MIN in *. pose proof Hdh as (_ & Hg & _).
  unfold ikev2_sa_keys, with_sa. erewrite bind_run; [|reflexivity]. rewrite Hs, Hc, Hh, Hp, Hgr, Hni, Hnr, Hfx.
  cbn [Z.eqb negb from_option id]. unfold IKED_NONCE_MIN.
  rewrite !(proj2 (Z.ltb_ge _ _)) by lia. rewrite Hni2, Hnr2. cbn [Z.eqb negb orb].
  destruct (dh_create_shared_run group _ g s Hdh Ha) as (b & E1 & Hb). rewrite (bind_run _ _ _ _ _ E1).
  destruct (skeyseed_input_run ni nr ltac:(lia) ltac:(lia) key b g s Ha Hb Hg) as (b2 & E2 & H2).
  rewrite (bind_run _ _ _ _ _ E2). cbv iota.
  assert (blen (seed_key key ni nr) ≤ IKED_MSGBUF_MAX) as Hsk.
  { unfold seed_key. destruct key; simpl in *; [done|]. rewrite blen_app. unfold IKED_MSGBUF_MAX. lia. }
  destruct (skeyseed_new_run p _ b2 _ s Ht ltac:(lia) Ha Hsk H2) as (b3 & E3 & H3).
  rewrite (bind_run _ _ _ _ _ E3). cbv iota.
  destruct (seed_new_run ni nr ltac:(lia) ltac:(lia) (sa_hdr sa) s Ha) as (b4 & E4 & H4).
  rewrite (bind_run _ _ _ _ _ E4). cbv iota zeta.
  match goal with |- context [ikev2_prfplus _ _ _ ?x] => assert (x = material_len c h p) as -> end.
  { assert (hash_length p = hash_length_f p) as Ep by (unfold hash_length; by rewrite Ht).
    assert (16 ≤ cipher_keylength c 0 ≤ 36).
    { unfold cipher_keylength. by rewrite (proj2 (Z.eqb_neq _ _)) by lia. }
    unfold material_len, key_plan, hash_keylength in *. rewrite Ep in *.
    destruct (hash_isaead h); cbn [app foldr snd] in *; rewrite sz_add_id; unfold size_max; lia. }
  destruct (prfplus_run p Ht ltac:(lia) b3 _ b4 _ (material_len c h p) s Ha H3 H4) as (t & E5 & H5);
    [rewrite !blen_app; change (blen (be_encode 8 _)) with 8; lia|done|done|].
  rewrite (bind_run _ _ _ _ _ E5). cbv iota.
  change (concat _) with (key_material c h p (sa_hdr sa) key ni nr g) in H5.
  assert (E6 : take_keys (key_plan c h p 0) t s = Ok (true, set_nd_sa (Some (assign (key_plan c h p 0)
    (key_material c h p (sa_hdr sa) key ni nr g) sa)) s)).
  { apply (take_keys_run _ t); [done|done|apply H5|apply H5|done|].
    unfold key_material. rewrite (blen_prf_plus p ltac:(lia)). fold (material_len c h p).
    pose proof (rounds_range p Ht ltac:(lia) _ Hmat). lia. }
  by rewrite (bind_run _ _ _ _ _ E6).
Qed.

Lemma drop_sub off len n (mat : bytes) :
  0 ≤ off → 0 ≤ n → sub_bytes off len (drop (Z.to_nat n) mat) = sub_bytes (n + off) len mat.
Proof. intros Ho Hn. unfold sub_bytes. rewrite drop_drop. do 2 f_equal. lia. Qed.

Lemma take_sub len (mat : bytes) : take (Z.to_nat len) mat = sub_bytes 0 len mat.
Proof. done. Qed.

(** The seven keys, in the order of the material. *)
Record keys_cut (sa sa' : iked_sa) (c : iked_cipher) (h p : iked_hash) (mat : bytes) : Prop := {
  kc_d : sa_key_d sa' = Some (sub_bytes 0 (hash_length_f p) mat);
  kc_auth : hash_isaead h = false →
    sa_key_iauth sa' = Some (sub_bytes (hash_length_f p) (hash_length_f h) mat) ∧
    sa_key_rauth sa' = Some (sub_bytes (hash_length_f p + hash_length_f h) (hash_length_f h) mat);
  kc_aead : hash_isaead h = true →
    sa_key_iauth sa' = sa_key_iauth sa ∧ sa_key_rauth sa' = sa_key_rauth sa;
  kc_encr : let o := hash_length_f p + (if hash_isaead h then 0 else 2 * hash_length_f h) in
    sa_key_iencr sa' = Some (sub_bytes o (encr_fixedkey c) mat) ∧
    sa_key_rencr sa' = Some (sub_bytes (o + encr_fixedkey c) (encr_fixedkey c) mat);
  kc_prf : let o := hash_length_f p + (if hash_isaead h then 0 else 2 * hash_length_f h) +
                    2 * encr_fixedkey c in
    sa_key_iprf sa' = Some (sub_bytes o (hash_length_f p) mat) ∧
    sa_key_rprf sa' = Some (sub_bytes (o + hash_length_f p) (hash_length_f p) mat);
  kc_rest : sa_hdr sa' = sa_hdr sa ∧ sa_encr sa' = sa_encr sa ∧ sa_integr sa' = sa_integr sa ∧
    sa_prf sa' = sa_prf sa }.

Lemma assign_cut sa c h p mat :
  algorithms_ok sa c h p → keys_cut sa (assign (key_plan c h p 0) mat sa) c h p mat.
Proof.
  intros [_ _ _ Hsu Hk (_ & Ht & _) Hl]. destruct Hsu as [_ _ Hh Hd _ _ _ _].
  unfold key_plan, cipher_keylength, hash_keylength.
  assert (hash_length p = hash_length_f p) as -> by (unfold hash_length; by rewrite Ht).
  rewrite (proj2 (Z.eqb_neq (encr_fixedkey c) 0)) by lia. cbn [negb].
  destruct (hash_isaead h) eqn:Hae; cbn [app assign]; rewrite !take_sub, !drop_sub by lia.
  all: constructor; rewrite ?Hae; try done; cbn -[Z.add Z.mul]; split; do 2 f_equal; lia.
Qed.
End sa_keys.

(** C28: the keys of an SA: with algorithms, even nonces, a shared secret
    and memory, [ikev2_sa_keys] returns 0 and stores the seven keys of RFC
    7296, cut in order from prf+(SKEYSEED, Ni | Nr | SPIi | SPIr); SKEYSEED is
    prf(Ni | Nr, g^ir) for a new SA and prf(SK_d, g^ir | Ni | Nr) for a rekeyed
    one. AEAD ciphers get no authentication keys. *)
Theorem sa_keys_derived `{!External, !ExternalLaws} key sa c h p group ni nr g s :
  nd_sa s = Some sa → nd_alloc s = [] → keys_input sa c h p group ni nr g →
  blen (default [] key) ≤ IKED_MSGBUF_MAX →
  let skeyseed := match key with
                  | None => ext_mac p (ni ++ nr) g
                  | Some k => ext_mac p k (g ++ ni ++ nr)
                  end in
  let seed := ni ++ nr ++ be_encode 8 (sh_ispi (sa_hdr sa)) ++ be_encode 8 (sh_rspi (sa_hdr sa)) in
  ∃ sa' n, ikev2_sa_keys key 0 s = Ok (0, set_nd_sa (Some sa') s) ∧
    keys_cut sa sa' c h p (concat (prf_plus p skeyseed seed n 0 [])) ∧
    let need := 3 * hash_length_f p + (if hash_isaead h then 0 else 2 * hash_length_f h) +
                2 * encr_fixedkey c in
    need ≤ Z.of_nat n * hash_length_f p < need + hash_length_f p.
Proof.
  intros Hs Ha Hk Hkey skeyseed seed.
  exists (assign (key_plan c h p 0) (key_material c h p (sa_hdr sa) key ni nr g) sa),
    (rounds p (material_len c h p)).
  pose proof (kin_alg _ _ _ _ _ _ _ _ Hk) as Halg. split_and!.
  - by apply (sa_keys_run key sa c h p group).
  - unfold key_material. destruct key; by apply assign_cut.
  - rewrite <- (material_len_need sa) by done. apply (rounds_range p); [apply Halg|..].
    + pose proof (al_prf_length _ _ _ _ Halg). lia.
    + by apply (plan_range sa).
Qed.


(** ** An example *)

(** A group whose secret is 32 zeros, whatever the peer sends. *)
Definition demo_group : dh_group := mk_dh_group 31 32 32 (λ _, Some (zeros 32)) None.
Definition demo_prf : iked_hash := mk_hash IKEV2_XFORMPRF_HMAC_SHA2_256 32 0 false IKEV2_XFORMTYPE_PRF 0.

Definition demo_fresh (initiator : bool) : iked_sa :=
  set_sa_prf (Some demo_prf) (set_sa_dhgroup (Some demo_group) (set_sa_dhpeer (Some (zeros 32))
    (set_sa_inonce (Some (zeros 32)) (set_sa_rnonce (Some (zeros 16)) (demo_end initiator))))).

Lemma demo_keys_input i :
  keys_input (demo_fresh i) demo_gcm demo_tag demo_prf demo_group (zeros 32) (zeros 16) (zeros 32).
Proof.
  constructor; try reflexivity; try (vm_compute; intuition discriminate).
  - constructor; try reflexivity; try (vm_compute; intuition discriminate). apply demo_suite.
Qed.

Lemma sa_keys_derived_witness :
  let s := demo_node (demo_fresh true) [] in
  ∃ sa' n, @ikev2_sa_keys demo_external None 0 s = Ok (0, set_nd_sa (Some sa') s) ∧
    keys_cut (demo_fresh true) sa' demo_gcm demo_tag demo_prf
      (concat (@prf_plus demo_external demo_prf (@ext_mac demo_external demo_prf (zeros 48) (zeros 32))
         (zeros 32 ++ zeros 16 ++ be_encode 8 1 ++ be_encode 8 2) n 0 [])) ∧
    136 ≤ Z.of_nat n * 32 < 168.
Proof.
  apply (@sa_keys_derived demo_external demo_external_laws None (demo_fresh true) demo_gcm demo_tag
    demo_prf demo_group (zeros 32) (zeros 16) (zeros 32) (demo_node (demo_fresh true) [])).
  - reflexivity.
  - reflexivity.
  - apply demo_keys_input.
  - vm_compute. discriminate.
Defined.

