(* ===== verification/NtruInt.v ===== *)
(** * Constant-time integer arithmetic of [sntrup761.c]

    The parameters of Streamlined NTRU Prime, the division by a constant
    without a division instruction, masks, and the arithmetic modulo 3 and
    modulo [q] on signed machine integers. The theorems say that the operations
    compute what their comments say, for all operands the callers may pass. *)

From Stdlib Require Import Zdivisibility ZmodInv.
From S2P Require Import Prelude.

(** The menu of [params.h]. *)
Class Params := { p : nat; q : Z; w : nat }.
Definition size761 : Params := {| p := 761; q := 4591; w := 286 |}.
Definition size653 : Params := {| p := 653; q := 4621; w := 288 |}.
Definition size857 : Params := {| p := 857; q := 5167; w := 322 |}.

(** Signed integers of [n] bits. *)
Definition to_int (n : Z) (a : Z) : Z := (a + 2 ^ (n - 1)) mod 2 ^ n - 2 ^ (n - 1).
Abbreviation to_i8 := (to_int 8).
Abbreviation to_i16 := (to_int 16).
Abbreviation to_i32 := (to_int 32).
Abbreviation to_i64 := (to_int 64).

(** ** Minimum and maximum *)

Definition int32_MINMAX (a b : Z) : Z * Z :=
  let ab := Z.lxor b a in
  let c := to_i64 (b - a) in
  let c := Z.lxor c (Z.land ab (Z.lxor c b)) in
  let c := Z.shiftr c 31 in
  let c := Z.land c ab in
  (to_i32 (Z.lxor a c), to_i32 (Z.lxor b c)).

(** ** Division *)

(** The quotient and the remainder of [x] by [m]. *)
Definition uint32_divmod_uint14 (x m : Z) : Z * Z :=
  let v := 0x80000000 / m in
  let qpart := to_u32 (Z.shiftr (to_u64 (x * v)) 31) in
  let x := to_u32 (x - qpart * m) in
  let quo := to_u32 (0 + qpart) in
  let qpart := to_u32 (Z.shiftr (to_u64 (x * v)) 31) in
  let x := to_u32 (x - qpart * m) in
  let quo := to_u32 (quo + qpart) in
  let x := to_u32 (x - m) in
  let quo := to_u32 (quo + 1) in
  let mask := to_u32 (- Z.shiftr x 31) in
  let x := to_u32 (x + Z.land mask m) in
  let quo := to_u32 (quo + mask) in
  (quo, to_u16 x).

Definition uint32_mod_uint14 (x m : Z) : Z := (uint32_divmod_uint14 x m).2.

Definition int32_divmod_uint14 (x m : Z) : Z * Z :=
  let '(uq, ur) := uint32_divmod_uint14 (to_u32 (0x80000000 + to_u32 x)) m in
  let '(uq2, ur2) := uint32_divmod_uint14 0x80000000 m in
  let ur := to_u16 (ur - ur2) in
  let uq := to_u32 (uq - uq2) in
  let mask := to_u32 (- Z.shiftr ur 15) in
  let ur := to_u16 (ur + Z.land mask m) in
  let uq := to_u32 (uq + mask) in
  (to_i32 uq, ur).

Definition int32_mod_uint14 (x m : Z) : Z := (int32_divmod_uint14 x m).2.

(** ** Masks *)

Definition int16_nonzero_mask (x : Z) : Z :=
  let u := to_u16 x in
  let v := u in
  let v := to_u32 (- v) in
  let v := Z.shiftr v 31 in
  to_i32 (- v).

Definition int16_negative_mask (x : Z) : Z :=
  let u := to_u16 x in
  let u := Z.shiftr u 15 in
  - u.

(** ** Arithmetic modulo 3 and modulo [q] *)

Definition F3_freeze (x : Z) : Z := to_i8 (int32_mod_uint14 (to_i16 x + 1) 3 - 1).

(** The loop of [Fq_recip]. *)
Fixpoint recip_loop (freeze : Z → Z) (n : nat) (a1 ai : Z) : Z :=
  match n with O => ai | S n => recip_loop freeze n a1 (freeze (a1 * ai)) end.

Section params.
Context `{!Params}.

Definition q12 : Z := (q - 1) / 2.

Definition Fq_freeze (x : Z) : Z := to_i16 (int32_mod_uint14 (to_i32 (x + q12)) q - q12).

Definition Fq_recip (a1 : Z) : Z := recip_loop Fq_freeze (Z.to_nat (q - 2 - 1)) a1 a1.
End params.

(** ** Ranges *)

Definition int_range (n a : Z) : Prop := - 2 ^ (n - 1) ≤ a < 2 ^ (n - 1).

Lemma to_int_id n a : 0 < n → int_range n a → to_int n a = a.
Proof.
  unfold to_int, int_range. intros Hn Ha. assert (2 ^ n = 2 * 2 ^ (n - 1)) as E
    by (rewrite <- Z.pow_succ_r by lia; f_equal; lia).
  rewrite Z.mod_small by lia. lia.
Qed.

Lemma to_int_u32 a : to_i32 (to_u32 a) = to_i32 a.
Proof. unfold to_int, to_u32. by rewrite Zplus_mod_idemp_l. Qed.
Lemma to_u32_add_l a b : to_u32 (to_u32 a + b) = to_u32 (a + b).
Proof. apply Zplus_mod_idemp_l. Qed.
Lemma to_int_wrap n a b k : 0 < n → int_range n b → a = b + k * 2 ^ n → to_int n a = b.
Proof.
  intros Hn Hb ->. rewrite <- (to_int_id n b) at 2 by done. unfold to_int.
  replace (b + k * 2 ^ n + 2 ^ (n - 1)) with (b + 2 ^ (n - 1) + k * 2 ^ n) by lia.
  by rewrite Z_mod_plus_full.
Qed.

Lemma to_u32_id a : 0 ≤ a < 2 ^ 32 → to_u32 a = a.
Proof. apply Z.mod_small. Qed.
Lemma to_u16_id a : 0 ≤ a < 2 ^ 16 → to_u16 a = a.
Proof. apply Z.mod_small. Qed.

(** ** Division is exact *)

(** One step of the division by multiplication with the reciprocal. *)
Lemma divmod_step x m v :
  0 < m < 16384 → v * m ≤ 2 ^ 31 < v * m + m → 0 ≤ v → 0 ≤ x < 2 ^ 32 →
  let qpart := x * v / 2 ^ 31 in
  0 ≤ qpart < 2 ^ 32 ∧ 0 ≤ x - qpart * m ∧
  2 ^ 31 * (x - qpart * m) ≤ (2 ^ 31 - 1) * m + x * (m - 1).
Proof.
  intros Hm Hv Hv0 Hx qpart.
  pose proof (Z.div_mod (x * v) (2 ^ 31) ltac:(lia)) as E. fold qpart in E.
  pose proof (Z.mod_pos_bound (x * v) (2 ^ 31) ltac:(lia)) as B.
  set (r := (x * v) mod 2 ^ 31) in *. clearbody qpart r.
  assert (0 ≤ qpart) by nia. assert (v ≤ 2 ^ 31) by nia. split; [nia|].
  assert (x * v * m ≤ x * 2 ^ 31) by nia. assert (x * 2 ^ 31 ≤ x * (v * m + m - 1)) by nia.
  split; nia.
Qed.

Lemma shiftr31 a : Z.shiftr a 31 = a / 2 ^ 31.
Proof. by rewrite Z.shiftr_div_pow2. Qed.

(** A mask of ones or of zeros. *)
Lemma land_ones32 m : 0 ≤ m < 2 ^ 32 → Z.land (2 ^ 32 - 1) m = m.
Proof.
  intros Hm. change (2 ^ 32 - 1) with (Z.ones 32). rewrite Z.land_comm, Z.land_ones by lia.
  by apply Z.mod_small.
Qed.

(** The last correction: [x] is at most [m]. *)
Lemma divmod_last x m :
  0 < m < 16384 → 0 ≤ x ≤ m →
  let y := to_u32 (x - m) in
  let mask := to_u32 (- (y / 2 ^ 31)) in
  (mask = 2 ^ 32 - 1 ∧ x < m ∧ to_u32 (y + Z.land mask m) = x) ∨
  (mask = 0 ∧ x = m ∧ to_u32 (y + Z.land mask m) = 0).
Proof.
  intros Hm Hx. cbv zeta. destruct (Z.eq_dec x m) as [->|Hne].
  - right. rewrite Z.sub_diag. done.
  - left. assert (to_u32 (x - m) = x - m + 2 ^ 32) as ->.
    { unfold to_u32. rewrite <- (Z_mod_plus _ 1) by lia. apply Z.mod_small. lia. }
    assert ((x - m + 2 ^ 32) / 2 ^ 31 = 1) as ->.
    { symmetry. apply (Z.div_unique _ _ _ (x - m + 2 ^ 31)); lia. }
    change (to_u32 (-1)) with (2 ^ 32 - 1). rewrite land_ones32 by lia. split; [done|]. split; [lia|].
    unfold to_u32. replace (x - m + 2 ^ 32 + m) with (x + 1 * 2 ^ 32) by lia.
    rewrite Z_mod_plus by lia. apply Z.mod_small. lia.
Qed.

Lemma uint32_divmod_run x m :
  0 < m < 16384 → 0 ≤ x < 2 ^ 32 → uint32_divmod_uint14 x m = (x / m, x mod m).
Proof.
  intros Hm Hx. unfold uint32_divmod_uint14. cbv zeta.
  assert (Hv : 2 ^ 31 / m * m ≤ 2 ^ 31 < 2 ^ 31 / m * m + m).
  { pose proof (Z.div_mod (2 ^ 31) m ltac:(lia)). pose proof (Z.mod_pos_bound (2 ^ 31) m ltac:(lia)). lia. }
  change 0x80000000 with (2 ^ 31). set (v := 2 ^ 31 / m) in *.
  assert (Hv0 : 0 ≤ v ≤ 2 ^ 31) by (split; [apply Z.div_pos; lia|nia]). clearbody v.
  destruct (divmod_step x m v) as (Hq & H0 & H1); [lia..|]. rewrite !shiftr31.
  assert (E64 : ∀ y, 0 ≤ y < 2 ^ 32 → to_u64 (y * v) = y * v)
    by (intros y Hy; apply Z.mod_small; nia).
  rewrite (E64 x Hx), (to_u32_id (x * v / _)) by done.
  set (q1 := x * v / 2 ^ 31) in *. clearbody q1. rewrite Z.add_0_l, (to_u32_id q1) by lia.
  assert (Hx1 : 0 ≤ x - q1 * m ≤ 49146) by nia.
  rewrite (to_u32_id (x - q1 * m)) by lia. set (x1 := x - q1 * m) in *.
  destruct (divmod_step x1 m v) as (Hq2 & H2 & H3); [lia..|].
  rewrite (E64 x1) by lia. rewrite (to_u32_id (x1 * v / _)) by done.
  set (q2 := x1 * v / 2 ^ 31) in *. clearbody q2.
  assert (Hx2 : 0 ≤ x1 - q2 * m ≤ m) by nia.
  rewrite (to_u32_id (x1 - q2 * m)) by lia. set (x2 := x1 - q2 * m) in *.
  assert (Hsum : x = (q1 + q2) * m + x2) by (unfold x2, x1; ring). clearbody x2. clear x1 H0 H1 H2 H3 Hx1 E64.
  assert (Hmul : (q1 + q2) * 1 ≤ (q1 + q2) * m) by (apply Z.mul_le_mono_nonneg_l; lia).
  assert (Hqs : 0 ≤ q1 + q2 < 2 ^ 32) by lia. rewrite (to_u32_id (q1 + q2)) by done.
  destruct (divmod_last x2 m Hm Hx2) as [(-> & Hlt & ->)|(-> & -> & ->)].
  - assert (Ed : q1 + q2 = x / m) by (apply (Z.div_unique _ _ _ x2); lia).
    assert (Em : x2 = x mod m) by (apply (Z.mod_unique _ _ (q1 + q2)); lia).
    rewrite to_u16_id by lia. f_equal; [|done]. unfold to_u32.
    rewrite Zplus_mod_idemp_l. replace (q1 + q2 + 1 + (2 ^ 32 - 1)) with (q1 + q2 + 1 * 2 ^ 32) by lia.
    rewrite Z_mod_plus by lia. by rewrite Z.mod_small.
  - assert (Ed : q1 + q2 + 1 = x / m) by (apply (Z.div_unique _ _ _ 0); lia).
    assert (Em : 0 = x mod m) by (apply (Z.mod_unique _ _ (q1 + q2 + 1)); lia).
    rewrite <- Ed, <- Em. f_equal. by rewrite Z.add_0_r, (to_u32_id (_ + 1)), to_u32_id by lia.
Qed.

Lemma int32_divmod_run x m :
  0 < m < 16384 → int_range 32 x → int32_divmod_uint14 x m = (x / m, x mod m).
Proof.
  intros Hm Hx. unfold int_range in Hx. change (2 ^ (32 - 1)) with (2 ^ 31) in Hx.
  unfold int32_divmod_uint14. change 0x80000000 with (2 ^ 31).
  assert (to_u32 (2 ^ 31 + to_u32 x) = 2 ^ 31 + x) as ->.
  { unfold to_u32. rewrite Zplus_mod_idemp_r. apply Z.mod_small. lia. }
  rewrite !uint32_divmod_run by lia.
  set (a := 2 ^ 31 + x). set (b := 2 ^ 31).
  pose proof (Z.div_mod a m ltac:(lia)) as Ea. pose proof (Z.mod_pos_bound a m ltac:(lia)) as Ba.
  pose proof (Z.div_mod b m ltac:(lia)) as Eb. pose proof (Z.mod_pos_bound b m ltac:(lia)) as Bb.
  assert (Ha : 0 ≤ a / m ≤ 2 ^ 32) by (split; [apply Z.div_pos; lia|apply Z.div_le_upper_bound; nia]).
  assert (Hb : 0 ≤ b / m ≤ 2 ^ 31) by (split; [apply Z.div_pos; lia|apply Z.div_le_upper_bound; nia]).
  assert (Hxd : - 2 ^ 31 ≤ x / m < 2 ^ 31).
  { split; [apply Z.div_le_lower_bound; nia|apply Z.div_lt_upper_bound; nia]. }
  set (ra := a mod m) in *. set (rb := b mod m) in *. set (qa := a / m) in *. set (qb := b / m) in *.
  assert (Ex : x = m * (qa - qb) + (ra - rb)) by (unfold a, b in *; lia).
  clearbody ra rb qa qb. clear Ea Eb. cbv zeta.
  destruct (Z.lt_ge_cases ra rb) as [Hlt|Hge].
  - assert (to_u16 (ra - rb) = ra - rb + 2 ^ 16) as ->.
    { unfold to_u16. rewrite <- (Z_mod_plus _ 1) by lia. apply Z.mod_small. lia. }
    rewrite Z.shiftr_div_pow2 by lia.
    assert ((ra - rb + 2 ^ 16) / 2 ^ 15 = 1) as ->.
    { symmetry. apply (Z.div_unique _ _ _ (ra - rb + 2 ^ 15)); lia. }
    change (to_u32 (- (1))) with (2 ^ 32 - 1). rewrite land_ones32 by lia.
    assert (Ed : qa - qb - 1 = x / m) by (apply (Z.div_unique _ _ _ (ra - rb + m)); lia).
    assert (Em : ra - rb + m = x mod m) by (apply (Z.mod_unique _ _ (qa - qb - 1)); lia).
    rewrite <- Ed, <- Em. f_equal.
    + rewrite to_u32_add_l, to_int_u32. apply (to_int_wrap _ _ _ 1); [done| |lia].
      unfold int_range. change (32 - 1) with 31. lia.
    + unfold to_u16. replace (ra - rb + 2 ^ 16 + m) with (ra - rb + m + 1 * 2 ^ 16) by lia.
      rewrite Z_mod_plus, Z.mod_small by lia. done.
  - rewrite (to_u16_id (ra - rb)) by lia. rewrite Z.shiftr_div_pow2, Z.div_small by lia.
    change (to_u32 (- 0)) with 0. rewrite Z.land_0_l, !Z.add_0_r, to_u16_id by lia.
    assert (Ed : qa - qb = x / m) by (apply (Z.div_unique _ _ _ (ra - rb)); lia).
    assert (Em : ra - rb = x mod m) by (apply (Z.mod_unique _ _ (qa - qb)); lia).
    rewrite <- Ed, <- Em. f_equal. rewrite !to_int_u32. apply to_int_id; [done|].
    unfold int_range. change (32 - 1) with 31. lia.
Qed.

(** ** Representatives around zero *)

(** The representative of [x] modulo the odd number [n] nearest to zero. *)
Definition cmod (n x : Z) : Z := (x + (n - 1) / 2) mod n - (n - 1) / 2.

Lemma cmod_range n x : 0 < n → - ((n - 1) / 2) ≤ cmod n x ≤ n - 1 - (n - 1) / 2.
Proof. intros Hn. unfold cmod. pose proof (Z.mod_pos_bound (x + (n - 1) / 2) n Hn). lia. Qed.

Lemma cmod_mod n x : n ≠ 0 → cmod n x mod n = x mod n.
Proof.
  intros Hn. unfold cmod. rewrite Zminus_mod_idemp_l. f_equal. lia.
Qed.

Lemma cmod_cong n x y : x mod n = y mod n → cmod n x = cmod n y.
Proof. intros E. unfold cmod. by rewrite <- Zplus_mod_idemp_l, E, Zplus_mod_idemp_l. Qed.

Lemma cmod_id n x : - ((n - 1) / 2) ≤ x ≤ n - 1 - (n - 1) / 2 → cmod n x = x.
Proof. intros Hx. unfold cmod. rewrite Z.mod_small by lia. lia. Qed.

(** ** Masks *)

Lemma nonzero_mask_run x : int_range 16 x → int16_nonzero_mask x = if x =? 0 then 0 else -1.
Proof.
  unfold int_range. change (2 ^ (16 - 1)) with 32768. intros Hx. unfold int16_nonzero_mask. cbv zeta.
  destruct (Z.eqb_spec x 0) as [->|Hne]; [done|].
  assert (Hu : 1 ≤ to_u16 x < 2 ^ 16).
  { unfold to_u16. pose proof (Z.mod_pos_bound x (2 ^ 16) ltac:(lia)).
    assert (x mod 2 ^ 16 ≠ 0); [|lia]. rewrite Z.mod_divide by lia. intros [k Hk]. lia. }
  assert (to_u32 (- to_u16 x) = 2 ^ 32 - to_u16 x) as ->.
  { unfold to_u32. rewrite <- (Z_mod_plus _ 1) by lia. rewrite Z.mod_small; lia. }
  rewrite shiftr31. assert ((2 ^ 32 - to_u16 x) / 2 ^ 31 = 1) as ->; [|done].
  symmetry. apply (Z.div_unique _ _ _ (2 ^ 31 - to_u16 x)); lia.
Qed.

Lemma negative_mask_run x : int_range 16 x → int16_negative_mask x = if x <? 0 then -1 else 0.
Proof.
  unfold int_range. change (2 ^ (16 - 1)) with 32768. intros Hx. unfold int16_negative_mask. cbv zeta.
  rewrite Z.shiftr_div_pow2 by lia. unfold to_u16. destruct (Z.ltb_spec x 0).
  - assert (x mod 2 ^ 16 = x + 2 ^ 16) as ->.
    { rewrite <- (Z_mod_plus _ 1) by lia. apply Z.mod_small. lia. }
    assert ((x + 2 ^ 16) / 2 ^ 15 = 1) as ->; [|done].
    symmetry. apply (Z.div_unique _ _ _ (x + 2 ^ 15)); lia.
  - rewrite Z.mod_small, Z.div_small by lia. done.
Qed.

(** A value under a mask that is all ones or zero. *)
Lemma land_mask (b : bool) x : Z.land (if b then -1 else 0) x = if b then x else 0.
Proof. destruct b; [apply Z.land_m1_l|apply Z.land_0_l]. Qed.

(** ** Minimum and maximum *)

Lemma shiftr31_sign x : - 2 ^ 31 ≤ x < 2 ^ 31 → Z.shiftr x 31 = if x <? 0 then -1 else 0.
Proof.
  intros Hx. rewrite shiftr31. destruct (Z.ltb_spec x 0).
  - symmetry. apply (Z.div_unique _ _ _ (x + 2 ^ 31)); lia.
  - apply Z.div_small. lia.
Qed.

Lemma int32_MINMAX_run a b :
  int_range 32 a → int_range 32 b → int32_MINMAX a b = (Z.min a b, Z.max a b).
Proof.
  intros Ha Hb. pose proof Ha as Ha'. pose proof Hb as Hb'. unfold int_range in Ha', Hb'.
  change (2 ^ (32 - 1)) with (2 ^ 31) in Ha', Hb'.
  unfold int32_MINMAX. cbv zeta.
  rewrite (to_int_id 64) by (unfold int_range; change (64 - 1) with 63; lia).
  rewrite Z.shiftr_lxor, Z.shiftr_land, !Z.shiftr_lxor, (shiftr31_sign a), (shiftr31_sign b) by done.
  assert (Hc : (if b <? 0 then negb (a <? 0) else (a <? 0)) = false →
    Z.shiftr (b - a) 31 = if b <? a then -1 else 0).
  { intros Hs. rewrite shiftr31_sign; [|destruct (Z.ltb_spec a 0), (Z.ltb_spec b 0); simpl in Hs; try done; lia].
    destruct (Z.ltb_spec (b - a) 0), (Z.ltb_spec b a); lia. }
  assert (Hm : Z.lxor (Z.shiftr (b - a) 31)
     (Z.land (Z.lxor (if b <? 0 then -1 else 0) (if a <? 0 then -1 else 0))
        (Z.lxor (Z.shiftr (b - a) 31) (if b <? 0 then -1 else 0))) = if b <? a then -1 else 0).
  { destruct (Z.ltb_spec b 0), (Z.ltb_spec a 0); simpl in Hc.
    1,4: rewrite Z.lxor_nilpotent, Z.land_0_l, Z.lxor_0_r; by apply Hc.
    all: rewrite ?Z.lxor_0_r, ?Z.lxor_0_l, Z.land_m1_l.
    all: rewrite <- ?Z.lxor_assoc, Z.lxor_nilpotent, ?Z.lxor_0_l.
    all: destruct (Z.ltb_spec b a); lia. }
  rewrite Hm, land_mask. destruct (Z.ltb_spec b a).
  - rewrite Z.min_r, Z.max_l by lia.
    rewrite (Z.lxor_comm b a) at 1. rewrite <- Z.lxor_assoc, Z.lxor_nilpotent, Z.lxor_0_l.
    rewrite <- Z.lxor_assoc, Z.lxor_nilpotent, Z.lxor_0_l. by rewrite !to_int_id.
  - rewrite Z.min_l, Z.max_r by lia. rewrite !Z.lxor_0_r. by rewrite !to_int_id.
Qed.

(** ** Modulo 3 and modulo [q] *)

Lemma F3_freeze_run x : int_range 16 x → F3_freeze x = cmod 3 x.
Proof.
  intros Hx. unfold F3_freeze. rewrite (to_int_id 16) by done. unfold int_range in Hx.
  change (2 ^ (16 - 1)) with 32768 in Hx. unfold int32_mod_uint14. rewrite int32_divmod_run;
    [|lia|unfold int_range; change (32 - 1) with 31; lia].
  simpl. pose proof (Z.mod_pos_bound (x + 1) 3 ltac:(lia)). change (cmod 3 x) with ((x + 1) mod 3 - 1).
  apply to_int_id; [done|]. unfold int_range. change (2 ^ (8 - 1)) with 128. lia.
Qed.

(** What the arithmetic relies on. [q_bound] is the condition under which
    decryption does not fail. *)
Class ParamsOk `{!Params} : Prop := {
  p_mod4 : (p mod 4 = 1)%nat;
  p_range : 5 ≤ Z.of_nat p < 2 ^ 14;
  w_range : (w ≤ p)%nat;
  q_prime : Z.prime q;
  q_mod6 : q mod 6 = 1;
  q_range : q < 16384;
  q_bound : 16 * Z.of_nat w + 1 ≤ q }.

Section freeze.
Context `{!Params, !ParamsOk}.

Lemma q_gt : 6 < q.
Proof.
  pose proof (Z.prime_ge_2 q q_prime). pose proof q_mod6.
  destruct (Z.lt_ge_cases 6 q) as [|Hle]; [done|]. assert (q = 2 ∨ q = 3 ∨ q = 4 ∨ q = 5 ∨ q = 6) as Hq by lia.
  destruct Hq as [Hq|[Hq|[Hq|[Hq|Hq]]]]; rewrite Hq in *; done.
Qed.

Lemma q12_spec : q = 2 * q12 + 1 ∧ q12 mod 3 = 0 ∧ 3 ≤ q12.
Proof.
  pose proof q_gt. pose proof q_mod6 as H6. unfold q12.
  assert (E : q = 6 * (q / 6) + 1) by (pose proof (Z.div_mod q 6); lia).
  assert ((q - 1) / 2 = 3 * (q / 6)) as ->.
  { symmetry. apply (Z.div_unique _ _ _ 0); lia. }
  split; [lia|]. split; [|lia]. rewrite Z.mul_comm. apply Z.mod_mul. lia.
Qed.

(** Operands from which [Fq_freeze] does not overflow. *)
Definition freezable (x : Z) : Prop := - 2 ^ 30 ≤ x ≤ 2 ^ 30.

Lemma Fq_freeze_run x : freezable x → Fq_freeze x = cmod q x.
Proof.
  intros Hx. unfold freezable in Hx. pose proof q_gt. pose proof q_range. destruct q12_spec as (Eq & _ & _).
  unfold Fq_freeze. rewrite (to_int_id 32) by (done || (unfold int_range; change (32 - 1) with 31; lia)).
  unfold int32_mod_uint14. rewrite int32_divmod_run; [|lia|unfold int_range; change (32 - 1) with 31; lia].
  simpl. unfold cmod. fold q12. assert (0 ≤ (x + q12) mod q < q) by (apply Z.mod_pos_bound; lia).
  apply to_int_id; [done|]. unfold int_range. change (2 ^ (16 - 1)) with 32768. lia.
Qed.

Definition Fq_range (x : Z) : Prop := - q12 ≤ x ≤ q12.
Definition F3_range (x : Z) : Prop := -1 ≤ x ≤ 1.

Lemma cmod_Fq x : Fq_range (cmod q x).
Proof.
  pose proof q_gt. destruct q12_spec as (Eq & _ & _).
  assert (Hq : 0 < q) by lia. pose proof (cmod_range q x Hq). unfold Fq_range, q12 in *. lia.
Qed.
Lemma cmod_F3 x : F3_range (cmod 3 x).
Proof. pose proof (cmod_range 3 x ltac:(lia)) as Hr. exact Hr. Qed.
Lemma Fq_id x : Fq_range x → cmod q x = x.
Proof. destruct q12_spec as (Eq & _ & _). intros Hx. apply cmod_id. unfold Fq_range, q12 in *. lia. Qed.
Lemma F3_id x : F3_range x → cmod 3 x = x.
Proof. intros Hx. apply cmod_id. exact Hx. Qed.

Lemma Fq_mul_freezable x y : Fq_range x → Fq_range y → freezable (x * y).
Proof.
  destruct q12_spec as (Eq & _ & _). pose proof q_range. unfold Fq_range, freezable. intros Hx Hy.
  apply Z.abs_le. rewrite Z.abs_mul. transitivity (8192 * 8192); [|lia].
  apply Z.mul_le_mono_nonneg; lia.
Qed.

Lemma Fq_mul_run x y : Fq_range x → Fq_range y → Fq_freeze (x * y) = cmod q (x * y).
Proof. intros Hx Hy. apply Fq_freeze_run. by apply Fq_mul_freezable. Qed.

Lemma pow_mod_succ a b k :
  b mod q = a ^ Z.of_nat k mod q → cmod q (a * b) mod q = a ^ Z.of_nat (S k) mod q.
Proof.
  assert (Hq0 : q ≠ 0) by (pose proof q_gt; lia). intros E.
  rewrite cmod_mod, Nat2Z.inj_succ, Z.pow_succ_r by (exact Hq0 || apply Nat2Z.is_nonneg).
  by rewrite <- Zmult_mod_idemp_r, E, Zmult_mod_idemp_r.
Qed.

Lemma recip_loop_run freeze n a1 ai k :
  (∀ x, Fq_range x → freeze (a1 * x) = cmod q (a1 * x)) →
  Fq_range ai → ai mod q = a1 ^ Z.of_nat k mod q →
  Fq_range (recip_loop freeze n a1 ai) ∧
  recip_loop freeze n a1 ai mod q = a1 ^ Z.of_nat (k + n) mod q.
Proof.
  intros Hf. revert ai k. induction n as [|n IH]; intros ai k Hai E; cbn [recip_loop].
  - by rewrite Nat.add_0_r.
  - rewrite (Hf _ Hai), <- Nat.add_succ_comm. apply IH; [apply cmod_Fq|by apply pow_mod_succ].
Qed.

(** [Fq_recip] inverts what can be inverted. *)
Lemma Fq_recip_run a :
  Fq_range a → Fq_range (Fq_recip a) ∧ (a ≠ 0 → (a * Fq_recip a) mod q = 1).
Proof.
  pose proof q_gt. destruct q12_spec as (Eq & _ & _). intros Ha. unfold Fq_recip.
  destruct (recip_loop_run Fq_freeze (Z.to_nat (q - 2 - 1)) a a 1) as [Hr E];
    [intros; by apply Fq_mul_run|done| |].
  { change (Z.of_nat 1) with 1. by rewrite Z.pow_1_r. }
  split; [done|]. intros Hne. rewrite <- Zmult_mod_idemp_r, E, Zmult_mod_idemp_r.
  replace (Z.of_nat (1 + _)) with (q - 2) by lia. rewrite <- Z.pow_succ_r by lia.
  replace (Z.succ (q - 2)) with (q - 1) by lia. apply Z.fermat_nz; [apply q_prime|].
  unfold Fq_range in Ha. destruct (Z.le_gt_cases 0 a).
  - rewrite Z.mod_small; lia.
  - rewrite <- (Z_mod_plus _ 1), Z.mod_small; lia.
Qed.
End freeze.

(** ** The sizes of the menu *)

(** Trial division. *)
Definition has_divisor (n : Z) : bool :=
  existsb (λ d, n mod (Z.of_nat d) =? 0) (seq 2 (Z.to_nat (Z.sqrt n) - 1)).

Lemma prime_by_trial n : 1 < n → has_divisor n = false → Z.prime n.
Proof.
  intros Hn Hd. split; [done|]. intros d Hdr [k Hk].
  assert (Hno : ∀ c, 2 ≤ c → c * c ≤ n → n mod c ≠ 0).
  { intros c Hc Hcc Hm. assert (Hs : c ≤ Z.sqrt n) by (apply Z.sqrt_le_square; lia).
    assert (has_divisor n = true); [|congruence]. apply existsb_exists. exists (Z.to_nat c).
    split; [apply in_seq; lia|]. rewrite Z2Nat.id by lia. by apply Z.eqb_eq. }
  destruct (Z.le_gt_cases (d * d) n) as [Hs|Hs].
  - apply (Hno d); [lia..|]. rewrite Hk. apply Z.mod_mul. lia.
  - apply (Hno k); [nia..|]. rewrite Hk, Z.mul_comm. apply Z.mod_mul. nia.
Qed.

Ltac params_ok := constructor; [reflexivity|cbn; lia|cbn; lia
  |apply prime_by_trial; [reflexivity|vm_compute; reflexivity]|reflexivity|reflexivity|cbn; lia].

#[global] Instance size761_ok : @ParamsOk size761.
Proof. params_ok. Qed.
#[global] Instance size653_ok : @ParamsOk size653.
Proof. params_ok. Qed.
#[global] Instance size857_ok : @ParamsOk size857.
Proof. params_ok. Qed.
