(* ===== verification/NtruCode.v ===== *)
(** * Encodings of [sntrup761.c]: [Encode], [Decode] and the polynomials

    A sequence of numbers below given moduli is packed into bytes by merging
    neighbours into one number and shedding its low bytes, until one number is
    left. [Decode] undoes this with constant-time divisions, and reduces what no
    encoder produces. The polynomials of keys and ciphertexts are encoded with
    it; small polynomials take two bits per coefficient. *)

From S2P Require Import Prelude NtruInt.

(** ** [Encode] *)

(** [while (m >= lim)] of [Encode]: the bytes shed, and what is left of [r] and
    [m]. *)
Fixpoint shed (fuel : nat) (lim r m : Z) : out (bytes * (Z * Z)) :=
  if m <? lim then Ok ([], (r, m))
  else match fuel with
  | O => Fault Ffuel
  | S fuel =>
      o ← shed fuel lim (Z.shiftr r 8) (Z.shiftr (to_u32 (m + 255)) 8);
      Ok (bZ r :: o.1, o.2)
  end.

(** One level: the bytes, and the numbers and moduli of the next level. *)
Fixpoint encode_pairs (R M : list Z) : out (bytes * (list Z * list Z)) :=
  match R, M with
  | r0 :: r1 :: R, m0 :: m1 :: M =>
      let r := to_u32 (r0 + r1 * m0) in
      let m := to_u32 (m1 * m0) in
      o ← shed 4 16384 r m;
      t ← encode_pairs R M;
      Ok (o.1 ++ t.1, (to_u16 o.2.1 :: t.2.1, to_u16 o.2.2 :: t.2.2))
  | _, _ => Ok ([], (R, M))
  end.

Fixpoint encode_levels (fuel : nat) (R M : list Z) : out bytes :=
  match R, M with
  | [r], [m] => o ← shed 4 2 r m; Ok o.1
  | _ :: _ :: _, _ =>
      match fuel with
      | O => Fault Ffuel
      | S fuel =>
          o ← encode_pairs R M;
          s ← encode_levels fuel o.2.1 o.2.2;
          Ok (o.1 ++ s)
      end
  | _, _ => Ok []
  end.
Definition Encode (R M : list Z) : out bytes := encode_levels (length M) R M.

(** ** [Decode] *)

(** One level down: [bottomt] and [bottomr], the moduli of the next level and
    the rest of the bytes. *)
Fixpoint decode_bottom (s : bytes) (M : list Z) : out (list (Z * Z) * (list Z * bytes)) :=
  match M with
  | m0 :: m1 :: M =>
      let m := to_u32 (m0 * m1) in
      if 256 * 16383 <? m then
        match s with
        | s0 :: s1 :: s =>
            t ← decode_bottom s M;
            Ok ((256 * 256, Zb s0 + 256 * Zb s1) :: t.1,
                (to_u16 (Z.shiftr (Z.shiftr (to_u32 (m + 255)) 8 + 255) 8) :: t.2.1, t.2.2))
        | _ => Fault Foob
        end
      else if 16384 <=? m then
        match s with
        | s0 :: s =>
            t ← decode_bottom s M;
            Ok ((256, Zb s0) :: t.1, (to_u16 (Z.shiftr (to_u32 (m + 255)) 8) :: t.2.1, t.2.2))
        | _ => Fault Foob
        end
      else t ← decode_bottom s M; Ok ((1, 0) :: t.1, (to_u16 m :: t.2.1, t.2.2))
  | _ => Ok ([], (M, s))
  end.

(** One level up. *)
Fixpoint decode_up (M : list Z) (bottom : list (Z * Z)) (R2 : list Z) : list Z :=
  match M, bottom, R2 with
  | m0 :: m1 :: M, (t, b) :: bottom, r2 :: R2 =>
      let r := to_u32 (b + t * r2) in
      let '(r1, r0) := uint32_divmod_uint14 r m0 in
      let r1 := uint32_mod_uint14 r1 m1 in
      r0 :: to_u16 r1 :: decode_up M bottom R2
  | _, _, _ => R2
  end.

Definition decode_last (s : bytes) (m : Z) : out Z :=
  if m =? 1 then Ok 0
  else if m <=? 256 then
    match s with s0 :: _ => Ok (uint32_mod_uint14 (Zb s0) m) | _ => Fault Foob end
  else
    match s with
    | s0 :: s1 :: _ => Ok (uint32_mod_uint14 (Zb s0 + Z.shiftl (Zb s1) 8) m)
    | _ => Fault Foob
    end.

Fixpoint decode_levels (fuel : nat) (s : bytes) (M : list Z) : out (list Z) :=
  match M with
  | [] => Ok []
  | [m] => r ← decode_last s m; Ok [r]
  | _ =>
      match fuel with
      | O => Fault Ffuel
      | S fuel =>
          o ← decode_bottom s M;
          R2 ← decode_levels fuel o.2.2 o.2.1;
          Ok (decode_up M o.1 R2)
      end
  end.
Definition Decode (s : bytes) (M : list Z) : out (list Z) := decode_levels (length M) s M.

(** ** What one level does *)

Lemma pair_ind {A} (P : list A → Prop) :
  P [] → (∀ x, P [x]) → (∀ x y l, P l → P (x :: y :: l)) → ∀ l, P l.
Proof.
  intros H0 H1 H2. fix IH 1. intros [|x [|y l]]; [done|apply H1|apply H2, IH].
Qed.

(** A digit and its modulus. *)
Definition digit (r m : Z) : Prop := 0 ≤ r < m ∧ m < 16384.

(** The number of bytes a merged modulus sheds, and what is left of it. *)
Definition next_bytes (m : Z) : nat :=
  if 256 * 16383 <? m then 2 else if 16384 <=? m then 1 else 0.
Definition next_mod (m : Z) : Z :=
  if 256 * 16383 <? m then ((m + 255) / 256 + 255) / 256
  else if 16384 <=? m then (m + 255) / 256 else m.
Fixpoint next (M : list Z) : list Z :=
  match M with m0 :: m1 :: M => next_mod (m0 * m1) :: next M | _ => M end.
Fixpoint level_bytes (M : list Z) : nat :=
  match M with m0 :: m1 :: M => next_bytes (m0 * m1) + level_bytes M | _ => O end.

Definition le_bytes (n : nat) (r : Z) : bytes :=
  match n with O => [] | S O => [bZ r] | _ => [bZ r; bZ (r / 256)] end.

Lemma shiftr8 a : Z.shiftr a 8 = a / 256.
Proof. by rewrite Z.shiftr_div_pow2. Qed.

Lemma div256 r m : 0 ≤ r < m → 0 ≤ r / 256 < (m + 255) / 256.
Proof.
  intros Hr. pose proof (Z.div_mod r 256 ltac:(lia)). pose proof (Z.mod_pos_bound r 256 ltac:(lia)).
  pose proof (Z.div_mod (m + 255) 256 ltac:(lia)). pose proof (Z.mod_pos_bound (m + 255) 256 ltac:(lia)). lia.
Qed.

Lemma up256 m : (m + 255) / 256 * 256 ≤ m + 255 < (m + 255) / 256 * 256 + 256.
Proof.
  pose proof (Z.div_mod (m + 255) 256 ltac:(lia)). pose proof (Z.mod_pos_bound (m + 255) 256 ltac:(lia)). lia.
Qed.

Lemma shed_run r m :
  0 ≤ r < m → m < 2 ^ 28 →
  ∃ r', shed 4 16384 r m = Ok (le_bytes (next_bytes m) r, (r', next_mod m)) ∧ digit r' (next_mod m) ∧
    r' = r / 256 ^ Z.of_nat (next_bytes m).
Proof.
  intros Hr Hm. unfold next_bytes, next_mod, digit.
  pose proof (up256 m) as U1. pose proof (div256 _ _ Hr) as D1.
  pose proof (up256 ((m + 255) / 256)) as U2. pose proof (div256 _ _ D1) as D2.
  cbn [shed]. rewrite !shiftr8. rewrite (to_u32_id (m + 255)) by lia.
  rewrite (to_u32_id ((m + 255) / 256 + 255)) by lia.
  destruct (Z.ltb_spec (256 * 16383) m) as [H2|H2].
  - rewrite !(proj2 (Z.ltb_ge _ _)) by lia. rewrite (proj2 (Z.ltb_lt _ _)) by lia.
    eexists. split; [reflexivity|]. split; [lia|]. change (256 ^ Z.of_nat 2) with (256 * 256).
    by rewrite Z.div_div by lia.
  - destruct (Z.leb_spec 16384 m) as [H1|H1].
    + rewrite (proj2 (Z.ltb_ge m _)) by lia. rewrite (proj2 (Z.ltb_lt _ _)) by lia.
      eexists. split; [reflexivity|]. split; [lia|]. done.
    + rewrite (proj2 (Z.ltb_lt _ _)) by lia. eexists. split; [reflexivity|]. split; [lia|].
      change (256 ^ Z.of_nat 0) with 1. by rewrite Z.div_1_r.
Qed.

Lemma merged m0 m1 r0 r1 :
  digit r0 m0 → digit r1 m1 →
  0 ≤ r0 + r1 * m0 < m0 * m1 ∧ m0 * m1 < 2 ^ 28 ∧ to_u32 (r0 + r1 * m0) = r0 + r1 * m0 ∧
  to_u32 (m1 * m0) = m0 * m1 ∧ to_u32 (m0 * m1) = m0 * m1.
Proof.
  unfold digit. intros [H0 M0] [H1 M1]. assert (0 ≤ r0 + r1 * m0 < m0 * m1) by nia.
  assert (m0 * m1 ≤ 16383 * 16383) by (apply Z.mul_le_mono_nonneg; lia).
  rewrite (Z.mul_comm m1 m0), !to_u32_id by lia. repeat split; lia.
Qed.

(** What [decode_bottom] and [decode_up] do for one pair. *)
Definition bottom_of (m : Z) (s : bytes) : Z * Z :=
  match next_bytes m, s with
  | O, _ => (1, 0)
  | S O, s0 :: _ => (256, Zb s0)
  | _, s0 :: s1 :: _ => (256 * 256, Zb s0 + 256 * Zb s1)
  | _, _ => (1, 0)
  end.

Lemma next_mod_spec m :
  0 < m < 2 ^ 28 →
  to_u16 (next_mod m) = next_mod m ∧ 0 < next_mod m < 16384 ∧
  (if 256 * 16383 <? m then to_u16 (Z.shiftr (Z.shiftr (to_u32 (m + 255)) 8 + 255) 8)
   else if 16384 <=? m then to_u16 (Z.shiftr (to_u32 (m + 255)) 8) else to_u16 m) = next_mod m.
Proof.
  intros Hm. destruct (shed_run 0 m) as (r' & _ & [Hr Hlt] & _); [lia..|].
  assert (E : to_u16 (next_mod m) = next_mod m) by (apply to_u16_id; lia).
  split; [done|]. split; [lia|]. rewrite !shiftr8, to_u32_id by lia. rewrite <- E. unfold next_mod.
  destruct (256 * 16383 <? m); [done|]. by destruct (16384 <=? m).
Qed.

Lemma decode_bottom_step m0 m1 M s :
  digit 0 m0 → digit 0 m1 → (next_bytes (m0 * m1) ≤ length s)%nat →
  decode_bottom s (m0 :: m1 :: M) =
    t ← decode_bottom (drop (next_bytes (m0 * m1)) s) M;
    Ok (bottom_of (m0 * m1) s :: t.1, (next_mod (m0 * m1) :: t.2.1, t.2.2)).
Proof.
  intros H0 H1 Hl. destruct (merged _ _ _ _ H0 H1) as (Hp & Hm & _ & _ & E).
  destruct (next_mod_spec (m0 * m1)) as (_ & _ & En); [lia|].
  cbn [decode_bottom]. rewrite E. unfold bottom_of, next_bytes in *.
  destruct (256 * 16383 <? m0 * m1).
  - destruct s as [|s0 [|s1 s]]; simpl in Hl; [lia..|]. rewrite En. done.
  - destruct (16384 <=? m0 * m1).
    + destruct s as [|s0 s]; simpl in Hl; [lia|]. rewrite En. done.
    + rewrite En. done.
Qed.

(** The digits of a merged number come back. *)
Lemma unmerge m0 m1 r0 r1 r' b t :
  digit r0 m0 → digit r1 m1 → b + t * r' = r0 + r1 * m0 →
  uint32_divmod_uint14 (to_u32 (b + t * r')) m0 = (r1, r0) ∧ to_u16 (uint32_mod_uint14 r1 m1) = r1.
Proof.
  intros H0 H1 E. destruct (merged _ _ _ _ H0 H1) as (Hp & Hm & Er & _ & _). rewrite E, Er.
  unfold digit in *. unfold uint32_mod_uint14. rewrite !uint32_divmod_run by lia. cbn [snd].
  rewrite (Z.mod_small r1) by lia. rewrite to_u16_id by lia. split; [|done].
  rewrite Z.add_comm, Z.mul_comm, Z.add_comm, Z.mul_comm.
  rewrite Z.div_add, Z.mod_add, Z.div_small, Z.mod_small by lia. done.
Qed.

Lemma bottom_le_bytes m r rest :
  0 ≤ r < m → m < 2 ^ 28 →
  let '(t, b) := bottom_of m (le_bytes (next_bytes m) r ++ rest) in
  b + t * (r / 256 ^ Z.of_nat (next_bytes m)) = r.
Proof.
  intros Hr Hm. unfold bottom_of, next_bytes. destruct (256 * 16383 <? m); [|destruct (16384 <=? m)]; simpl le_bytes.
  - cbn [app]. rewrite !Zb_bZ. change (256 ^ Z.of_nat 2) with (256 * 256).
    rewrite <- Z.div_div by lia. pose proof (Z.div_mod r 256). pose proof (Z.div_mod (r / 256) 256). lia.
  - cbn [app]. rewrite !Zb_bZ. change (256 ^ Z.of_nat 1) with 256. pose proof (Z.div_mod r 256). lia.
  - change (256 ^ Z.of_nat 0) with 1. rewrite Z.div_1_r. lia.
Qed.

Lemma length_le_bytes m r : length (le_bytes (next_bytes m) r) = next_bytes m.
Proof. unfold next_bytes. destruct (256 * 16383 <? m); [done|]. by destruct (16384 <=? m). Qed.

Lemma encode_pairs_run R M :
  Forall2 digit R M →
  ∃ s R2 bot, encode_pairs R M = Ok (s, (R2, next M)) ∧ Forall2 digit R2 (next M) ∧
    length s = level_bytes M ∧
    (∀ rest, decode_bottom (s ++ rest) M = Ok (bot, (next M, rest))) ∧ decode_up M bot R2 = R.
Proof.
  revert R. induction M as [|m|m0 m1 M IH] using pair_ind; intros R HR.
  - inversion HR; subst. by exists [], [], [].
  - inversion HR as [|r ? R' ? Hr HR']; subst. inversion HR'; subst. exists [], [r], []. done.
  - inversion HR as [|r0 ? R' ? H0 HR']; subst. inversion HR' as [|r1 ? R1 ? H1 HR1]; subst.
    destruct (IH _ HR1) as (s & R2 & bot & E & H2 & Hl & Hb & Hu).
    destruct (merged _ _ _ _ H0 H1) as (Hp & Hm & Er & Em & _).
    destruct (shed_run _ _ Hp Hm) as (r' & Es & Hd & Hr').
    destruct (next_mod_spec (m0 * m1)) as (En & _ & _); [lia|].
    set (m := m0 * m1) in *. set (r := r0 + r1 * m0) in *.
    exists (le_bytes (next_bytes m) r ++ s), (r' :: R2), (bottom_of m (le_bytes (next_bytes m) r) :: bot).
    cbn [encode_pairs next level_bytes]. fold m r. rewrite Er, Em. unfold mbind at 1 2, out_bind at 1 2. rewrite Es, E. cbn [fst snd].
    rewrite En, to_u16_id by (unfold digit in Hd; lia).
    split; [done|]. split; [by constructor|]. split; [by rewrite length_app, length_le_bytes, Hl|].
    assert (Hbo : ∀ rest, bottom_of m (le_bytes (next_bytes m) r ++ rest) = bottom_of m (le_bytes (next_bytes m) r)).
    { intros rest. unfold bottom_of, next_bytes. destruct (256 * 16383 <? m); [done|]. by destruct (16384 <=? m). }
    split.
    + intros rest. rewrite decode_bottom_step; [|unfold digit in *; lia..|].
      * fold m. rewrite <- app_assoc, Hbo.
        rewrite drop_app_length' by by rewrite length_le_bytes. unfold mbind, out_bind. by rewrite Hb.
      * fold m. rewrite !length_app, length_le_bytes. lia.
    + cbn [decode_up]. pose proof (bottom_le_bytes m r [] Hp Hm) as Hv. rewrite Hbo in Hv.
      destruct (bottom_of m _) as [t b]. rewrite <- Hr' in Hv.
      destruct (unmerge m0 m1 r0 r1 r' b t H0 H1 Hv) as [-> ->]. by rewrite Hu.
Qed.

(** ** All levels *)

Lemma last_digit_run r m rest :
  digit r m → ∃ s r', shed 4 2 r m = Ok (s, r') ∧ decode_last (s ++ rest) m = Ok r ∧
    length s = (if (m =? 1)%Z then 0 else if (m <=? 256)%Z then 1 else 2)%nat.
Proof.
  intros [Hr Hm]. unfold decode_last, uint32_mod_uint14. cbn [shed].
  pose proof (up256 m) as U1. pose proof (div256 _ _ Hr) as D1.
  pose proof (up256 ((m + 255) / 256)) as U2.
  rewrite !shiftr8. rewrite (to_u32_id (m + 255)), (to_u32_id ((m + 255) / 256 + 255)) by lia.
  destruct (Z.eqb_spec m 1) as [->|H1].
  { eexists _, _. split; [reflexivity|]. split; [f_equal; lia|done]. }
  rewrite (proj2 (Z.ltb_ge m 2)) by lia. destruct (Z.leb_spec m 256) as [H2|H2].
  - rewrite (proj2 (Z.ltb_lt ((m + 255) / 256) 2)) by lia. eexists _, _. split; [reflexivity|].
    cbn [app fst]. rewrite Zb_bZ, (Z.mod_small r) by lia. rewrite uint32_divmod_run by lia.
    split; [|done]. f_equal. cbn [snd]. apply Z.mod_small. lia.
  - rewrite (proj2 (Z.ltb_ge ((m + 255) / 256) 2)) by lia.
    rewrite (proj2 (Z.ltb_lt (((m + 255) / 256 + 255) / 256) 2)) by lia.
    eexists _, _. split; [reflexivity|]. cbn [app fst]. rewrite !Zb_bZ, Z.shiftl_mul_pow2 by lia.
    change (2 ^ 8) with 256. rewrite (Z.mod_small (r / 256)) by lia.
    assert (r mod 256 + r / 256 * 256 = r) as -> by (pose proof (Z.div_mod r 256); lia).
    rewrite uint32_divmod_run by lia. split; [|done]. f_equal. cbn [snd]. apply Z.mod_small. lia.
Qed.

Definition last_bytes (m : Z) : nat := if m =? 1 then 0 else if m <=? 256 then 1 else 2.
Fixpoint enc_bytes (fuel : nat) (M : list Z) : nat :=
  match M, fuel with
  | [], _ => O
  | [m], _ => last_bytes m
  | _, O => O
  | _, S fuel => level_bytes M + enc_bytes fuel (next M)
  end.

Lemma length_next M : (length (next M) ≤ length M)%nat.
Proof. induction M using pair_ind; simpl; lia. Qed.

(** Moduli of at least two digits. *)
Lemma two_or_more {A B} (P : A → B → Prop) R M :
  Forall2 P R M → (2 ≤ length M)%nat →
  ∃ r0 r1 R' m0 m1 M', R = r0 :: r1 :: R' ∧ M = m0 :: m1 :: M'.
Proof.
  intros HR Hl. destruct M as [|m0 [|m1 M]]; simpl in Hl; [lia..|].
  inversion HR as [|r0 ? ? ? ? HR']; subst. inversion HR'; subst. by repeat eexists.
Qed.

Lemma encode_levels_run fuel R M :
  Forall2 digit R M → (length M ≤ fuel)%nat →
  ∃ s, encode_levels fuel R M = Ok s ∧ length s = enc_bytes fuel M ∧
    ∀ rest, decode_levels fuel (s ++ rest) M = Ok R.
Proof.
  revert R M. induction fuel as [|fuel IH]; intros R M HR Hf.
  { destruct M; [|simpl in Hf; lia]. inversion HR; subst. by exists []. }
  destruct M as [|m0 [|m1 M]].
  - inversion HR; subst. by exists [].
  - inversion HR as [|r ? R' ? Hr HR']; subst. inversion HR'; subst.
    destruct (last_digit_run r m0 [] Hr) as (s & r' & E & _ & Hl). exists s.
    cbn [encode_levels decode_levels]. unfold mbind, out_bind. rewrite E. split; [done|]. split; [done|].
    intros rest. destruct (last_digit_run r m0 rest Hr) as (s' & r'' & E' & Hd & _).
    rewrite E in E'. injection E' as <- _. by rewrite Hd.
  - destruct (encode_pairs_run _ _ HR) as (s & R2 & bot & E & H2 & Hl & Hb & Hu).
    destruct (IH _ _ H2) as (s2 & E2 & Hl2 & Hd2).
    { pose proof (length_next M). simpl in *. lia. }
    exists (s ++ s2). destruct (two_or_more _ _ _ HR) as (r0 & r1 & R' & _ & _ & _ & -> & _); [simpl; lia|].
    split; [|split].
    + change (encode_levels (S fuel) (r0 :: r1 :: R') (m0 :: m1 :: M)) with
        (o ← encode_pairs (r0 :: r1 :: R') (m0 :: m1 :: M);
         s ← encode_levels fuel o.2.1 o.2.2; Ok (o.1 ++ s)).
      unfold mbind, out_bind. rewrite E. cbn [fst snd]. by rewrite E2.
    + rewrite length_app, Hl, Hl2. done.
    + intros rest. change (decode_levels (S fuel) ((s ++ s2) ++ rest) (m0 :: m1 :: M)) with
        (o ← decode_bottom ((s ++ s2) ++ rest) (m0 :: m1 :: M);
         R2 ← decode_levels fuel o.2.2 o.2.1; Ok (decode_up (m0 :: m1 :: M) o.1 R2)).
      rewrite <- app_assoc. unfold mbind, out_bind. rewrite Hb. cbn [fst snd]. rewrite Hd2. by rewrite Hu.
Qed.

(** ** Any bytes decode to digits *)

Lemma decode_bottom_total M s :
  Forall (digit 0) M → (level_bytes M ≤ length s)%nat →
  ∃ bot, decode_bottom s M = Ok (bot, (next M, drop (level_bytes M) s)) ∧
    ∀ R2, Forall2 digit R2 (next M) → Forall2 digit (decode_up M bot R2) M.
Proof.
  revert s. induction M as [|m|m0 m1 M IH] using pair_ind; intros s HM Hl.
  - exists []. split; [done|]. intros R2 H2. inversion H2; subst. done.
  - exists []. split; [done|]. done.
  - apply Forall_cons in HM as [H0 HM]. apply Forall_cons in HM as [H1 HM]. cbn [level_bytes] in Hl.
    destruct (IH (drop (next_bytes (m0 * m1)) s) HM) as (bot & E & Hu); [rewrite length_drop; lia|].
    exists (bottom_of (m0 * m1) s :: bot). split.
    + rewrite decode_bottom_step by (done || lia). unfold mbind, out_bind. rewrite E. cbn [fst snd next level_bytes].
      by rewrite drop_drop.
    + intros R2 H2. cbn [next] in H2. inversion H2 as [|r2 ? R2' ? Hr2 H2']; subst. cbn [decode_up].
      destruct (bottom_of (m0 * m1) s) as [t b] eqn:Eb.
      assert (Htb : 0 ≤ b < 65536 ∧ 1 ≤ t ≤ 65536).
      { unfold bottom_of in Eb. destruct (next_bytes (m0 * m1)) as [|[|n]].
        - injection Eb as <- <-. lia.
        - destruct s as [|s0 s]; injection Eb as <- <-; [lia|]. pose proof (Zb_range s0). lia.
        - destruct s as [|s0 [|s1 s]]; injection Eb as <- <-; [lia..|].
          pose proof (Zb_range s0). pose proof (Zb_range s1). lia. }
      destruct (merged _ _ _ _ H0 H1) as (_ & Hm & _). destruct (next_mod_spec (m0 * m1)) as (_ & Hn & _);
        [unfold digit in *; nia|].
      unfold digit in *. rewrite to_u32_id by nia. unfold uint32_mod_uint14. rewrite uint32_divmod_run by nia.
      assert (0 ≤ (b + t * r2) / m0 < 2 ^ 32).
      { split; [apply Z.div_pos; nia|]. apply Z.div_lt_upper_bound; nia. }
      rewrite uint32_divmod_run by lia. cbn [snd].
      pose proof (Z.mod_pos_bound (b + t * r2) m0 ltac:(lia)).
      pose proof (Z.mod_pos_bound ((b + t * r2) / m0) m1 ltac:(lia)).
      constructor; [lia|]. constructor; [rewrite to_u16_id; lia|]. by apply Hu.
Qed.

Lemma decode_levels_total fuel M s :
  Forall (digit 0) M → (length M ≤ fuel)%nat → (enc_bytes fuel M ≤ length s)%nat →
  ∃ R, decode_levels fuel s M = Ok R ∧ Forall2 digit R M.
Proof.
  revert M s. induction fuel as [|fuel IH]; intros M s HM Hf Hl.
  { destruct M; [|simpl in Hf; lia]. by exists []. }
  destruct M as [|m0 [|m1 M]].
  - by exists [].
  - apply Forall_cons in HM as [[H0 H1] _]. cbn [enc_bytes] in Hl. unfold last_bytes in Hl.
    cbn [decode_levels]. unfold decode_last, uint32_mod_uint14.
    assert (Hmod : ∀ x, digit (x mod m0) m0) by (intros x; pose proof (Z.mod_pos_bound x m0 ltac:(lia)); unfold digit; lia).
    destruct (Z.eqb_spec m0 1) as [->|Hne].
    { eexists. split; [reflexivity|]. constructor; [|done]. split; lia. }
    destruct (m0 <=? 256).
    + destruct s as [|s0 s]; simpl in Hl; [lia|]. pose proof (Zb_range s0).
      rewrite uint32_divmod_run by lia. eexists. split; [reflexivity|]. constructor; [apply Hmod|done].
    + destruct s as [|s0 [|s1 s]]; simpl in Hl; [lia..|]. pose proof (Zb_range s0). pose proof (Zb_range s1).
      rewrite Z.shiftl_mul_pow2 by lia. rewrite uint32_divmod_run by lia.
      eexists. split; [reflexivity|]. constructor; [apply Hmod|done].
  - change (enc_bytes (S fuel) (m0 :: m1 :: M)) with
      (level_bytes (m0 :: m1 :: M) + enc_bytes fuel (next (m0 :: m1 :: M)))%nat in Hl.
    destruct (decode_bottom_total (m0 :: m1 :: M) s HM) as (bot & E & Hu); [lia|].
    destruct (IH (next (m0 :: m1 :: M)) (drop (level_bytes (m0 :: m1 :: M)) s)) as (R2 & E2 & H2).
    + clear -HM. induction (m0 :: m1 :: M) as [|m|a b l IHl] using pair_ind; [done..|].
      apply Forall_cons in HM as [Ha HM]. apply Forall_cons in HM as [Hb HM]. constructor; [|by apply IHl].
      destruct (merged _ _ _ _ Ha Hb) as (_ & Hm & _). destruct (next_mod_spec (a * b)) as (_ & Hn & _).
      { unfold digit in *. nia. }
      unfold digit. lia.
    + pose proof (length_next M). simpl in *. lia.
    + rewrite length_drop. lia.
    + exists (decode_up (m0 :: m1 :: M) bot R2). split; [|by apply Hu].
      change (decode_levels (S fuel) s (m0 :: m1 :: M)) with
        (o ← decode_bottom s (m0 :: m1 :: M);
         R2 ← decode_levels fuel o.2.2 o.2.1; Ok (decode_up (m0 :: m1 :: M) o.1 R2)).
      unfold mbind, out_bind. rewrite E. cbn [fst snd]. by rewrite E2.
Qed.

(** The number of bytes of an encoding. *)
Definition Encode_bytes (M : list Z) : nat := enc_bytes (length M) M.

(** What [Encode] writes [Decode] reads back; it also makes digits of any
    other bytes. *)
Lemma Encode_Decode R M :
  Forall2 digit R M →
  ∃ s, Encode R M = Ok s ∧ length s = Encode_bytes M ∧ ∀ rest, Decode (s ++ rest) M = Ok R.
Proof. intros HR. by apply encode_levels_run. Qed.
Lemma Decode_total M s :
  Forall (digit 0) M → (Encode_bytes M ≤ length s)%nat → ∃ R, Decode s M = Ok R ∧ Forall2 digit R M.
Proof. intros HM Hl. by apply decode_levels_total. Qed.

(** ** Polynomials *)

Section polynomials.
Context `{!Params}.

(** Two bits per coefficient. *)
Fixpoint small_encode_loop (n : nat) (f : list Z) : out bytes :=
  match n, f with
  | O, a :: _ => Ok [bZ (to_i8 (a + 1))]
  | S n, a :: b :: c :: d :: f =>
      let x := to_i8 (a + 1) in
      let x := to_i8 (x + Z.shiftl (b + 1) 2) in
      let x := to_i8 (x + Z.shiftl (c + 1) 4) in
      let x := to_i8 (x + Z.shiftl (d + 1) 6) in
      s ← small_encode_loop n f;
      Ok (bZ x :: s)
  | _, _ => Fault Foob
  end.
Definition Small_encode (f : list Z) : out bytes := small_encode_loop (p / 4) f.

Fixpoint small_decode_loop (n : nat) (s : bytes) : out (list Z) :=
  match n, s with
  | O, b :: _ => Ok [Z.land (Zb b) 3 - 1]
  | S n, b :: s =>
      let x := Zb b in
      f ← small_decode_loop n s;
      Ok (Z.land x 3 - 1 :: Z.land (Z.shiftr x 2) 3 - 1 :: Z.land (Z.shiftr (Z.shiftr x 2) 2) 3 - 1 ::
          Z.land (Z.shiftr (Z.shiftr (Z.shiftr x 2) 2) 2) 3 - 1 :: f)
  | _, _ => Fault Foob
  end.
Definition Small_decode (s : bytes) : out (list Z) := small_decode_loop (p / 4) s.

Definition Small_bytes : nat := (p + 3) / 4.

Definition Rq_encode (r : list Z) : out bytes :=
  Encode (map (λ x, to_u16 (x + q12)) r) (replicate p q).
Definition Rq_decode (s : bytes) : out (list Z) :=
  R ← Decode s (replicate p q);
  Ok (map (λ x, to_i16 (x - q12)) R).
Definition Rq_bytes : nat := Encode_bytes (replicate p q).

Definition Rounded_encode (r : list Z) : out bytes :=
  Encode (map (λ x, to_u16 (Z.shiftr ((x + q12) * 10923) 15)) r) (replicate p ((q + 2) / 3)).
Definition Rounded_decode (s : bytes) : out (list Z) :=
  R ← Decode s (replicate p ((q + 2) / 3));
  Ok (map (λ x, to_i16 (x * 3 - q12)) R).
Definition Rounded_bytes : nat := Encode_bytes (replicate p ((q + 2) / 3)).
End polynomials.

(** The sizes [params.h] states. *)
Example sizes_761 : (@Rq_bytes size761, @Rounded_bytes size761) = (1158%nat, 1007%nat).
Proof. vm_compute. reflexivity. Qed.
Example sizes_653 : (@Rq_bytes size653, @Rounded_bytes size653) = (994%nat, 865%nat).
Proof. vm_compute. reflexivity. Qed.
Example sizes_857 : (@Rq_bytes size857, @Rounded_bytes size857) = (1322%nat, 1152%nat).
Proof. vm_compute. reflexivity. Qed.

Section roundtrips.
Context `{!Params, !ParamsOk}.

(** Four coefficients in a byte. *)
Lemma small_byte a b c d :
  F3_range a → F3_range b → F3_range c → F3_range d →
  let x := Zb (bZ (to_i8 (to_i8 (to_i8 (to_i8 (a + 1) + Z.shiftl (b + 1) 2) + Z.shiftl (c + 1) 4) +
                          Z.shiftl (d + 1) 6))) in
  Z.land x 3 - 1 = a ∧ Z.land (Z.shiftr x 2) 3 - 1 = b ∧ Z.land (Z.shiftr (Z.shiftr x 2) 2) 3 - 1 = c ∧
  Z.land (Z.shiftr (Z.shiftr (Z.shiftr x 2) 2) 2) 3 - 1 = d.
Proof.
  unfold F3_range. intros Ha Hb Hc Hd.
  assert (∀ x, -1 ≤ x ≤ 1 → x = -1 ∨ x = 0 ∨ x = 1) as Hcase by lia.
  by destruct (Hcase a Ha) as [-> | [-> | ->]], (Hcase b Hb) as [-> | [-> | ->]],
    (Hcase c Hc) as [-> | [-> | ->]], (Hcase d Hd) as [-> | [-> | ->]].
Qed.

Lemma small_loop_run n f :
  Forall F3_range f → length f = (4 * n + 1)%nat →
  ∃ s, small_encode_loop n f = Ok s ∧ length s = S n ∧
    ∀ rest, small_decode_loop n (s ++ rest) = Ok f.
Proof.
  revert f. induction n as [|n IH]; intros f Hf Hl.
  - destruct f as [|a [|]]; simpl in Hl; [lia| |lia]. apply Forall_cons in Hf as [Ha _].
    eexists. split; [reflexivity|]. split; [done|]. intros rest. unfold F3_range in Ha.
    assert (a = -1 ∨ a = 0 ∨ a = 1) as [-> | [-> | ->]] by lia; done.
  - destruct f as [|a [|b [|c [|d f]]]]; simpl in Hl; try lia.
    rewrite !Forall_cons in Hf. destruct Hf as (Ha & Hb & Hc & Hd & Hf).
    destruct (IH f Hf) as (s & E & Hs & Hdec); [lia|].
    cbn [small_encode_loop]. unfold mbind, out_bind. rewrite E. eexists. split; [reflexivity|].
    split; [simpl; by rewrite Hs|]. intros rest. cbn [app small_decode_loop]. unfold mbind, out_bind. rewrite Hdec.
    destruct (small_byte a b c d Ha Hb Hc Hd) as (E1 & E2 & E3 & E4). by rewrite E1, E2, E3, E4.
Qed.

Lemma p_quarter : p = (4 * (p / 4) + 1)%nat ∧ Small_bytes = S (p / 4).
Proof.
  pose proof p_mod4 as Hm. pose proof (Nat.div_mod p 4 ltac:(lia)) as E. rewrite Hm in E. split; [lia|].
  unfold Small_bytes. rewrite E at 1. replace (4 * (p / 4) + 1 + 3)%nat with (S (p / 4) * 4)%nat by lia.
  by rewrite Nat.div_mul.
Qed.

Lemma Small_roundtrip f :
  Forall F3_range f → length f = p →
  ∃ s, Small_encode f = Ok s ∧ length s = Small_bytes ∧ ∀ rest, Small_decode (s ++ rest) = Ok f.
Proof.
  intros Hf Hl. destruct p_quarter as [E ->]. apply small_loop_run; [done|]. by rewrite Hl.
Qed.

(** Any bytes decode to a polynomial with coefficients from -1 to 2. *)
Lemma small_decode_total n s :
  (S n ≤ length s)%nat →
  ∃ f, small_decode_loop n s = Ok f ∧ length f = (4 * n + 1)%nat ∧ Forall (λ x, -1 ≤ x ≤ 2) f.
Proof.
  assert (∀ x, -1 ≤ Z.land x 3 - 1 ≤ 2) as Hx.
  { intros x. change 3 with (Z.ones 2). rewrite Z.land_ones by lia.
    pose proof (Z.mod_pos_bound x (2 ^ 2)). lia. }
  revert s. induction n as [|n IH]; intros [|b s] Hl; simpl in Hl; try lia.
  - eexists. split; [reflexivity|]. split; [done|]. by constructor.
  - destruct (IH s) as (f & E & Hf & HF); [lia|]. cbn [small_decode_loop]. unfold mbind, out_bind. rewrite E.
    eexists. split; [reflexivity|]. split; [simpl; lia|]. by repeat (constructor; [apply Hx|]).
Qed.

Lemma digits_map (g : Z → Z) n m r :
  length r = n → Forall (λ x, digit (g x) m) r → Forall2 digit (map g r) (replicate n m).
Proof.
  intros <- Hr. induction Hr; simpl; by constructor.
Qed.

Lemma map_back (g h : Z → Z) r : Forall (λ x, h (g x) = x) r → map h (map g r) = r.
Proof. induction 1; simpl; congruence. Qed.

Lemma Rq_roundtrip r :
  Forall Fq_range r → length r = p →
  ∃ s, Rq_encode r = Ok s ∧ length s = Rq_bytes ∧ ∀ rest, Rq_decode (s ++ rest) = Ok r.
Proof.
  intros Hr Hl. pose proof q12_spec. pose proof q_gt. pose proof q_range.
  assert (∀ x, Fq_range x → to_u16 (x + q12) = x + q12 ∧ to_i16 (x + q12 - q12) = x) as Hx.
  { unfold Fq_range. intros x Hx. split; [apply to_u16_id; lia|]. rewrite to_int_id; [lia|lia|].
    unfold int_range. simpl. lia. }
  destruct (Encode_Decode (map (λ x, to_u16 (x + q12)) r) (replicate p q)) as (s & E & Hs & Hd).
  { apply digits_map; [done|]. eapply Forall_impl; [exact Hr|]. intros x Hxr.
    destruct (Hx x Hxr) as [-> _]. unfold digit, Fq_range in *. lia. }
  exists s. split; [done|]. split; [done|]. intros rest. unfold Rq_decode, mbind, out_bind. rewrite Hd.
  f_equal. apply map_back. eapply Forall_impl; [exact Hr|]. intros x Hxr. by destruct (Hx x Hxr) as [-> ->].
Qed.

(** Multiplying by 10923 and shifting by 15 divides a multiple of three by
    three. *)
Lemma third x : 0 ≤ x < 2 ^ 14 → x mod 3 = 0 → Z.shiftr (x * 10923) 15 = x / 3.
Proof.
  intros Hx H3. rewrite Z.shiftr_div_pow2 by lia. pose proof (Z.div_mod x 3 ltac:(lia)) as E.
  rewrite H3, Z.add_0_r in E. rewrite E at 1. symmetry. apply Z.div_unique with (r := x / 3); lia.
Qed.

(** The rounded elements: multiples of three. *)
Definition rounded (x : Z) : Prop := Fq_range x ∧ x mod 3 = 0.

Lemma Rounded_roundtrip r :
  Forall rounded r → length r = p →
  ∃ s, Rounded_encode r = Ok s ∧ length s = Rounded_bytes ∧ ∀ rest, Rounded_decode (s ++ rest) = Ok r.
Proof.
  intros Hr Hl. pose proof q12_spec. pose proof q_gt. pose proof q_range. pose proof q_mod6.
  pose proof (Z.div_mod q 6 ltac:(lia)).
  assert (∀ x, rounded x → let y := to_u16 (Z.shiftr ((x + q12) * 10923) 15) in
    digit y ((q + 2) / 3) ∧ to_i16 (y * 3 - q12) = x) as Hx.
  { unfold rounded, Fq_range, digit, int_range. intros x [Hx Hx3].
    pose proof (Z.div_mod x 3 ltac:(lia)).
    assert ((x + q12) mod 3 = 0) as Hm.
    { replace (x + q12) with ((x / 3 + q / 6) * 3) by lia. apply Z.mod_mul. lia. }
    rewrite third by (exact Hm || lia). pose proof (Z.div_mod (x + q12) 3 ltac:(lia)).
    pose proof (Z.div_mod (q + 2) 3 ltac:(lia)). pose proof (Z.mod_pos_bound (q + 2) 3 ltac:(lia)).
    cbn zeta. rewrite to_u16_id by lia. split; [lia|]. rewrite to_int_id; [lia|lia|].
    unfold int_range. simpl. lia. }
  destruct (Encode_Decode (map (λ x, to_u16 (Z.shiftr ((x + q12) * 10923) 15)) r)
    (replicate p ((q + 2) / 3))) as (s & E & Hs & Hd).
  { apply digits_map; [done|]. eapply Forall_impl; [exact Hr|]. intros x Hxr. by destruct (Hx x Hxr). }
  exists s. split; [done|]. split; [done|]. intros rest. unfold Rounded_decode, mbind, out_bind. rewrite Hd.
  f_equal. apply map_back. eapply Forall_impl; [exact Hr|]. intros x Hxr. by destruct (Hx x Hxr).
Qed.

(** Any bytes decode to coefficients in range. *)
Lemma decoded_map (g : Z → Z) (P : Z → Prop) m s :
  digit 0 m → (∀ x, digit x m → P (g x)) → (Encode_bytes (replicate p m) ≤ length s)%nat →
  ∃ R, Decode s (replicate p m) = Ok R ∧ length (map g R) = p ∧ Forall P (map g R).
Proof.
  intros Hm Hg Hl. destruct (Decode_total (replicate p m) s) as (R & E & HR); [|done|].
  { by apply Forall_replicate. }
  exists R. split; [done|]. rewrite length_map. pose proof (Forall2_length _ _ _ HR) as Hlen.
  rewrite length_replicate in Hlen. split; [done|]. apply Forall_fmap, Forall_lookup. intros i x Hi.
  destruct (Forall2_lookup_l _ _ _ _ _ HR Hi) as (y & Hy & Hd). apply lookup_replicate in Hy as [-> _].
  by apply Hg.
Qed.

Lemma Rq_decode_total s :
  (Rq_bytes ≤ length s)%nat → ∃ r, Rq_decode s = Ok r ∧ length r = p ∧ Forall Fq_range r.
Proof.
  intros Hl. pose proof q12_spec. pose proof q_gt. pose proof q_range.
  destruct (decoded_map (λ x, to_i16 (x - q12)) Fq_range q s) as (R & E & HR); [unfold digit; lia| |done|].
  - unfold digit, Fq_range. intros x Hx. rewrite to_int_id; [lia|lia|unfold int_range; simpl; lia].
  - eexists. unfold Rq_decode, mbind, out_bind. rewrite E. done.
Qed.

Lemma Rounded_decode_total s :
  (Rounded_bytes ≤ length s)%nat → ∃ r, Rounded_decode s = Ok r ∧ length r = p ∧ Forall rounded r.
Proof.
  intros Hl. pose proof q12_spec. pose proof q_gt. pose proof q_range. pose proof q_mod6.
  pose proof (Z.div_mod q 6 ltac:(lia)). pose proof (Z.div_mod (q + 2) 3 ltac:(lia)).
  pose proof (Z.mod_pos_bound (q + 2) 3 ltac:(lia)).
  destruct (decoded_map (λ x, to_i16 (x * 3 - q12)) rounded ((q + 2) / 3) s) as (R & E & HR);
    [unfold digit; lia| |done|].
  - unfold digit, rounded, Fq_range. intros x Hx. rewrite to_int_id; [|lia|unfold int_range; simpl; lia].
    split; [lia|]. replace (x * 3 - q12) with ((x - q / 6) * 3) by lia. apply Z.mod_mul. lia.
  - eexists. unfold Rounded_decode, mbind, out_bind. rewrite E. done.
Qed.
End roundtrips.
