(* ===== verification/NtruSort.v ===== *)
(** * Sorting and short polynomials of [sntrup761.c]

    The sorting network of [crypto_sort_int32] with its index arithmetic,
    the sort of unsigned numbers on top of it, and the short polynomials that
    [Short_fromlist] makes by sorting tagged random numbers. The theorems say
    that the network stays inside the array, ends, and permutes the array, and
    that a short polynomial therefore always has weight [w]. *)

From S2P Require Import Prelude NtruInt.

(** ** The network *)

(** [for (j = from; j < from + k; ++j)] *)
Fixpoint for_loop (body : nat → list Z → out (list Z)) (k j : nat) (x : list Z) : out (list Z) :=
  match k with
  | O => Ok x
  | S k => x ← body j x; for_loop body k (S j) x
  end.

(** [int32_MINMAX(x[a],x[b])] *)
Definition minmax_at (a b : nat) (x : list Z) : out (list Z) :=
  match x !! a, x !! b with
  | Some u, Some v => let '(lo, hi) := int32_MINMAX u v in Ok (<[b:=hi]> (<[a:=lo]> x))
  | _, _ => Fault Foob
  end.

(** [for (r = q; r > p; r >>= 1) int32_MINMAX(a,x[j+r])] *)
Fixpoint sort_chain (fuel p r j : nat) (a : Z) (x : list Z) : out (Z * list Z) :=
  if (p <? r)%nat then
    match fuel, x !! (j + r)%nat with
    | O, _ => Fault Ffuel
    | _, None => Fault Foob
    | S fuel, Some b =>
        let '(a, b) := int32_MINMAX a b in
        sort_chain fuel p (r / 2) j a (<[(j + r)%nat:=b]> x)
    end
  else Ok (a, x).
Definition sort_step (p q j : nat) (x : list Z) : out (list Z) :=
  match x !! (j + p)%nat with
  | None => Fault Foob
  | Some a => t ← sort_chain q p q j a x; Ok (<[(j + p)%nat:=t.1]> t.2)
  end.

(** [while (i + 2 * p <= n)] *)
Fixpoint sort_blocks (fuel n p i : nat) (x : list Z) : out (nat * list Z) :=
  if (i + 2 * p <=? n)%nat then
    match fuel with
    | O => Fault Ffuel
    | S fuel =>
        x ← for_loop (λ j, minmax_at j (j + p)) p i x;
        sort_blocks fuel n p (i + 2 * p) x
    end
  else Ok (i, x).

(** The [for (;;)] loop; the flag is the jump to [done]. *)
Fixpoint sort_resume (fuel n p q i j : nat) (x : list Z) : out (bool * (nat * nat * list Z)) :=
  if (j =? n - q)%nat then Ok (true, (i, j, x))
  else
    match fuel with
    | O => Fault Ffuel
    | S fuel =>
        x ← sort_step p q j x;
        let j := S j in
        if (j =? i + p)%nat then Ok (false, ((i + 2 * p)%nat, j, x))
        else sort_resume fuel n p q i j x
    end.

(** [while (i + p <= n - q)] *)
Fixpoint sort_whole (fuel n p q i : nat) (x : list Z) : out (nat * list Z) :=
  if (i + p <=? n - q)%nat then
    match fuel with
    | O => Fault Ffuel
    | S fuel =>
        x ← for_loop (sort_step p q) p i x;
        sort_whole fuel n p q (i + 2 * p) x
    end
  else Ok (i, x).

(** [for (q = top; q > p; q >>= 1)] *)
Fixpoint sort_merge (fuel n p q i j : nat) (x : list Z) : out (list Z) :=
  if (p <? q)%nat then
    match fuel with
    | O => Fault Ffuel
    | S fuel =>
        t ← (if (j =? i)%nat then Ok (false, (i, j, x)) else sort_resume p n p q i j x);
        let '(fin, (i, j, x)) := t in
        if (fin : bool) then sort_merge fuel n p (q / 2) i j x
        else
          t ← sort_whole n n p q i x;
          let '(i, x) := t in
          x ← for_loop (sort_step p q) (n - q - i) i x;
          sort_merge fuel n p (q / 2) i (Nat.max i (n - q)) x
    end
  else Ok x.

(** [for (p = top; p >= 1; p >>= 1)] *)
Fixpoint sort_passes (fuel n top p : nat) (x : list Z) : out (list Z) :=
  if (1 <=? p)%nat then
    match fuel with
    | O => Fault Ffuel
    | S fuel =>
        t ← sort_blocks n n p 0 x;
        let '(i, x) := t in
        x ← for_loop (λ j, minmax_at j (j + p)) (n - p - i) i x;
        x ← sort_merge top n p top 0 0 x;
        sort_passes fuel n top (p / 2) x
    end
  else Ok x.

Fixpoint sort_top (fuel n top : nat) : out nat :=
  if (top <? n - top)%nat then
    match fuel with O => Fault Ffuel | S fuel => sort_top fuel n (top + top) end
  else Ok top.

Definition crypto_sort_int32 (x : list Z) : out (list Z) :=
  let n := length x in
  if (n <? 2)%nat then Ok x
  else
    top ← sort_top n n 1;
    sort_passes top n top top x.

Definition crypto_sort_uint32 (x : list Z) : out (list Z) :=
  x ← crypto_sort_int32 (map (λ v, to_i32 (Z.lxor v 0x80000000)) x);
  Ok (map (λ v, Z.lxor (to_u32 v) 0x80000000) x).

(** ** Short polynomials *)

Section short.
Context `{!Params}.

Definition short_tag (i : nat) (v : Z) : Z :=
  if (i <? w)%nat then Z.land v (to_u32 (-2)) else Z.lor (Z.land v (to_u32 (-3))) 1.

Definition Short_fromlist (inp : list Z) : out (list Z) :=
  L ← crypto_sort_uint32 (imap short_tag inp);
  Ok (map (λ v, to_i8 (to_u32 (Z.land v 3 - 1))) L).
End short.

(** ** Permutations *)

(** [f] runs on arrays of length [n] and permutes them. *)
Definition permutes (n : nat) (f : list Z → out (list Z)) : Prop :=
  ∀ x, length x = n → Forall (int_range 32) x → ∃ y, f x = Ok y ∧ y ≡ₚ x.

Lemma permutes_bind n f g : permutes n f → permutes n g → permutes n (λ x, y ← f x; g y).
Proof.
  intros Hf Hg x Hl Hx. destruct (Hf x Hl Hx) as (y & E & Hp).
  destruct (Hg y) as (z & E' & Hp'); [by rewrite Hp|by rewrite Hp|].
  exists z. unfold mbind, out_bind. rewrite E. split; [done|]. by rewrite Hp'.
Qed.

Lemma permutes_id n : permutes n Ok.
Proof. intros x _ _. by exists x. Qed.

Lemma permutes_for n body k j :
  (∀ i, (j ≤ i < j + k)%nat → permutes n (body i)) → permutes n (for_loop body k j).
Proof.
  revert j. induction k as [|k IH]; intros j Hb; [apply permutes_id|].
  apply permutes_bind; [apply Hb; lia|]. apply IH. intros i Hi. apply Hb. lia.
Qed.

(** Exchanging a local variable with an element. *)
Lemma exchange (x : list Z) k b a v lo hi :
  x !! b = Some v → k ≠ b → (k < length x)%nat → (lo, hi) = (a, v) ∨ (lo, hi) = (v, a) →
  <[k:=lo]> (<[b:=hi]> x) ≡ₚ <[k:=a]> x.
Proof.
  intros Hv Hne Hk [E|E]; injection E as -> ->.
  - by rewrite (list_insert_id _ _ _ Hv).
  - pose proof (Permutation_insert_swap (<[k:=a]> x) b k v a) as Hs.
    rewrite list_lookup_insert_ne in Hs by done.
    rewrite (list_insert_insert_ne _ b k), list_insert_insert_eq in Hs by done.
    apply Hs; [done|]. by apply list_lookup_insert_eq.
Qed.

Lemma minmax_cases a b :
  int_range 32 a → int_range 32 b → int32_MINMAX a b = (a, b) ∨ int32_MINMAX a b = (b, a).
Proof.
  intros Ha Hb. rewrite int32_MINMAX_run by done. destruct (Z.le_ge_cases a b).
  - left. by rewrite Z.min_l, Z.max_r by lia.
  - right. by rewrite Z.min_r, Z.max_l by lia.
Qed.

Lemma permutes_minmax n a b : a ≠ b → (a < n)%nat → (b < n)%nat → permutes n (minmax_at a b).
Proof.
  intros Hne Ha Hb x Hl Hx. unfold minmax_at.
  destruct (lookup_lt_is_Some_2 x a) as [u Hu]; [lia|]. destruct (lookup_lt_is_Some_2 x b) as [v Hv]; [lia|].
  rewrite Hu, Hv. destruct (minmax_cases u v) as [E|E]; [by eapply Forall_lookup_1..| |]; rewrite E;
    (eexists; split; [reflexivity|]); rewrite list_insert_insert_ne by done.
  - by rewrite (list_insert_id _ _ _ Hv), (list_insert_id _ _ _ Hu).
  - rewrite (exchange x a b u v v u) by (done || lia || by right). by rewrite (list_insert_id _ _ _ Hu).
Qed.

Lemma sort_chain_run fuel p r j a x :
  (r ≤ fuel)%nat → (j + r < length x)%nat → (j + p < length x)%nat →
  int_range 32 a → Forall (int_range 32) x →
  ∃ a' y, sort_chain fuel p r j a x = Ok (a', y) ∧ <[(j + p)%nat:=a']> y ≡ₚ <[(j + p)%nat:=a]> x.
Proof.
  revert r a x. induction fuel as [|fuel IH]; intros r a x Hf Hr Hp Ha Hx; cbn [sort_chain];
    destruct (Nat.ltb_spec p r) as [Hpr|Hpr].
  1: lia. 1,3: eexists _, _; done.
  destruct (lookup_lt_is_Some_2 x (j + r)) as [b Hb]; [lia|]. rewrite Hb.
  pose proof (Forall_lookup_1 _ _ _ _ Hx Hb) as Hbr.
  assert (r / 2 < r)%nat by (apply Nat.div_lt; lia).
  destruct (int32_MINMAX a b) as [lo hi] eqn:E.
  assert ((lo, hi) = (a, b) ∨ (lo, hi) = (b, a)) as Hc by (rewrite <- E; by apply minmax_cases).
  assert (int_range 32 lo ∧ int_range 32 hi) as [Hlo Hhi] by (destruct Hc as [Hc|Hc]; by injection Hc as -> ->).
  destruct (IH (r / 2)%nat lo (<[(j + r)%nat:=hi]> x)) as (a' & y & E' & Hp');
    rewrite ?length_insert; try lia; try done.
  { by apply Forall_insert. }
  exists a', y. split; [done|]. rewrite Hp'. apply exchange with (v := b); [done|lia|lia|done].
Qed.

Lemma permutes_step n p q j : (j + q < n)%nat → (p < q)%nat → permutes n (sort_step p q j).
Proof.
  intros Hq Hp x Hl Hx. unfold sort_step. destruct (lookup_lt_is_Some_2 x (j + p)) as [a Ha]; [lia|]. rewrite Ha.
  destruct (sort_chain_run q p q j a x) as (a' & y & E & Hy); [lia..|by eapply Forall_lookup_1|done|].
  unfold mbind, out_bind. rewrite E. eexists. split; [reflexivity|]. cbn [fst snd].
  by rewrite Hy, (list_insert_id _ _ _ Ha).
Qed.

(** A loop that also counts. *)
Definition permutes_to {A} (n : nat) (P : A → Prop) (f : list Z → out (A * list Z)) : Prop :=
  ∀ x, length x = n → Forall (int_range 32) x → ∃ i y, f x = Ok (i, y) ∧ y ≡ₚ x ∧ P i.

Lemma permutes_to_bind {A} n (P : A → Prop) f g :
  permutes_to n P f → (∀ i, P i → permutes n (g i)) → permutes n (λ x, t ← f x; let '(i, x) := t in g i x).
Proof.
  intros Hf Hg x Hl Hx. destruct (Hf x Hl Hx) as (i & y & E & Hp & HP).
  destruct (Hg i HP y) as (z & E' & Hp'); [by rewrite Hp|by rewrite Hp|].
  exists z. unfold mbind, out_bind. rewrite E. split; [done|]. by rewrite Hp'.
Qed.

Lemma sort_blocks_run fuel n p i :
  (1 ≤ p)%nat → (n - i ≤ fuel)%nat →
  permutes_to n (λ i, n < i + 2 * p)%nat (sort_blocks fuel n p i).
Proof.
  intros Hp. revert i. induction fuel as [|fuel IH]; intros i Hf x Hl Hx; cbn [sort_blocks];
    destruct (Nat.leb_spec (i + 2 * p) n) as [Hi|Hi]; try lia; try by eexists _, _.
  destruct (permutes_for n (λ j, minmax_at j (j + p)) p i) with (x := x) as (y & E & Hy); [|done..|].
  { intros j Hj. apply permutes_minmax; lia. }
  unfold mbind, out_bind. rewrite E.
  destruct (IH (i + 2 * p)%nat ltac:(lia) y) as (i' & z & E' & Hz & HP); [by rewrite Hy..|].
  exists i', z. split; [done|]. by rewrite Hz.
Qed.

Lemma sort_whole_run fuel n p q i :
  (1 ≤ p < q)%nat → (q < n)%nat → (n - i ≤ fuel)%nat →
  permutes_to n (λ i, n - q < i + p)%nat (sort_whole fuel n p q i).
Proof.
  intros Hp Hq. revert i. induction fuel as [|fuel IH]; intros i Hf x Hl Hx; cbn [sort_whole];
    destruct (Nat.leb_spec (i + p) (n - q)) as [Hi|Hi]; try lia; try by eexists _, _.
  destruct (permutes_for n (sort_step p q) p i) with (x := x) as (y & E & Hy); [|done..|].
  { intros j Hj. apply permutes_step; lia. }
  unfold mbind, out_bind. rewrite E.
  destruct (IH (i + 2 * p)%nat ltac:(lia) y) as (i' & z & E' & Hz & HP); [by rewrite Hy..|].
  exists i', z. split; [done|]. by rewrite Hz.
Qed.

Lemma sort_resume_run fuel n p q i j x :
  (p < q)%nat → (q < n)%nat → (i < j < i + p)%nat → (j ≤ n - q)%nat → (i + p - j ≤ fuel)%nat →
  length x = n → Forall (int_range 32) x →
  ∃ fin i' j' y, sort_resume fuel n p q i j x = Ok (fin, (i', j', y)) ∧ y ≡ₚ x ∧
    (fin = true → (i' < j' < i' + p)%nat ∧ (j' ≤ n - q)%nat).
Proof.
  intros Hp Hq. revert j x. induction fuel as [|fuel IH]; intros j x Hj Hjn Hf Hl Hx; cbn [sort_resume];
    destruct (Nat.eqb_spec j (n - q)) as [Hd|Hd]; try lia; try by eexists true, _, _, _.
  destruct (permutes_step n p q j) with (x := x) as (y & E & Hy); [lia|done..|].
  unfold mbind, out_bind. rewrite E. destruct (Nat.eqb_spec (S j) (i + p)) as [Hb|Hb].
  { by eexists false, _, _, _. }
  destruct (IH (S j) y) as (fin & i' & j' & z & E' & Hz & HP); [lia..|by rewrite Hy|by rewrite Hy|].
  exists fin, i', j', z. split; [done|]. by rewrite Hz.
Qed.

Lemma half_lt q fuel : (0 < q)%nat → (q ≤ S fuel)%nat → (q / 2 < q)%nat ∧ (q / 2 ≤ fuel)%nat.
Proof. intros Hq Hf. assert (q / 2 < q)%nat by (apply Nat.div_lt; lia). lia. Qed.

Lemma sort_merge_run fuel n p q i j :
  (1 ≤ p)%nat → (q < n)%nat → (q ≤ fuel)%nat →
  j = i ∨ ((i < j < i + p)%nat ∧ (j ≤ n - q)%nat) → permutes n (sort_merge fuel n p q i j).
Proof.
  intros Hp. revert q i j. induction fuel as [|fuel IH]; intros q i j Hq Hf Hj x Hl Hx; cbn [sort_merge];
    destruct (Nat.ltb_spec p q) as [Hpq|Hpq]; try lia; try by eexists.
  destruct (half_lt q fuel) as [Hh1 Hh2]; [lia..|].
  assert (∃ fin i' j' y, (if (j =? i)%nat then Ok (false, (i, j, x)) else sort_resume p n p q i j x) =
    Ok (fin, (i', j', y)) ∧ y ≡ₚ x ∧ (fin = true → (i' < j' < i' + p)%nat ∧ (j' ≤ n - q)%nat))
    as (fin & i' & j' & y & E & Hy & Hfin).
  { destruct (Nat.eqb_spec j i) as [->|Hne]; [by eexists false, _, _, _|].
    destruct Hj as [?|[Hj Hjn]]; [lia|]. apply sort_resume_run; (done || lia). }
  unfold mbind at 1, out_bind at 1. rewrite E.
  assert (length y = n ∧ Forall (int_range 32) y) as [Hly Hxy] by by rewrite Hy.
  destruct fin.
  - destruct (Hfin eq_refl) as [Hj1 Hj2].
    destruct (IH (q / 2)%nat i' j') with (x := y) as (z & -> & Hz); [lia|lia|right; lia|done..|].
    exists z. split; [done|]. by rewrite Hz.
  - clear Hfin E. edestruct (permutes_to_bind n (λ i, n - q < i + p)%nat (sort_whole n n p q i')
      (λ i x, x ← for_loop (sort_step p q) (n - q - i) i x;
              sort_merge fuel n p (q / 2) i (Nat.max i (n - q)) x)) as (z & Ez & Hz); [| |exact Hly|exact Hxy|].
    + apply sort_whole_run; lia.
    + intros k Hk. apply permutes_bind.
      * apply permutes_for. intros l Hlk. apply permutes_step; lia.
      * apply IH; lia.
    + exists z. split; [exact Ez|]. by rewrite Hz.
Qed.

Lemma sort_passes_run fuel n top p :
  (top < n)%nat → (p ≤ top)%nat → (p ≤ fuel)%nat → permutes n (sort_passes fuel n top p).
Proof.
  intros Ht. revert p. induction fuel as [|fuel IH]; intros p Hp Hf x Hl Hx; cbn [sort_passes];
    destruct (Nat.leb_spec 1 p) as [H1|H1]; try lia; try by eexists.
  destruct (half_lt p fuel) as [Hh1 Hh2]; [lia..|].
  apply (permutes_to_bind n (λ i, n < i + 2 * p)%nat (sort_blocks n n p 0)
    (λ i x, x ← for_loop (λ j, minmax_at j (j + p)) (n - p - i) i x;
            x ← sort_merge top n p top 0 0 x; sort_passes fuel n top (p / 2) x)); [| |done..].
  - apply sort_blocks_run; lia.
  - intros i Hi. apply permutes_bind.
    + apply permutes_for. intros j Hj. apply permutes_minmax; lia.
    + apply permutes_bind; [|apply IH; lia]. apply sort_merge_run; lia.
Qed.

Lemma sort_top_run fuel n top :
  (1 ≤ top < n)%nat → (n - top ≤ fuel)%nat → ∃ t, sort_top fuel n top = Ok t ∧ (t < n)%nat.
Proof.
  revert top. induction fuel as [|fuel IH]; intros top Ht Hf; cbn [sort_top];
    destruct (Nat.ltb_spec top (n - top)) as [Hlt|Hge]; try lia; try by (eexists; split; [done|lia]).
  apply IH; lia.
Qed.

(** The network stays in the array, ends, and permutes the array. *)
Lemma crypto_sort_int32_run x :
  Forall (int_range 32) x → ∃ y, crypto_sort_int32 x = Ok y ∧ y ≡ₚ x.
Proof.
  intros Hx. unfold crypto_sort_int32. destruct (Nat.ltb_spec (length x) 2) as [Hl|Hl]; [by exists x|].
  destruct (sort_top_run (length x) (length x) 1) as (t & E & Ht); [lia..|].
  unfold mbind, out_bind. rewrite E. apply (sort_passes_run t (length x) t t); (done || lia).
Qed.

Lemma u32_shiftr v : 0 ≤ v < 2 ^ 32 ↔ Z.shiftr v 32 = 0.
Proof.
  rewrite Z.shiftr_div_pow2 by lia. split; [apply Z.div_small|]. intros E.
  pose proof (Z.div_mod v (2 ^ 32) ltac:(lia)). pose proof (Z.mod_pos_bound v (2 ^ 32) ltac:(lia)). lia.
Qed.

Lemma sign_flip v :
  0 ≤ v < 2 ^ 32 → Z.lxor (to_u32 (to_i32 (Z.lxor v 0x80000000))) 0x80000000 = v.
Proof.
  intros Hv. assert (0 ≤ Z.lxor v 0x80000000 < 2 ^ 32) as Hr.
  { apply u32_shiftr. apply u32_shiftr in Hv. by rewrite Z.shiftr_lxor, Hv. }
  assert (to_u32 (to_i32 (Z.lxor v 0x80000000)) = Z.lxor v 0x80000000) as ->.
  { unfold to_u32, to_int. rewrite Zminus_mod_idemp_l. rewrite Z.add_simpl_r. by apply Z.mod_small. }
  by rewrite Z.lxor_assoc, Z.lxor_nilpotent, Z.lxor_0_r.
Qed.

Lemma to_int_range n a : 0 < n → int_range n (to_int n a).
Proof.
  intros Hn. unfold int_range, to_int. assert (2 ^ n = 2 * 2 ^ (n - 1)) as E
    by (rewrite <- Z.pow_succ_r by lia; f_equal; lia).
  pose proof (Z.mod_pos_bound (a + 2 ^ (n - 1)) (2 ^ n) ltac:(lia)). lia.
Qed.

Lemma crypto_sort_uint32_run x :
  Forall (λ v, 0 ≤ v < 2 ^ 32) x → ∃ y, crypto_sort_uint32 x = Ok y ∧ y ≡ₚ x.
Proof.
  intros Hx. unfold crypto_sort_uint32.
  destruct (crypto_sort_int32_run (map (λ v, to_i32 (Z.lxor v 0x80000000)) x)) as (y & E & Hy).
  { apply Forall_fmap, Forall_true. intros v. by apply to_int_range. }
  unfold mbind, out_bind. rewrite E. eexists. split; [reflexivity|].
  transitivity (map (λ v, Z.lxor (to_u32 v) 0x80000000) (map (λ v, to_i32 (Z.lxor v 0x80000000)) x)).
  { by apply Permutation_map. }
  rewrite map_map. apply Permutation_refl'. rewrite <- (map_id x) at 2.
  apply map_ext_Forall. eapply Forall_impl; [exact Hx|]. intros v Hv. by apply sign_flip.
Qed.

(** The weight of a polynomial. *)
Definition weight (f : list Z) : nat := length (filter (λ x, x ≠ 0) f).

#[global] Instance weight_perm : Proper ((≡ₚ) ==> (=)) weight.
Proof. intros f g Hfg. unfold weight. by rewrite Hfg. Qed.

Section weights.
Context `{!Params, !ParamsOk}.

(** A small polynomial of weight [w]. *)
Definition short (f : list Z) : Prop := length f = p ∧ Forall F3_range f ∧ weight f = w.

Definition short_digit (v : Z) : Z := to_i8 (to_u32 (Z.land v 3 - 1)).

Lemma short_digit_tag i v :
  0 ≤ v < 2 ^ 32 → 0 ≤ short_tag i v < 2 ^ 32 ∧ F3_range (short_digit (short_tag i v)) ∧
    (short_digit (short_tag i v) ≠ 0 ↔ (i < w)%nat).
Proof.
  rewrite !u32_shiftr. intros Hv. unfold short_tag, short_digit.
  assert (∃ r, Z.land v 3 = r ∧ (r = 0 ∨ r = 1 ∨ r = 2 ∨ r = 3)) as (r & Er & Hr).
  { eexists. split; [done|]. change 3 with (Z.ones 2) at 1 2 3 4. rewrite Z.land_ones by lia.
    pose proof (Z.mod_pos_bound v (2 ^ 2)). lia. }
  assert (∀ a, Z.land v (Z.land a 3) = Z.land r a) as Hl.
  { intros a. by rewrite (Z.land_comm a 3), Z.land_assoc, Er. }
  unfold F3_range. destruct (Nat.ltb_spec i w) as [Hi|Hi].
  - rewrite Z.shiftr_land, Hv. split; [done|]. rewrite <- Z.land_assoc, Hl.
    destruct Hr as [-> | [-> | [-> | ->]]]; vm_compute (to_i8 _); lia.
  - rewrite Z.shiftr_lor, Z.shiftr_land, Hv. split; [done|].
    rewrite Z.land_lor_distr_l, <- Z.land_assoc, Hl.
    destruct Hr as [-> | [-> | [-> | ->]]]; vm_compute (to_i8 _); lia.
Qed.

Lemma weight_imap (g : nat → Z → Z) (l : list Z) :
  (∀ i v, l !! i = Some v → g i v ≠ 0 ↔ (i < w)%nat) → weight (imap g l) = Nat.min w (length l).
Proof.
  induction l as [|v l IH] using rev_ind; intros Hg; [simpl; by rewrite Nat.min_0_r|].
  rewrite imap_app. unfold weight. rewrite filter_app, !length_app. fold (weight (imap g l)).
  rewrite IH by (intros i u Hi; apply Hg; by apply lookup_app_l_Some). cbn [imap length]. rewrite Nat.add_0_r.
  specialize (Hg (length l) v). rewrite lookup_app_r, Nat.sub_diag in Hg by lia. specialize (Hg eq_refl).
  rewrite filter_cons, filter_nil. case_decide as Hd; cbn [length];
    [apply Hg in Hd; lia|]. assert (¬ (length l < w)%nat) by (intros Hw; by apply Hg in Hw). lia.
Qed.

(** Whatever the random numbers are, the polynomial is short. *)
Lemma Short_fromlist_short inp :
  length inp = p → Forall (λ v, 0 ≤ v < 2 ^ 32) inp → ∃ f, Short_fromlist inp = Ok f ∧ short f.
Proof.
  intros Hl Hin. unfold Short_fromlist.
  assert (∀ i v, inp !! i = Some v → 0 ≤ v < 2 ^ 32) as Hv by (intros i v Hi; by eapply (Forall_lookup_1 _ _ _ _ Hin Hi)).
  destruct (crypto_sort_uint32_run (imap short_tag inp)) as (L & E & HL).
  { apply Forall_lookup. intros i u. rewrite list_lookup_imap, fmap_Some. intros (v & Hi & ->).
    by apply short_digit_tag, (Hv i). }
  unfold mbind, out_bind. rewrite E. eexists. split; [reflexivity|]. fold short_digit.
  assert (map short_digit L ≡ₚ imap (λ i v, short_digit (short_tag i v)) inp) as HP.
  { rewrite (Permutation_map short_digit HL). apply Permutation_refl', (fmap_imap short_tag short_digit). }
  unfold short. rewrite HP, length_imap. split; [done|]. split.
  - apply Forall_lookup. intros i u. rewrite list_lookup_imap, fmap_Some. intros (v & Hi & ->).
    by apply short_digit_tag, (Hv i).
  - rewrite weight_imap; [pose proof w_range; lia|]. intros i v Hi. by apply short_digit_tag, (Hv i).
Qed.
End weights.
