(* ===== verification/NtruPoly.v ===== *)
(** * The ring behind Streamlined NTRU Prime

    Polynomials over the integers as coefficient lists, and their quotient by
    [x^d - x - 1] and a modulus [m]. The quotient is registered as a setoid
    ring, so that the calculations about key generation, encryption and
    decryption are done by [ring]. Reduced polynomials that are equal in the
    quotient have congruent coefficients. *)

From Stdlib Require Import Setoid Morphisms Ring.
From S2P Require Import Prelude.

(** ** Sums *)

Fixpoint sum (n : nat) (F : nat → Z) : Z :=
  match n with O => 0 | S n => sum n F + F n end.

Lemma sum_ext n F G : (∀ i, (i < n)%nat → F i = G i) → sum n F = sum n G.
Proof.
  induction n as [|n IH]; intros E; simpl; [done|]. rewrite IH, E by auto with lia. done.
Qed.
Lemma sum_add n F G : sum n (λ i, F i + G i) = sum n F + sum n G.
Proof. induction n; simpl; lia. Qed.
Lemma sum_mul a n F : sum n (λ i, a * F i) = a * sum n F.
Proof. induction n; simpl; lia. Qed.
Lemma sum_zero n F : (∀ i, (i < n)%nat → F i = 0) → sum n F = 0.
Proof. intros E. rewrite (sum_ext n F (λ _, 0)) by done. clear. induction n; simpl; lia. Qed.
Lemma sum_first n F : sum (S n) F = F 0%nat + sum n (λ i, F (S i)).
Proof. induction n as [|n IH]; simpl in *; lia. Qed.
Lemma sum_app a b F : sum (a + b) F = sum a F + sum b (λ i, F (a + i)%nat).
Proof.
  induction b as [|b IH]; simpl; [rewrite Nat.add_0_r; lia|]. rewrite Nat.add_succ_r. simpl. lia.
Qed.
Lemma sum_rev n F : sum n F = sum n (λ i, F (n - 1 - i)%nat).
Proof.
  induction n as [|n IH]; [done|]. rewrite (sum_first n (λ i, F (S n - 1 - i)%nat)). cbn [sum]. rewrite IH.
  replace (S n - 1 - 0)%nat with n by lia. rewrite Z.add_comm. f_equal. apply sum_ext. intros i Hi. f_equal. lia.
Qed.
Lemma sum_triangle n (G : nat → nat → Z) :
  sum n (λ i, sum (S i) (G i)) = sum n (λ j, sum (n - j) (λ k, G (j + k)%nat j)).
Proof.
  induction n as [|n IH]; [done|].
  transitivity (sum n (λ i, sum (S i) (G i)) + sum (S n) (G n)); [done|]. rewrite IH.
  transitivity (sum (S n) (λ j, sum (n - j) (λ k, G (j + k)%nat j) + G n j)).
  { rewrite sum_add. simpl. rewrite Nat.sub_diag. simpl. lia. }
  apply sum_ext. intros j Hj. rewrite Nat.sub_succ_l by lia. simpl. do 2 f_equal. lia.
Qed.
Lemma sum_single n F k : (k < n)%nat → (∀ i, (i < n)%nat → i ≠ k → F i = 0) → sum n F = F k.
Proof.
  induction n as [|n IH]; intros Hk E; simpl; [lia|]. destruct (decide (k = n)) as [->|Hne].
  - rewrite sum_zero; [lia|]. intros i Hi. apply E; lia.
  - rewrite IH, (E n); [lia..|]. intros i Hi. apply E. lia.
Qed.

(** ** Polynomials *)

Declare Scope poly_scope.
Delimit Scope poly_scope with P.

Abbreviation poly := (list Z).
Definition co (f : poly) (i : nat) : Z := nth i f 0.

Definition tabulate (n : nat) (F : nat → Z) : poly := map F (seq 0 n).
Definition padd (f g : poly) : poly := tabulate (Nat.max (length f) (length g)) (λ i, co f i + co g i).
Definition popp (f : poly) : poly := map Z.opp f.
Definition psub (f g : poly) : poly := padd f (popp g).
Definition pmul (f g : poly) : poly :=
  tabulate (length f + length g) (λ n, sum (S n) (λ i, co f i * co g (n - i)%nat)).
(** [x^d] *)
Definition mono (d : nat) : poly := replicate d 0 ++ [1].

Arguments padd (f g)%_P.
Arguments pmul (f g)%_P.
Arguments psub (f g)%_P.
Arguments popp f%_P.
Arguments co f%_P i%_nat.
Infix "+" := padd : poly_scope.
Infix "*" := pmul : poly_scope.
Infix "-" := psub : poly_scope.
Notation "- f" := (popp f) : poly_scope.

Lemma co_tabulate n F i : co (tabulate n F) i = if decide (i < n)%nat then F i else 0.
Proof.
  unfold co, tabulate. case_decide as Hi.
  - rewrite (nth_indep _ 0 (F 0%nat)) by by rewrite length_map, length_seq. rewrite map_nth, seq_nth by done. done.
  - apply nth_overflow. rewrite length_map, length_seq. lia.
Qed.
Lemma length_tabulate n F : length (tabulate n F) = n.
Proof. unfold tabulate. by rewrite length_map, length_seq. Qed.
Lemma co_ge f i : (length f ≤ i)%nat → co f i = 0.
Proof. apply nth_overflow. Qed.
Lemma co_lookup f i a : f !! i = Some a → co f i = a.
Proof. intros E. unfold co. by rewrite (nth_lookup_Some _ _ _ _ E). Qed.
Lemma lookup_co f i : (i < length f)%nat → f !! i = Some (co f i).
Proof. intros Hi. destruct (lookup_lt_is_Some_2 f i Hi) as [a Ha]. by rewrite Ha, (co_lookup _ _ _ Ha). Qed.
Lemma co_map (h : Z → Z) f i : h 0 = 0 → co (map h f) i = h (co f i).
Proof. intros E. unfold co. rewrite <- E at 1. apply map_nth. Qed.

Lemma co_add f g i : co (f + g)%P i = co f i + co g i.
Proof.
  unfold padd. rewrite co_tabulate. case_decide; [done|]. rewrite !co_ge by lia. done.
Qed.
Lemma co_opp f i : co (- f)%P i = - co f i.
Proof. by apply co_map. Qed.
Lemma co_sub f g i : co (f - g)%P i = co f i - co g i.
Proof. unfold psub. rewrite co_add, co_opp. lia. Qed.
Lemma co_mul f g n : co (f * g)%P n = sum (S n) (λ i, co f i * co g (n - i)%nat).
Proof.
  unfold pmul. rewrite co_tabulate. case_decide as Hn; [done|]. symmetry. apply sum_zero. intros i Hi.
  destruct (decide (i < length f)%nat); [rewrite (co_ge g) by lia|rewrite (co_ge f) by lia]; lia.
Qed.
Lemma co_nil i : co [] i = 0.
Proof. by destruct i. Qed.
Lemma co_mono d i : co (mono d) i = if decide (i = d) then 1 else 0.
Proof.
  case_decide as Hi; [unfold co, mono|].
  - subst. rewrite app_nth2; rewrite length_replicate; [|lia]. by rewrite Nat.sub_diag.
  - destruct (decide (i < d)%nat).
    + apply co_lookup. unfold mono. rewrite lookup_app_l by by rewrite length_replicate. by apply lookup_replicate_2.
    + apply co_ge. unfold mono. rewrite length_app, length_replicate. simpl. lia.
Qed.
Lemma co_const a i : co [a] i = if decide (i = 0%nat) then a else 0.
Proof. destruct i as [|[|i]]; done. Qed.
Lemma co_mul_const a f i : co ([a] * f)%P i = a * co f i.
Proof.
  rewrite co_mul, (sum_single _ _ 0%nat) by (lia || (intros j _ Hj; rewrite co_const, decide_False by done; lia)).
  by rewrite Nat.sub_0_r.
Qed.

(** ** Equal coefficients *)

Definition peq (f g : poly) : Prop := ∀ i, co f i = co g i.
Arguments peq (f g)%_P.
#[global] Instance peq_equiv : Equivalence peq.
Proof. split; repeat intro; [done|congruence|]. etransitivity; eauto. Qed.
#[global] Instance padd_peq : Proper (peq ==> peq ==> peq) padd.
Proof. intros f f' Ef g g' Eg i. by rewrite !co_add, Ef, Eg. Qed.
#[global] Instance popp_peq : Proper (peq ==> peq) popp.
Proof. intros f f' Ef i. by rewrite !co_opp, Ef. Qed.
#[global] Instance pmul_peq : Proper (peq ==> peq ==> peq) pmul.
Proof. intros f f' Ef g g' Eg i. rewrite !co_mul. apply sum_ext. intros j _. by rewrite Ef, Eg. Qed.

Lemma pmul_comm f g : peq (f * g) (g * f).
Proof.
  intros n. rewrite !co_mul, sum_rev. apply sum_ext. intros i Hi. rewrite Z.mul_comm. do 2 f_equal; lia.
Qed.
Lemma pmul_assoc f g h : peq (f * (g * h)) (f * g * h).
Proof.
  intros n. rewrite !co_mul. symmetry.
  rewrite (sum_ext _ _ (λ i, sum (S i) (λ j, co f j * (co g (i - j)%nat * co h (n - i)%nat)))).
  - rewrite sum_triangle. apply sum_ext. intros j Hj. rewrite co_mul, <- sum_mul. rewrite Nat.sub_succ_l by lia.
    apply sum_ext. intros k Hk. do 2 f_equal; f_equal; lia.
  - intros i Hi. rewrite co_mul, Z.mul_comm, <- sum_mul. apply sum_ext. intros j Hj. lia.
Qed.
Lemma pmul_add f g h : peq ((f + g) * h) (f * h + g * h).
Proof.
  intros n. rewrite co_add, !co_mul, <- sum_add. apply sum_ext. intros i Hi. rewrite co_add. lia.
Qed.
Lemma pmul_1 f : peq ([1] * f) f.
Proof. intros n. rewrite co_mul_const. lia. Qed.

Lemma poly_ring : ring_theory [] [1] padd pmul psub popp peq.
Proof.
  constructor; intros; try (intros i; rewrite ?co_sub, ?co_add, ?co_opp, ?co_nil; lia).
  - apply pmul_1.
  - apply pmul_comm.
  - apply pmul_assoc.
  - apply pmul_add.
Qed.
Lemma poly_ext : ring_eq_ext padd pmul popp peq.
Proof. constructor; apply _. Qed.
Add Ring poly : poly_ring (setoid peq_equiv poly_ext).

(** ** Lists as polynomials *)

Lemma co_mul_mono f d n : co (f * mono d) n = if decide (n < d)%nat then 0 else co f (n - d)%nat.
Proof.
  rewrite co_mul. case_decide as Hn.
  - apply sum_zero. intros i Hi. rewrite co_mono, decide_False by lia. lia.
  - rewrite (sum_single _ _ (n - d)%nat); [|lia|].
    + rewrite co_mono, decide_True by lia. lia.
    + intros i Hi Hne. rewrite co_mono, decide_False by lia. lia.
Qed.
Lemma mono_mul a b : peq (mono a * mono b) (mono (a + b)).
Proof. intros n. rewrite co_mul_mono, !co_mono. repeat case_decide; lia. Qed.
Lemma mono_S a : peq (mono (S a)) (mono 1 * mono a).
Proof. by rewrite mono_mul. Qed.
Lemma mono_0 : mono 0 = [1].
Proof. done. Qed.
Lemma cons_poly a f : peq (a :: f) ([a] + mono 1 * f).
Proof.
  intros i. rewrite co_add, pmul_comm, co_mul_mono, co_const. destruct i as [|i].
  - rewrite !decide_True by lia. change (co (a :: f) 0%nat) with a. lia.
  - rewrite !decide_False by lia. change (co (a :: f) (S i)) with (co f i). by rewrite Nat.sub_succ, Nat.sub_0_r.
Qed.
Lemma app_poly f g : peq (f ++ g) (f + mono (length f) * g).
Proof.
  induction f as [|a f IH]; [cbn [app length]; rewrite mono_0; ring|]. cbn [app length].
  rewrite cons_poly, IH, (cons_poly a f), (mono_S (length f)). ring.
Qed.
Lemma const_add a b : peq [a + b] ([a] + [b]).
Proof. intros i. rewrite co_add, !co_const. case_decide; lia. Qed.
Lemma const_mul a b : peq [a * b] ([a] * [b]).
Proof. intros i. rewrite co_mul_const, !co_const. case_decide; lia. Qed.
Lemma insert_poly f k a : (k < length f)%nat → peq (<[k:=a]> f) (f + [a - co f k] * mono k).
Proof.
  intros Hk i. rewrite co_add, co_mul_const, co_mono. case_decide as Hi.
  - subst. rewrite (co_lookup _ _ a) by by apply list_lookup_insert_eq. lia.
  - unfold co at 1 2. rewrite !nth_lookup, list_lookup_insert_ne by done. lia.
Qed.
Lemma map_mul_poly a f : peq (map (Z.mul a) f) ([a] * f).
Proof. intros i. rewrite co_mul_const. apply co_map. lia. Qed.

(** ** The quotient by [x^d - x - 1] and [m] *)

Section quotient.
Context (d : nat) (m : Z).

Definition modulus : poly := (mono d - mono 1 - mono 0)%P.

Definition qeq (f g : poly) : Prop := ∃ k l, peq f (g + k * modulus + [m] * l).
Arguments qeq (f g)%_P.

Lemma peq_qeq f g : peq f g → qeq f g.
Proof. intros E. exists [], []. rewrite E. ring. Qed.

Instance qeq_equiv : Equivalence qeq.
Proof.
  split.
  - intros f. by apply peq_qeq.
  - intros f g (k & l & E). exists (- k)%P, (- l)%P. rewrite E. ring.
  - intros f g h (k & l & E) (k' & l' & E'). exists (k + k')%P, (l + l')%P. rewrite E, E'. ring.
Qed.
Instance padd_qeq : Proper (qeq ==> qeq ==> qeq) padd.
Proof.
  intros f f' (k & l & E) g g' (k' & l' & E'). exists (k + k')%P, (l + l')%P. rewrite E, E'. ring.
Qed.
Instance popp_qeq : Proper (qeq ==> qeq) popp.
Proof. intros f f' (k & l & E). exists (- k)%P, (- l)%P. rewrite E. ring. Qed.
Instance pmul_qeq : Proper (qeq ==> qeq ==> qeq) pmul.
Proof.
  intros f f' (k & l & E) g g' (k' & l' & E').
  exists (f' * k' + k * g' + k * k' * modulus + k * l' * [m] + l * [m] * k')%P, (f' * l' + l * g' + l * l' * [m])%P.
  rewrite E, E'. ring.
Qed.
Instance psub_qeq : Proper (qeq ==> qeq ==> qeq) psub.
Proof. intros f f' E g g' E'. unfold psub. by rewrite E, E'. Qed.
Instance peq_qeq_sub : subrelation peq qeq.
Proof. intros f g. apply peq_qeq. Qed.

Lemma quot_ring : ring_theory [] [1] padd pmul psub popp qeq.
Proof.
  destruct poly_ring. constructor; intros; by apply peq_qeq.
Qed.
Lemma quot_ext : ring_eq_ext padd pmul popp qeq.
Proof. constructor; apply _. Qed.

Lemma mono_d : qeq (mono d) (mono 1 + [1]).
Proof. exists [1], []. unfold modulus. rewrite mono_0. ring. Qed.

Lemma modulus_zero : qeq [m] [].
Proof. exists [], [1]. ring. Qed.

Lemma cong_qeq f g : (∀ i, co f i mod m = co g i mod m) → m ≠ 0 → qeq f g.
Proof.
  intros E Hm. set (l := tabulate (Nat.max (length f) (length g)) (λ i, (co f i - co g i) / m)).
  assert (peq f (g + [m] * l)) as El.
  { intros i. rewrite co_add, co_mul_const. unfold l. rewrite co_tabulate. case_decide.
    - pose proof (Z.div_mod (co f i - co g i) m Hm) as Ed. rewrite Zminus_mod, E, Z.sub_diag, Z.mod_0_l in Ed by done.
      lia.
    - rewrite !co_ge by lia. lia. }
  exists [], l. rewrite El at 1. ring.
Qed.

Lemma qeq_cong f g i :
  (2 ≤ d)%nat → m ≠ 0 → (length f ≤ d)%nat → (length g ≤ d)%nat → qeq f g → co f i mod m = co g i mod m.
Proof.
  intros Hd Hm Hf Hg (k & l & E).
  assert (∀ n, co f n - co g n =
    (if decide (n < d)%nat then 0 else co k (n - d)%nat) - (if decide (n < 1)%nat then 0 else co k (n - 1)%nat) -
    co k n + m * co l n) as Ec.
  { intros n. pose proof (E n) as En. unfold modulus in En. rewrite !co_add, co_mul_const in En.
    assert (peq (k * (mono d - mono 1 - mono 0)) (k * mono d - k * mono 1 - k * mono 0)) as Ek by ring.
    rewrite (Ek n), !co_sub, !co_mul_mono, (decide_False (P := n < 0)%nat), Nat.sub_0_r in En by lia. lia. }
  assert (∀ j n, (length k ≤ n + j)%nat → co k n mod m = 0) as Hk.
  { induction j as [|j IH]; intros n Hn; [rewrite co_ge by lia; apply Z.mod_0_l, Hm|].
    pose proof (Ec (n + d)%nat) as En. rewrite (co_ge f), (co_ge g) in En by lia. rewrite !decide_False in En by lia.
    rewrite Nat.add_sub in En.
    assert (co k n = (co k (n + d - 1)%nat + co k (n + d)%nat) + - co l (n + d)%nat * m) as -> by lia.
    by rewrite Z.mod_add, Zplus_mod, !IH, Z.mod_0_l by lia. }
  assert (∀ n, co k n mod m = 0) as Hk0 by (intros n; apply (Hk (length k)); lia).
  pose proof (Ec i) as Ei.
  assert (co f i = co g i + ((if decide (i < d)%nat then 0 else co k (i - d)%nat) -
    (if decide (i < 1)%nat then 0 else co k (i - 1)%nat) - co k i) + co l i * m) as -> by lia.
  assert (∀ a b c, a mod m = 0 → b mod m = 0 → c mod m = 0 → (a - b - c) mod m = 0) as Hs.
  { intros a b c Ha Hb Hc. rewrite !Z.mod_divide in * by done. auto using Z.divide_sub_r. }
  assert (∀ (P : Prop) (D : Decision P) n, (if decide P then 0 else co k n) mod m = 0) as Hd0
    by (intros P D n; destruct (decide P); [apply Z.mod_0_l, Hm|apply Hk0]).
  rewrite Z.mod_add, Zplus_mod, Hs by (done || apply Hk0 || apply Hd0). by rewrite Z.add_0_r, Z.mod_mod.
Qed.

Add Ring quot : quot_ring (setoid qeq_equiv quot_ext).

(** [x] has an inverse. *)
Definition xinv : poly := (mono (d - 1) - [1])%P.
Lemma xinv_spec : (1 ≤ d)%nat → qeq (mono 1 * xinv) [1].
Proof.
  intros Hd. unfold xinv. transitivity (mono 1 * mono (d - 1) - mono 1)%P; [ring|].
  rewrite (peq_qeq _ _ (mono_mul 1 (d - 1))). replace (1 + (d - 1))%nat with d by lia. rewrite mono_d. ring.
Qed.

End quotient.
#[global] Existing Instances qeq_equiv padd_qeq popp_qeq pmul_qeq psub_qeq peq_qeq_sub.
Arguments qeq d m (f g)%_P.
