(* ===== verification/NtruRing.v ===== *)
(** * Arithmetic of polynomials in [sntrup761.c]

    Multiplication in the rings modulo 3 and modulo [q], and the operations
    on single polynomials. The arrays are lists of the length they have in the
    source; the indices of the loops are constants that stay below it. The
    theorems say that the products are the products of the quotient rings of
    [NtruPoly], with coefficients in the range their types promise. *)

From S2P Require Import Prelude NtruInt NtruSort NtruPoly.

(** ** Definitions *)

(** [for (j = j0; j < j0 + k; ++j) result = freeze(result+f[j]*g[i-j])] *)
Fixpoint dot (freeze : Z → Z) (f g : list Z) (i j k : nat) (result : Z) : Z :=
  match k with
  | O => result
  | S k => dot freeze f g i (S j) k (freeze (result + co f j * co g (i - j)%nat))
  end.

Section ring.
Context `{!Params}.

Definition mult_fg (freeze : Z → Z) (f g : list Z) : list Z :=
  map (λ i, dot freeze f g i 0 (S i) 0) (seq 0 p) ++
  map (λ i, dot freeze f g i (i - p + 1) (p - (i - p + 1)) 0) (seq p (p - 1)).

(** [for (i = p+n-1; i >= p; --i)] *)
Fixpoint mult_reduce (freeze : Z → Z) (n : nat) (fg : list Z) : list Z :=
  match n with
  | O => fg
  | S n =>
      let i := (p + n)%nat in
      let fg := <[(i - p)%nat:=freeze (co fg (i - p)%nat + co fg i)]> fg in
      let fg := <[(i - p + 1)%nat:=freeze (co fg (i - p + 1)%nat + co fg i)]> fg in
      mult_reduce freeze n fg
  end.

Definition ring_mult (freeze : Z → Z) (f g : list Z) : list Z :=
  take p (mult_reduce freeze (p - 1) (mult_fg freeze f g)).

Definition R3_mult (f g : list Z) : list Z := ring_mult F3_freeze f g.
Definition Rq_mult_small (f g : list Z) : list Z := ring_mult Fq_freeze f g.

Definition R3_fromRq (r : list Z) : list Z := map F3_freeze r.
Definition Rq_mult3 (f : list Z) : list Z := map (λ x, Fq_freeze (3 * x)) f.
Definition Round (a : list Z) : list Z := map (λ x, to_i16 (x - F3_freeze x)) a.

Definition Weightw_mask (r : list Z) : Z :=
  int16_nonzero_mask (foldl (λ weight x, weight + Z.land x 1) 0 r - Z.of_nat w).
End ring.

(** ** Freezing *)

Definition within (h x : Z) : Prop := - h ≤ x ≤ h.

(** What the freezing functions promise: a representative modulo [m], for
    arguments up to [B]. *)
Class Freezes (freeze : Z → Z) (m h B : Z) : Prop := {
  fz_odd : m = 2 * h + 1;
  fz_pos : 1 ≤ h;
  fz_room : 2 * h ≤ B;
  fz_run x : within B x → within h (freeze x) ∧ freeze x mod m = x mod m }.

#[global] Instance F3_freezes : Freezes F3_freeze 3 1 32767.
Proof.
  split; [lia..|]. unfold within. intros x Hx.
  rewrite F3_freeze_run by (unfold int_range; change (2 ^ (16 - 1)) with 32768; lia).
  split; [apply cmod_F3|by apply cmod_mod].
Qed.

#[global] Instance Fq_freezes `{!Params, !ParamsOk} : Freezes Fq_freeze q q12 (2 ^ 30).
Proof.
  pose proof q_gt. pose proof q_range. destruct q12_spec as (Eq & _ & Hq). split; [lia..|].
  unfold within. intros x Hx. rewrite Fq_freeze_run by done. split; [apply cmod_Fq|apply cmod_mod; lia].
Qed.

Lemma within_eq h m x y : m = 2 * h + 1 → within h x → within h y → x mod m = y mod m → x = y.
Proof.
  unfold within. intros -> Hx Hy E. apply Z.cong_iff_ex in E as [k Hk].
  destruct (Z.lt_trichotomy k 0) as [Hlt|[->|Hgt]]; nia.
Qed.

Lemma within_co h f i : 0 ≤ h → Forall (within h) f → within h (co f i).
Proof.
  intros Hh Hf. destruct (decide (i < length f)%nat) as [Hi|Hi].
  - by eapply (Forall_lookup_1 _ _ _ _ Hf), lookup_co.
  - rewrite co_ge by lia. unfold within. lia.
Qed.

Lemma within_mul a b x y : within a x → within b y → within (a * b) (x * y).
Proof.
  unfold within. intros Hx Hy. apply Z.abs_le. rewrite Z.abs_mul. apply Z.mul_le_mono_nonneg; lia.
Qed.
Lemma within_add a b x y : within a x → within b y → within (a + b) (x + y).
Proof. unfold within. lia. Qed.
Lemma within_le a b x : a ≤ b → within a x → within b x.
Proof. unfold within. lia. Qed.

(** A map that is a multiplication modulo [m]. *)
Lemma map_cong d m (F : Z → Z) a l :
  m ≠ 0 → Forall (λ x, F x mod m = (a * x) mod m) l → qeq d m (map F l) ([a] * l).
Proof.
  intros Hm Hl. apply cong_qeq; [|done]. intros i. rewrite co_mul_const.
  destruct (decide (i < length l)%nat) as [Hi|Hi].
  - destruct (lookup_lt_is_Some_2 l i Hi) as [x Hx]. rewrite (co_lookup _ _ _ Hx), (co_lookup _ _ (F x)).
    + by apply (Forall_lookup_1 _ _ _ _ Hl Hx).
    + by rewrite list_lookup_fmap, Hx.
  - rewrite !co_ge by (rewrite ?length_map; lia). by rewrite Z.mul_0_r.
Qed.

(** ** Products *)

Section products.
Context `{!Params, !ParamsOk} (freeze : Z → Z) (m h B : Z) `{!Freezes freeze m h B}.

Lemma m_pos : 3 ≤ m.
Proof. pose proof fz_odd. pose proof fz_pos. lia. Qed.

Lemma dot_run f g i j k r F G :
  (∀ t, within F (co f t)) → (∀ t, within G (co g t)) → h + F * G ≤ B → within h r →
  within h (dot freeze f g i j k r) ∧
  dot freeze f g i j k r mod m = (r + sum k (λ t, co f (j + t)%nat * co g (i - (j + t))%nat)) mod m.
Proof.
  intros Hf Hg HB. revert j r. induction k as [|k IH]; intros j r Hr.
  - simpl. by rewrite Z.add_0_r.
  - cbn [dot]. destruct (fz_run (r + co f j * co g (i - j)%nat)) as [Hw Hm].
    { eapply within_le; [exact HB|]. apply within_add; [done|]. by apply within_mul. }
    destruct (IH (S j) _ Hw) as [Hw' Hm']. split; [done|]. rewrite Hm', sum_first, <- Zplus_mod_idemp_l, Hm.
    rewrite Zplus_mod_idemp_l, Nat.add_0_r, Z.add_assoc. f_equal. f_equal. apply sum_ext. intros t _.
    by rewrite Nat.add_succ_comm.
Qed.

Lemma length_mult_fg f g : length (mult_fg freeze f g) = (p + p - 1)%nat.
Proof. unfold mult_fg. rewrite length_app, !length_map, !length_seq. pose proof p_range. lia. Qed.

(** The coefficients of the product of two polynomials of [p] coefficients. *)
Lemma co_mul_high f g n :
  length f = p → length g = p → (p ≤ n)%nat →
  co (f * g) n = sum (p - (n - p + 1))
    (λ t, co f (n - p + 1 + t)%nat * co g (n - (n - p + 1 + t))%nat).
Proof.
  intros Hf Hg Hn. rewrite co_mul. replace (S n) with (n - p + 1 + p)%nat by lia. rewrite sum_app.
  rewrite sum_zero, Z.add_0_l by (intros t Ht; rewrite (co_ge g) by lia; lia).
  destruct (decide (n - p + 1 ≤ p)%nat) as [Hle|Hgt].
  - match goal with |- sum p ?K = _ =>
      replace (sum p K) with (sum (p - (n - p + 1) + (n - p + 1)) K) by (f_equal; lia) end. rewrite sum_app.
    rewrite (sum_zero (n - p + 1)), Z.add_0_r by (intros t Ht; rewrite (co_ge f) by lia; lia). done.
  - replace (p - (n - p + 1))%nat with O by lia. simpl. apply sum_zero. intros t Ht.
    rewrite (co_ge f) by lia. lia.
Qed.

Lemma mult_fg_run f g F G :
  length f = p → length g = p → Forall (within F) f → Forall (within G) g →
  0 ≤ F → 0 ≤ G → h + F * G ≤ B →
  Forall (within h) (mult_fg freeze f g) ∧ qeq p m (mult_fg freeze f g) (f * g).
Proof.
  intros Hlf Hlg Hf Hg HF HG HB. pose proof p_range.
  assert (∀ i j k, within h (dot freeze f g i j k 0) ∧
    dot freeze f g i j k 0 mod m = sum k (λ t, co f (j + t)%nat * co g (i - (j + t))%nat) mod m) as Hdot.
  { intros i j k. apply (dot_run f g i j k 0 F G); auto using within_co.
    unfold within. pose proof fz_pos. lia. }
  split.
  - unfold mult_fg. apply Forall_app. split; apply Forall_fmap, Forall_true; intros i; apply Hdot.
  - apply cong_qeq; [|pose proof m_pos; lia]. intros n.
    destruct (decide (n < p)%nat) as [Hn|Hn]; [|destruct (decide (n < p + p - 1)%nat) as [Hn2|Hn2]].
    + rewrite (co_lookup _ _ (dot freeze f g n 0 (S n) 0)); [rewrite co_mul; apply Hdot|].
      unfold mult_fg. rewrite lookup_app_l by by rewrite length_map, length_seq.
      rewrite list_lookup_fmap, lookup_seq_lt by done. done.
    + rewrite (co_lookup _ _ (dot freeze f g n (n - p + 1) (p - (n - p + 1)) 0)).
      * rewrite co_mul_high by (done || lia). apply Hdot.
      * unfold mult_fg. rewrite lookup_app_r; rewrite length_map, length_seq; [|lia].
        rewrite list_lookup_fmap, lookup_seq_lt by lia. simpl. do 2 f_equal; lia.
    + rewrite co_ge by (rewrite length_mult_fg; lia). rewrite co_mul_high by (done || lia).
      by replace (p - (n - p + 1))%nat with O by lia.
Qed.

Lemma const_cong a b : a mod m = b mod m → qeq p m [a] [b].
Proof.
  intros E. apply cong_qeq; [|pose proof m_pos; lia]. intros i. rewrite !co_const. by case_decide.
Qed.

Add Ring quot_p : (quot_ring p m) (setoid (qeq_equiv p m) (quot_ext p m)).

(** One step of the reduction: [x^i = x^(i-p) + x^(i-p+1)]. *)
Lemma mult_reduce_run n fg :
  (n < p)%nat → (p + n ≤ length fg)%nat → Forall (within h) fg →
  length (mult_reduce freeze n fg) = length fg ∧ Forall (within h) (mult_reduce freeze n fg) ∧
  qeq p m (take p (mult_reduce freeze n fg)) (take (p + n) fg).
Proof.
  revert fg. induction n as [|n IH]; intros fg Hn Hl Hfg.
  { rewrite Nat.add_0_r. done. }
  cbn [mult_reduce]. replace (p + n - p)%nat with n by lia. set (c := co fg (p + n)%nat).
  set (fg1 := <[n:=freeze (co fg n + c)]> fg).
  assert (Hw : ∀ i, within h (co fg i)) by (intros; apply within_co; [pose proof fz_pos; lia|done]).
  assert (Hfz : ∀ i, within h (freeze (co fg i + c)) ∧ freeze (co fg i + c) mod m = (co fg i + c) mod m).
  { intros i. apply fz_run. eapply within_le; [apply fz_room|]. replace (2 * h) with (h + h) by lia.
    apply within_add; apply Hw. }
  assert (co fg1 (p + n)%nat = c) as ->.
  { unfold fg1, co. rewrite !nth_lookup, list_lookup_insert_ne by lia. unfold c, co. by rewrite nth_lookup. }
  assert (co fg1 (n + 1)%nat = co fg (n + 1)%nat) as ->.
  { unfold fg1, co. rewrite !nth_lookup, list_lookup_insert_ne by lia. done. }
  set (fg2 := <[(n + 1)%nat:=_]> fg1).
  destruct (IH fg2) as (Hl2 & Hf2 & Hq); [lia| | |].
  { unfold fg2, fg1. rewrite !length_insert. lia. }
  { unfold fg2, fg1. apply Forall_insert; [apply Forall_insert; [done|]|]; apply Hfz. }
  split; [|split; [done|]].
  { rewrite Hl2. unfold fg2, fg1. by rewrite !length_insert. }
  rewrite Hq. clear IH Hq Hl2 Hf2. set (t := take (p + n) fg).
  assert (length t = (p + n)%nat) as Ht by (unfold t; rewrite length_take; lia).
  assert (∀ i, (i < p + n)%nat → co t i = co fg i) as Hco.
  { intros i Hi. apply co_lookup. unfold t. rewrite lookup_take_lt by done. apply lookup_co. lia. }
  rewrite Nat.add_succ_r. rewrite (take_S_r fg (p + n) c) by (apply lookup_co; lia). fold t.
  unfold fg2, fg1. rewrite !take_insert_lt by lia. fold t.
  rewrite (peq_qeq _ _ _ _ (app_poly t [c])), Ht.
  rewrite (peq_qeq _ _ _ _ (insert_poly (<[n:=freeze (co fg n + c)]> t) (n + 1) _
    ltac:(rewrite length_insert; lia))).
  assert (co (<[n:=freeze (co fg n + c)]> t) (n + 1)%nat = co fg (n + 1)%nat) as ->.
  { unfold co. rewrite !nth_lookup, list_lookup_insert_ne by lia. rewrite <- !nth_lookup. apply Hco. lia. }
  rewrite (peq_qeq _ _ _ _ (insert_poly t n _ ltac:(lia))).
  rewrite (Hco n) by lia.
  assert (∀ i, qeq p m [freeze (co fg i + c) - co fg i] [c]) as Hc.
  { intros i. apply const_cong. rewrite Zminus_mod. rewrite (proj2 (Hfz i)), <- Zminus_mod. f_equal. lia. }
  rewrite !Hc, <- (peq_qeq _ _ _ _ (mono_mul p n)), (mono_d p m), <- (peq_qeq _ _ _ _ (mono_mul n 1)). ring.
Qed.

(** The product of the source is the product in the quotient ring. *)
Lemma ring_mult_run f g F G :
  length f = p → length g = p → Forall (within F) f → Forall (within G) g →
  0 ≤ F → 0 ≤ G → h + F * G ≤ B →
  length (ring_mult freeze f g) = p ∧ Forall (within h) (ring_mult freeze f g) ∧ qeq p m (ring_mult freeze f g) (f * g).
Proof.
  intros Hlf Hlg Hf Hg HF HG HB. pose proof p_range.
  destruct (mult_fg_run f g F G) as [Hw Hq]; [done..|]. pose proof (length_mult_fg f g) as Hl.
  destruct (mult_reduce_run (p - 1) (mult_fg freeze f g)) as (Hl' & Hw' & Hq'); [lia|lia|done|].
  unfold ring_mult. split; [rewrite length_take, Hl'; lia|]. split; [by apply Forall_take|].
  rewrite Hq', <- Hq. rewrite take_ge by lia. done.
Qed.
End products.

(** ** The size of a product *)

Section size.
Context `{!Params, !ParamsOk}.

(** [x^j f], reduced. *)
Definition rot (j : nat) (f : poly) : poly :=
  let hi := drop (p - j) f in (take (p - j) f * mono j + hi + hi * mono 1)%P.

Lemma co_rot j f k :
  (j ≤ p)%nat → length f = p → Forall F3_range f →
  within 2 (co (rot j f) k) ∧ ((p ≤ k)%nat → (j < p)%nat → co (rot j f) k = 0).
Proof.
  intros Hj Hl Hf. unfold rot. rewrite !co_add, !co_mul_mono.
  assert (∀ i, within 1 (co (take (p - j) f) i)) as Hlo by (intros i; apply within_co; [lia|by apply Forall_take]).
  assert (∀ i, within 1 (co (drop (p - j) f) i)) as Hhi by (intros i; apply within_co; [lia|by apply Forall_drop]).
  assert (∀ i, (j ≤ i)%nat → co (drop (p - j) f) i = 0) as Hz by (intros i Hi; apply co_ge; rewrite length_drop; lia).
  pose proof (Hlo (k - j)%nat) as Hk1. pose proof (Hhi k) as Hk2. pose proof (Hhi (k - 1)%nat) as Hk3.
  unfold within in *. split.
  - destruct (decide (k < j)%nat) as [Hk|Hk]; [destruct (decide (k < 1)%nat); lia|].
    rewrite (Hz k) by lia. destruct (decide (k < 1)%nat); lia.
  - intros Hk Hjp. rewrite (co_ge (take _ _)) by (rewrite length_take; lia).
    rewrite !Hz by lia. by repeat case_decide.
Qed.

Fixpoint rot_sum (j : nat) (f g : poly) : poly :=
  match g with [] => [] | a :: g => ([a] * rot j f + rot_sum (S j) f g)%P end.

Lemma weight_cons a g : weight (a :: g) = ((if decide (a ≠ 0%Z) then 1 else 0) + weight g)%nat.
Proof. unfold weight. rewrite filter_cons. by destruct (decide (a ≠ 0)). Qed.

Lemma co_rot_sum j f g k :
  (j + length g ≤ p)%nat → length f = p → Forall F3_range f → Forall F3_range g →
  within (2 * Z.of_nat (weight g)) (co (rot_sum j f g) k) ∧ ((p ≤ k)%nat → co (rot_sum j f g) k = 0).
Proof.
  intros Hj Hl Hf Hg. revert j Hj. induction Hg as [|a g Ha Hg IH]; intros j Hj; cbn [rot_sum].
  { rewrite co_nil. done. }
  simpl in Hj. destruct (IH (S j)) as [Hb Hz]; [lia|]. destruct (co_rot j f k) as [Hb' Hz']; [lia|done..|].
  rewrite co_add, co_mul_const, weight_cons. split; [|intros Hk; rewrite Hz, Hz' by lia; lia].
  unfold within, F3_range in *. case_decide as Hd.
  - assert (a = -1 ∨ a = 0 ∨ a = 1) as [-> | [-> | ->]] by lia; lia.
  - assert (a = 0) as -> by (destruct (decide (a = 0)); [done|by destruct Hd]). lia.
Qed.

Section rot_eq.
Context (m : Z).
Add Ring quot_p' : (quot_ring p m) (setoid (qeq_equiv p m) (quot_ext p m)).

Lemma rot_eq j f : (j ≤ p)%nat → length f = p → qeq p m (rot j f) (mono j * f).
Proof.
  intros Hj Hl. unfold rot. set (lo := take (p - j) f). set (hi := drop (p - j) f).
  assert (qeq p m f (lo + mono (p - j) * hi)) as Ef.
  { rewrite <- (take_drop (p - j) f) at 1. rewrite (peq_qeq _ _ _ _ (app_poly _ _)), length_take. fold lo hi.
    by replace (Nat.min (p - j) (length f)) with (p - j)%nat by lia. }
  clearbody lo hi. rewrite Ef. transitivity (lo * mono j + (mono j * mono (p - j)) * hi)%P; [|ring].
  rewrite (peq_qeq _ _ _ _ (mono_mul j (p - j))). replace (j + (p - j))%nat with p by lia. rewrite (mono_d p m). ring.
Qed.

Lemma rot_sum_eq j f g :
  (j + length g ≤ p)%nat → length f = p → qeq p m (rot_sum j f g) (mono j * f * g).
Proof.
  intros Hj Hl. revert j Hj. induction g as [|a g IH]; intros j Hj; cbn [rot_sum]; [ring|]. simpl in Hj.
  rewrite IH, rot_eq by lia. rewrite (peq_qeq _ _ _ _ (cons_poly a g)), (peq_qeq _ _ _ _ (mono_S j)). ring.
Qed.
End rot_eq.

(** The product of a small and a short polynomial, as integers: its
    coefficients are at most [2 w]. *)
Lemma short_product f g :
  length f = p → Forall F3_range f → short g →
  ∃ s, length s = p ∧ Forall (within (2 * Z.of_nat w)) s ∧ ∀ m, qeq p m s (f * g).
Proof.
  intros Hl Hf (Hlg & Hg & Hw). exists (tabulate p (co (rot_sum 0 f g))).
  assert (∀ k, within (2 * Z.of_nat w) (co (rot_sum 0 f g) k) ∧ ((p ≤ k)%nat → co (rot_sum 0 f g) k = 0)) as Hk.
  { intros k. rewrite <- Hw. apply co_rot_sum; (done || lia). }
  split; [apply length_tabulate|]. split.
  - unfold tabulate. apply Forall_fmap, Forall_true. intros k. apply Hk.
  - intros m. transitivity (rot_sum 0 f g).
    + apply peq_qeq. intros k. rewrite co_tabulate. case_decide; [done|]. symmetry. apply Hk. lia.
    + rewrite rot_sum_eq by (done || lia). rewrite mono_0. apply peq_qeq. by rewrite pmul_1.
Qed.
End size.
