(* ===== verification/NtruRecip.v ===== *)
(** * Reciprocals of polynomials in [sntrup761.c]

    The constant-time division steps of [R3_recip] and [Rq_recip3]. The
    theorems say that a reciprocal that is reported is one: whenever the
    functions return 0, the product of input and output is 1 modulo 3, or 1/3
    modulo [q], in the quotient ring. The proof evaluates the reversed
    polynomials of the source at the inverse of [x], where they satisfy an
    invariant of the loop, and bounds their degrees by the counter [delta]. *)

From S2P Require Import Prelude NtruInt NtruPoly NtruRing.

(** ** The loop *)

Record recip_state := {
  st_delta : Z;
  st_f : list Z;
  st_g : list Z;
  st_v : list Z;
  st_r : list Z }.

(** [t = swap&(a^b); a ^= t; b ^= t], stored in [bits] bits. *)
Definition xor_swap (bits swap a b : Z) : Z * Z :=
  let t := Z.land swap (Z.lxor a b) in
  (to_int bits (Z.lxor a t), to_int bits (Z.lxor b t)).

Section recip.
Context `{!Params}.

(** The body of the loop. [comb] combines two coefficients, given the first
    coefficients of [f] and [g] before and after the swap. *)
Definition recip_step (bits : Z) (comb : Z → Z → Z → Z → Z → Z → Z) (s : recip_state) : recip_state :=
  let f := st_f s in
  let g := st_g s in
  let v := 0 :: take p (st_v s) in
  let r := st_r s in
  let delta := st_delta s in
  let f0 := co f 0%nat in
  let g0 := co g 0%nat in
  let swap := Z.land (int16_negative_mask (- delta)) (int16_nonzero_mask g0) in
  let delta := Z.lxor delta (Z.land swap (Z.lxor delta (- delta))) in
  let delta := delta + 1 in
  let f1 := zip_with (λ a b, (xor_swap bits swap a b).1) f g in
  let g1 := zip_with (λ a b, (xor_swap bits swap a b).2) f g in
  let v1 := zip_with (λ a b, (xor_swap bits swap a b).1) v r in
  let r1 := zip_with (λ a b, (xor_swap bits swap a b).2) v r in
  let combine := comb f0 g0 (co f1 0%nat) (co g1 0%nat) in
  let g2 := zip_with combine g1 f1 in
  let r2 := zip_with combine r1 v1 in
  {| st_delta := delta; st_f := f1; st_g := take p (drop 1 g2) ++ [0]; st_v := v1; st_r := r2 |}.

Definition recip_init (r0 : Z) (inp : list Z) : recip_state :=
  {| st_delta := 1;
     st_f := <[p:=-1]> (<[(p - 1)%nat:=-1]> (<[0%nat:=1]> (replicate (p + 1) 0)));
     st_g := rev inp ++ [0];
     st_v := replicate (p + 1) 0;
     st_r := <[0%nat:=r0]> (replicate (p + 1) 0) |}.

Definition recip_run (bits : Z) (comb : Z → Z → Z → Z → Z → Z → Z) (r0 : Z) (inp : list Z) : recip_state :=
  Nat.iter (2 * p - 1) (recip_step bits comb) (recip_init r0 inp).

(** [g[i] = F3_freeze(g[i]+sign*f[i])], [sign] from before the swap *)
Definition R3_comb (f0 g0 _ _ x y : Z) : Z :=
  let sign := - g0 * f0 in F3_freeze (x + sign * y).

(** The result, 0 or -1, and the output. *)
Definition R3_recip (inp : list Z) : Z * list Z :=
  let s := recip_run 8 R3_comb 1 inp in
  let sign := co (st_f s) 0%nat in
  (int16_nonzero_mask (st_delta s), map (λ x, to_i8 (sign * x)) (rev (take p (st_v s)))).

(** [g[i] = Fq_freeze(f0*g[i]-g0*f[i])] *)
Definition Rq_comb (_ _ f0 g0 x y : Z) : Z := Fq_freeze (f0 * x - g0 * y).

Definition Rq_recip3 (inp : list Z) : Z * list Z :=
  let s := recip_run 16 Rq_comb (Fq_recip 3) inp in
  let scale := Fq_recip (co (st_f s) 0%nat) in
  (int16_nonzero_mask (st_delta s), map (λ x, Fq_freeze (scale * x)) (rev (take p (st_v s)))).
End recip.

(** ** The inverse of [x] *)

Section inverse.
Context `{!Params, !ParamsOk} (m : Z).
Local Notation "f ≡ₘ g" := (qeq p m f g) (at level 70).
Add Ring quot_i : (quot_ring p m) (setoid (qeq_equiv p m) (quot_ext p m)).

Local Notation Y := (xinv p).
Lemma xy : mono 1 * Y ≡ₘ [1].
Proof. pose proof p_range. apply xinv_spec. lia. Qed.

Fixpoint ypow (n : nat) : poly := match n with O => [1] | S n => (Y * ypow n)%P end.

Lemma mono_ypow n : mono n * ypow n ≡ₘ [1].
Proof.
  induction n as [|n IH]; cbn [ypow]; [rewrite mono_0; ring|].
  rewrite (peq_qeq _ _ _ _ (mono_S n)). transitivity ((mono 1 * Y) * (mono n * ypow n))%P; [ring|].
  rewrite xy, IH. ring.
Qed.

(** The value of a polynomial at the inverse of [x]. *)
Fixpoint ev (l : list Z) : poly := match l with [] => [] | a :: l => ([a] + Y * ev l)%P end.

Lemma ev_app l k : ev (l ++ k) ≡ₘ ev l + ypow (length l) * ev k.
Proof.
  induction l as [|a l IH]; cbn [app ev length ypow]; [ring|]. rewrite IH. ring.
Qed.
Lemma ev_0 : ev [0] ≡ₘ [].
Proof.
  cbn [ev]. transitivity ([0] : poly); [ring|]. apply peq_qeq. intros [|[|i]]; done.
Qed.
Lemma ev_snoc_0 l : ev (l ++ [0]) ≡ₘ ev l.
Proof. rewrite ev_app, ev_0. ring. Qed.

(** Reversal is evaluation at the inverse. *)
Lemma ev_rev l n : length l = S n → mono n * ev l ≡ₘ rev l.
Proof.
  revert n. induction l as [|a l IH]; intros n Hl; [done|]. simpl in Hl. cbn [ev rev].
  rewrite (peq_qeq _ _ _ _ (app_poly (rev l) [a])), length_rev. injection Hl as Hl.
  destruct n as [|n].
  - destruct l; [|done]. cbn [ev rev length]. rewrite mono_0. ring.
  - rewrite Hl, <- (IH n Hl), (peq_qeq _ _ _ _ (mono_S n)).
    transitivity ([a] * (mono 1 * mono n) + (mono 1 * Y) * (mono n * ev l))%P; [ring|]. rewrite xy. ring.
Qed.

Lemma ev_insert l k a : (k < length l)%nat → ev (<[k:=a]> l) ≡ₘ ev l + [a - co l k] * ypow k.
Proof.
  revert k. induction l as [|b l IH]; intros k Hk; [simpl in Hk; lia|]. destruct k as [|k]; simpl in Hk.
  - cbn [insert list_insert ev ypow]. change (co (b :: l) 0%nat) with b.
    assert (qeq p m [a] ([b] + [a - b])) as ->; [|ring].
    rewrite <- (peq_qeq _ _ _ _ (const_add _ _)). by replace (b + (a - b)) with a by lia.
  - cbn [insert list_insert ev ypow]. change (co (b :: l) (S k)) with (co l k).
    change (list_insert k a l) with (<[k:=a]> l). rewrite IH by lia. ring.
Qed.

Lemma ev_replicate n : ev (replicate n 0) ≡ₘ [].
Proof.
  induction n as [|n IH]; cbn [replicate ev]; [done|]. rewrite IH. exact ev_0.
Qed.

Lemma ev_zero l : (∀ i, co l i = 0) → ev l ≡ₘ [].
Proof.
  induction l as [|a l IH]; intros E; [done|]. cbn [ev].
  rewrite IH by (intros i; apply (E (S i))). pose proof (E O) as E0. change (co (a :: l) 0%nat) with a in E0.
  subst a. exact ev_0.
Qed.
Lemma ev_const a l : (∀ i, co l i = 0) → ev (a :: l) ≡ₘ [a].
Proof. intros E. cbn [ev]. rewrite ev_zero by done. ring. Qed.

(** A linear combination of the coefficients. *)
Lemma ev_lin u x y a b c :
  length a = length c → length b = length c → m ≠ 0 →
  (∀ i, (i < length c)%nat → co c i mod m = (u * (x * co a i + y * co b i)) mod m) →
  ev c ≡ₘ [u] * ([x] * ev a + [y] * ev b).
Proof.
  intros Ha Hb Hm. revert a b Ha Hb. induction c as [|c0 c IH]; intros a b Ha Hb E.
  - destruct a, b; try done. cbn [ev]. ring.
  - destruct a as [|a0 a], b as [|b0 b]; try done. simpl in Ha, Hb. cbn [ev].
    rewrite (IH a b) by (lia || (intros i Hi; apply (E (S i)); simpl; lia)).
    assert (qeq p m [c0] ([u] * ([x] * [a0] + [y] * [b0]))) as ->; [|ring].
    rewrite <- !(peq_qeq _ _ _ _ (const_mul _ _)), <- (peq_qeq _ _ _ _ (const_add _ _)).
    rewrite <- (peq_qeq _ _ _ _ (const_mul _ _)). apply cong_qeq; [|done]. intros [|[|i]]; try done.
    apply (E O). simpl. lia.
Qed.
End inverse.

(** ** One division step *)

Section steps.
Context `{!Params, !ParamsOk} (bits m h : Z) (comb : Z → Z → Z → Z → Z → Z → Z).
Context (Hm : m = 2 * h + 1) (Hh : 1 ≤ h < 2 ^ 14) (Hbits : 0 < bits) (Hrange : ∀ x, within h x → int_range bits x).

(** Before the swap the first coefficients are [f0] and [g0], after it [f1]
    and [g1]; the combination is a multiple of [f1 x - g1 y]. *)
Context (Hcomb : ∀ (b : bool) f0 g0, within h f0 → within h g0 →
  let f1 := if b then g0 else f0 in let g1 := if b then f0 else g0 in
  f1 ≠ 0 →
  ∃ u, ∀ x y, within h x → within h y →
    within h (comb f0 g0 f1 g1 x y) ∧ comb f0 g0 f1 g1 x y mod m = (u * (f1 * x + - g1 * y)) mod m).

Definition swaps (s : recip_state) : bool := (0 <? st_delta s) && negb (co (st_g s) 0%nat =? 0).

Lemma xor_swap_run (b : bool) x y :
  within h x → within h y → xor_swap bits (if b then -1 else 0) x y = if b then (y, x) else (x, y).
Proof.
  intros Hx Hy. unfold xor_swap. rewrite land_mask. destruct b.
  - rewrite <- Z.lxor_assoc, Z.lxor_nilpotent, Z.lxor_0_l. rewrite (Z.lxor_comm x y), <- Z.lxor_assoc.
    rewrite Z.lxor_nilpotent, Z.lxor_0_l. rewrite !to_int_id by auto. done.
  - rewrite !Z.lxor_0_r, !to_int_id by auto. done.
Qed.

Lemma zip_swap (b : bool) l k :
  length l = length k → Forall (within h) l → Forall (within h) k →
  zip_with (λ x y, (xor_swap bits (if b then -1 else 0) x y).1) l k = (if b then k else l) ∧
  zip_with (λ x y, (xor_swap bits (if b then -1 else 0) x y).2) l k = (if b then l else k).
Proof.
  intros Hl Hf. revert k Hl. induction Hf as [|x l Hx Hf IH]; intros [|y k] Hl Hk; try done; [by destruct b|].
  injection Hl as Hl. apply Forall_cons in Hk as [Hy Hk]. destruct (IH k Hl Hk) as [E1 E2].
  cbn [zip_with]. rewrite E1, E2, xor_swap_run by done. by destruct b.
Qed.

Lemma swap_mask s :
  within (2 ^ 15 - 1) (st_delta s) → within h (co (st_g s) 0%nat) →
  Z.land (int16_negative_mask (- st_delta s)) (int16_nonzero_mask (co (st_g s) 0%nat)) =
  if swaps s then -1 else 0.
Proof.
  unfold within. intros Hd Hg. unfold swaps.
  rewrite negative_mask_run, nonzero_mask_run by (unfold int_range; change (2 ^ (16 - 1)) with (2 ^ 15); lia).
  destruct (Z.ltb_spec (- st_delta s) 0), (Z.ltb_spec 0 (st_delta s)); try lia.
  - rewrite Z.land_m1_l. by destruct (_ =? 0).
  - by rewrite Z.land_0_l.
Qed.

(** The arrays have [p + 1] entries in range, and [f] a first one. *)
Record arrays (s : recip_state) : Prop := {
  ar_delta : within (2 ^ 15 - 1) (st_delta s);
  ar_f : length (st_f s) = (p + 1)%nat ∧ Forall (within h) (st_f s);
  ar_g : length (st_g s) = (p + 1)%nat ∧ Forall (within h) (st_g s);
  ar_v : length (st_v s) = (p + 1)%nat ∧ Forall (within h) (st_v s);
  ar_r : length (st_r s) = (p + 1)%nat ∧ Forall (within h) (st_r s);
  ar_f0 : co (st_f s) 0%nat ≠ 0 }.

(** What a step computes. *)
Lemma recip_step_run s :
  arrays s →
  let b := swaps s in
  let v := 0 :: take p (st_v s) in
  let f1 := if b then st_g s else st_f s in
  let g1 := if b then st_f s else st_g s in
  let v1 := if b then st_r s else v in
  let r1 := if b then v else st_r s in
  let combine := comb (co (st_f s) 0%nat) (co (st_g s) 0%nat) (co f1 0%nat) (co g1 0%nat) in
  recip_step bits comb s =
    {| st_delta := (if b then - st_delta s else st_delta s) + 1;
       st_f := f1; st_g := take p (drop 1 (zip_with combine g1 f1)) ++ [0];
       st_v := v1; st_r := zip_with combine r1 v1 |}.
Proof.
  intros [Hd [Hlf Hf] [Hlg Hg] [Hlv Hv] [Hlr Hr] Hf0]. cbv zeta. unfold recip_step.
  assert (Forall (within h) (0 :: take p (st_v s))) as Hv'.
  { constructor; [unfold within; lia|by apply Forall_take]. }
  assert (length (0 :: take p (st_v s)) = length (st_r s)) as Hlv' by (simpl; rewrite length_take; lia).
  cbv zeta. rewrite swap_mask by (done || (apply within_co; [lia|done])).
  destruct (zip_swap (swaps s) (st_f s) (st_g s)) as [-> ->]; [congruence|done..|].
  destruct (zip_swap (swaps s) _ (st_r s) Hlv' Hv' Hr) as [-> ->]. f_equal. f_equal.
  rewrite land_mask. destruct (swaps s); [|by rewrite Z.lxor_0_r].
  by rewrite <- Z.lxor_assoc, Z.lxor_nilpotent, Z.lxor_0_l.
Qed.

Lemma co_zip (F : Z → Z → Z) a b i :
  length a = length b → (i < length a)%nat → co (zip_with F a b) i = F (co a i) (co b i).
Proof.
  intros Hl Hi. apply co_lookup. rewrite lookup_zip_with, !lookup_co by lia. done.
Qed.

Definition f_first (s : recip_state) : Z := co (if swaps s then st_g s else st_f s) 0%nat.
Definition g_first (s : recip_state) : Z := co (if swaps s then st_f s else st_g s) 0%nat.

(** The combination of two arrays. *)
Lemma step_comb s :
  arrays s →
  let combine := comb (co (st_f s) 0%nat) (co (st_g s) 0%nat) (f_first s) (g_first s) in
  ∃ u, ∀ a b,
    length a = (p + 1)%nat ∧ Forall (within h) a → length b = (p + 1)%nat ∧ Forall (within h) b →
    (length (zip_with combine a b) = (p + 1)%nat ∧ Forall (within h) (zip_with combine a b)) ∧
    qeq p m (ev (zip_with combine a b)) ([u] * ([f_first s] * ev a + [- g_first s] * ev b)) ∧
    ∀ i, f_first s * co a i + - g_first s * co b i = 0 → co (zip_with combine a b) i = 0.
Proof.
  intros Har combine. destruct Har as [_ [Hlf Hf] [Hlg Hg] _ _ Hf0].
  assert (∀ l i, Forall (within h) l → within h (co l i)) as Hco by (intros; apply within_co; [lia|done]).
  destruct (Hcomb (swaps s) (co (st_f s) 0%nat) (co (st_g s) 0%nat)) as [u Hu]; [auto..| |].
  { unfold swaps. destruct (0 <? st_delta s); simpl; [|done]. by destruct (Z.eqb_spec (co (st_g s) 0%nat) 0). }
  assert (f_first s = (if swaps s then co (st_g s) 0%nat else co (st_f s) 0%nat) ∧
    g_first s = (if swaps s then co (st_f s) 0%nat else co (st_g s) 0%nat)) as [E1 E2]
    by (unfold f_first, g_first; by destruct (swaps s)).
  rewrite <- E1, <- E2 in Hu. exists u. intros a b [Hla Ha] [Hlb Hb].
  assert (∀ i, (i < p + 1)%nat → within h (co (zip_with combine a b) i) ∧
    co (zip_with combine a b) i mod m = (u * (f_first s * co a i + - g_first s * co b i)) mod m) as Hz.
  { intros i Hi. rewrite co_zip by lia. apply Hu; auto. }
  assert (length (zip_with combine a b) = (p + 1)%nat) as Hl by (rewrite length_zip_with; lia).
  split; [split; [done|]|split].
  - apply Forall_lookup. intros i x Hx. pose proof (lookup_lt_Some _ _ _ Hx) as Hi. rewrite Hl in Hi.
    destruct (Hz i Hi) as [Hw _]. by rewrite (co_lookup _ _ _ Hx) in Hw.
  - apply ev_lin; [lia..|]. intros i Hi. rewrite Hl in Hi. by apply Hz.
  - intros i E. destruct (decide (i < p + 1)%nat) as [Hi|Hi]; [|apply co_ge; lia].
    destruct (Hz i Hi) as [Hw Hmod]. rewrite E, Z.mul_0_r in Hmod.
    apply (within_eq h m); [done|done|unfold within; lia|done].
Qed.

(** ** The invariant of the loop *)

(** Twice the degree is at most [k]. *)
Definition deg2 (k : Z) (l : list Z) : Prop := ∀ i, k < 2 * Z.of_nat i → co l i = 0.

(** From here on [delta] does not reach zero at the end of the loop. *)
Definition dead (n delta : Z) : Prop :=
  (0 < delta ∧ 2 * Z.of_nat p ≤ n + delta) ∨ (delta ≤ 0 ∧ 2 * Z.of_nat p - 1 < n - delta).

Context (c G : poly).

Record live (n : nat) (s : recip_state) : Prop := {
  lv_v : deg2 (Z.of_nat n - 1 + st_delta s) (st_v s);
  lv_r : deg2 (Z.of_nat n + 1 - st_delta s) (st_r s);
  lv_eq_v : qeq p m (xinv p * ev (st_v s) * G) (c * ypow n * ev (st_f s));
  lv_eq_r : qeq p m (ev (st_r s) * G) (c * ypow n * ev (st_g s)) }.

Record inv (n : nat) (s : recip_state) : Prop := {
  in_arrays : arrays s;
  in_delta : - Z.of_nat n ≤ st_delta s ≤ Z.of_nat n + 1;
  in_f : deg2 (2 * Z.of_nat p - 1 - Z.of_nat n + st_delta s) (st_f s);
  in_g : deg2 (2 * Z.of_nat p - 1 - Z.of_nat n - st_delta s) (st_g s);
  in_live : dead (Z.of_nat n) (st_delta s) ∨ live n s }.

Lemma swaps_spec s :
  (swaps s = true ∧ 0 < st_delta s ∧ co (st_g s) 0%nat ≠ 0) ∨
  (swaps s = false ∧ (st_delta s ≤ 0 ∨ co (st_g s) 0%nat = 0)).
Proof.
  unfold swaps. destruct (Z.ltb_spec 0 (st_delta s)); simpl; [|right; split; [done|lia]].
  destruct (Z.eqb_spec (co (st_g s) 0%nat) 0); simpl; auto.
Qed.

(** Dropping the first coefficient, which is zero. *)
Lemma shift_down z :
  length z = (p + 1)%nat ∧ Forall (within h) z → co z 0%nat = 0 →
  let z' := take p (drop 1 z) ++ [0] in
  (length z' = (p + 1)%nat ∧ Forall (within h) z') ∧ qeq p m (ev z) (xinv p * ev z') ∧
  ∀ i, co z' i = co z (S i).
Proof.
  intros [Hl Hf] H0z. destruct z as [|z0 z]; [simpl in Hl; lia|]. change (co (z0 :: z) 0%nat) with z0 in H0z.
  subst z0. simpl in Hl. apply Forall_cons in Hf as [_ Hf]. cbn [drop]. rewrite drop_0, take_ge by lia. cbv zeta.
  split; [split|split].
  - rewrite length_app. simpl. lia.
  - apply Forall_app. split; [done|]. repeat constructor; lia.
  - rewrite ev_snoc_0. cbn [ev]. assert (qeq p m [0] []) as ->.
    { apply peq_qeq. intros [|[|i]]; done. }
    apply (Radd_0_l (quot_ring p m)).
  - intros i. change (co (0 :: z) (S i)) with (co z i). destruct (decide (i < length z)%nat).
    + apply co_lookup. rewrite lookup_app_l by done. by apply lookup_co.
    + rewrite (co_ge z) by lia. unfold co. rewrite app_nth2 by lia. by destruct (i - length z)%nat as [|[|]].
Qed.

(** Shifting up loses nothing when the last coefficient is zero. *)
Lemma shift_up v :
  length v = (p + 1)%nat ∧ Forall (within h) v →
  (length (0 :: take p v) = (p + 1)%nat ∧ Forall (within h) (0 :: take p v)) ∧
  (co v p = 0 → qeq p m (ev (0 :: take p v)) (xinv p * ev v)) ∧
  ∀ k, deg2 k v → deg2 (k + 2) (0 :: take p v).
Proof.
  intros [Hl Hf]. split; [split|split].
  - simpl. rewrite length_take. lia.
  - constructor; [unfold within; lia|by apply Forall_take].
  - intros Hp. cbn [ev]. assert (v = take p v ++ [0]) as Ev.
    { rewrite <- Hp. rewrite <- (take_S_r v p (co v p)) by (apply lookup_co; lia). by rewrite take_ge by lia. }
    rewrite Ev at 2. rewrite ev_snoc_0. assert (qeq p m [0] []) as ->.
    { apply peq_qeq. intros [|[|i]]; done. }
    apply (Radd_0_l (quot_ring p m)).
  - intros k Hk [|i] Hi; [done|]. change (co (0 :: take p v) (S i)) with (co (take p v) i).
    destruct (decide (i < p)%nat).
    + rewrite <- (Hk i) by lia. apply co_lookup. rewrite lookup_take_lt by done. apply lookup_co. lia.
    + apply co_ge. rewrite length_take. lia.
Qed.

Lemma arrays_step n s :
  (n < 2 * p - 1)%nat → inv n s → arrays (recip_step bits comb s) ∧
  let d := st_delta (recip_step bits comb s) in
  - Z.of_nat (S n) ≤ d ≤ Z.of_nat (S n) + 1 ∧
  (dead (Z.of_nat n) (st_delta s) → dead (Z.of_nat (S n)) d) ∧
  deg2 (2 * Z.of_nat p - 1 - Z.of_nat (S n) + d) (st_f (recip_step bits comb s)) ∧
  deg2 (2 * Z.of_nat p - 1 - Z.of_nat (S n) - d) (st_g (recip_step bits comb s)).
Proof.
  intros Hn [Har Hd Hf Hg _]. pose proof p_range as Hp. rewrite recip_step_run by done. cbv zeta. fold (f_first s) (g_first s).
  destruct (step_comb s Har) as [u Hu]. destruct Har as [Hdr Haf Hag Hav Har Hf0].
  pose proof (shift_up _ Hav) as (Hav' & _ & _).
  set (combine := comb _ _ _ _) in *. set (f1 := if swaps s then st_g s else st_f s).
  set (g1 := if swaps s then st_f s else st_g s).
  set (v1 := if swaps s then st_r s else _). set (r1 := if swaps s then _ else st_r s).
  assert ((length f1 = (p + 1)%nat ∧ Forall (within h) f1) ∧ (length g1 = (p + 1)%nat ∧ Forall (within h) g1) ∧
    (length v1 = (p + 1)%nat ∧ Forall (within h) v1) ∧ (length r1 = (p + 1)%nat ∧ Forall (within h) r1))
    as (Hf1 & Hg1 & Hv1 & Hr1) by (unfold f1, g1, v1, r1; by destruct (swaps s)).
  destruct (Hu g1 f1 Hg1 Hf1) as (Hz & _ & Hzero). destruct (Hu r1 v1 Hr1 Hv1) as (Hz' & _ & _).
  destruct (shift_down _ Hz) as (Hz2 & _ & Hco).
  { apply Hzero. unfold f1, g1, f_first, g_first. lia. }
  split.
  { split; try done; cbn [st_delta st_f].
    - unfold within. destruct (swaps s); lia.
    - unfold f1. destruct (swaps_spec s) as [(-> & _ & Hne)|[-> _]]; done. }
  cbn [st_delta st_f st_g]. unfold deg2, dead in *. split; [destruct (swaps s); lia|].
  assert (∀ i, (swaps s = true → co (st_f s) i = 0) → (swaps s = false → co (st_g s) i = 0) →
    (swaps s = true → co (st_g s) i = 0) → (swaps s = false → co (st_f s) i = 0 ∨ g_first s = 0) →
    co (zip_with combine g1 f1) i = 0) as Hz0.
  { intros i E1 E2 E3 E4. apply Hzero. unfold g1, f1, g_first in *. destruct (swaps s).
    - rewrite E1, E3 by done. lia.
    - rewrite E2 by done. destruct E4 as [-> | ->]; [done|lia|lia]. }
  destruct (swaps_spec s) as [(Eb & Hpos & Hne)|[Eb Hle]].
  - rewrite Eb in Hz0 |- *. split; [lia|]. split; [intros i Hi; unfold f1; rewrite Eb; apply Hg; lia|].
    intros i Hi. rewrite Hco. apply Hz0; intros ?; try done; [apply Hf; lia|apply Hg; lia].
  - rewrite Eb in Hz0 |- *. split; [lia|]. split; [intros i Hi; unfold f1; rewrite Eb; apply Hf; lia|].
    intros i Hi. rewrite Hco. apply Hz0; intros ?; try done; [apply Hg; lia|].
    destruct Hle as [Hle|Hz00]; [left; apply Hf; lia|right]. unfold g_first. by rewrite Eb.
Qed.

Add Ring quot_s : (quot_ring p m) (setoid (qeq_equiv p m) (quot_ext p m)).

Lemma live_step n s :
  (n < 2 * p - 1)%nat → inv n s → ¬ dead (Z.of_nat n) (st_delta s) → live n s →
  live (S n) (recip_step bits comb s).
Proof.
  intros Hn [Har Hd _ _ _] Hnd [Hv Hr Ev Er]. rewrite recip_step_run by done. cbv zeta. fold (f_first s) (g_first s).
  destruct (step_comb s Har) as [u Hu]. destruct Har as [Hdr Haf Hag Hav Har Hf0].
  destruct (shift_up _ Hav) as (Hav' & Hup & Hdeg).
  assert (co (st_v s) p = 0) as Hlast by (apply Hv; unfold dead in Hnd; lia).
  specialize (Hup Hlast). specialize (Hdeg _ Hv).
  set (combine := comb _ _ _ _) in *. set (v := 0 :: take p (st_v s)) in *.
  set (f1 := if swaps s then st_g s else st_f s). set (g1 := if swaps s then st_f s else st_g s).
  set (v1 := if swaps s then st_r s else v). set (r1 := if swaps s then v else st_r s).
  assert ((length f1 = (p + 1)%nat ∧ Forall (within h) f1) ∧ (length g1 = (p + 1)%nat ∧ Forall (within h) g1) ∧
    (length v1 = (p + 1)%nat ∧ Forall (within h) v1) ∧ (length r1 = (p + 1)%nat ∧ Forall (within h) r1))
    as (Hf1 & Hg1 & Hv1 & Hr1) by (unfold f1, g1, v1, r1; by destruct (swaps s)).
  assert (qeq p m (ev v1 * G) (c * ypow n * ev f1) ∧ qeq p m (ev r1 * G) (c * ypow n * ev g1)) as [E1 E2].
  { rewrite <- Hup in Ev. unfold v1, r1, f1, g1. by destruct (swaps s). }
  destruct (Hu g1 f1 Hg1 Hf1) as (Hz & Ez & Hzero). destruct (Hu r1 v1 Hr1 Hv1) as (Hz' & Ez' & Hzero').
  destruct (shift_down _ Hz) as (Hz2 & Ey & Hco).
  { apply Hzero. unfold f1, g1, f_first, g_first. lia. }
  split; cbn [st_delta st_f st_g st_v st_r ypow]; unfold deg2 in *.
  - intros i Hi. unfold v1. destruct (swaps_spec s) as [(Eb & Hpos & Hne)|[Eb Hle]]; rewrite Eb in *.
    + apply Hr. lia.
    + apply Hdeg. lia.
  - intros i Hi. apply Hzero'. unfold r1, v1, g_first.
    destruct (swaps_spec s) as [(Eb & Hpos & Hne)|[Eb Hle]]; rewrite Eb in *.
    + rewrite (Hr i), (Hdeg i) by lia. lia.
    + rewrite (Hr i) by lia. destruct Hle as [Hle|Hz0]; [rewrite (Hdeg i) by lia; lia|rewrite Hz0; lia].
  - transitivity (xinv p * (ev v1 * G))%P; [ring|]. rewrite E1. ring.
  - transitivity (c * ypow n * (xinv p * ev (take p (drop 1 (zip_with combine g1 f1)) ++ [0%Z])))%P; [|ring].
    rewrite <- Ey, Ez, Ez'.
    transitivity ([u] * ([f_first s] * (ev r1 * G) + [(- g_first s)%Z] * (ev v1 * G)))%P; [ring|].
    rewrite E1, E2. ring.
Qed.

Lemma dead_dec n d : dead n d ∨ ¬ dead n d.
Proof. unfold dead. lia. Qed.

Lemma inv_iter n s : (n ≤ 2 * p - 1)%nat → inv 0 s → inv n (Nat.iter n (recip_step bits comb) s).
Proof.
  intros Hn Hs. induction n as [|n IH]; [done|]. cbn [Nat.iter].
  set (t := Nat.iter n _ s) in *. assert (inv n t) as Ht by (apply IH; lia).
  destruct (arrays_step n t) as (Ha & Hd & Hde & Hf & Hg); [lia|done|]. split; try done.
  destruct (dead_dec (Z.of_nat n) (st_delta t)) as [Hdead|Hnd]; [left; by apply Hde|right].
  destruct (in_live n t Ht) as [?|Hl]; [done|]. by apply live_step; [lia|..].
Qed.

(** At the end. *)
Lemma inv_final s :
  inv (2 * p - 1) s → st_delta s = 0 →
  qeq p m (rev (take p (st_v s)) * (mono (p - 1) * G)) (c * [co (st_f s) 0%nat]).
Proof.
  intros [Har _ Hf _ Hl] H0d. pose proof p_range as Hp. rewrite H0d in *.
  destruct Hl as [Hdead|[Hv _ Ev _]]; [unfold dead in Hdead; lia|]. rewrite H0d in Hv.
  destruct Har as [_ [Hlf _] _ [Hlv Hv'] _ _].
  assert (qeq p m (ev (st_f s)) [co (st_f s) 0%nat]) as Ef.
  { destruct (st_f s) as [|a l]; [simpl in Hlf; lia|]. apply ev_const. intros i. apply (Hf (S i)). lia. }
  assert (qeq p m (ev (st_v s)) (ev (take p (st_v s)))) as Et.
  { assert (st_v s = take p (st_v s) ++ [0]) as E; [|by rewrite E at 1; rewrite ev_snoc_0].
    rewrite <- (Hv p) by lia. rewrite <- (take_S_r (st_v s) p) by (apply lookup_co; lia). by rewrite take_ge by lia. }
  rewrite Et, Ef in Ev. rewrite <- (ev_rev m (take p (st_v s)) (p - 1)) by (rewrite length_take; lia).
  assert (qeq p m (mono 1 * mono (p - 1) * mono (p - 1)) (mono (2 * p - 1))) as Em.
  { rewrite !(peq_qeq _ _ _ _ (mono_mul _ _)). by replace (1 + (p - 1) + (p - 1))%nat with (2 * p - 1)%nat by lia. }
  transitivity ((mono 1 * mono (p - 1) * mono (p - 1)) * (xinv p * ev (take p (st_v s)) * G))%P.
  - transitivity ((mono 1 * xinv p) * (mono (p - 1) * ev (take p (st_v s)) * (mono (p - 1) * G)))%P; [|ring].
    rewrite xy. ring.
  - rewrite Ev, Em. transitivity (c * (mono (2 * p - 1) * ypow (2 * p - 1)) * [co (st_f s) 0%nat])%P; [ring|].
    rewrite mono_ypow. ring.
Qed.
End steps.

(** ** The whole loop *)

Section loop.
Context `{!Params, !ParamsOk} (bits m h : Z) (comb : Z → Z → Z → Z → Z → Z → Z).
Context (Hm : m = 2 * h + 1) (Hh : 1 ≤ h < 2 ^ 14) (Hbits : 0 < bits) (Hrange : ∀ x, within h x → int_range bits x).
Context (Hcomb : ∀ (b : bool) f0 g0, within h f0 → within h g0 →
  let f1 := if b then g0 else f0 in let g1 := if b then f0 else g0 in
  f1 ≠ 0 →
  ∃ u, ∀ x y, within h x → within h y →
    within h (comb f0 g0 f1 g1 x y) ∧ comb f0 g0 f1 g1 x y mod m = (u * (f1 * x + - g1 * y)) mod m).
Add Ring quot_l : (quot_ring p m) (setoid (qeq_equiv p m) (quot_ext p m)).

Lemma co_replicate_0 n i : co (replicate n 0) i = 0.
Proof.
  destruct (decide (i < n)%nat); [apply co_lookup; by apply lookup_replicate_2|].
  apply co_ge. rewrite length_replicate. lia.
Qed.
Lemma co_insert_ne l k i a : i ≠ k → co (<[k:=a]> l) i = co l i.
Proof. intros Hik. unfold co. rewrite !nth_lookup. by rewrite list_lookup_insert_ne by done. Qed.

(** The reversed modulus vanishes. *)
Lemma ev_modulus r0 inp : qeq p m (ev (st_f (recip_init r0 inp))) [].
Proof.
  pose proof p_range as Hp. cbn [recip_init st_f].
  rewrite !ev_insert by (rewrite ?length_insert, length_replicate; lia). rewrite ev_replicate.
  rewrite !co_insert_ne, !co_replicate_0 by lia. change (-1 - 0) with (-1). change (1 - 0) with 1.
  assert (qeq p m [-1] (- [1])) as -> by (apply peq_qeq; intros [|[|i]]; done).
  set (e := (_ + _ + _ + _)%P). transitivity ((mono p * ypow p) * e)%P; [rewrite mono_ypow; ring|].
  assert (qeq p m (mono p * e) []) as He; [|transitivity (ypow p * (mono p * e))%P; [ring|rewrite He; ring]].
  unfold e. cbn [ypow]. transitivity (mono p - mono p * ypow (p - 1) - mono p * ypow p)%P; [ring|].
  rewrite mono_ypow. replace p with (S (p - 1)) at 3 by lia. rewrite (peq_qeq _ _ _ _ (mono_S (p - 1))).
  transitivity (mono p - mono 1 * (mono (p - 1) * ypow (p - 1)) - [1])%P; [ring|].
  rewrite mono_ypow, (mono_d p m). ring.
Qed.

Lemma inv_init r0 inp :
  length inp = p → Forall (within h) inp → within h r0 →
  inv m h [r0] (ev (st_g (recip_init r0 inp))) 0 (recip_init r0 inp).
Proof.
  intros Hl Hi Hr0. pose proof p_range as Hp.
  assert (within h 0 ∧ within h 1 ∧ within h (-1)) as (Hw0 & Hw1 & Hw2) by (unfold within; lia).
  split; cbn [recip_init st_delta st_f st_g st_v st_r].
  - split; cbn [recip_init st_delta st_f st_g st_v st_r].
    + unfold within. lia.
    + rewrite !length_insert, length_replicate. split; [done|]. repeat apply Forall_insert; try done.
      by apply Forall_replicate.
    + rewrite length_app, length_rev. split; [simpl; lia|]. apply Forall_app. split; [by apply Forall_rev|].
      by constructor.
    + rewrite length_replicate. split; [done|]. by apply Forall_replicate.
    + rewrite length_insert, length_replicate. split; [done|]. apply Forall_insert; [|done]. by apply Forall_replicate.
    + rewrite !co_insert_ne, (co_lookup _ _ 1) by (lia || (apply list_lookup_insert_eq; rewrite length_replicate; lia)).
      done.
  - lia.
  - intros i Hdi. apply co_ge. rewrite !length_insert, length_replicate. lia.
  - intros i Hdi. destruct (decide (i = p)) as [->|]; [|apply co_ge; rewrite length_app, length_rev; simpl; lia].
    apply co_lookup. rewrite lookup_app_r, length_rev, Hl, Nat.sub_diag by (rewrite length_rev; lia). done.
  - right. split; cbn [recip_init st_delta st_f st_g st_v st_r ypow].
    + intros i _. apply co_replicate_0.
    + intros i Hdi. rewrite co_insert_ne by lia. apply co_replicate_0.
    + rewrite ev_replicate. rewrite (ev_modulus r0 inp). ring.
    + rewrite ev_insert by (rewrite length_replicate; lia). rewrite co_replicate_0, Z.sub_0_r, ev_replicate. cbn [ypow]. ring.
Qed.

Lemma recip_run_ok r0 inp :
  length inp = p → Forall (within h) inp → within h r0 →
  let s := recip_run bits comb r0 inp in
  arrays h s ∧
  (st_delta s = 0 → qeq p m (rev (take p (st_v s)) * inp) ([r0] * [co (st_f s) 0%nat])).
Proof.
  intros Hl Hi Hr0. pose proof p_range as Hp. cbv zeta.
  pose proof (inv_iter bits m h comb Hm Hh Hbits Hrange Hcomb [r0] _ (2 * p - 1) _ (le_n _)
    (inv_init r0 inp Hl Hi Hr0)) as Hinv. fold (recip_run bits comb r0 inp) in Hinv.
  split; [apply Hinv|]. intros Hd. rewrite <- (inv_final m h [r0] _ _ Hinv Hd).
  assert (qeq p m (mono (p - 1) * ev (st_g (recip_init r0 inp))) inp) as ->; [|done].
  cbn [recip_init st_g]. rewrite ev_snoc_0, ev_rev by (rewrite length_rev; lia). by rewrite rev_involutive.
Qed.
End loop.

(** ** The two reciprocals *)

Section reciprocals.
Context `{!Params, !ParamsOk}.

Lemma R3_comb_ok (b : bool) f0 g0 :
  within 1 f0 → within 1 g0 →
  let f1 := if b then g0 else f0 in let g1 := if b then f0 else g0 in
  f1 ≠ 0 →
  ∃ u, ∀ x y, within 1 x → within 1 y →
    within 1 (R3_comb f0 g0 f1 g1 x y) ∧ R3_comb f0 g0 f1 g1 x y mod 3 = (u * (f1 * x + - g1 * y)) mod 3.
Proof.
  intros Hf Hg f1 g1 Hne. exists f1. intros x y Hx Hy. unfold R3_comb.
  assert (f1 * f1 = 1 ∧ f1 * g1 = g0 * f0) as [E1 E2].
  { unfold f1, g1, within in *. destruct b; split; nia. }
  destruct (fz_run (Freezes := F3_freezes) (x + - g0 * f0 * y)) as [Hw E].
  { apply (within_le 2); [lia|]. apply (within_add 1 1); [done|]. apply (within_mul 1 1); [|done].
    rewrite Z.mul_opp_l, <- E2. unfold within, f1, g1 in *. destruct b; nia. }
  split; [done|]. rewrite E. f_equal. replace (f1 * (f1 * x + - g1 * y)) with (f1 * f1 * x - f1 * g1 * y) by lia.
  rewrite E1, E2. lia.
Qed.

Lemma Rq_comb_ok (b : bool) f0 g0 :
  within q12 f0 → within q12 g0 →
  let f1 := if b then g0 else f0 in let g1 := if b then f0 else g0 in
  f1 ≠ 0 →
  ∃ u, ∀ x y, within q12 x → within q12 y →
    within q12 (Rq_comb f0 g0 f1 g1 x y) ∧ Rq_comb f0 g0 f1 g1 x y mod q = (u * (f1 * x + - g1 * y)) mod q.
Proof.
  intros Hf Hg f1 g1 Hne. exists 1. intros x y Hx Hy. unfold Rq_comb.
  destruct (fz_run (Freezes := Fq_freezes) (f1 * x - g1 * y)) as [Hw E].
  { assert (within q12 f1 ∧ within q12 g1) as [Hf1 Hg1] by (unfold f1, g1; by destruct b).
    pose proof (within_mul _ _ _ _ Hf1 Hx) as Hfx. pose proof (within_mul _ _ _ _ Hg1 Hy) as Hgy.
    pose proof q_range. destruct q12_spec as (Eq & _ & Hq).
    assert (q12 * q12 ≤ 8192 * 8192) by (apply Z.mul_le_mono_nonneg; lia). unfold within in *. lia. }
  split; [done|]. rewrite E. f_equal. lia.
Qed.

Add Ring quot_r : (quot_ring p q) (setoid (qeq_equiv p q) (quot_ext p q)).

Lemma mask_zero s h : arrays h s → int16_nonzero_mask (st_delta s) = 0 → st_delta s = 0.
Proof.
  intros Har. pose proof (ar_delta _ _ Har) as Hd. unfold within in Hd. rewrite nonzero_mask_run.
  - by destruct (Z.eqb_spec (st_delta s) 0).
  - unfold int_range. change (2 ^ (16 - 1)) with (2 ^ 15). lia.
Qed.

(** The output is a polynomial modulo 3, and if the function reports success
    it is the reciprocal of the input. *)
Lemma R3_recip_ok inp :
  length inp = p → Forall F3_range inp →
  let '(mask, out) := R3_recip inp in
  length out = p ∧ Forall F3_range out ∧ (mask = 0 → qeq p 3 (out * inp) [1]).
Proof.
  intros Hl Hi. unfold R3_recip. set (s := recip_run 8 R3_comb 1 inp). cbv zeta.
  destruct (recip_run_ok 8 3 1 R3_comb) with (r0 := 1) (inp := inp) as [Har Hok]; try done.
  { unfold within, int_range. intros x. change (2 ^ (8 - 1)) with 128. lia. }
  { apply R3_comb_ok. }
  fold s in Har, Hok. pose proof Har as [_ [Hlf Hf] _ [Hlv Hv] _ Hf0].
  assert (within 1 (co (st_f s) 0%nat)) as Hs by (apply within_co; [lia|done]).
  assert (map (λ x, to_i8 (co (st_f s) 0%nat * x)) (rev (take p (st_v s))) =
    map (Z.mul (co (st_f s) 0%nat)) (rev (take p (st_v s)))) as Em.
  { apply map_ext_Forall, Forall_rev, Forall_take. eapply Forall_impl; [exact Hv|]. intros x Hx.
    apply to_int_id; [lia|]. pose proof (within_mul _ _ _ _ Hs Hx). unfold within, int_range in *.
    change (2 ^ (8 - 1)) with 128. lia. }
  rewrite Em. split; [|split].
  - rewrite length_map, length_rev, length_take. lia.
  - apply Forall_fmap, Forall_rev, Forall_take. eapply Forall_impl; [exact Hv|]. intros x Hx.
    by apply (within_mul 1 1).
  - intros Hmask. specialize (Hok (mask_zero _ _ Har Hmask)).
    rewrite (peq_qeq _ _ _ _ (map_mul_poly _ _)), <- (Rmul_assoc (quot_ring p 3)), Hok.
    rewrite <- !(peq_qeq _ _ _ _ (const_mul _ _)).
    by assert (co (st_f s) 0%nat * (1 * co (st_f s) 0%nat) = 1) as -> by (unfold within in Hs; nia).
Qed.

(** The output is a polynomial modulo [q], and if the function reports
    success it is the reciprocal of three times the input. *)
Lemma Rq_recip3_ok inp :
  length inp = p → Forall F3_range inp →
  let '(mask, out) := Rq_recip3 inp in
  length out = p ∧ Forall Fq_range out ∧ (mask = 0 → qeq p q (out * ([3] * inp)) [1]).
Proof.
  intros Hl Hi. pose proof q_gt. pose proof q_range as Hqr. destruct q12_spec as (Eq & _ & Hq12).
  assert (Fq_range 3) as Hr3 by (unfold Fq_range; lia).
  destruct (Fq_recip_run 3 Hr3) as [Hr0 E0]. specialize (E0 ltac:(done)).
  unfold Rq_recip3. set (s := recip_run 16 Rq_comb (Fq_recip 3) inp). cbv zeta.
  destruct (recip_run_ok 16 q q12 Rq_comb) with (r0 := Fq_recip 3) (inp := inp) as [Har Hok]; try done; try lia.
  { unfold within, int_range. intros x. change (2 ^ (16 - 1)) with 32768. lia. }
  { apply Rq_comb_ok. }
  { eapply Forall_impl; [exact Hi|]. unfold F3_range, within. lia. }
  fold s in Har, Hok. pose proof Har as [_ [Hlf Hf] _ [Hlv Hv] _ Hf0].
  set (f0 := co (st_f s) 0%nat) in *.
  assert (Fq_range f0) as Hs by (unfold f0; apply within_co; [lia|done]).
  destruct (Fq_recip_run f0 Hs) as [Hsc Esc]. specialize (Esc Hf0). set (scale := Fq_recip f0) in *.
  assert (Forall (λ x, within q12 (Fq_freeze (scale * x)) ∧ Fq_freeze (scale * x) mod q = (scale * x) mod q)
    (rev (take p (st_v s)))) as Hout.
  { apply Forall_rev, Forall_take. eapply Forall_impl; [exact Hv|]. intros x Hx. apply fz_run.
    by apply Fq_mul_freezable. }
  split; [rewrite length_map, length_rev, length_take; lia|]. split.
  { apply Forall_fmap. eapply Forall_impl; [exact Hout|]. by intros x [Hx _]. }
  intros Hmask. specialize (Hok (mask_zero _ _ Har Hmask)).
  assert (qeq p q (map (λ x, Fq_freeze (scale * x)) (rev (take p (st_v s)))) ([scale] * rev (take p (st_v s)))) as ->.
  { apply map_cong; [lia|]. eapply Forall_impl; [exact Hout|]. by intros x [_ Hx]. }
  transitivity ([scale] * [3] * (rev (take p (st_v s)) * inp))%P; [ring|]. rewrite Hok.
  rewrite <- !(peq_qeq _ _ _ _ (const_mul _ _)). apply (const_cong Fq_freeze q q12 (2 ^ 30)).
  replace (scale * 3 * (Fq_recip 3 * f0)) with ((3 * Fq_recip 3) * (f0 * scale)) by lia.
  rewrite Zmult_mod, E0, Esc. done.
Qed.
End reciprocals.
