(* ===== verification/NtruCore.v ===== *)
(** * The core of Streamlined NTRU Prime

    Encryption and decryption of short polynomials ([Encrypt], [Decrypt]).
    Decryption recovers what was encrypted, for all keys and all short inputs:
    the integers in the product of the source never wrap around modulo [q],
    because [16 w + 1 <= q]. Whatever is decrypted, the result is short. *)

From S2P Require Import Prelude NtruInt NtruCode NtruSort NtruPoly NtruRing.

Section core.
Context `{!Params}.

(** [c = Encrypt(r,h)] *)
Definition Encrypt (r h : list Z) : list Z :=
  let hr := Rq_mult_small h r in
  Round hr.

(** The result under the mask: the polynomial itself, or the one that starts
    with [w] ones. *)
Definition unmask (mask : Z) (i : nat) (x : Z) : Z :=
  if (i <? w)%nat then to_i8 (Z.lxor (Z.land (Z.lxor x 1) (Z.lnot mask)) 1)
  else to_i8 (Z.land x (Z.lnot mask)).

(** [r = Decrypt(c,(f,ginv))] *)
Definition Decrypt (c f ginv : list Z) : list Z :=
  let cf := Rq_mult_small c f in
  let cf3 := Rq_mult3 cf in
  let e := R3_fromRq cf3 in
  let ev := R3_mult e ginv in
  let mask := Weightw_mask ev in
  imap (unmask mask) ev.
End core.

Section lemmas.
Context `{!Params, !ParamsOk}.

Lemma list_eq_co (f g : list Z) : length f = length g → (∀ i, co f i = co g i) → f = g.
Proof.
  intros Hl E. apply list_eq. intros i. destruct (decide (i < length f)%nat) as [Hi|Hi].
  - rewrite !lookup_co by lia. by rewrite E.
  - rewrite !lookup_ge_None_2 by lia. done.
Qed.

(** ** Single polynomials *)

Lemma F3_arg x : Fq_range x → within 1 (F3_freeze x) ∧ F3_freeze x mod 3 = x mod 3.
Proof.
  intros Hx. apply fz_run. destruct q12_spec as (Eq & _). pose proof q_range. unfold Fq_range, within in *. lia.
Qed.

(** Rounding adds at most 1 and makes multiples of 3. *)
Lemma Round_run a :
  Forall Fq_range a →
  length (Round a) = length a ∧ Forall rounded (Round a) ∧
  ∃ e, length e = length a ∧ Forall F3_range e ∧ peq (Round a) (a + e).
Proof.
  intros Ha. destruct q12_spec as (Eq & Hq3 & Hq12). pose proof q_range.
  assert (Forall (λ x, to_i16 (x - F3_freeze x) = x - F3_freeze x ∧ rounded (x - F3_freeze x)) a) as Hx.
  { eapply Forall_impl; [exact Ha|]. intros x Hx. destruct (F3_arg x Hx) as [Hf Ef].
    unfold Fq_range, within in *. split.
    - apply to_int_id; [lia|]. unfold int_range. change (2 ^ (16 - 1)) with 32768. lia.
    - assert ((x - F3_freeze x) mod 3 = 0) as E3.
      { rewrite Zminus_mod, Ef, Z.sub_diag. done. }
      split; [|done]. unfold Fq_range. apply Z.mod_divide in E3 as [k Hk], Hq3 as [j Hj]; lia. }
  unfold Round. split; [by rewrite length_map|]. split.
  - apply Forall_fmap. eapply Forall_impl; [exact Hx|]. intros x [E Hr]. simpl. by rewrite E.
  - exists (map (λ x, - F3_freeze x) a). split; [by rewrite length_map|]. split.
    + apply Forall_fmap. eapply Forall_impl; [exact Ha|]. intros x Hxr. destruct (F3_arg x Hxr) as [Hf _].
      simpl. unfold F3_range, within in *. lia.
    + intros i. rewrite co_add. destruct (decide (i < length a)%nat) as [Hi|Hi].
      * destruct (lookup_lt_is_Some_2 a i Hi) as [x Hxi]. rewrite (co_lookup a i x Hxi).
        rewrite !(co_lookup (map _ a) i _ ltac:(by rewrite list_lookup_fmap, Hxi)).
        destruct (Forall_lookup_1 _ _ _ _ Hx Hxi) as [-> _]. lia.
      * rewrite !co_ge by (rewrite ?length_map; lia). done.
Qed.

(** The mask tells polynomials of weight [w]. *)
Lemma foldl_weight r n :
  Forall F3_range r → foldl (λ weight x, weight + Z.land x 1) n r = n + Z.of_nat (weight r).
Proof.
  intros Hr. revert n. induction Hr as [|x r Hx Hr IH]; intros n; [change (weight []) with O; simpl; lia|]. cbn [foldl].
  rewrite IH, weight_cons. unfold F3_range in Hx. assert (x = -1 ∨ x = 0 ∨ x = 1) as [-> | [-> | ->]] by lia;
    case_decide; try done; vm_compute (Z.land _ 1); lia.
Qed.

Lemma Weightw_mask_run r :
  length r = p → Forall F3_range r → Weightw_mask r = if decide (weight r = w) then 0 else -1.
Proof.
  intros Hl Hr. pose proof p_range. pose proof w_range. unfold Weightw_mask. rewrite foldl_weight by done.
  assert (weight r ≤ length r)%nat by apply length_filter. rewrite nonzero_mask_run.
  - destruct (Z.eqb_spec (0 + Z.of_nat (weight r) - Z.of_nat w) 0); case_decide; (done || lia).
  - unfold int_range. change (2 ^ (16 - 1)) with 32768. lia.
Qed.
End lemmas.

(** ** Decryption *)

(** What the operands of the products may be. *)
Section products.
Context `{!Params, !ParamsOk}.

Lemma Rq_mult_small_run f g :
  length f = p → length g = p → Forall Fq_range f → Forall (within 2) g →
  length (Rq_mult_small f g) = p ∧ Forall Fq_range (Rq_mult_small f g) ∧ qeq p q (Rq_mult_small f g) (f * g).
Proof.
  intros Hlf Hlg Hf Hg. destruct q12_spec as (Eq & _ & Hq12). pose proof q_range.
  apply (ring_mult_run Fq_freeze q q12 (2 ^ 30) f g q12 2); (done || lia).
Qed.

Lemma R3_mult_run f g :
  length f = p → length g = p → Forall F3_range f → Forall (within 2) g →
  length (R3_mult f g) = p ∧ Forall F3_range (R3_mult f g) ∧ qeq p 3 (R3_mult f g) (f * g).
Proof.
  intros Hlf Hlg Hf Hg. apply (ring_mult_run F3_freeze 3 1 32767 f g 1 2); (done || lia).
Qed.

Lemma F3_within_2 f : Forall F3_range f → Forall (within 2) f.
Proof. intros Hf. eapply Forall_impl; [exact Hf|]. unfold F3_range, within. lia. Qed.

Lemma short_within_2 f : short f → Forall (within 2) f.
Proof. intros (_ & Hf & _). by apply F3_within_2. Qed.

Lemma Rq_mult3_run f :
  Forall Fq_range f →
  length (Rq_mult3 f) = length f ∧ Forall Fq_range (Rq_mult3 f) ∧ qeq p q (Rq_mult3 f) ([3] * f).
Proof.
  intros Hf. destruct q12_spec as (Eq & _ & Hq12). pose proof q_range.
  assert (Forall (λ x, within q12 (Fq_freeze (3 * x)) ∧ Fq_freeze (3 * x) mod q = (3 * x) mod q) f) as Hx.
  { eapply Forall_impl; [exact Hf|]. intros x Hx. apply fz_run. unfold Fq_range, within in *. lia. }
  unfold Rq_mult3. split; [by rewrite length_map|]. split.
  - apply Forall_fmap. eapply Forall_impl; [exact Hx|]. by intros x [? _].
  - apply map_cong; [lia|]. eapply Forall_impl; [exact Hx|]. by intros x [_ ?].
Qed.

Lemma R3_fromRq_run r :
  Forall Fq_range r →
  length (R3_fromRq r) = length r ∧ Forall F3_range (R3_fromRq r) ∧ qeq p 3 (R3_fromRq r) r.
Proof.
  intros Hr. unfold R3_fromRq. split; [by rewrite length_map|]. split.
  - apply Forall_fmap. eapply Forall_impl; [exact Hr|]. intros x Hx. by apply F3_arg.
  - transitivity ([1] * r)%P; [|apply peq_qeq, pmul_1]. apply map_cong; [lia|].
    eapply Forall_impl; [exact Hr|]. intros x Hx. rewrite Z.mul_1_l. by apply F3_arg.
Qed.

(** Encryption yields rounded polynomials. *)
Lemma Encrypt_run r h :
  short r → length h = p → Forall Fq_range h →
  length (Encrypt r h) = p ∧ Forall rounded (Encrypt r h) ∧
  ∃ e, length e = p ∧ Forall F3_range e ∧ qeq p q (Encrypt r h) (h * r + e).
Proof.
  intros Hr Hl Hh. pose proof Hr as (Hlr & _).
  destruct (Rq_mult_small_run h r) as (Hlm & Hm & Em); [done|done|done|by apply short_within_2|].
  unfold Encrypt. destruct (Round_run _ Hm) as (Hlo & Hro & e & Hle & He & Ee).
  split; [congruence|]. split; [done|]. exists e. split; [congruence|]. split; [done|].
  by rewrite (peq_qeq _ _ _ _ Ee), Em.
Qed.

Lemma unmask_0 f : Forall F3_range f → imap (unmask 0) f = f.
Proof.
  intros Hf. apply list_eq. intros i. rewrite list_lookup_imap. destruct (f !! i) as [x|] eqn:Hx; [|done].
  pose proof (Forall_lookup_1 _ _ _ _ Hf Hx) as Hr. unfold F3_range in Hr. simpl. f_equal. unfold unmask.
  assert (x = -1 ∨ x = 0 ∨ x = 1) as [-> | [-> | ->]] by lia; by destruct (i <? w)%nat.
Qed.
Lemma unmask_m1 f : length f = p → Forall F3_range f → short (imap (unmask (-1)) f).
Proof.
  intros Hl Hf. assert (∀ i x, unmask (-1) i x = if (i <? w)%nat then 1 else 0) as E.
  { intros i x. unfold unmask. change (Z.lnot (-1)) with 0. rewrite !Z.land_0_r. by destruct (i <? w)%nat. }
  split; [by rewrite length_imap|]. split.
  - apply Forall_lookup. intros i y. rewrite list_lookup_imap, fmap_Some. intros (x & _ & ->). rewrite E.
    unfold F3_range. destruct (i <? w)%nat; lia.
  - rewrite weight_imap; [pose proof w_range; lia|]. intros i x _. rewrite E.
    destruct (Nat.ltb_spec i w); split; intros ?; (done || lia).
Qed.

(** Everything decrypts to a short polynomial. *)
Lemma Decrypt_short c f ginv :
  length c = p → length f = p → length ginv = p →
  Forall Fq_range c → Forall (within 2) f → Forall (within 2) ginv → short (Decrypt c f ginv).
Proof.
  intros Hlc Hlf Hlg Hc Hf Hg. unfold Decrypt. cbv zeta.
  destruct (Rq_mult_small_run c f) as (Hl1 & Hr1 & _); [done..|].
  destruct (Rq_mult3_run _ Hr1) as (Hl2 & Hr2 & _). destruct (R3_fromRq_run _ Hr2) as (Hl3 & Hr3 & _).
  destruct (R3_mult_run (R3_fromRq (Rq_mult3 (Rq_mult_small c f))) ginv) as (Hl4 & Hr4 & _); [congruence|done..|].
  set (ev := R3_mult _ _) in *. rewrite Weightw_mask_run by done.
  case_decide as Hw; [|by apply unmask_m1]. by rewrite unmask_0.
Qed.
End products.

(** ** Decryption inverts encryption *)

Section correctness.
Context `{!Params, !ParamsOk}.

(** A key pair: [h = g/(3f)] modulo [q], and [ginv = 1/g] modulo 3. *)
Record key_pair (h f ginv : list Z) : Prop := {
  kp_h : length h = p ∧ Forall Fq_range h;
  kp_f : short f;
  kp_ginv : length ginv = p ∧ Forall F3_range ginv;
  kp_g : ∃ g, length g = p ∧ Forall F3_range g ∧ qeq p q (h * ([3] * f)) g ∧ qeq p 3 (ginv * g) [1] }.

Section algebra.
Context (d : nat) (m : Z).
Add Ring quot_c : (quot_ring d m) (setoid (qeq_equiv d m) (quot_ext d m)).

Lemma sum_of_products s1 s2 f g r e :
  qeq d m s1 (g * r) → qeq d m s2 (e * f) → qeq d m (s1 + [3] * s2) (g * r + [3] * f * e).
Proof. intros -> ->. ring. Qed.
Lemma times_3f h f g r e c :
  qeq d m (h * ([3] * f)) g → qeq d m c (h * r + e) → qeq d m ([3] * (c * f)) (g * r + [3] * f * e).
Proof. intros <- ->. ring. Qed.
Lemma times_ginv ginv g r e3 : qeq d m (ginv * g) [1] → qeq d m e3 (g * r) → qeq d m (e3 * ginv) r.
Proof. intros Eg ->. transitivity (ginv * g * r)%P; [ring|]. rewrite Eg. ring. Qed.
Lemma public_key h f g finv :
  qeq d m (finv * ([3] * f)) [1] → qeq d m h (finv * g) → qeq d m (h * ([3] * f)) g.
Proof. intros Ef ->. transitivity (finv * ([3] * f) * g)%P; [ring|]. rewrite Ef. ring. Qed.
Lemma vanish a b : qeq d m (a + [m] * b) a.
Proof. rewrite modulus_zero. ring. Qed.
End algebra.

(** Equal in the quotient, and reduced: equal. *)
Lemma reduced_eq m k a b :
  m = 2 * k + 1 → 1 ≤ k → length a = p → length b = p → Forall (within k) a → Forall (within k) b →
  qeq p m a b → a = b.
Proof.
  intros Hm Hk Hla Hlb Ha Hb E. pose proof p_range. apply list_eq_co; [congruence|]. intros i.
  apply (within_eq k m); [done|apply within_co; [lia|done]|apply within_co; [lia|done]|].
  apply (qeq_cong p m); (done || lia).
Qed.

Section exact.
Context (h f ginv g r e : list Z).
Context (Hf : short f) (Hr : short r).
Context (Hlg : length g = p) (Hg : Forall F3_range g) (Hle : length e = p) (He : Forall F3_range e).

(** The integers that decryption computes with: [g r + 3 f e], none of which
    exceeds [8 w]. *)
Lemma exact_product :
  ∃ t, length t = p ∧ Forall Fq_range t ∧ qeq p q t (g * r + [3] * f * e) ∧ qeq p 3 t (g * r).
Proof.
  destruct (short_product g r) as (s1 & Hl1 & Hs1 & E1); [done..|].
  destruct (short_product e f) as (s2 & Hl2 & Hs2 & E2); [done..|].
  pose proof q_bound as Hb. destruct q12_spec as (Eq & _).
  exists (s1 + map (Z.mul 3) s2)%P. split; [|split; [|split]].
  - unfold padd. rewrite length_tabulate, length_map. lia.
  - apply Forall_lookup. intros i x Hx. apply co_lookup in Hx as <-. rewrite co_add, co_map by lia.
    assert (within (2 * Z.of_nat w) (co s1 i) ∧ within (2 * Z.of_nat w) (co s2 i)) as [Hc1 Hc2]
      by (split; apply within_co; (done || lia)).
    unfold Fq_range, within in *. lia.
  - rewrite (peq_qeq _ _ _ _ (map_mul_poly 3 s2)). by apply sum_of_products.
  - by rewrite (peq_qeq _ _ _ _ (map_mul_poly 3 s2)), vanish.
Qed.

End exact.

Lemma Decrypt_Encrypt h f ginv r :
  key_pair h f ginv → short r → Decrypt (Encrypt r h) f ginv = r.
Proof.
  intros [[Hlh Hh] Hf [Hlv Hv] (g & Hlg & Hg & Ehf & Evg)] Hr.
  destruct q12_spec as (Eq & _ & Hq12). pose proof Hf as (Hlf & _). pose proof Hr as (Hlr & Hr3 & Hw).
  destruct (Encrypt_run r h) as (Hlc & Hc & e & Hle & He & Ec); [done..|].
  set (c := Encrypt r h) in *.
  destruct (exact_product f g r e) as (t & Hlt & Ht & Etq & Et3); [done..|].
  destruct (Rq_mult_small_run c f) as (Hl1 & Hr1 & E1); [done|done| |by apply short_within_2|].
  { eapply Forall_impl; [exact Hc|]. by intros x [? _]. }
  destruct (Rq_mult3_run _ Hr1) as (Hl2 & Hr2 & E2).
  assert (Rq_mult3 (Rq_mult_small c f) = t) as Et.
  { apply (reduced_eq q q12); [done|lia|congruence|done..|]. rewrite E2, E1, Etq. by apply (times_3f p q h). }
  unfold Decrypt. cbv zeta. rewrite Et. destruct (R3_fromRq_run t Ht) as (Hl3 & Hr3' & E3).
  destruct (R3_mult_run (R3_fromRq t) ginv) as (Hl4 & Hr4 & E4); [congruence|done|done|by apply F3_within_2|].
  assert (R3_mult (R3_fromRq t) ginv = r) as ->.
  { apply (reduced_eq 3 1); try (done || lia). rewrite E4. apply (times_ginv p 3 ginv g); [done|]. by rewrite E3. }
  rewrite Weightw_mask_run by done. rewrite decide_True by done. by apply unmask_0.
Qed.
End correctness.
