(* ===== verification/NtruKem.v ===== *)
(** * The key encapsulation mechanism of [sntrup761.c]

    Key generation, the hashes, encapsulation and decapsulation, down to the
    interface of [crypto_api.h]. Random bytes come from a supply that the
    functions consume, and running out of it is the only way to get stuck; the
    hash function is a parameter. The theorems say that decapsulation yields
    the session key of encapsulation, and that any other ciphertext yields a
    key derived from a secret of the receiver. *)

From S2P Require Import Prelude NtruInt NtruCode NtruSort NtruPoly NtruRing NtruRecip NtruCore.

(** [crypto_hash_sha512], through OpenSSL. *)
Class Sha512 := { crypto_hash_sha512 : bytes → bytes }.
Class Sha512Laws `{!Sha512} : Prop := { sha512_length x : length (crypto_hash_sha512 x) = 64%nat }.

(** [n] bytes at a pointer. *)
Definition rdn (n : nat) (s : bytes) : out bytes :=
  if (n <=? length s)%nat then Ok (take n s) else Fault Foob.

(** ** Randomness *)

(** Code that uses random bytes. *)
Abbreviation R := (M bytes).

Definition randombytes (n : nat) : R bytes := λ s,
  if (n <=? length s)%nat then Ok (take n s, drop n s) else Fault Ffuel.

Definition urandom32 : R Z :=
  c ← randombytes 4;
  match c with
  | [c0; c1; c2; c3] =>
      mret (to_u32 (Zb c0 + Z.shiftl (Zb c1) 8 + Z.shiftl (Zb c2) 16 + Z.shiftl (Zb c3) 24))
  | _ => fail Foob
  end.

Fixpoint times {A} (n : nat) (m : R A) : R (list A) :=
  match n with
  | O => mret []
  | S n => x ← m; l ← times n m; mret (x :: l)
  end.

Section kem.
Context `{!Params, !Sha512}.

Definition Short_random : R (list Z) :=
  L ← times p urandom32;
  lift (Short_fromlist L).

Definition small_of (u : Z) : Z := to_i8 (to_u32 (Z.shiftr (to_u32 (Z.land u 0x3fffffff * 3)) 30 - 1)).
Definition Small_random : R (list Z) :=
  L ← times p urandom32;
  mret (map small_of L).

(** ** Keys *)

(** [for (;;) { Small_random(g); if (R3_recip(ginv,g) == 0) break; }] *)
Fixpoint keygen_loop (fuel : nat) : R (list Z * list Z) :=
  match fuel with
  | O => fail Ffuel
  | S fuel =>
      g ← Small_random;
      let '(mask, ginv) := R3_recip g in
      if mask =? 0 then mret (g, ginv) else keygen_loop fuel
  end.

(** [h,(f,ginv) = KeyGen()] *)
Definition KeyGen : R (list Z * list Z * list Z) :=
  n ← gets length;
  t ← keygen_loop (S n);
  let '(g, ginv) := t in
  f ← Short_random;
  let finv := (Rq_recip3 f).2 in
  mret (Rq_mult_small finv g, f, ginv).

Definition ZKeyGen : R (bytes * bytes) :=
  t ← KeyGen;
  let '(h, f, v) := t in
  pk ← lift (Rq_encode h);
  sk1 ← lift (Small_encode f);
  sk2 ← lift (Small_encode v);
  mret (pk, sk1 ++ sk2).

Definition ZEncrypt (r : list Z) (pk : bytes) : out bytes :=
  h ← Rq_decode pk;
  Rounded_encode (Encrypt r h).

Definition ZDecrypt (C sk : bytes) : out (list Z) :=
  f ← Small_decode sk;
  v ← Small_decode (drop Small_bytes sk);
  c ← Rounded_decode C;
  Ok (Decrypt c f v).

(** ** Hashes *)

Definition Hash_bytes : nat := 32.
Definition Confirm_bytes : nat := 32.
Definition Inputs_bytes : nat := Small_bytes.
Definition Ciphertexts_bytes : nat := Rounded_bytes.
Definition SecretKeys_bytes : nat := 2 * Small_bytes.
Definition PublicKeys_bytes : nat := Rq_bytes.

Definition Hash_prefix (b : Z) (inp : bytes) : out bytes :=
  rdn 32 (crypto_hash_sha512 (bZ b :: inp)).

Definition HashConfirm (r pk cache : bytes) : out bytes :=
  r ← rdn Inputs_bytes r;
  x ← Hash_prefix 3 r;
  cache ← rdn Hash_bytes cache;
  Hash_prefix 2 (x ++ cache).

Definition HashSession (b : Z) (y z : bytes) : out bytes :=
  y ← rdn Inputs_bytes y;
  x ← Hash_prefix 3 y;
  z ← rdn (Ciphertexts_bytes + Confirm_bytes) z;
  Hash_prefix b (x ++ z).

(** ** Encapsulation *)

Definition KEM_KeyGen : R (bytes * bytes) :=
  t ← ZKeyGen;
  let '(pk, sk) := t in
  rho ← randombytes Inputs_bytes;
  cache ← lift (Hash_prefix 4 pk);
  mret (pk, sk ++ pk ++ rho ++ cache).

(** [c,r_enc = Hide(r,pk,cache)] *)
Definition Hide (r : list Z) (pk cache : bytes) : out (bytes * bytes) :=
  r_enc ← Small_encode r;
  c ← ZEncrypt r pk;
  h ← HashConfirm r_enc pk cache;
  Ok (c ++ h, r_enc).

Definition Encap (pk : bytes) : R (bytes * bytes) :=
  pk' ← lift (rdn PublicKeys_bytes pk);
  cache ← lift (Hash_prefix 4 pk');
  r ← Short_random;
  t ← lift (Hide r pk cache);
  let '(c, r_enc) := t in
  k ← lift (HashSession 1 r_enc c);
  mret (c, k).

(** [while (len-- > 0) differentbits |= ( *c++)^( *c2++)] *)
Fixpoint diff_bits (len : nat) (c c2 : bytes) (differentbits : Z) : out Z :=
  match len with
  | O => Ok differentbits
  | S len =>
      match c, c2 with
      | a :: c, b :: c2 => diff_bits len c c2 (to_u16 (Z.lor differentbits (Z.lxor (Zb a) (Zb b))))
      | _, _ => Fault Foob
      end
  end.

Definition Ciphertexts_diff_mask (c c2 : bytes) : out Z :=
  differentbits ← diff_bits (Ciphertexts_bytes + Confirm_bytes) c c2 0;
  Ok (Z.land 1 (Z.shiftr (differentbits - 1) 8) - 1).

(** [r_enc[i] ^= mask&(r_enc[i]^rho[i])] *)
Definition select_byte (mask : Z) (a b : byte) : byte :=
  bZ (Z.lxor (Zb a) (Z.land mask (Z.lxor (Zb a) (Zb b)))).

Definition Decap (c sk : bytes) : out bytes :=
  let pk := drop SecretKeys_bytes sk in
  let rho := drop PublicKeys_bytes pk in
  let cache := drop Inputs_bytes rho in
  r ← ZDecrypt c sk;
  t ← Hide r pk cache;
  let '(cnew, r_enc) := t in
  mask ← Ciphertexts_diff_mask c cnew;
  rho ← rdn Inputs_bytes rho;
  let r_enc := zip_with (select_byte mask) r_enc rho in
  HashSession (1 + mask) r_enc c.

(** ** [crypto_kem] *)

Definition crypto_kem_keypair : R (bytes * bytes) := KEM_KeyGen.
Definition crypto_kem_enc (pk : bytes) : R (bytes * bytes) := Encap pk.
Definition crypto_kem_dec (c sk : bytes) : out bytes := Decap c sk.
End kem.

(** ** Hashes and masks *)

Section lemmas.
Context `{!Params, !ParamsOk, !Sha512, !Sha512Laws}.

Definition hash (b : Z) (inp : bytes) : bytes := take 32 (crypto_hash_sha512 (bZ b :: inp)).
Definition confirm (r cache : bytes) : bytes := hash 2 (hash 3 (take Inputs_bytes r) ++ take Hash_bytes cache).
Definition session_key (b : Z) (y z : bytes) : bytes :=
  hash b (hash 3 (take Inputs_bytes y) ++ take (Ciphertexts_bytes + Confirm_bytes) z).

Lemma rdn_run n s : (n ≤ length s)%nat → rdn n s = Ok (take n s).
Proof. intros Hn. unfold rdn. by destruct (Nat.leb_spec n (length s)); [|lia]. Qed.

Lemma Hash_prefix_run b inp : Hash_prefix b inp = Ok (hash b inp).
Proof. apply rdn_run. rewrite sha512_length. lia. Qed.
Lemma length_hash b inp : length (hash b inp) = Hash_bytes.
Proof. unfold hash. by rewrite length_take, sha512_length. Qed.

Lemma HashConfirm_run r pk cache :
  (Inputs_bytes ≤ length r)%nat → (Hash_bytes ≤ length cache)%nat → HashConfirm r pk cache = Ok (confirm r cache).
Proof.
  intros Hr Hc. unfold HashConfirm. unfold mbind, out_bind. rewrite (rdn_run Inputs_bytes) by done.
  rewrite Hash_prefix_run, rdn_run by done. apply Hash_prefix_run.
Qed.
Lemma HashSession_run b y z :
  (Inputs_bytes ≤ length y)%nat → (Ciphertexts_bytes + Confirm_bytes ≤ length z)%nat →
  HashSession b y z = Ok (session_key b y z).
Proof.
  intros Hr Hc. unfold HashSession. unfold mbind, out_bind. rewrite (rdn_run Inputs_bytes) by done.
  rewrite Hash_prefix_run, rdn_run by done. apply Hash_prefix_run.
Qed.

Lemma lxor_bytes a b : 0 ≤ Z.lxor (Zb a) (Zb b) < 256 ∧ (Z.lxor (Zb a) (Zb b) = 0 ↔ a = b).
Proof.
  pose proof (Zb_range a). pose proof (Zb_range b).
  assert (Z.shiftr (Z.lxor (Zb a) (Zb b)) 8 = 0) as E.
  { rewrite Z.shiftr_lxor, !Z.shiftr_div_pow2, !Z.div_small by lia. done. }
  split; [rewrite Z.shiftr_div_pow2 in E by lia; pose proof (Z.div_mod (Z.lxor (Zb a) (Zb b)) (2 ^ 8) ltac:(lia));
    pose proof (Z.mod_pos_bound (Z.lxor (Zb a) (Zb b)) (2 ^ 8) ltac:(lia)); lia|].
  rewrite Z.lxor_eq_0_iff. split; [|by intros ->]. intros Eab. rewrite <- (bZ_Zb a), Eab. apply bZ_Zb.
Qed.

(** The differing bits are zero exactly for equal strings. *)
Lemma diff_bits_run len c c2 d0 :
  (len ≤ length c)%nat → (len ≤ length c2)%nat → 0 ≤ d0 < 256 →
  ∃ d, diff_bits len c c2 d0 = Ok d ∧ 0 ≤ d < 256 ∧ (d = 0 ↔ d0 = 0 ∧ take len c = take len c2).
Proof.
  revert c c2 d0. induction len as [|len IH]; intros c c2 d0 Hc Hc2 Hd.
  { exists d0. split; [done|]. split; [done|]. tauto. }
  destruct c as [|a c], c2 as [|b c2]; simpl in Hc, Hc2; try lia. cbn [diff_bits take].
  destruct (lxor_bytes a b) as [Hx Ex].
  assert (0 ≤ Z.lor d0 (Z.lxor (Zb a) (Zb b)) < 256) as Hl.
  { assert (Z.shiftr (Z.lor d0 (Z.lxor (Zb a) (Zb b))) 8 = 0) as E.
    { rewrite Z.shiftr_lor, !Z.shiftr_div_pow2, !Z.div_small by lia. done. }
    rewrite Z.shiftr_div_pow2 in E by lia. pose proof (Z.div_mod (Z.lor d0 (Z.lxor (Zb a) (Zb b))) (2 ^ 8) ltac:(lia)).
    pose proof (Z.mod_pos_bound (Z.lor d0 (Z.lxor (Zb a) (Zb b))) (2 ^ 8) ltac:(lia)). lia. }
  rewrite to_u16_id by lia. destruct (IH c c2 _ ltac:(lia) ltac:(lia) Hl) as (d & E & Hr & Hiff).
  exists d. split; [done|]. split; [done|]. rewrite Hiff, Z.lor_eq_0_iff, Ex.
  split; [intros [[-> ->] ->]; done|intros [-> Eq]; by injection Eq].
Qed.

Lemma Ciphertexts_diff_mask_run c c2 :
  let n := (Ciphertexts_bytes + Confirm_bytes)%nat in
  (n ≤ length c)%nat → (n ≤ length c2)%nat →
  Ciphertexts_diff_mask c c2 = Ok (if decide (take n c = take n c2) then 0 else -1).
Proof.
  intros n Hc Hc2. unfold Ciphertexts_diff_mask. fold n.
  destruct (diff_bits_run n c c2 0 Hc Hc2 ltac:(lia)) as (d & E & Hd & Hiff). unfold mbind, out_bind. rewrite E. f_equal.
  case_decide as Heq.
  - rewrite (proj2 Hiff) by done. done.
  - assert (d ≠ 0) by (intros ->; by apply Heq, Hiff). rewrite Z.shiftr_div_pow2, Z.div_small by lia. done.
Qed.

Lemma select_run (b : bool) l k :
  length l = length k → zip_with (select_byte (if b then 0 else -1)) l k = if b then l else k.
Proof.
  revert k. induction l as [|x l IH]; intros [|y k] Hl; try done; [by destruct b|]. injection Hl as Hl.
  cbn [zip_with]. rewrite IH by done. unfold select_byte. destruct b.
  - by rewrite Z.land_0_l, Z.lxor_0_r, bZ_Zb.
  - by rewrite Z.land_m1_l, <- Z.lxor_assoc, Z.lxor_nilpotent, Z.lxor_0_l, bZ_Zb.
Qed.
End lemmas.

(** ** Random polynomials *)

(** The one fault left: the supply of random bytes ends. *)
Definition starved : fault → Prop := λ f, f = Ffuel.

Section random.
Context `{!Params, !ParamsOk}.

Lemma randombytes_wp n s :
  wp starved (randombytes n) (λ c s', length c = n ∧ length s = (n + length s')%nat) s.
Proof.
  unfold wp, randombytes. destruct (Nat.leb_spec n (length s)); [|done].
  rewrite length_take, length_drop. lia.
Qed.

Lemma urandom32_wp s :
  wp starved urandom32 (λ u s', 0 ≤ u < 2 ^ 32 ∧ length s = (4 + length s')%nat) s.
Proof.
  apply wp_bind. eapply wp_mono; [apply randombytes_wp|]. intros c s' [Hl Hs].
  destruct c as [|c0 [|c1 [|c2 [|c3 [|]]]]]; simpl in Hl; try lia. apply wp_ret. split; [|done].
  unfold to_u32. apply Z.mod_pos_bound. lia.
Qed.

Lemma times_wp {A} (m : R A) (P : A → Prop) k n s :
  (∀ s, wp starved m (λ x s', P x ∧ length s = (k + length s')%nat) s) →
  wp starved (times n m) (λ l s', length l = n ∧ Forall P l ∧ length s = (n * k + length s')%nat) s.
Proof.
  intros Hm. revert s. induction n as [|n IH]; intros s; cbn [times]; [by apply wp_ret|].
  apply wp_bind. eapply wp_mono; [apply Hm|]. intros x s1 [Hx Hs1]. apply wp_bind.
  eapply wp_mono; [apply IH|]. intros l s2 (Hl & HP & Hs2). apply wp_ret. simpl. split; [lia|]. split; [by constructor|lia].
Qed.

Lemma Short_random_wp s : wp starved Short_random (λ f _, short f) s.
Proof.
  apply wp_bind. eapply wp_mono; [apply (times_wp _ (λ u, 0 ≤ u < 2 ^ 32) 4), urandom32_wp|]. intros L s' (Hl & HL & _).
  destruct (Short_fromlist_short L Hl HL) as (f & E & Hf). apply wp_lift. by rewrite E.
Qed.

Lemma small_of_range u : F3_range (small_of u).
Proof.
  unfold small_of. assert (0 ≤ Z.land u 0x3fffffff < 2 ^ 30) as Hl.
  { change 0x3fffffff with (Z.ones 30). rewrite Z.land_ones by lia. apply Z.mod_pos_bound. lia. }
  rewrite (to_u32_id (_ * 3)) by lia. rewrite Z.shiftr_div_pow2 by lia.
  assert (∃ k, Z.land u 0x3fffffff * 3 / 2 ^ 30 = k ∧ (k = 0 ∨ k = 1 ∨ k = 2)) as (k & -> & Hk).
  { eexists. split; [done|]. assert (0 ≤ Z.land u 0x3fffffff * 3 / 2 ^ 30) by (apply Z.div_pos; lia).
    assert (Z.land u 0x3fffffff * 3 / 2 ^ 30 < 3) by (apply Z.div_lt_upper_bound; lia). lia. }
  unfold F3_range. destruct Hk as [-> | [-> | ->]]; vm_compute (to_i8 _); lia.
Qed.

Lemma Small_random_wp s :
  wp starved Small_random
    (λ g s', length g = p ∧ Forall F3_range g ∧ length s = (p * 4 + length s')%nat) s.
Proof.
  apply wp_bind. eapply wp_mono; [apply (times_wp _ (λ u, 0 ≤ u < 2 ^ 32) 4), urandom32_wp|]. intros L s' (Hl & HL & Hs).
  apply wp_ret. rewrite length_map. split; [done|]. split; [|done]. apply Forall_fmap, Forall_true.
  intros u. apply small_of_range.
Qed.

Lemma keygen_loop_wp fuel s :
  wp starved (keygen_loop fuel)
    (λ t _, (length t.1 = p ∧ Forall F3_range t.1) ∧ (length t.2 = p ∧ Forall F3_range t.2) ∧
            qeq p 3 (t.2 * t.1) [1]) s.
Proof.
  revert s. induction fuel as [|fuel IH]; intros s; cbn [keygen_loop]; [by apply wp_fail|].
  apply wp_bind. eapply wp_mono; [apply Small_random_wp|]. intros g s' (Hl & Hg & _).
  pose proof (R3_recip_ok g Hl Hg) as Hr. destruct (R3_recip g) as [mask ginv]. destruct Hr as (Hl' & Hg' & Hq).
  destruct (Z.eqb_spec mask 0) as [->|]; [|apply IH]. apply wp_ret. simpl. auto.
Qed.

(** The fuel of the loop is enough: more of it changes nothing. *)
Lemma keygen_loop_fuel fuel s :
  (length s < fuel)%nat → keygen_loop fuel s = keygen_loop (S (length s)) s.
Proof.
  assert (∀ f1 f2 s, (length s < f1)%nat → (length s < f2)%nat → keygen_loop f1 s = keygen_loop f2 s) as Hall;
    [|intros Hf; apply Hall; lia].
  clear fuel s. induction f1 as [|f1 IH]; intros [|f2] s Hf1 Hf2; try lia. cbn [keygen_loop].
  unfold mbind, M_bind. pose proof (Small_random_wp s) as Hw. unfold wp in Hw.
  destruct (Small_random s) as [[g s']|]; [|done]. destruct Hw as (_ & _ & Hs). pose proof p_range.
  destruct (R3_recip g) as [mask ginv]. destruct (mask =? 0); [done|]. apply IH; lia.
Qed.
End random.

(** ** Keys *)

Section keys.
Context `{!Params, !ParamsOk, !Sha512, !Sha512Laws}.

Lemma KeyGen_wp s :
  wp starved KeyGen
    (λ t _, let '(h, f, v) := t in
      (length h = p ∧ Forall Fq_range h) ∧ short f ∧ (length v = p ∧ Forall F3_range v) ∧
      ((Rq_recip3 f).1 = 0 → key_pair h f v)) s.
Proof.
  apply wp_bind, wp_gets, wp_bind. eapply wp_mono; [apply keygen_loop_wp|].
  intros [g v] s1 ([Hlg Hg] & [Hlv Hv] & Eg). cbn [fst snd] in *. apply wp_bind. eapply wp_mono; [apply Short_random_wp|].
  intros f s2 Hf. pose proof Hf as (Hlf & Hf3 & _). apply wp_ret. pose proof (Rq_recip3_ok f Hlf Hf3) as Hr.
  destruct (Rq_recip3 f) as [mask finv]. destruct Hr as (Hli & Hi & Ei). cbn [fst snd].
  destruct (Rq_mult_small_run finv g) as (Hlh & Hh & Eh); [done..|by apply F3_within_2|].
  split; [done|]. split; [done|]. split; [done|]. intros Hm. split; [done..|].
  exists g. split; [done|]. split; [done|]. split; [|done]. apply (public_key p q _ f g finv); auto.
Qed.

(** What the bytes of a key pair hold. *)
Record kem_key (pk sk : bytes) (h f v : list Z) (rho : bytes) : Prop := {
  kk_h : length h = p ∧ Forall Fq_range h;
  kk_f : short f;
  kk_v : length v = p ∧ Forall F3_range v;
  kk_pair : (Rq_recip3 f).1 = 0 → key_pair h f v;
  kk_pk : length pk = PublicKeys_bytes;
  kk_decode_h rest : Rq_decode (pk ++ rest) = Ok h;
  kk_decode_f : Small_decode sk = Ok f;
  kk_decode_v : Small_decode (drop Small_bytes sk) = Ok v;
  kk_sk : drop SecretKeys_bytes sk = pk ++ rho ++ hash 4 pk;
  kk_rho : length rho = Inputs_bytes;
  kk_len : length sk = (SecretKeys_bytes + PublicKeys_bytes + Inputs_bytes + Hash_bytes)%nat }.

Lemma KEM_KeyGen_wp s :
  wp starved KEM_KeyGen (λ t _, ∃ h f v rho, kem_key t.1 t.2 h f v rho) s.
Proof.
  apply wp_bind. apply wp_bind. eapply wp_mono; [apply KeyGen_wp|]. intros [[h f] v] s1 ([Hlh Hh] & Hf & [Hlv Hv] & Hk).
  pose proof Hf as (Hlf & Hf3 & _).
  destruct (Rq_roundtrip h Hh Hlh) as (pk & Epk & Hlpk & Hdh).
  destruct (Small_roundtrip f Hf3 Hlf) as (sk1 & E1 & Hl1 & Hd1).
  destruct (Small_roundtrip v Hv Hlv) as (sk2 & E2 & Hl2 & Hd2).
  apply wp_bind, wp_lift. rewrite Epk. apply wp_bind, wp_lift. rewrite E1. apply wp_bind, wp_lift. rewrite E2.
  apply wp_ret, wp_bind. eapply wp_mono; [apply randombytes_wp|]. intros rho s2 [Hlr _].
  apply wp_bind, wp_lift. rewrite Hash_prefix_run. apply wp_ret. cbn [fst snd]. exists h, f, v, rho.
  split; try done.
  - rewrite <- app_assoc. apply Hd1.
  - rewrite <- app_assoc, drop_app_length' by done. apply Hd2.
  - apply drop_app_length'. rewrite length_app. unfold SecretKeys_bytes. lia.
  - rewrite !length_app, length_hash, Hlr, Hl1, Hl2, Hlpk. unfold SecretKeys_bytes, PublicKeys_bytes. lia.
Qed.

(** ** Encapsulation and decapsulation *)

Lemma Hide_run r pk cache h :
  short r → Rq_decode pk = Ok h → length h = p → Forall Fq_range h → (Hash_bytes ≤ length cache)%nat →
  ∃ C r_enc, Hide r pk cache = Ok (C ++ confirm r_enc cache, r_enc) ∧
    length C = Ciphertexts_bytes ∧ length r_enc = Inputs_bytes ∧
    (∀ pk' cache', Rq_decode pk' = Ok h → (Hash_bytes ≤ length cache')%nat →
       Hide r pk' cache' = Ok (C ++ confirm r_enc cache', r_enc)) ∧
    ∀ rest, Rounded_decode (C ++ rest) = Ok (Encrypt r h).
Proof.
  intros Hr Eh Hlh Hh Hc. pose proof Hr as (Hlr & Hr3 & _).
  destruct (Small_roundtrip r Hr3 Hlr) as (r_enc & Er & Hle & _).
  destruct (Encrypt_run r h Hr Hlh Hh) as (Hlc & Hcr & _).
  destruct (Rounded_roundtrip _ Hcr Hlc) as (C & EC & HlC & HdC). exists C, r_enc.
  assert (∀ pk' cache', Rq_decode pk' = Ok h → (Hash_bytes ≤ length cache')%nat →
    Hide r pk' cache' = Ok (C ++ confirm r_enc cache', r_enc)) as Hall.
  { intros pk' cache' E' Hc'. unfold Hide, ZEncrypt, mbind, out_bind. rewrite Er, E', EC, HashConfirm_run; [done| |done].
    unfold Inputs_bytes. lia. }
  split; [by apply Hall|]. done.
Qed.

Lemma length_confirm r cache : length (confirm r cache) = Confirm_bytes.
Proof. apply length_hash. Qed.

Lemma small_loop_2 n s : (S n ≤ length s)%nat →
  ∃ f, small_decode_loop n s = Ok f ∧ length f = (4 * n + 1)%nat ∧ Forall (within 2) f.
Proof.
  intros Hl. destruct (small_decode_total n s Hl) as (f & E & Hlf & Hf). exists f. split; [done|]. split; [done|].
  eapply Forall_impl; [exact Hf|]. unfold within. lia.
Qed.

Lemma ZDecrypt_run c sk :
  (Ciphertexts_bytes ≤ length c)%nat → (SecretKeys_bytes ≤ length sk)%nat → ∃ r, ZDecrypt c sk = Ok r ∧ short r.
Proof.
  intros Hc Hsk. unfold SecretKeys_bytes in Hsk. destruct p_quarter as [Ep Es]. rewrite Es in Hsk.
  destruct (small_loop_2 (p / 4) sk) as (f & Ef & Hlf & Hf); [lia|].
  destruct (small_loop_2 (p / 4) (drop Small_bytes sk)) as (v & Ev & Hlv & Hv); [rewrite length_drop; lia|].
  destruct (Rounded_decode_total c Hc) as (c' & Ec & Hlc & Hc').
  exists (Decrypt c' f v). split.
  - unfold ZDecrypt, Small_decode, mbind, out_bind. by rewrite Ef, Ev, Ec.
  - apply Decrypt_short; [done|congruence|congruence| |done|done].
    eapply Forall_impl; [exact Hc'|]. by intros x [? _].
Qed.

(** Decapsulation of any ciphertext: the encapsulated key if encrypting again
    gives the same ciphertext, otherwise a key from the secret [rho]. *)
Lemma Decap_run c sk :
  let n := (Ciphertexts_bytes + Confirm_bytes)%nat in
  let pk := drop SecretKeys_bytes sk in
  let rho := drop PublicKeys_bytes pk in
  let cache := drop Inputs_bytes rho in
  (n ≤ length c)%nat → (SecretKeys_bytes + PublicKeys_bytes + Inputs_bytes + Hash_bytes ≤ length sk)%nat →
  ∃ r cnew r_enc, ZDecrypt c sk = Ok r ∧ short r ∧ Hide r pk cache = Ok (cnew, r_enc) ∧
    Decap c sk = Ok (if decide (take n c = cnew) then session_key 1 r_enc c else session_key 0 (take Inputs_bytes rho) c).
Proof.
  intros n pk rho cache Hc Hsk.
  assert (length pk = length sk - SecretKeys_bytes)%nat as Hpk by apply length_drop.
  assert (length rho = length pk - PublicKeys_bytes)%nat as Hrho by apply length_drop.
  assert (length cache = length rho - Inputs_bytes)%nat as Hcache by apply length_drop.
  destruct (ZDecrypt_run c sk) as (r & Er & Hr); [lia..|].
  destruct (Rq_decode_total pk) as (h & Eh & Hlh & Hh); [unfold PublicKeys_bytes in *; lia|].
  destruct (Hide_run r pk cache h) as (C & r_enc & EH & HlC & Hle & _); [done..|lia|].
  exists r, (C ++ confirm r_enc cache), r_enc. split; [done|]. split; [done|]. split; [done|].
  unfold Decap, mbind, out_bind. fold pk rho cache. rewrite Er, EH.
  assert (length (C ++ confirm r_enc cache) = n) as Hln by (rewrite length_app, length_confirm; lia).
  rewrite Ciphertexts_diff_mask_run by (fold n; lia). fold n. rewrite (take_ge (C ++ _)) by lia.
  rewrite rdn_run by lia.
  assert (length r_enc = length (take Inputs_bytes rho)) as Hl by (rewrite length_take; lia).
  case_decide.
  - rewrite (select_run true) by done. apply HashSession_run; lia.
  - rewrite (select_run false) by done. apply HashSession_run; lia.
Qed.

(** Encapsulation to any bytes that are long enough to be a key. *)
Lemma Encap_total pk t :
  (PublicKeys_bytes ≤ length pk)%nat →
  wp starved (Encap pk)
    (λ o _, length o.1 = (Ciphertexts_bytes + Confirm_bytes)%nat ∧ length o.2 = Hash_bytes) t.
Proof.
  intros Hl. destruct (Rq_decode_total pk) as (h & Eh & Hlh & Hh); [done|]. unfold Encap.
  apply wp_bind, wp_lift. rewrite rdn_run by done. apply wp_bind, wp_lift. rewrite Hash_prefix_run.
  apply wp_bind. eapply wp_mono; [apply Short_random_wp|]. intros r s1 Hr.
  destruct (Hide_run r pk (hash 4 (take PublicKeys_bytes pk)) h) as (C & r_enc & EH & HlC & Hle & _);
    [done..|by rewrite length_hash|].
  apply wp_bind, wp_lift. rewrite EH. apply wp_bind, wp_lift.
  rewrite HashSession_run; [|lia|rewrite length_app, length_confirm; lia]. apply wp_ret. cbn [fst snd].
  split; [rewrite length_app, length_confirm; lia|apply length_hash].
Qed.

Lemma Encap_Decap pk sk h f v rho rest t :
  kem_key pk sk h f v rho →
  wp starved (Encap (pk ++ rest))
    (λ o _, length o.1 = (Ciphertexts_bytes + Confirm_bytes)%nat ∧ length o.2 = Hash_bytes ∧
      ((Rq_recip3 f).1 = 0 → ∀ rest', Decap (o.1 ++ rest') sk = Ok o.2)) t.
Proof.
  intros [[Hlh Hh] Hf [Hlv Hv] Hpair Hpk Hdh Hdf Hdv Hsk Hrho Hlen]. unfold Encap.
  apply wp_bind, wp_lift. rewrite rdn_run by (rewrite length_app; lia). rewrite take_app_length' by done.
  apply wp_bind, wp_lift. rewrite Hash_prefix_run. apply wp_bind. eapply wp_mono; [apply Short_random_wp|].
  intros r s1 Hr. destruct (Hide_run r (pk ++ rest) (hash 4 pk) h) as (C & r_enc & EH & HlC & Hle & Hall & Hdec);
    [done..|by rewrite length_hash|].
  apply wp_bind, wp_lift. rewrite EH. apply wp_bind, wp_lift.
  rewrite HashSession_run; [|lia|rewrite length_app, length_confirm; lia]. apply wp_ret. cbn [fst snd].
  split; [rewrite length_app, length_confirm; lia|]. split; [apply length_hash|]. intros Hm rest'.
  set (c := C ++ confirm r_enc (hash 4 pk)). assert (length c = (Ciphertexts_bytes + Confirm_bytes)%nat) as Hlc.
  { unfold c. rewrite length_app, length_confirm. lia. }
  destruct (Decap_run (c ++ rest') sk) as (r' & cnew & r_enc' & Er & _ & EH' & ->); [rewrite length_app; lia|lia|].
  assert (r' = r) as ->.
  { unfold ZDecrypt, mbind, out_bind in Er. unfold c in Er. rewrite Hdf, Hdv, <- !app_assoc, Hdec in Er.
    injection Er as <-. apply Decrypt_Encrypt; [by apply Hpair|done]. }
  rewrite Hsk, !drop_app_length' in EH' by done. rewrite Hall in EH' by (apply Hdh || by rewrite length_hash).
  injection EH' as <- <-. fold c. rewrite take_app_length' by done. rewrite decide_True by done.
  unfold session_key. rewrite take_app_length' by done. by rewrite (take_ge c) by lia.
Qed.
End keys.

(** ** The interface *)


(** C17: decapsulation of any bytes of the right length succeeds. If encrypting
    the decrypted input again gives the same ciphertext, the key is derived from
    that input, otherwise from the receiver's secret [rho] under another
    prefix. *)
Theorem decapsulation_rejects_implicitly `{!Params, !ParamsOk, !Sha512, !Sha512Laws} c sk :
  let n := (Ciphertexts_bytes + Confirm_bytes)%nat in
  let pk := drop SecretKeys_bytes sk in
  let rho := drop PublicKeys_bytes pk in
  let cache := drop Inputs_bytes rho in
  (n ≤ length c)%nat → (SecretKeys_bytes + PublicKeys_bytes + Inputs_bytes + Hash_bytes ≤ length sk)%nat →
  ∃ r cnew r_enc, ZDecrypt c sk = Ok r ∧ short r ∧ Hide r pk cache = Ok (cnew, r_enc) ∧
    crypto_kem_dec c sk =
      Ok (if decide (take n c = cnew) then session_key 1 r_enc c else session_key 0 (take Inputs_bytes rho) c).
Proof. apply Decap_run. Qed.

(** *** Instances *)

Definition size5 : Params := {| p := 5; q := 19; w := 1 |}.
Lemma size5_ok : @ParamsOk size5.
Proof. params_ok. Qed.

Definition pad64 : Sha512 := {| crypto_hash_sha512 x := take 64 (x ++ replicate 64 x00) |}.
Lemma pad64_ok : @Sha512Laws pad64.
Proof. split. intros x. cbn [pad64 crypto_hash_sha512]. rewrite length_take, length_app, length_replicate. lia. Qed.

Definition supply : bytes := map (λ i, bZ (Z.of_nat (i * i * 37 + i * 11 + 129))) (seq 0 60).

Definition out_val {A} (d : A) (o : out A) : A := match o with Ok a => a | Fault _ => d end.
Definition toy_keys : bytes * bytes * bytes :=
  Eval vm_compute in out_val ([], [], []) (@crypto_kem_keypair size5 pad64 supply).
Definition toy_f : list Z := Eval vm_compute in out_val [] (@Small_decode size5 toy_keys.1.2).
Definition toy_enc : bytes * bytes * bytes :=
  Eval vm_compute in out_val ([], [], []) (@crypto_kem_enc size5 pad64 (toy_keys.1.1 ++ []) supply).


Lemma decapsulation_rejects_implicitly_witness :
  ∃ r cnew r_enc, @ZDecrypt size5 (replicate 42 x07) (replicate 42 x01) = Ok r ∧
    @short size5 r ∧
    @Hide size5 pad64 r (drop (@SecretKeys_bytes size5) (replicate 42 x01))
      (drop (@Inputs_bytes size5) (drop (@PublicKeys_bytes size5)
        (drop (@SecretKeys_bytes size5) (replicate 42 x01)))) = Ok (cnew, r_enc).
Proof.
  destruct (@decapsulation_rejects_implicitly size5 size5_ok pad64 pad64_ok (replicate 42 x07) (replicate 42 x01))
    as (r & cnew & r_enc & Hr & Hs & Hh & _); [vm_compute; lia..|].
  exists r, cnew, r_enc. auto.
Defined.
