(* ===== verification/Curve25519.v ===== *)
(** * Scalar multiplication on Curve25519

    [smult_curve25519_ref.c]: field elements as 32 limbs of eight bits in
    unsigned integers, with the carries of the source, and the Montgomery
    ladder on them. The theorem is a refinement: for all scalars and points
    the bytes are those of the ladder of RFC 7748 computed with integers modulo
    [2^255 - 19], so no carry is lost and nothing overflows. *)

From Stdlib Require Import Zpow_facts.
From S2P Require Import Prelude NtruInt NtruPoly.

Definition prime25519 : Z := 2 ^ 255 - 19.

(** ** Limbs *)

(** [u += x; out[j] = u & 255; u >>= 8], for all limbs of [l] *)
Fixpoint carry (u : Z) (l : list Z) : list Z * Z :=
  match l with
  | [] => ([], u)
  | x :: l =>
      let u := to_u32 (u + x) in
      let t := carry (Z.shiftr u 8) l in
      (Z.land u 255 :: t.1, t.2)
  end.

Definition add (a b : list Z) : list Z :=
  let t := carry 0 (zip_with Z.add (take 31 a) (take 31 b)) in
  t.1 ++ [to_u32 (t.2 + (co a 31 + co b 31))].

Definition sub (a b : list Z) : list Z :=
  let t := carry 218 (zip_with (λ x y, x + 65280 - y) (take 31 a) (take 31 b)) in
  t.1 ++ [to_u32 (t.2 + (co a 31 - co b 31))].

Definition squeeze (a : list Z) : list Z :=
  let t := carry 0 (take 31 a) in
  let u := to_u32 (t.2 + co a 31) in
  let a31 := Z.land u 127 in
  let u := to_u32 (19 * Z.shiftr u 7) in
  let t := carry u t.1 in
  t.1 ++ [to_u32 (t.2 + a31)].

Definition minusp : list Z := 19 :: replicate 30 0 ++ [128].

Definition freeze (a : list Z) : list Z :=
  let aorig := a in
  let a := add a minusp in
  let negative := to_u32 (- Z.land (Z.shiftr (co a 31) 7) 1) in
  zip_with (λ x y, Z.lxor x (Z.land negative (Z.lxor y x))) a aorig.

(** [for (...) u += term(j)] *)
Definition sum_u32 (u : Z) (js : list nat) (term : nat → Z) : Z :=
  foldl (λ u j, to_u32 (u + to_u32 (term j))) u js.

Definition mult (a b : list Z) : list Z :=
  squeeze (map (λ i,
    let u := sum_u32 0 (seq 0 (S i)) (λ j, co a j * co b (i - j)) in
    sum_u32 u (seq (S i) (31 - i)) (λ j, 38 * co a j * co b (i + 32 - j))) (seq 0 32)).

Definition mult121665 (a : list Z) : list Z :=
  let t := carry 0 (map (Z.mul 121665) (take 31 a)) in
  let u := to_u32 (t.2 + 121665 * co a 31) in
  let o31 := Z.land u 127 in
  let u := to_u32 (19 * Z.shiftr u 7) in
  let t := carry u t.1 in
  t.1 ++ [to_u32 (t.2 + o31)].

(** The values of [j] in [for (j = from; cond(j); ++j)]. *)
Fixpoint up_while (fuel : nat) (cond : nat → bool) (j : nat) : list nat :=
  match fuel with
  | O => []
  | S fuel => if cond j then j :: up_while fuel cond (S j) else []
  end.

Definition square (a : list Z) : list Z :=
  squeeze (map (λ i,
    let u := sum_u32 0 (up_while 32 (λ j, j <? i - j)%nat 0) (λ j, co a j * co a (i - j)) in
    let u := sum_u32 u (up_while 32 (λ j, j <? i + 32 - j)%nat (S i)) (λ j, 38 * co a j * co a (i + 32 - j)) in
    let u := to_u32 (u * 2) in
    if Nat.even i then
      let u := to_u32 (u + co a (i / 2) * co a (i / 2)) in
      to_u32 (u + 38 * co a (i / 2 + 16) * co a (i / 2 + 16))
    else u) (seq 0 32)).

(** ** The ladder *)

(** Arrays of 64 limbs, in halves. *)
Abbreviation point := (list Z * list Z)%type.

Definition select_limb (b r s : Z) : Z * Z :=
  let bminus1 := to_u32 (b - 1) in
  let t := Z.land bminus1 (Z.lxor r s) in
  (Z.lxor s t, Z.lxor r t).
Definition select (r s : point) (b : Z) : point * point :=
  let one f := (zip_with (λ x y, f (select_limb b x y)) r.1 s.1, zip_with (λ x y, f (select_limb b x y)) r.2 s.2) in
  (one fst, one snd).

(** The middle of a step, without the swaps. *)
Definition double_add (work : list Z) (P Q : point) : point * point :=
  let a0 := (add P.1 P.2, sub P.1 P.2) in
  let a1 := (add Q.1 Q.2, sub Q.1 Q.2) in
  let b0 := (square a0.1, square a0.2) in
  let b1 := (mult a1.1 a0.2, mult a1.2 a0.1) in
  let c1 := (add b1.1 b1.2, sub b1.1 b1.2) in
  let r := square c1.2 in
  let s := sub b0.1 b0.2 in
  let t := mult121665 s in
  let u := add t b0.1 in
  ((mult b0.1 b0.2, mult s u), (square c1.1, mult r work)).

Definition ladder_step (work : list Z) (e : bytes) (pos : nat) (xzm xzm1 : point) : point * point :=
  let b := Z.land (Z.shiftr (Zb (nth (pos / 8) e x00)) (Z.of_nat (pos mod 8))) 1 in
  let '(xzmb, xzm1b) := select xzm xzm1 b in
  let '(xznb, xzn1b) := double_add work xzmb xzm1b in
  select xznb xzn1b b.

(** [for (pos = n - 1; pos >= 0; --pos)] *)
Fixpoint ladder_loop (work : list Z) (e : bytes) (n : nat) (xzm xzm1 : point) : point :=
  match n with
  | O => xzm
  | S pos =>
      let t := ladder_step work e pos xzm xzm1 in
      ladder_loop work e pos t.1 t.2
  end.

Definition limbs (x : Z) : list Z := x :: replicate 31 0.
Definition mainloop (work : list Z) (e : bytes) : point :=
  ladder_loop work e 255 (limbs 1, limbs 0) (work, limbs 1).

(** [square] [n] times *)
Definition squares (n : nat) (a : list Z) : list Z := Nat.iter n square a.

Definition recip (z : list Z) : list Z :=
  let z2 := square z in
  let t1 := square z2 in
  let t0 := square t1 in
  let z9 := mult t0 z in
  let z11 := mult z9 z2 in
  let t0 := square z11 in
  let z2_5_0 := mult t0 z9 in
  let z2_10_0 := mult (squares 5 z2_5_0) z2_5_0 in
  let t1 := squares 2 z2_10_0 in
  let z2_20_0 := mult (squares 8 t1) z2_10_0 in
  let t1 := squares 2 z2_20_0 in
  let t0 := mult (squares 18 t1) z2_20_0 in
  let t0 := squares 2 t0 in
  let z2_50_0 := mult (squares 8 t0) z2_10_0 in
  let t1 := squares 2 z2_50_0 in
  let z2_100_0 := mult (squares 48 t1) z2_50_0 in
  let t0 := squares 2 z2_100_0 in
  let t1 := mult (squares 98 t0) z2_100_0 in
  let t1 := squares 2 t1 in
  let t0 := mult (squares 48 t1) z2_50_0 in
  mult (squares 5 t0) z11.

Definition clamp (n : bytes) : bytes :=
  imap (λ i b,
    if (i =? 0)%nat then bZ (Z.land (Zb b) 248)
    else if (i =? 31)%nat then bZ (Z.lor (Z.land (Zb b) 127) 64) else b) n.

Definition crypto_scalarmult_curve25519 (n p : bytes) : bytes :=
  let e := clamp n in
  let work := mainloop (map Zb p) e in
  let zi := recip work.2 in
  map bZ (freeze (mult work.1 zi)).

(** ** Values *)

Fixpoint val (l : list Z) : Z := match l with [] => 0 | x :: l => x + 256 * val l end.

Definition below (k : Z) (x : Z) : Prop := 0 ≤ x ≤ k.

(** 32 limbs up to [k]. *)
Definition vec (k : Z) (a : list Z) : Prop := length a = 32%nat ∧ Forall (below k) a.

(** Bytes and a last limb up to [k]. *)
Definition shape (k : Z) (a : list Z) : Prop :=
  ∃ l x, a = l ++ [x] ∧ length l = 31%nat ∧ Forall (below 255) l ∧ below k x.

(** The result of a multiplication: bytes, and a last limb of at most 128. *)
Definition tight (a : list Z) : Prop := shape 128 a.

Lemma val_app l k : val (l ++ k) = val l + 256 ^ Z.of_nat (length l) * val k.
Proof.
  induction l as [|x l IH]; [simpl; lia|]. cbn [app val length]. rewrite IH, Nat2Z.inj_succ, Z.pow_succ_r by lia. lia.
Qed.

Lemma val_bound k l :
  Forall (below k) l → 0 ≤ k → 0 ≤ 255 * val l ≤ k * (256 ^ Z.of_nat (length l) - 1).
Proof.
  intros Hl Hk. induction Hl as [|x l Hx Hl IH]; [simpl; lia|]. cbn [val length].
  rewrite Nat2Z.inj_succ, Z.pow_succ_r by lia. unfold below in Hx. lia.
Qed.

Lemma below_co k l i : 0 ≤ k → Forall (below k) l → below k (co l i).
Proof.
  intros Hk Hl. destruct (decide (i < length l)%nat) as [Hi|Hi].
  - by eapply (Forall_lookup_1 _ _ _ _ Hl), lookup_co.
  - rewrite co_ge by lia. unfold below. lia.
Qed.

Lemma land255 x : Z.land x 255 = x mod 256.
Proof. change 255 with (Z.ones 8). by rewrite Z.land_ones by lia. Qed.
Lemma land127 x : Z.land x 127 = x mod 128.
Proof. change 127 with (Z.ones 7). by rewrite Z.land_ones by lia. Qed.

(** Carrying keeps the value. [B] bounds the carries. *)
Lemma carry_run k B u l :
  Forall (below k) l → below B u → k + B < 2 ^ 32 → k + B < 256 * (B + 1) →
  let t := carry u l in
  length t.1 = length l ∧ Forall (below 255) t.1 ∧ 0 ≤ t.2 ∧
  val t.1 + 256 ^ Z.of_nat (length l) * t.2 = u + val l.
Proof.
  intros Hl Hu HB HB'. revert u Hu. induction Hl as [|x l Hx Hl IH]; intros u Hu; cbn [carry].
  { simpl. unfold below in Hu. repeat split; [constructor|lia..]. }
  unfold below in *. rewrite to_u32_id by lia. rewrite Z.shiftr_div_pow2, land255 by lia. change (2 ^ 8) with 256.
  pose proof (Z.div_mod (u + x) 256 ltac:(lia)) as Ed. pose proof (Z.mod_pos_bound (u + x) 256 ltac:(lia)).
  destruct (IH ((u + x) / 256)) as (Hlen & Hf & Hc & Hv).
  { split; [apply Z.div_pos; lia|]. assert ((u + x) / 256 < B + 1) by (apply Z.div_lt_upper_bound; lia). lia. }
  cbn [fst snd length val]. split; [by rewrite Hlen|]. split; [constructor; [lia|done]|]. split; [done|].
  rewrite Nat2Z.inj_succ, Z.pow_succ_r by lia. lia.
Qed.

(** A vector of limbs is 31 of them and a last one. *)
Lemma vec_split k a :
  vec k a → a = take 31 a ++ [co a 31] ∧ length (take 31 a) = 31%nat ∧ Forall (below k) (take 31 a) ∧
  (0 ≤ k → below k (co a 31)) ∧ val a = val (take 31 a) + 256 ^ 31 * co a 31.
Proof.
  intros [Hl Ha]. assert (a = take 31 a ++ [co a 31]) as E.
  { rewrite <- (take_S_r a 31) by (apply lookup_co; lia). by rewrite take_ge by lia. }
  assert (length (take 31 a) = 31%nat) as Hl' by (rewrite length_take; lia).
  split; [done|]. split; [done|]. split; [by apply Forall_take|].
  split; [intros; by apply below_co|]. rewrite E at 1. rewrite val_app, Hl'. simpl val. lia.
Qed.

Lemma vec_snoc k l x : length l = 31%nat → Forall (below k) l → below k x → vec k (l ++ [x]).
Proof.
  intros Hl Hf Hx. split; [rewrite length_app, Hl; done|]. apply Forall_app. split; [done|]. by constructor.
Qed.
Lemma vec_le k k' a : k ≤ k' → vec k a → vec k' a.
Proof. intros Hk [Hl Ha]. split; [done|]. eapply Forall_impl; [exact Ha|]. unfold below. lia. Qed.
Lemma tight_vec a : tight a → vec 255 a.
Proof.
  intros (l & x & -> & Hl & Hf & Hx). apply vec_snoc; [done..|]. unfold below in *. lia.
Qed.
Lemma tight_last a : tight a → below 128 (co a 31).
Proof.
  intros (l & x & -> & Hl & Hf & Hx). unfold co. rewrite app_nth2 by lia. by rewrite Hl.
Qed.

Definition M31 : Z := 256 ^ 31.
Lemma M31_big : 2 ^ 40 < M31 ∧ 128 * M31 = prime25519 + 19.
Proof. done. Qed.

Lemma val_zip_add a b : length a = length b → val (zip_with Z.add a b) = val a + val b.
Proof.
  revert b. induction a as [|x a IH]; intros [|y b] Hl; try done. injection Hl as Hl. cbn [zip_with val].
  rewrite IH by done. lia.
Qed.
Lemma val_zip_sub a b :
  length a = length b →
  val (zip_with (λ x y, x + 65280 - y) a b) = val a - val b + 256 * (256 ^ Z.of_nat (length a) - 1).
Proof.
  revert b. induction a as [|x a IH]; intros [|y b] Hl; try done. injection Hl as Hl. cbn [zip_with val length].
  rewrite IH, Nat2Z.inj_succ, Z.pow_succ_r by lia. lia.
Qed.

Lemma Forall_zip_below k1 k2 k (F : Z → Z → Z) a b :
  Forall (below k1) a → Forall (below k2) b →
  (∀ x y, below k1 x → below k2 y → below k (F x y)) → Forall (below k) (zip_with F a b).
Proof.
  intros Ha Hb HF. revert b Hb. induction Ha as [|x a Hx Ha IH]; intros b Hb; [constructor|].
  destruct Hb as [|y b Hy Hb]; [constructor|]. cbn [zip_with]. constructor; auto.
Qed.

Lemma shape_vec k a : 255 ≤ k → shape k a → vec k a.
Proof.
  intros Hk (l & x & -> & Hl & Hf & Hx). apply vec_snoc; [done| |done].
  eapply Forall_impl; [exact Hf|]. unfold below. lia.
Qed.

Lemma add_shape a b : vec 255 a → vec 255 b → shape 1023 (add a b) ∧ val (add a b) = val a + val b.
Proof.
  intros Ha Hb. destruct (vec_split _ _ Ha) as (_ & Hla & Hfa & Hxa & Va).
  destruct (vec_split _ _ Hb) as (_ & Hlb & Hfb & Hxb & Vb). specialize (Hxa ltac:(lia)). specialize (Hxb ltac:(lia)).
  unfold add. set (z := zip_with _ _ _). assert (Forall (below 510) z) as Hz.
  { eapply Forall_zip_below; [done|done|]. unfold below. lia. }
  assert (length z = 31%nat) as Hlz by (unfold z; rewrite length_zip_with; lia).
  destruct (carry_run 510 2 0 z Hz) as (Hlt & Hft & Ht0 & Vt); [unfold below; lia|lia|lia|].
  assert (val z = val (take 31 a) + val (take 31 b)) as Vz by (apply val_zip_add; lia). rewrite Hlz in Hlt, Vt.
  pose proof (val_bound 510 z Hz ltac:(lia)) as Bz. pose proof (val_bound 255 _ Hft ltac:(lia)) as Bt.
  rewrite Hlz in Bz. rewrite Hlt in Bt. change (256 ^ Z.of_nat 31) with M31 in *. change (256 ^ 31) with M31 in *.
  destruct M31_big as [HM _]. unfold below in Hxa, Hxb. assert (0 ≤ (carry 0 z).2 ≤ 2) by nia.
  rewrite to_u32_id by lia. split.
  - eexists _, _. split; [done|]. split; [done|]. split; [done|]. unfold below. lia.
  - rewrite val_app, Hlt. change (256 ^ Z.of_nat 31) with M31. simpl val. lia.
Qed.
Lemma fe_add_run a b : vec 255 a → vec 255 b → vec 1023 (add a b) ∧ val (add a b) = val a + val b.
Proof.
  intros Ha Hb. destruct (add_shape a b Ha Hb) as [Hs Hv]. split; [|done]. by apply shape_vec.
Qed.

Lemma sub_run a b :
  vec 255 a → vec 255 b → co b 31 ≤ 128 →
  vec 1023 (sub a b) ∧ val (sub a b) = val a - val b + 2 * prime25519.
Proof.
  intros Ha Hb H128. destruct (vec_split _ _ Ha) as (_ & Hla & Hfa & Hxa & Va).
  destruct (vec_split _ _ Hb) as (_ & Hlb & Hfb & Hxb & Vb). specialize (Hxa ltac:(lia)). specialize (Hxb ltac:(lia)).
  unfold sub. set (z := zip_with _ _ _). assert (Forall (below 65535) z) as Hz.
  { eapply Forall_zip_below; [done|done|]. unfold below. lia. }
  assert (length z = 31%nat) as Hlz by (unfold z; rewrite length_zip_with; lia).
  destruct (carry_run 65535 300 218 z Hz) as (Hlt & Hft & Ht0 & Vt); [unfold below; lia|lia|lia|].
  assert (val z = val (take 31 a) - val (take 31 b) + 256 * (256 ^ Z.of_nat 31 - 1)) as Vz
    by (unfold z; rewrite val_zip_sub, Hla by lia; done).
  rewrite Hlz in Hlt, Vt.
  pose proof (val_bound 255 _ Hft ltac:(lia)) as Bt. pose proof (val_bound 255 _ Hfa ltac:(lia)) as Ba.
  pose proof (val_bound 255 _ Hfb ltac:(lia)) as Bb. rewrite Hlt in Bt. rewrite Hla in Ba. rewrite Hlb in Bb.
  change (256 ^ Z.of_nat 31) with M31 in *. change (256 ^ 31) with M31 in *.
  destruct M31_big as [HM HP]. unfold below in Hxa, Hxb. assert (254 ≤ (carry 218 z).2 ≤ 256) by nia.
  rewrite to_u32_id by lia. split.
  - apply vec_snoc; [done| |unfold below; lia]. eapply Forall_impl; [exact Hft|]. unfold below. lia.
  - rewrite val_app, Hlt. change (256 ^ Z.of_nat 31) with M31. simpl val. lia.
Qed.

(** Equality modulo the prime. *)
Definition eqp (x y : Z) : Prop := ∃ k, x = y + k * prime25519.
Infix "≡ₚ'" := eqp (at level 70) : Z_scope.

#[global] Instance eqp_equiv : Equivalence eqp.
Proof.
  split.
  - intros x. exists 0. lia.
  - intros x y [k ->]. exists (- k). lia.
  - intros x y z [k ->] [j ->]. exists (k + j). lia.
Qed.
#[global] Instance eqp_add : Proper (eqp ==> eqp ==> eqp) Z.add.
Proof. intros x x' [k ->] y y' [j ->]. exists (k + j). lia. Qed.
#[global] Instance eqp_sub : Proper (eqp ==> eqp ==> eqp) Z.sub.
Proof. intros x x' [k ->] y y' [j ->]. exists (k - j). lia. Qed.
#[global] Instance eqp_mul : Proper (eqp ==> eqp ==> eqp) Z.mul.
Proof.
  intros x x' [k ->] y y' [j ->]. exists (k * y' + x' * j + k * j * prime25519). ring.
Qed.

Lemma squeeze_run a : vec (2 ^ 31) a → tight (squeeze a) ∧ eqp (val (squeeze a)) (val a).
Proof.
  intros Ha. destruct (vec_split _ _ Ha) as (_ & Hla & Hfa & Hxa & Va). specialize (Hxa ltac:(lia)).
  unfold squeeze. destruct (carry_run (2 ^ 31) (2 ^ 24) 0 _ Hfa) as (Hl1 & Hf1 & H0 & V1); [unfold below; lia|lia|lia|].
  set (t1 := carry 0 (take 31 a)) in *. rewrite Hla in Hl1, V1.
  pose proof (val_bound _ _ Hfa ltac:(lia)) as Ba. pose proof (val_bound _ _ Hf1 ltac:(lia)) as B1.
  rewrite Hla in Ba. rewrite Hl1 in B1. change (256 ^ Z.of_nat 31) with M31 in *. change (256 ^ 31) with M31 in *.
  destruct M31_big as [HM HP]. unfold below in Hxa.
  assert (0 ≤ t1.2 ≤ 2 ^ 24) by nia. rewrite (to_u32_id (t1.2 + co a 31)) by lia.
  set (u := t1.2 + co a 31) in *. rewrite land127, Z.shiftr_div_pow2 by lia. change (2 ^ 7) with 128.
  pose proof (Z.div_mod u 128 ltac:(lia)) as Ed. pose proof (Z.mod_pos_bound u 128 ltac:(lia)) as Hm.
  assert (0 ≤ u / 128 < 2 ^ 25) as Hw by (split; [apply Z.div_pos; lia|apply Z.div_lt_upper_bound; lia]).
  rewrite (to_u32_id (19 * (u / 128))) by lia.
  destruct (carry_run 255 (2 ^ 30) (19 * (u / 128)) _ Hf1) as (Hl2 & Hf2 & H2 & V2); [unfold below; lia|lia|lia|].
  set (t2 := carry (19 * (u / 128)) t1.1) in *. rewrite Hl1 in Hl2, V2. change (256 ^ Z.of_nat 31) with M31 in V2.
  pose proof (val_bound _ _ Hf2 ltac:(lia)) as B2. rewrite Hl2 in B2. change (256 ^ Z.of_nat 31) with M31 in B2.
  assert (0 ≤ t2.2 ≤ 1) by nia. rewrite to_u32_id by lia. split.
  - exists t2.1, (t2.2 + u mod 128). repeat split; [done..| |]; unfold below; lia.
  - exists (- (u / 128)). rewrite val_app, Hl2. change (256 ^ Z.of_nat 31) with M31. simpl val. nia.
Qed.

Lemma mult121665_run a : vec 1023 a → tight (mult121665 a) ∧ eqp (val (mult121665 a)) (121665 * val a).
Proof.
  intros Ha. assert (mult121665 a = squeeze (map (Z.mul 121665) a)) as ->.
  { unfold mult121665, squeeze. rewrite <- fmap_take, co_map by lia. done. }
  assert (val (map (Z.mul 121665) a) = 121665 * val a) as <-.
  { clear. induction a as [|x a IH]; [done|]. cbn [map val]. lia. }
  apply squeeze_run. destruct Ha as [Hl Ha]. split; [by rewrite length_map|]. apply Forall_fmap.
  eapply Forall_impl; [exact Ha|]. unfold below. simpl. lia.
Qed.

(** ** Products *)

Lemma val_sum l n : (length l ≤ n)%nat → val l = sum n (λ i, co l i * 256 ^ Z.of_nat i).
Proof.
  revert n. induction l as [|x l IH]; intros n Hn.
  { symmetry. apply sum_zero. intros i _. by rewrite co_nil. }
  destruct n as [|n]; simpl in Hn; [lia|]. rewrite sum_first. cbn [val]. rewrite (IH n) by lia. rewrite <- sum_mul.
  change (co (x :: l) 0) with x. f_equal; [lia|]. apply sum_ext. intros i _. change (co (x :: l) (S i)) with (co l i).
  rewrite Nat2Z.inj_succ, Z.pow_succ_r by lia. lia.
Qed.
Lemma val_peq f g : peq f g → val f = val g.
Proof.
  intros E. rewrite (val_sum f (length f + length g)), (val_sum g (length f + length g)) by lia.
  apply sum_ext. intros i _. by rewrite E.
Qed.
Lemma val_padd f g : val (f + g)%P = val f + val g.
Proof.
  set (n := Nat.max (length f) (length g)). rewrite (val_sum f n), (val_sum g n), (val_sum _ n), <- sum_add by
    (unfold padd; rewrite ?length_tabulate; lia). apply sum_ext. intros i _. rewrite co_add. lia.
Qed.
Lemma val_pmul f g : val (f * g)%P = val f * val g.
Proof.
  induction f as [|x f IH].
  - rewrite (val_peq _ []); [done|]. intros i. rewrite co_mul, co_nil. apply sum_zero. intros j _. by rewrite co_nil.
  - assert (peq ((x :: f) * g) ([x] * g + (0%Z :: (f * g)%P))) as E.
    { rewrite (cons_poly x f), (cons_poly 0 (f * g)%P). assert (peq [0] []) as -> by (intros [|[|i]]; done). ring. }
    rewrite (val_peq _ _ E), val_padd. cbn [val]. rewrite IH.
    assert (val ([x] * g)%P = x * val g) as ->; [|lia].
    rewrite (val_sum ([x] * g)%P (1 + length g)), (val_sum g (1 + length g)), <- sum_mul
      by (unfold pmul; rewrite ?length_tabulate; simpl; lia).
    apply sum_ext. intros i _. rewrite co_mul_const. lia.
Qed.

Lemma sum_u32_run u a n term :
  0 ≤ u < 2 ^ 32 → sum_u32 u (seq a n) term = to_u32 (u + sum n (λ t, term (a + t)%nat)).
Proof.
  revert u a. induction n as [|n IH]; intros u a Hu.
  { simpl. by rewrite Z.add_0_r, to_u32_id. }
  unfold sum_u32 in *. cbn [seq foldl]. rewrite IH by (unfold to_u32; apply Z.mod_pos_bound; lia).
  rewrite sum_first, Nat.add_0_r. unfold to_u32. rewrite Zplus_mod_idemp_l.
  rewrite (sum_ext n (λ t, term (S a + t)%nat) (λ t, term (a + S t)%nat)) by (intros; f_equal; lia).
  set (r := sum n _). replace (u + term a mod 2 ^ 32 + r) with (u + r + term a mod 2 ^ 32) by lia.
  rewrite Zplus_mod_idemp_r. f_equal. lia.
Qed.

Lemma sum_bound n F k : (∀ i, (i < n)%nat → below k (F i)) → below (Z.of_nat n * k) (sum n F).
Proof.
  unfold below. induction n as [|n IH]; intros HF; [simpl; lia|]. cbn [sum].
  pose proof (HF n ltac:(lia)). specialize (IH ltac:(auto with lia)). lia.
Qed.

(** The limb [i] of the product before the carries. *)
Definition limb (a b : list Z) (i : nat) : Z := co (a * b)%P i + 38 * co (a * b)%P (i + 32).

Lemma limb_sums a b i :
  length a = 32%nat → length b = 32%nat → (i < 32)%nat →
  limb a b i = sum (S i) (λ j, co a j * co b (i - j)) +
    sum (31 - i) (λ t, 38 * co a (S i + t) * co b (i + 32 - (S i + t))).
Proof.
  intros Hla Hlb Hi. unfold limb. rewrite !co_mul. f_equal.
  replace (S (i + 32)) with (S i + ((31 - i) + (S i)))%nat by lia. rewrite sum_app, (sum_app (31 - i)).
  rewrite (sum_zero (S i)) by (intros j Hj; rewrite (co_ge b) by lia; lia).
  rewrite (sum_zero (S i)) by (intros j Hj; rewrite (co_ge a) by lia; lia).
  rewrite Z.add_0_l, Z.add_0_r, <- sum_mul. apply sum_ext. intros t _. lia.
Qed.

Lemma limb_bound a b i : vec 1023 a → vec 1023 b → (i < 32)%nat → below (2 ^ 31) (limb a b i).
Proof.
  intros [Hla Ha] [Hlb Hb] Hi. rewrite limb_sums by done.
  assert (∀ j k, below (1023 * 1023) (co a j * co b k)) as Hp.
  { intros j k. pose proof (below_co 1023 a j ltac:(lia) Ha). pose proof (below_co 1023 b k ltac:(lia) Hb). unfold below in *. nia. }
  assert (below (Z.of_nat (S i) * (1023 * 1023)) (sum (S i) (λ j, co a j * co b (i - j)))) as Hlo.
  { apply sum_bound. intros j _. apply Hp. }
  assert (below (Z.of_nat (31 - i) * (38 * (1023 * 1023)))
    (sum (31 - i) (λ t, 38 * co a (S i + t) * co b (i + 32 - (S i + t))))) as Hhi.
  { apply sum_bound. intros t _. pose proof (Hp (S i + t)%nat (i + 32 - (S i + t))%nat). unfold below in *. lia. }
  unfold below in *. lia.
Qed.

(** Folding the upper limbs multiplies by [2^256 = 38]. *)
Lemma val_limbs a b :
  length a = 32%nat → length b = 32%nat → eqp (val (map (limb a b) (seq 0 32))) (val a * val b).
Proof.
  intros Hla Hlb. rewrite <- val_pmul. set (c := (a * b)%P).
  assert (length c = 64%nat) as Hlc by (unfold c, pmul; rewrite length_tabulate; lia).
  rewrite (val_sum c (32 + 32)), sum_app by lia.
  change (map (limb a b) (seq 0 32)) with (tabulate 32 (limb a b)).
  rewrite (val_sum (tabulate 32 (limb a b)) 32) by (by rewrite length_tabulate).
  exists (- 2 * sum 32 (λ i, co c (i + 32) * 256 ^ Z.of_nat i)).
  rewrite (sum_ext 32 _ (λ i, co c i * 256 ^ Z.of_nat i + 38 * (co c (i + 32) * 256 ^ Z.of_nat i))).
  2: { intros i Hi. rewrite co_tabulate, decide_True by done. unfold limb. fold c. lia. }
  rewrite (sum_ext 32 (λ i, co c (32 + i) * 256 ^ Z.of_nat (32 + i))
    (λ i, 256 ^ 32 * (co c (i + 32) * 256 ^ Z.of_nat i))).
  2: { intros i Hi. rewrite Nat.add_comm, Nat2Z.inj_add, Z.pow_add_r by lia. lia. }
  rewrite sum_add, !sum_mul. assert (256 ^ 32 = 2 * prime25519 + 38) as -> by done.
  generalize prime25519 (sum 32 (λ i, co c i * 256 ^ Z.of_nat i)) (sum 32 (λ i, co c (i + 32) * 256 ^ Z.of_nat i)).
  intros. ring.
Qed.

Lemma raw_run a b F :
  vec 1023 a → vec 1023 b → (∀ i, (i < 32)%nat → F i = limb a b i) →
  tight (squeeze (map F (seq 0 32))) ∧ eqp (val (squeeze (map F (seq 0 32)))) (val a * val b).
Proof.
  intros Ha Hb HF. assert (map F (seq 0 32) = map (limb a b) (seq 0 32)) as ->.
  { apply map_ext_in. intros i Hi. apply in_seq in Hi. apply HF. lia. }
  destruct (squeeze_run (map (limb a b) (seq 0 32))) as [Ht Hv].
  { split; [done|]. apply Forall_fmap, Forall_forall. intros i Hi. apply elem_of_seq in Hi.
    apply limb_bound; (done || lia). }
  split; [done|]. rewrite Hv. apply val_limbs; [apply Ha|apply Hb].
Qed.

Lemma fe_mult_run a b : vec 1023 a → vec 1023 b → tight (mult a b) ∧ eqp (val (mult a b)) (val a * val b).
Proof.
  intros Ha Hb. apply raw_run; [done..|]. intros i Hi. cbv zeta. pose proof (limb_bound _ _ _ Ha Hb Hi) as Hl.
  rewrite limb_sums in * by (apply Ha || apply Hb || done).
  rewrite (sum_u32_run 0) by lia. rewrite sum_u32_run by (unfold to_u32; apply Z.mod_pos_bound; lia).
  unfold to_u32. rewrite Zplus_mod_idemp_l, Z.add_0_l. apply Z.mod_small. unfold below in Hl. simpl in Hl |- *. lia.
Qed.

(** A sum that is the same from both ends. *)
Lemma sum_sym n F :
  (∀ i, (i < n)%nat → F i = F (n - 1 - i)%nat) →
  sum n F = 2 * sum (n / 2) F + (if Nat.odd n then F (n / 2)%nat else 0).
Proof.
  intros HF. set (h := (n / 2)%nat). set (r := if Nat.odd n then 1%nat else 0%nat).
  assert (n = (h + (r + h))%nat) as En.
  { pose proof (Nat.div2_odd n) as E. unfold h, r. rewrite <- Nat.div2_div. destruct (Nat.odd n); simpl in E; lia. }
  rewrite En at 1. rewrite !sum_app. rewrite (sum_rev h (λ i, F (h + (r + i))%nat)).
  rewrite (sum_ext h (λ i, F (h + (r + (h - 1 - i)))%nat) F).
  - unfold r. destruct (Nat.odd n); simpl; rewrite ?Nat.add_0_r; lia.
  - intros i Hi. rewrite (HF i) by lia. f_equal. lia.
Qed.

Lemma up_while_run i :
  (i < 32)%nat →
  up_while 32 (λ j, j <? i - j)%nat 0 = seq 0 (S i / 2) ∧
  up_while 32 (λ j, j <? i + 32 - j)%nat (S i) = seq (S i) ((31 - i) / 2).
Proof.
  intros Hi. do 32 (destruct i as [|i]; [by vm_compute|]). lia.
Qed.

Lemma square_run a : vec 1023 a → tight (square a) ∧ eqp (val (square a)) (val a * val a).
Proof.
  intros Ha. apply raw_run; [done..|]. intros i Hi. cbv zeta. destruct (up_while_run i Hi) as [-> ->].
  pose proof (limb_bound _ _ _ Ha Ha Hi) as Hl. pose proof Ha as [Hla _].
  rewrite limb_sums in * by done. set (F := λ j, co a j * co a (i - j)) in *.
  set (G := λ t, 38 * co a (S i + t) * co a (i + 32 - (S i + t))) in *.
  rewrite (sum_u32_run 0) by lia. rewrite sum_u32_run by (unfold to_u32; apply Z.mod_pos_bound; lia).
  change (λ t, F (0 + t)%nat) with F. change (λ t, 38 * co a (S i + t) * co a (i + 32 - (S i + t))) with G.
  rewrite (sum_sym (S i) F) in * by (intros j Hj; unfold F; rewrite Z.mul_comm; do 2 f_equal; lia).
  rewrite (sum_sym (31 - i) G) in * by
    (intros j Hj; unfold G; rewrite <- !Z.mul_assoc; f_equal; rewrite Z.mul_comm; do 2 f_equal; lia).
  assert (Nat.odd (31 - i) = Nat.even i ∧ Nat.odd (S i) = Nat.even i) as [E1 E2].
  { split; [|by rewrite Nat.odd_succ]. do 32 (destruct i as [|i]; [done|]). lia. }
  rewrite E1, E2 in *. set (SF := sum (S i / 2) F) in *. set (SG := sum ((31 - i) / 2) G) in *.
  assert (∀ j, 0 ≤ co a j) as Hco by (intros j; pose proof (below_co 1023 a j ltac:(lia) (proj2 Ha)); unfold below in *; lia).
  assert (∀ j k, 0 ≤ co a j * co a k) as Hp by (intros; by apply Z.mul_nonneg_nonneg).
  assert (∀ n H, (∀ t, 0 ≤ H t) → 0 ≤ sum n H) as Hnn.
  { intros n H HH. induction n as [|n IH]; [done|]. cbn [sum]. specialize (HH n). lia. }
  assert (0 ≤ SF) by (apply Hnn; intros; apply Hp).
  assert (0 ≤ SG) by (apply Hnn; intros t; unfold G; rewrite <- Z.mul_assoc; specialize (Hp (S i + t)%nat (i + 32 - (S i + t))%nat); lia).
  rewrite Z.add_0_l. unfold below in Hl. destruct (Nat.even i) eqn:Ev.
  - assert (F (S i / 2)%nat = co a (i / 2) * co a (i / 2) ∧
      G ((31 - i) / 2)%nat = 38 * co a (i / 2 + 16) * co a (i / 2 + 16)) as [EF EG].
    { unfold F, G. clear -Hi Ev. do 32 (destruct i as [|i]; [done|]). lia. }
    rewrite EF, EG in *. pose proof (Hp (i / 2)%nat (i / 2)%nat). pose proof (Hp (i / 2 + 16)%nat (i / 2 + 16)%nat).
    rewrite (to_u32_id SF), (to_u32_id (SF + SG)), (to_u32_id ((SF + SG) * 2)) by lia.
    rewrite (to_u32_id ((SF + SG) * 2 + co a (i / 2) * co a (i / 2))) by lia. rewrite to_u32_id by lia. lia.
  - rewrite (to_u32_id SF), (to_u32_id (SF + SG)), (to_u32_id ((SF + SG) * 2)) by lia. lia.
Qed.

(** ** Freezing *)

Lemma small_shiftr x k n : 0 ≤ n → 0 ≤ k → 0 ≤ x < 2 ^ k → k ≤ n → Z.shiftr x n = 0.
Proof.
  intros Hn Hk Hx Hkn. rewrite Z.shiftr_div_pow2 by lia. apply Z.div_small. split; [lia|].
  apply Z.lt_le_trans with (2 ^ k); [lia|]. apply Z.pow_le_mono_r; lia.
Qed.
Lemma lxor_small x y n : 0 ≤ n → 0 ≤ x < 2 ^ n → 0 ≤ y < 2 ^ n → 0 ≤ Z.lxor x y < 2 ^ n.
Proof.
  intros Hn Hx Hy. assert (Z.shiftr (Z.lxor x y) n = 0) as E.
  { rewrite Z.shiftr_lxor, !(small_shiftr _ n n) by lia. done. }
  rewrite Z.shiftr_div_pow2 in E by lia. pose proof (Z.div_mod (Z.lxor x y) (2 ^ n) ltac:(lia)).
  pose proof (Z.mod_pos_bound (Z.lxor x y) (2 ^ n) ltac:(lia)). lia.
Qed.

(** A mask of ones or zeros over limbs. *)
Lemma mask_limb (b : bool) x y :
  below 1023 x → below 1023 y →
  Z.land (to_u32 (- Z.b2z b)) (Z.lxor x y) = if b then Z.lxor x y else 0.
Proof.
  unfold below. intros Hx Hy. destruct b; [|done]. change (to_u32 (- Z.b2z true)) with (Z.ones 32).
  rewrite Z.land_comm, Z.land_ones by lia. apply Z.mod_small.
  pose proof (lxor_small x y 10 ltac:(lia) ltac:(lia) ltac:(lia)). lia.
Qed.

Lemma zip_mask (b : bool) a o :
  length a = length o → Forall (below 1023) a → Forall (below 1023) o →
  zip_with (λ x y, Z.lxor x (Z.land (to_u32 (- Z.b2z b)) (Z.lxor y x))) a o = if b then o else a.
Proof.
  intros Hl Ha. revert o Hl. induction Ha as [|x a Hx Ha IH]; intros [|y o] Hl Ho; try done; [by destruct b|].
  injection Hl as Hl. apply Forall_cons in Ho as [Hy Ho]. cbn [zip_with]. rewrite IH, mask_limb by done.
  destruct b; [|by rewrite Z.lxor_0_r]. by rewrite Z.lxor_comm, Z.lxor_assoc, Z.lxor_nilpotent, Z.lxor_0_r.
Qed.

Lemma bytes_val l x :
  length l = 31%nat → Forall (below 255) l →
  val (map Zb (map bZ (l ++ [x]))) = val l + M31 * (x mod 256).
Proof.
  intros Hl Hf. rewrite map_map. rewrite map_app. rewrite val_app, length_map, Hl.
  change (256 ^ Z.of_nat 31) with M31. cbn [map val]. rewrite Zb_bZ. f_equal; [|lia]. f_equal.
  rewrite <- (map_id l) at 2. apply map_ext_Forall. eapply Forall_impl; [exact Hf|]. intros y Hy.
  unfold below in Hy. rewrite Zb_bZ. apply Z.mod_small. lia.
Qed.

Lemma val_shape l x : length l = 31%nat → Forall (below 255) l → val (l ++ [x]) = val l + M31 * x ∧ 0 ≤ val l < M31.
Proof.
  intros Hl Hf. rewrite val_app, Hl. change (256 ^ Z.of_nat 31) with M31. cbn [val].
  pose proof (val_bound 255 l Hf ltac:(lia)) as Hb. rewrite Hl in Hb. change (256 ^ Z.of_nat 31) with M31 in Hb. lia.
Qed.

Lemma freeze_run a :
  tight a → length (freeze a) = 32%nat ∧ val (map Zb (map bZ (freeze a))) = val a mod prime25519.
Proof.
  intros Ht. pose proof (tight_vec a Ht) as Hv.
  assert (vec 255 minusp) as Hmp by (split; [done|]; repeat constructor; unfold below; lia).
  destruct (add_shape a minusp Hv Hmp) as [Hs Va]. pose proof (shape_vec 1023 _ ltac:(lia) Hs) as [Hl' Hf'].
  destruct Hs as (l' & x' & E' & Hll' & Hfl' & Hx'). destruct Ht as (l & x & -> & Hl & Hf & Hx).
  destruct (val_shape l x Hl Hf) as [Vl Bl]. destruct (val_shape l' x' Hll' Hfl') as [Vl' Bl'].
  assert (val minusp = 128 * M31 + 19) as Vm by done. destruct M31_big as [HM HP].
  rewrite E', Vl', Vl, Vm in Va. unfold below in Hx, Hx'.
  unfold freeze. rewrite E' in *. assert (co (l' ++ [x']) 31 = x') as ->.
  { unfold co. rewrite app_nth2 by lia. by rewrite Hll'. }
  assert (∃ b : bool, Z.land (Z.shiftr x' 7) 1 = Z.b2z b ∧ b = bool_decide (val (l ++ [x]) < prime25519)) as (b & -> & Hb).
  { exists (bool_decide (val (l ++ [x]) < prime25519)). split; [|done]. rewrite Vl, Z.shiftr_div_pow2 by lia.
    change (2 ^ 7) with 128. case_bool_decide.
    - assert (128 ≤ x' ≤ 255) by nia. assert (x' / 128 = 1) as -> by (symmetry; apply (Z.div_unique _ _ _ (x' - 128)); lia).
      done.
    - assert (256 ≤ x' < 384) by nia. assert (x' / 128 = 2) as -> by (symmetry; apply (Z.div_unique _ _ _ (x' - 256)); lia).
      done. }
  rewrite zip_mask; [|destruct Hv as [-> _]; exact Hl'|done|].
  2: { destruct Hv as [_ Hv]. eapply Forall_impl; [exact Hv|]. unfold below. lia. }
  rewrite Vl. rewrite Vl in Hb. case_bool_decide as Hlt; rewrite Hb.
  - split; [apply Hv|]. rewrite bytes_val by done. rewrite !Z.mod_small by nia. done.
  - split; [done|]. rewrite bytes_val by done.
    assert (256 ≤ x' < 384) by nia. assert (x' mod 256 = x' - 256) as ->.
    { symmetry. apply (Z.mod_unique _ _ 1); lia. }
    apply (Z.mod_unique _ _ 1); nia.
Qed.

(** ** The specification *)

(** The representative of a number in the field. *)
Definition fp (x : Z) : Z := x mod prime25519.

Section spec.
Local Notation "x ⊕ y" := (fp (x + y)) (at level 50, left associativity).
Local Notation "x ⊖ y" := (fp (x - y)) (at level 50, left associativity).
Local Notation "x ⊗ y" := (fp (x * y)) (at level 40, left associativity).

(** A step of the ladder of RFC 7748, section 5. *)
Definition spec_step (x1 : Z) (bit : bool) (P Q : Z * Z) : (Z * Z) * (Z * Z) :=
  let '((x2, z2), (x3, z3)) := if bit then (Q, P) else (P, Q) in
  let A := x2 ⊕ z2 in
  let AA := A ⊗ A in
  let B := x2 ⊖ z2 in
  let BB := B ⊗ B in
  let E := AA ⊖ BB in
  let C := x3 ⊕ z3 in
  let D := x3 ⊖ z3 in
  let DA := D ⊗ A in
  let CB := C ⊗ B in
  let P' := (AA ⊗ BB, E ⊗ (AA ⊕ 121665 ⊗ E)) in
  let Q' := ((DA ⊕ CB) ⊗ (DA ⊕ CB), x1 ⊗ ((DA ⊖ CB) ⊗ (DA ⊖ CB))) in
  if bit then (Q', P') else (P', Q').

Fixpoint spec_loop (x1 k : Z) (n : nat) (P Q : Z * Z) : Z * Z :=
  match n with
  | O => P
  | S t => let '(P, Q) := spec_step x1 (Z.testbit k (Z.of_nat t)) P Q in spec_loop x1 k t P Q
  end.

(** The function of the scalar [k] and the coordinate [u]. *)
Definition x25519 (k u : Z) : Z :=
  let '(x2, z2) := spec_loop u k 255 (1, 0) (u, 1) in
  x2 ⊗ Zpow_mod z2 (prime25519 - 2) prime25519.
End spec.

(** A scalar: a multiple of eight between [2^254] and [2^255]. *)
Definition decode_scalar (v : Z) : Z := 2 ^ 254 + 8 * (v mod 2 ^ 254 / 8).

(** Little-endian bytes. *)
Fixpoint le (n : nat) (x : Z) : bytes :=
  match n with O => [] | S n => bZ x :: le n (x / 256) end.

(** ** The ladder *)

Lemma eqp_fp x : eqp (fp x) x.
Proof.
  exists (- (x / prime25519)). unfold fp. pose proof (Z.div_mod x prime25519 ltac:(done)) as E. revert E.
  generalize prime25519 (x / prime25519) (x mod prime25519). intros. lia.
Qed.

(** A point in limbs and in numbers. *)
Definition xz_ok (P : point) (N : Z * Z) : Prop :=
  vec 255 P.1 ∧ (vec 255 P.2 ∧ co P.2 31 ≤ 128) ∧ eqp (val P.1) N.1 ∧ eqp (val P.2) N.2.

Lemma zip_select (b : bool) r s :
  length r = length s → Forall (below 255) r → Forall (below 255) s →
  zip_with (λ x y, (select_limb (Z.b2z b) x y).1) r s = (if b then s else r) ∧
  zip_with (λ x y, (select_limb (Z.b2z b) x y).2) r s = (if b then r else s).
Proof.
  intros Hl Hr. revert s Hl. induction Hr as [|x r Hx Hr IH]; intros [|y s] Hl Hs; try done; [by destruct b|].
  injection Hl as Hl. apply Forall_cons in Hs as [Hy Hs]. destruct (IH s Hl Hs) as [E1 E2].
  cbn [zip_with]. rewrite E1, E2. unfold select_limb.
  assert (to_u32 (Z.b2z b - 1) = to_u32 (- Z.b2z (negb b))) as -> by by destruct b.
  assert (below 1023 x ∧ below 1023 y) as [? ?] by (unfold below in *; lia).
  cbn [fst snd]. rewrite !mask_limb by done. destruct b; cbn [negb].
  - by rewrite !Z.lxor_0_r.
  - rewrite (Z.lxor_comm y), Z.lxor_assoc, Z.lxor_nilpotent, Z.lxor_0_r.
    by rewrite <- Z.lxor_assoc, Z.lxor_nilpotent, Z.lxor_0_l.
Qed.

Lemma fe_select_run (b : bool) r s :
  vec 255 r.1 → vec 255 r.2 → vec 255 s.1 → vec 255 s.2 →
  select r s (Z.b2z b) = if b then (s, r) else (r, s).
Proof.
  intros [L1 H1] [L2 H2] [L3 H3] [L4 H4]. unfold select.
  destruct (zip_select b r.1 s.1) as [-> ->]; [congruence|done..|].
  destruct (zip_select b r.2 s.2) as [-> ->]; [congruence|done..|].
  destruct r, s. by destruct b.
Qed.

Lemma tight_ok a : tight a → vec 255 a ∧ co a 31 ≤ 128.
Proof. intros Ha. split; [by apply tight_vec|]. by destruct (tight_last a Ha). Qed.

Lemma eq_eqp x y : x = y → eqp x y.
Proof. by intros ->. Qed.
Lemma eqp_2p x : eqp (x + 2 * prime25519) x.
Proof. by exists 2. Qed.

Lemma add_ok a b : vec 255 a → vec 255 b → vec 1023 (add a b) ∧ eqp (val (add a b)) (val a + val b).
Proof. intros Ha Hb. destruct (fe_add_run a b Ha Hb) as [Hv ->]. done. Qed.
Lemma sub_ok a b :
  vec 255 a → vec 255 b ∧ co b 31 ≤ 128 → vec 1023 (sub a b) ∧ eqp (val (sub a b)) (val a - val b).
Proof. intros Ha [Hb Hl]. destruct (sub_run a b Ha Hb Hl) as [Hv ->]. split; [done|]. apply eqp_2p. Qed.

(** The specification without the reductions. *)
Lemma spec_step_eqp x1 x2 z2 x3 z3 :
  let t := spec_step x1 false (x2, z2) (x3, z3) in
  let AA := (x2 + z2) * (x2 + z2) in
  let BB := (x2 - z2) * (x2 - z2) in
  let DA := (x3 - z3) * (x2 + z2) in
  let CB := (x3 + z3) * (x2 - z2) in
  eqp t.1.1 (AA * BB) ∧ eqp t.1.2 ((AA - BB) * (AA + 121665 * (AA - BB))) ∧
  eqp t.2.1 ((DA + CB) * (DA + CB)) ∧ eqp t.2.2 (x1 * ((DA - CB) * (DA - CB))).
Proof.
  unfold spec_step. cbv zeta. cbn [fst snd]. pose proof eqp_fp as Hfp. revert Hfp. generalize fp as r. intros r Hr.
  split; [|split; [|split]]; repeat (setoid_rewrite Hr); reflexivity.
Qed.

Lemma double_add_ok work x1 P Q x2 z2 x3 z3 :
  vec 255 work → eqp (val work) x1 → xz_ok P (x2, z2) → xz_ok Q (x3, z3) →
  let t := double_add work P Q in
  let n := spec_step x1 false (x2, z2) (x3, z3) in
  xz_ok t.1 n.1 ∧ xz_ok t.2 n.2.
Proof.
  intros Hw Ew (HP1 & HP2 & EP1 & EP2) (HQ1 & HQ2 & EQ1 & EQ2). cbn [fst snd] in *.
  unfold double_add. cbv zeta. cbn [fst snd].
  destruct (add_ok _ _ HP1 (proj1 HP2)) as [VA EA]. destruct (sub_ok _ _ HP1 HP2) as [VB EB].
  destruct (add_ok _ _ HQ1 (proj1 HQ2)) as [VC EC]. destruct (sub_ok _ _ HQ1 HQ2) as [VD ED].
  destruct (square_run _ VA) as [TAA EAA]. destruct (square_run _ VB) as [TBB EBB].
  destruct (fe_mult_run _ _ VC VB) as [TCB ECB]. destruct (fe_mult_run _ _ VD VA) as [TDA EDA].
  set (A := add P.1 P.2) in *. set (B := sub P.1 P.2) in *. set (C := add Q.1 Q.2) in *. set (D := sub Q.1 Q.2) in *.
  destruct (add_ok _ _ (tight_vec _ TCB) (tight_vec _ TDA)) as [Vs Es].
  destruct (sub_ok _ _ (tight_vec _ TCB) (tight_ok _ TDA)) as [Vd Ed].
  destruct (sub_ok _ _ (tight_vec _ TAA) (tight_ok _ TBB)) as [VE EE].
  destruct (mult121665_run _ VE) as [T1 E1]. destruct (add_ok _ _ (tight_vec _ T1) (tight_vec _ TAA)) as [Vu Eu].
  pose proof (vec_le 255 1023 _ ltac:(lia) (tight_vec _ TAA)) as VAA.
  pose proof (vec_le 255 1023 _ ltac:(lia) (tight_vec _ TBB)) as VBB.
  destruct (fe_mult_run _ _ VAA VBB) as [TX EX]. destruct (fe_mult_run _ _ VE Vu) as [TZ EZ].
  destruct (square_run _ Vs) as [TX3 EX3]. destruct (square_run _ Vd) as [Tr Er].
  pose proof (vec_le 255 1023 _ ltac:(lia) (tight_vec _ Tr)) as Vr.
  destruct (fe_mult_run _ _ Vr (vec_le 255 1023 _ ltac:(lia) Hw)) as [TZ3 EZ3].
  unfold xz_ok. cbn [fst snd]. split; (split; [by apply tight_vec|]; split; [by apply tight_ok|]).
  - destruct (spec_step_eqp x1 x2 z2 x3 z3) as (-> & -> & _).
    rewrite EX, EZ, Eu, E1, EE, EAA, EBB, EA, EB, EP1, EP2. split; apply eq_eqp; ring.
  - destruct (spec_step_eqp x1 x2 z2 x3 z3) as (_ & _ & -> & ->).
    rewrite EX3, EZ3, Er, Es, Ed, ECB, EDA, EA, EB, EC, ED, EP1, EP2, EQ1, EQ2, Ew. split; apply eq_eqp; ring.
Qed.

Lemma ladder_step_ok work e x1 k pos P Q N1 N2 :
  vec 255 work → eqp (val work) x1 → xz_ok P N1 → xz_ok Q N2 →
  Z.land (Z.shiftr (Zb (nth (pos / 8) e x00)) (Z.of_nat (pos mod 8))) 1 = Z.b2z (Z.testbit k (Z.of_nat pos)) →
  let t := ladder_step work e pos P Q in
  let n := spec_step x1 (Z.testbit k (Z.of_nat pos)) N1 N2 in
  xz_ok t.1 n.1 ∧ xz_ok t.2 n.2.
Proof.
  intros Hw Ew HP HQ Eb. unfold ladder_step. rewrite Eb. set (b := Z.testbit k (Z.of_nat pos)).
  pose proof HP as (VP1 & [VP2 _] & _). pose proof HQ as (VQ1 & [VQ2 _] & _). rewrite fe_select_run by done.
  assert (∀ P Q N1 N2, xz_ok P N1 → xz_ok Q N2 →
    let t := double_add work P Q in let n := spec_step x1 false N1 N2 in
    xz_ok t.1 n.1 ∧ xz_ok t.2 n.2) as Hda.
  { clear -Hw Ew. intros P Q [x2 z2] [x3 z3] HP HQ. by apply double_add_ok. }
  assert (∀ P Q N1 N2, xz_ok P N1 → xz_ok Q N2 → ∀ c : bool, select P Q (Z.b2z c) = if c then (Q, P) else (P, Q)) as Hsel.
  { intros P' Q' N1' N2' (V1 & [V2 _] & _) (V3 & [V4 _] & _) c. by apply fe_select_run. }
  assert (∀ N1 N2, spec_step x1 true N1 N2 = ((spec_step x1 false N2 N1).2, (spec_step x1 false N2 N1).1)) as Hsw
    by (intros [] []; reflexivity).
  destruct b.
  - destruct (Hda Q P _ _ HQ HP) as [Ha Hb]. destruct (double_add work Q P) as [R1 R2]. cbn [fst snd] in Ha, Hb.
    rewrite (Hsel _ _ _ _ Ha Hb true), Hsw. done.
  - destruct (Hda P Q _ _ HP HQ) as [Ha Hb]. destruct (double_add work P Q) as [R1 R2]. cbn [fst snd] in Ha, Hb.
    rewrite (Hsel _ _ _ _ Ha Hb false). done.
Qed.

Lemma val_testbit l n :
  Forall (below 255) l → Z.testbit (val l) (Z.of_nat n) = Z.testbit (co l (n / 8)) (Z.of_nat (n mod 8)).
Proof.
  intros Hl. revert n. induction Hl as [|x l Hx Hl IH]; intros n.
  { rewrite co_nil. cbn [val]. by rewrite !Z.testbit_0_l. }
  cbn [val]. unfold below in Hx. destruct (decide (n < 8)%nat) as [Hn|Hn].
  - rewrite Nat.div_small, Nat.mod_small by done. change (co (x :: l) 0) with x.
    rewrite <- (Z.mod_pow2_bits_low _ 8) by lia. change (2 ^ 8) with 256.
    rewrite (Z.mul_comm 256), Z_mod_plus_full, Z.mod_small by lia. done.
  - replace n with (n - 8 + 1 * 8)%nat by lia. rewrite Nat.div_add, Nat.Div0.mod_add by lia.
    rewrite Nat.add_1_r. change (co (x :: l) (S ((n - 8) / 8))) with (co l ((n - 8) / 8)).
    rewrite <- IH, Nat2Z.inj_add. rewrite <- Z.div_pow2_bits by lia. change (2 ^ Z.of_nat (1 * 8)) with 256.
    rewrite (Z.mul_comm 256), Z.div_add, Z.div_small by lia. done.
Qed.

Lemma bytes_below (l : bytes) : Forall (below 255) (map Zb l).
Proof. apply Forall_fmap, Forall_true. intros b. pose proof (Zb_range b). unfold below. simpl. lia. Qed.

Lemma land_1 x : Z.land x 1 = Z.b2z (Z.testbit x 0).
Proof. change 1 with (Z.ones 1). rewrite Z.land_ones by lia. by rewrite Z.testbit_spec' by lia; rewrite Z.div_1_r. Qed.

Lemma e_bit (e : bytes) pos :
  Z.land (Z.shiftr (Zb (nth (pos / 8) e x00)) (Z.of_nat (pos mod 8))) 1 =
  Z.b2z (Z.testbit (val (map Zb e)) (Z.of_nat pos)).
Proof.
  rewrite land_1, Z.shiftr_spec, Z.add_0_l by lia. rewrite val_testbit by apply bytes_below.
  do 2 f_equal. unfold co. change 0 with (Zb x00). by rewrite map_nth.
Qed.

Lemma ladder_loop_ok work e x1 n P Q N1 N2 :
  vec 255 work → eqp (val work) x1 → xz_ok P N1 → xz_ok Q N2 →
  xz_ok (ladder_loop work e n P Q) (spec_loop x1 (val (map Zb e)) n N1 N2).
Proof.
  intros Hw Ew. revert P Q N1 N2. induction n as [|n IH]; intros P Q N1 N2 HP HQ; [done|].
  cbn [ladder_loop spec_loop]. pose proof (ladder_step_ok work e x1 (val (map Zb e)) n P Q N1 N2 Hw Ew HP HQ (e_bit e n)) as Hs.
  destruct (spec_step x1 _ N1 N2) as [N1' N2']. destruct Hs as [H1 H2]. by apply IH.
Qed.

Lemma limbs_ok x : below 255 x → vec 255 (limbs x) ∧ co (limbs x) 31 ≤ 128 ∧ val (limbs x) = x.
Proof.
  intros Hx. unfold limbs. split; [|split].
  - split; [done|]. constructor; [done|]. apply Forall_replicate. unfold below. lia.
  - change (co (x :: replicate 31 0) 31) with 0. lia.
  - cbn. lia.
Qed.

Lemma mainloop_ok (p e : bytes) :
  length p = 32%nat →
  xz_ok (mainloop (map Zb p) e) (spec_loop (val (map Zb p)) (val (map Zb e)) 255 (1, 0) (val (map Zb p), 1)).
Proof.
  intros Hp. assert (vec 255 (map Zb p)) as Hw by (split; [by rewrite length_map|apply bytes_below]).
  destruct (limbs_ok 1) as (V1 & L1 & E1); [unfold below; lia|].
  destruct (limbs_ok 0) as (V0 & L0 & E0); [unfold below; lia|].
  unfold mainloop. generalize 255%nat as n. intros n. apply ladder_loop_ok; [exact Hw|reflexivity| |];
    split; cbn [fst snd]; rewrite ?E1, ?E0; auto; split; auto; split; reflexivity.
Qed.

(** ** The reciprocal *)

(** [a] is the power [n] of [z]. *)
Definition pw (z : Z) (n : Z) (a : list Z) : Prop := vec 255 a ∧ eqp (val a) (z ^ n) ∧ 0 ≤ n.

Lemma pw_mult z n m k a b : pw z n a → pw z m b → k = n + m → pw z k (mult a b).
Proof.
  intros (Va & Ea & Hn) (Vb & Eb & Hm) ->.
  destruct (fe_mult_run a b) as [Ht E]; [by eapply vec_le; [|done]; lia..|].
  split; [by apply tight_vec|]. split; [|lia]. rewrite E, Ea, Eb, Z.pow_add_r by lia. done.
Qed.
Lemma pw_square z n k a : pw z n a → k = 2 * n → pw z k (square a).
Proof.
  intros (Va & Ea & Hn) ->. destruct (square_run a) as [Ht E]; [by eapply vec_le; [|done]; lia|].
  split; [by apply tight_vec|]. split; [|lia]. rewrite E, Ea.
  replace (2 * n) with (n + n) by lia. by rewrite Z.pow_add_r by lia.
Qed.
Lemma pw_squares z n i k a : pw z n a → k = 2 ^ Z.of_nat i * n → pw z k (squares i a).
Proof.
  intros Ha. revert k. induction i as [|i IH]; intros k Hk; [replace k with n by (simpl in Hk; lia); done|].
  change (squares (S i) a) with (square (squares i a)). rewrite Nat2Z.inj_succ, Z.pow_succ_r in Hk by lia.
  apply (pw_square z (2 ^ Z.of_nat i * n)); [by apply IH|lia].
Qed.

Lemma recip_ok v z : pw v 1 z → pw v (prime25519 - 2) (recip z).
Proof.
  intros Hz. unfold recip. cbv zeta.
  assert (pw v 2 (square z)) as H2 by (by apply (pw_square v 1)).
  set (z2 := square z) in *. clearbody z2.
  assert (pw v 9 (mult (square (square z2)) z)) as H9.
  { apply (pw_mult v 8 1); [|done|done]. apply (pw_square v 4); [|done]. by apply (pw_square v 2). }
  set (z9 := mult (square (square z2)) z) in *. clearbody z9.
  assert (pw v 11 (mult z9 z2)) as H11 by (by apply (pw_mult v 9 2)).
  set (z11 := mult z9 z2) in *. clearbody z11.
  assert (pw v (2 ^ 5 - 1) (mult (square z11) z9)) as H5.
  { apply (pw_mult v 22 9); [|done|done]. by apply (pw_square v 11). }
  set (z2_5_0 := mult (square z11) z9) in *. clearbody z2_5_0.
  assert (∀ i n a b m, pw v n a → pw v m b → pw v (2 ^ Z.of_nat i * n + m) (mult (squares i a) b)) as Hs.
  { clear. intros i n a b m Ha Hb. eapply pw_mult; [by eapply pw_squares|exact Hb|done]. }
  assert (∀ i j n a b m, pw v n a → pw v m b →
    pw v (2 ^ Z.of_nat i * (2 ^ Z.of_nat j * n) + m) (mult (squares i (squares j a)) b)) as Hss.
  { clear -Hs. intros i j n a b m Ha Hb. apply Hs; [by eapply pw_squares|done]. }
  pose proof (Hs 5%nat _ _ _ _ H5 H5) as H10. set (z2_10_0 := mult (squares 5 z2_5_0) z2_5_0) in *. clearbody z2_10_0.
  pose proof (Hss 8%nat 2%nat _ _ _ _ H10 H10) as H20. set (z2_20_0 := mult _ z2_10_0) in H20. fold z2_20_0. clearbody z2_20_0.
  pose proof (Hss 18%nat 2%nat _ _ _ _ H20 H20) as H40. set (z2_40_0 := mult _ z2_20_0) in H40. fold z2_40_0. clearbody z2_40_0.
  pose proof (Hss 8%nat 2%nat _ _ _ _ H40 H10) as H50. set (z2_50_0 := mult _ z2_10_0) in H50. fold z2_50_0. clearbody z2_50_0.
  pose proof (Hss 48%nat 2%nat _ _ _ _ H50 H50) as H100. set (z2_100_0 := mult _ z2_50_0) in H100. fold z2_100_0. clearbody z2_100_0.
  pose proof (Hss 98%nat 2%nat _ _ _ _ H100 H100) as H200. set (z2_200_0 := mult _ z2_100_0) in H200. fold z2_200_0. clearbody z2_200_0.
  pose proof (Hss 48%nat 2%nat _ _ _ _ H200 H50) as H250. set (z2_250_0 := mult _ z2_50_0) in H250. fold z2_250_0. clearbody z2_250_0.
  pose proof (Hs 5%nat _ _ _ _ H250 H11) as Hr. revert Hr.
  match goal with |- pw v ?n _ → _ => replace n with (prime25519 - 2) by reflexivity end. auto.
Qed.

(** ** The function *)

Lemma le_val (l : bytes) : le (length l) (val (map Zb l)) = l.
Proof.
  induction l as [|b l IH]; [done|]. cbn [length map val le]. pose proof (Zb_range b).
  rewrite (Z.mul_comm 256), Z.div_add, Z.div_small, Z.add_0_l, IH by lia. f_equal.
  rewrite <- (bZ_Zb b) at 2. unfold bZ. by rewrite Z_mod_plus_full, (Z.mod_small (Zb b)) by lia.
Qed.

Lemma byte_ops b :
  Zb (bZ (Z.land (Zb b) 248)) = Zb b - Zb b mod 8 ∧ Zb (bZ (Z.lor (Z.land (Zb b) 127) 64)) = 64 + Zb b mod 64.
Proof. destruct b; split; reflexivity. Qed.

Lemma clamp_val (n : bytes) :
  length n = 32%nat → val (map Zb (clamp n)) = decode_scalar (val (map Zb n)).
Proof.
  intros Hn. destruct n as [|b0 n]; [done|]. injection Hn as Hn.
  destruct (exists_last (l := n)) as (m & b31 & ->); [by intros ->|]. rewrite length_app in Hn. simpl in Hn.
  assert (clamp (b0 :: m ++ [b31]) = bZ (Z.land (Zb b0) 248) :: m ++ [bZ (Z.lor (Z.land (Zb b31) 127) 64)]) as ->.
  { unfold clamp. cbn [imap]. f_equal. rewrite imap_app. f_equal.
    - apply list_eq. intros i. rewrite list_lookup_imap.
      destruct (m !! i) as [x|] eqn:Hi; [|done]. pose proof (lookup_lt_Some _ _ _ Hi). simpl.
      by rewrite (proj2 (Nat.eqb_neq i 30)) by lia.
    - cbn [imap]. by replace (length m + 0)%nat with 30%nat by lia. }
  cbn [map val]. rewrite !map_app, !val_app, !length_map. replace (length m) with 30%nat by lia. cbn [map val].
  destruct (byte_ops b0) as [-> _]. destruct (byte_ops b31) as [_ ->].
  pose proof (val_bound 255 _ (bytes_below m) ltac:(lia)) as Hb. rewrite length_map in Hb.
  replace (length m) with 30%nat in Hb by lia. pose proof (Zb_range b0). pose proof (Zb_range b31).
  set (v := val (map Zb m)) in *. set (x := Zb b0) in *. set (y := Zb b31) in *. unfold decode_scalar.
  set (K := 256 ^ Z.of_nat 30) in *. assert (2 ^ 254 = 64 * (256 * K)) as -> by done. assert (0 < K) as HK by done.
  clearbody v x y K. pose proof (Z.div_mod x 8 ltac:(lia)) as Ex. pose proof (Z.div_mod y 64 ltac:(lia)) as Ey.
  pose proof (Z.mod_pos_bound x 8 ltac:(lia)). pose proof (Z.mod_pos_bound y 64 ltac:(lia)).
  set (x8 := x mod 8) in *. set (y64 := y mod 64) in *. set (qx := x / 8) in *. set (qy := y / 64) in *.
  clearbody x8 y64 qx qy.
  assert ((x + 256 * (v + K * (y + 256 * 0))) mod (64 * (256 * K)) = x + 256 * (v + K * y64)) as ->.
  { symmetry. apply (Z.mod_unique _ _ qy); nia. }
  assert ((x + 256 * (v + K * y64)) / 8 = qx + 32 * (v + K * y64)) as ->.
  { symmetry. apply (Z.div_unique _ _ _ x8); lia. }
  lia.
Qed.

Lemma eqp_fp_eq x y : eqp x y → fp x = fp y.
Proof. intros [k ->]. unfold fp. apply Z_mod_plus_full. Qed.

(** C8: for every scalar and every point the bytes are those of the ladder of
    RFC 7748 over the integers modulo [2^255 - 19]: the limbs never overflow
    and no carry is lost. The coordinate is taken with all its 256 bits. *)
Theorem scalarmult_refines_x25519 (n p : bytes) :
  length n = 32%nat → length p = 32%nat →
  crypto_scalarmult_curve25519 n p =
    le 32 (x25519 (decode_scalar (val (map Zb n))) (val (map Zb p))).
Proof.
  intros Hn Hp. unfold crypto_scalarmult_curve25519, x25519. cbv zeta. rewrite <- (clamp_val n Hn).
  destruct (mainloop_ok p (clamp n) Hp) as (V1 & [V2 _] & E1 & E2). revert V1 V2 E1 E2.
  generalize (mainloop (map Zb p) (clamp n)) as work.
  generalize (spec_loop (val (map Zb p)) (val (map Zb (clamp n))) 255 (1, 0) (val (map Zb p), 1)) as N.
  intros [x2 z2] work V1 V2 E1 E2. cbn [fst snd] in *.
  assert (pw z2 1 work.2) as Hz by (split; [done|]; split; [by rewrite Z.pow_1_r|lia]).
  apply recip_ok in Hz as (Vr & Er & _).
  destruct (fe_mult_run work.1 (recip work.2)) as [Ht Em]; [by eapply vec_le; [|done]; lia..|].
  rewrite E1, Er in Em. revert Ht Em. generalize (mult work.1 (recip work.2)) as m. intros m Ht Em.
  destruct (freeze_run m Ht) as [Hl Hv]. rewrite <- (le_val (map bZ (freeze m))), length_map, Hl, Hv.
  f_equal. fold (fp (val m)). apply eqp_fp_eq. rewrite Em. rewrite Zpow_mod_correct by done. fold (fp (z2 ^ (prime25519 - 2))).
  by rewrite eqp_fp.
Qed.

Lemma scalarmult_refines_x25519_witness :
  crypto_scalarmult_curve25519 (replicate 32 x07) (x09 :: replicate 31 x00) =
    le 32 (x25519 (decode_scalar (val (map Zb (replicate 32 x07)))) (val (map Zb (x09 :: replicate 31 x00)))).
Proof. apply (scalarmult_refines_x25519 (replicate 32 x07) (x09 :: replicate 31 x00)); reflexivity. Defined.
