(* ===== verification/Dh.v ===== *)
(** * Key exchange groups: [dh.c]

    The table of groups, [group_get], and the key exchange of each kind of
    group: MODP and ECP over OpenSSL, whose arithmetic is a parameter,
    Curve25519, and the hybrid of Streamlined NTRU Prime with Curve25519. The
    padding of numbers to the length of the group, the lengths of the
    exchanges and the order of the parts are those of the source. The theorems
    say that no exchange leaves its buffer, and that the two ends of an
    exchange compute the same secret. *)

From S2P Require Import Curve25519.
From S2P Require Import Prelude Types Ibuf Build Queue Keys NtruInt NtruCode NtruSort NtruPoly NtruRecip NtruKem.
From Stdlib Require Import Zpow_facts.

(** ** The table *)

Inductive group_type : Type := GROUP_MODP | GROUP_ECP | GROUP_CURVE25519 | GROUP_SNTRUP761X25519.

#[export] Instance group_type_eq_dec : EqDecision group_type.
Proof. solve_decision. Defined.

(** The curves, known to OpenSSL by name. *)
Inductive curve_nid : Type :=
  | NID_X9_62_prime256v1 | NID_secp384r1 | NID_secp521r1 | NID_secp224r1
  | NID_brainpoolP224r1 | NID_brainpoolP256r1 | NID_brainpoolP384r1 | NID_brainpoolP512r1.

(** [struct group_id]; prime and generator are the numbers [BN_hex2bn] reads. *)
Record group_id := mk_group_id {
  gi_type : group_type; gi_id : Z; gi_bits : Z; gi_prime : option Z; gi_generator : option Z; gi_nid : option curve_nid }.

Definition modp (id bits prime : Z) : group_id := mk_group_id GROUP_MODP id bits (Some prime) (Some 2) None.
Definition ecp (id bits : Z) (nid : curve_nid) : group_id := mk_group_id GROUP_ECP id bits None None (Some nid).

Definition CURVE25519_SIZE : Z := 32.
Definition SHA512_DIGEST_LENGTH : Z := 64.
Definition SNTRUP761_PUBLICKEYBYTES : Z := 1158.
Definition SNTRUP761_SECRETKEYBYTES : Z := 1763.
Definition SNTRUP761_CIPHERTEXTBYTES : Z := 1039.

Definition ike_groups : list group_id :=
  [
    modp 1 768
      0xFFFFFFFFFFFFFFFFC90FDAA22168C234C4C6628B80DC1CD129024E088A67CC74020BBEA63B139B22514A08798E3404DDEF9519B3CD3A431B302B0A6DF25F14374FE1356D6D51C245E485B576625E7EC6F44C42E9A63A3620FFFFFFFFFFFFFFFF;
    modp 2 1024
      0xFFFFFFFFFFFFFFFFC90FDAA22168C234C4C6628B80DC1CD129024E088A67CC74020BBEA63B139B22514A08798E3404DDEF9519B3CD3A431B302B0A6DF25F14374FE1356D6D51C245E485B576625E7EC6F44C42E9A637ED6B0BFF5CB6F406B7EDEE386BFB5A899FA5AE9F24117C4B1FE649286651ECE65381FFFFFFFFFFFFFFFF;
    modp 5 1536
      0xFFFFFFFFFFFFFFFFC90FDAA22168C234C4C6628B80DC1CD129024E088A67CC74020BBEA63B139B22514A08798E3404DDEF9519B3CD3A431B302B0A6DF25F14374FE1356D6D51C245E485B576625E7EC6F44C42E9A637ED6B0BFF5CB6F406B7EDEE386BFB5A899FA5AE9F24117C4B1FE649286651ECE45B3DC2007CB8A163BF0598DA48361C55D39A69163FA8FD24CF5F83655D23DCA3AD961C62F356208552BB9ED529077096966D670C354E4ABC9804F1746C08CA237327FFFFFFFFFFFFFFFF;
    modp 14 2048
      0xFFFFFFFFFFFFFFFFC90FDAA22168C234C4C6628B80DC1CD129024E088A67CC74020BBEA63B139B22514A08798E3404DDEF9519B3CD3A431B302B0A6DF25F14374FE1356D6D51C245E485B576625E7EC6F44C42E9A637ED6B0BFF5CB6F406B7EDEE386BFB5A899FA5AE9F24117C4B1FE649286651ECE45B3DC2007CB8A163BF0598DA48361C55D39A69163FA8FD24CF5F83655D23DCA3AD961C62F356208552BB9ED529077096966D670C354E4ABC9804F1746C08CA18217C32905E462E36CE3BE39E772C180E86039B2783A2EC07A28FB5C55DF06F4C52C9DE2BCBF6955817183995497CEA956AE515D2261898FA051015728E5A8AACAA68FFFFFFFFFFFFFFFF;
    modp 15 3072
      0xFFFFFFFFFFFFFFFFC90FDAA22168C234C4C6628B80DC1CD129024E088A67CC74020BBEA63B139B22514A08798E3404DDEF9519B3CD3A431B302B0A6DF25F14374FE1356D6D51C245E485B576625E7EC6F44C42E9A637ED6B0BFF5CB6F406B7EDEE386BFB5A899FA5AE9F24117C4B1FE649286651ECE45B3DC2007CB8A163BF0598DA48361C55D39A69163FA8FD24CF5F83655D23DCA3AD961C62F356208552BB9ED529077096966D670C354E4ABC9804F1746C08CA18217C32905E462E36CE3BE39E772C180E86039B2783A2EC07A28FB5C55DF06F4C52C9DE2BCBF6955817183995497CEA956AE515D2261898FA051015728E5A8AAAC42DAD33170D04507A33A85521ABDF1CBA64ECFB850458DBEF0A8AEA71575D060C7DB3970F85A6E1E4C7ABF5AE8CDB0933D71E8C94E04A25619DCEE3D2261AD2EE6BF12FFA06D98A0864D87602733EC86A64521F2B18177B200CBBE117577A615D6C770988C0BAD946E208E24FA074E5AB3143DB5BFCE0FD108E4B82D120A93AD2CAFFFFFFFFFFFFFFFF;
    modp 16 4096
      0xFFFFFFFFFFFFFFFFC90FDAA22168C234C4C6628B80DC1CD129024E088A67CC74020BBEA63B139B22514A08798E3404DDEF9519B3CD3A431B302B0A6DF25F14374FE1356D6D51C245E485B576625E7EC6F44C42E9A637ED6B0BFF5CB6F406B7EDEE386BFB5A899FA5AE9F24117C4B1FE649286651ECE45B3DC2007CB8A163BF0598DA48361C55D39A69163FA8FD24CF5F83655D23DCA3AD961C62F356208552BB9ED529077096966D670C354E4ABC9804F1746C08CA18217C32905E462E36CE3BE39E772C180E86039B2783A2EC07A28FB5C55DF06F4C52C9DE2BCBF6955817183995497CEA956AE515D2261898FA051015728E5A8AAAC42DAD33170D04507A33A85521ABDF1CBA64ECFB850458DBEF0A8AEA71575D060C7DB3970F85A6E1E4C7ABF5AE8CDB0933D71E8C94E04A25619DCEE3D2261AD2EE6BF12FFA06D98A0864D87602733EC86A64521F2B18177B200CBBE117577A615D6C770988C0BAD946E208E24FA074E5AB3143DB5BFCE0FD108E4B82D120A92108011A723C12A787E6D788719A10BDBA5B2699C327186AF4E23C1A946834B6150BDA2583E9CA2AD44CE8DBBBC2DB04DE8EF92E8EFC141FBECAA6287C59474E6BC05D99B2964FA090C3A2233BA186515BE7ED1F612970CEE2D7AFB81BDD762170481CD0069127D5B05AA993B4EA988D8FDDC186FFB7DC90A6C08F4DF435C934063199FFFFFFFFFFFFFFFF;
    modp 17 6144
      0xFFFFFFFFFFFFFFFFC90FDAA22168C234C4C6628B80DC1CD129024E088A67CC74020BBEA63B139B22514A08798E3404DDEF9519B3CD3A431B302B0A6DF25F14374FE1356D6D51C245E485B576625E7EC6F44C42E9A637ED6B0BFF5CB6F406B7EDEE386BFB5A899FA5AE9F24117C4B1FE649286651ECE45B3DC2007CB8A163BF0598DA48361C55D39A69163FA8FD24CF5F83655D23DCA3AD961C62F356208552BB9ED529077096966D670C354E4ABC9804F1746C08CA18217C32905E462E36CE3BE39E772C180E86039B2783A2EC07A28FB5C55DF06F4C52C9DE2BCBF6955817183995497CEA956AE515D2261898FA051015728E5A8AAAC42DAD33170D04507A33A85521ABDF1CBA64ECFB850458DBEF0A8AEA71575D060C7DB3970F85A6E1E4C7ABF5AE8CDB0933D71E8C94E04A25619DCEE3D2261AD2EE6BF12FFA06D98A0864D87602733EC86A64521F2B18177B200CBBE117577A615D6C770988C0BAD946E208E24FA074E5AB3143DB5BFCE0FD108E4B82D120A92108011A723C12A787E6D788719A10BDBA5B2699C327186AF4E23C1A946834B6150BDA2583E9CA2AD44CE8DBBBC2DB04DE8EF92E8EFC141FBECAA6287C59474E6BC05D99B2964FA090C3A2233BA186515BE7ED1F612970CEE2D7AFB81BDD762170481CD0069127D5B05AA993B4EA988D8FDDC186FFB7DC90A6C08F4DF435C93402849236C3FAB4D27C7026C1D4DCB2602646DEC9751E763DBA37BDF8FF9406AD9E530EE5DB382F413001AEB06A53ED9027D831179727B0865A8918DA3EDBEBCF9B14ED44CE6CBACED4BB1BDB7F1447E6CC254B332051512BD7AF426FB8F401378CD2BF5983CA01C64B92ECF032EA15D1721D03F482D7CE6E74FEF6D55E702F46980C82B5A84031900B1C9E59E7C97FBEC7E8F323A97A7E36CC88BE0F1D45B7FF585AC54BD407B22B4154AACC8F6D7EBF48E1D814CC5ED20F8037E0A79715EEF29BE32806A1D58BB7C5DA76F550AA3D8A1FBFF0EB19CCB1A313D55CDA56C9EC2EF29632387FE8D76E3C0468043E8F663F4860EE12BF2D5B0B7474D6E694F91E6DCC4024FFFFFFFFFFFFFFFF;
    modp 18 8192
      0xFFFFFFFFFFFFFFFFC90FDAA22168C234C4C6628B80DC1CD129024E088A67CC74020BBEA63B139B22514A08798E3404DDEF9519B3CD3A431B302B0A6DF25F14374FE1356D6D51C245E485B576625E7EC6F44C42E9A637ED6B0BFF5CB6F406B7EDEE386BFB5A899FA5AE9F24117C4B1FE649286651ECE45B3DC2007CB8A163BF0598DA48361C55D39A69163FA8FD24CF5F83655D23DCA3AD961C62F356208552BB9ED529077096966D670C354E4ABC9804F1746C08CA18217C32905E462E36CE3BE39E772C180E86039B2783A2EC07A28FB5C55DF06F4C52C9DE2BCBF6955817183995497CEA956AE515D2261898FA051015728E5A8AAAC42DAD33170D04507A33A85521ABDF1CBA64ECFB850458DBEF0A8AEA71575D060C7DB3970F85A6E1E4C7ABF5AE8CDB0933D71E8C94E04A25619DCEE3D2261AD2EE6BF12FFA06D98A0864D87602733EC86A64521F2B18177B200CBBE117577A615D6C770988C0BAD946E208E24FA074E5AB3143DB5BFCE0FD108E4B82D120A92108011A723C12A787E6D788719A10BDBA5B2699C327186AF4E23C1A946834B6150BDA2583E9CA2AD44CE8DBBBC2DB04DE8EF92E8EFC141FBECAA6287C59474E6BC05D99B2964FA090C3A2233BA186515BE7ED1F612970CEE2D7AFB81BDD762170481CD0069127D5B05AA993B4EA988D8FDDC186FFB7DC90A6C08F4DF435C93402849236C3FAB4D27C7026C1D4DCB2602646DEC9751E763DBA37BDF8FF9406AD9E530EE5DB382F413001AEB06A53ED9027D831179727B0865A8918DA3EDBEBCF9B14ED44CE6CBACED4BB1BDB7F1447E6CC254B332051512BD7AF426FB8F401378CD2BF5983CA01C64B92ECF032EA15D1721D03F482D7CE6E74FEF6D55E702F46980C82B5A84031900B1C9E59E7C97FBEC7E8F323A97A7E36CC88BE0F1D45B7FF585AC54BD407B22B4154AACC8F6D7EBF48E1D814CC5ED20F8037E0A79715EEF29BE32806A1D58BB7C5DA76F550AA3D8A1FBFF0EB19CCB1A313D55CDA56C9EC2EF29632387FE8D76E3C0468043E8F663F4860EE12BF2D5B0B7474D6E694F91E6DBE115974A3926F12FEE5E438777CB6A932DF8CD8BEC4D073B931BA3BC832B68D9DD300741FA7BF8AFC47ED2576F6936BA424663AAB639C5AE4F5683423B4742BF1C978238F16CBE39D652DE3FDB8BEFC848AD922222E04A4037C0713EB57A81A23F0C73473FC646CEA306B4BCBC8862F8385DDFA9D4B7FA2C087E879683303ED5BDD3A062B3CF5B3A278A66D2A13F83F44F82DDF310EE074AB6A364597E899A0255DC164F31CC50846851DF9AB48195DED7EA1B1D510BD7EE74D73FAF36BC31ECFA268359046F4EB879F924009438B481C6CD7889A002ED5EE382BC9190DA6FC026E479558E4475677E9AA9E3050E2765694DFC81F56E880B96E7160C980DD98EDD3DFFFFFFFFFFFFFFFFF;
    ecp 19 256 NID_X9_62_prime256v1;
    ecp 20 384 NID_secp384r1;
    ecp 21 521 NID_secp521r1;
    ecp 26 224 NID_secp224r1;
    ecp 27 224 NID_brainpoolP224r1;
    ecp 28 256 NID_brainpoolP256r1;
    ecp 29 384 NID_brainpoolP384r1;
    ecp 30 512 NID_brainpoolP512r1;
    mk_group_id GROUP_CURVE25519 31 (CURVE25519_SIZE * 8) None None None;
    mk_group_id GROUP_SNTRUP761X25519 1035
      ((Z.max SNTRUP761_PUBLICKEYBYTES SNTRUP761_CIPHERTEXTBYTES + CURVE25519_SIZE) * 8) None None None
  ].

Definition group_getid (id : Z) : option group_id := find (λ p, gi_id p =? id) ike_groups.

(** ** OpenSSL and the scalar multiplication *)

Definition BN_num_bytes (x : Z) : Z := if x <=? 0 then 0 else Z.log2 x / 8 + 1.
Definition BN_bn2bin (x : Z) : bytes := be_encode (Z.to_nat (BN_num_bytes x)) x.
Definition BN_bin2bn (buf : bytes) : Z := be_decode 0 buf.

(** The functions of OpenSSL that [dh.c] calls. A key of a MODP group is a
    private and a public number, a key of a curve a private number and a
    point. *)
Class Libcrypto := {
  DH_generate_key : Z → Z → option Z → R (option (Z * Z));
  DH_compute_key : Z → Z → Z → Z → option Z;
  ec_point : Type;
  EC_generate_key : curve_nid → R (option (Z * ec_point));
  EC_KEY_check_key : curve_nid → ec_point → bool;
  EC_generator : curve_nid → ec_point;
  EC_POINT_mul : curve_nid → Z → ec_point → option ec_point;
  EC_POINT_get_affine : curve_nid → ec_point → option (Z * Z);
  EC_POINT_set_affine : curve_nid → Z → Z → option ec_point }.

(** What [dh.c] relies on: [DH_generate_key] keeps a private number that is
    there and computes the public one, [DH_compute_key] raises the number of
    the peer to the private one; coordinates are elements of the field of the
    curve, and a point is its coordinates; multiples of the generator
    commute. *)
Class LibcryptoLaws `{!Libcrypto} : Prop := {
  dh_generate p g k s :
    wp starved (DH_generate_key p g k)
      (λ o _, ∀ a y, o = Some (a, y) → 0 ≤ a ∧ y = g ^ a mod p ∧ (∀ a', k = Some a' → a = a')) s;
  dh_compute p g a x v : DH_compute_key p g a x = Some v → v = x ^ a mod p;
  ec_generate nid s :
    wp starved (EC_generate_key nid)
      (λ o _, ∀ a P, o = Some (a, P) → EC_POINT_mul nid a (EC_generator nid) = Some P) s;
  ec_field gi nid P x y :
    gi ∈ ike_groups → gi_nid gi = Some nid → EC_POINT_get_affine nid P = Some (x, y) →
    0 ≤ x < 2 ^ gi_bits gi ∧ 0 ≤ y < 2 ^ gi_bits gi;
  ec_affine nid P x y P' :
    EC_POINT_get_affine nid P = Some (x, y) → EC_POINT_set_affine nid x y = Some P' → P' = P;
  ec_commute nid a b A B S T :
    EC_POINT_mul nid a (EC_generator nid) = Some A → EC_POINT_mul nid b (EC_generator nid) = Some B →
    EC_POINT_mul nid a B = Some S → EC_POINT_mul nid b A = Some T → S = T }.

(** [crypto_scalarmult_curve25519] as [dh.c] sees it. *)
Class ScalarMult := { smult : bytes → bytes → bytes }.
Definition basepoint : bytes := x09 :: replicate 31 x00.
Class ScalarMultLaws `{!ScalarMult} : Prop := {
  smult_length a x : length a = 32%nat → length x = 32%nat → length (smult a x) = 32%nat;
  smult_commute a b :
    length a = 32%nat → length b = 32%nat → smult a (smult b basepoint) = smult b (smult a basepoint) }.
(** The implementation. *)
Definition smult_ref : ScalarMult := {| smult := crypto_scalarmult_curve25519 |}.

(** ** State *)

(** [struct curve25519_key], [struct kemsx_key] *)
Record curve25519_key := mk_curve25519_key { ck_secret : bytes; ck_public : bytes }.
Record kemsx_key := mk_kemsx_key {
  kx_kemkey : bytes; kx_secret : bytes; kx_public : bytes; kx_initiator : Z }.
Definition eta_kemsx (r : kemsx_key) : kemsx_key :=
  mk_kemsx_key (kx_kemkey r) (kx_secret r) (kx_public r) (kx_initiator r).
Definition set_kx_kemkey (v : bytes) (r : kemsx_key) : kemsx_key := ltac:(upd eta_kemsx kx_kemkey r v).

Section groups.
Context `{!Libcrypto, !ScalarMult, !Params, !Sha512}.

(** [struct dh_group]: the parameters and, once it is there, the key of a
    MODP group, and the keys of the others. *)
Record group := mk_group {
  gr_id : Z;
  gr_spec : option group_id;
  gr_dh : option (Z * Z * option (Z * Z));
  gr_ec : option (curve_nid * Z * ec_point);
  gr_curve25519 : option curve25519_key;
  gr_kemsx : option kemsx_key }.
Definition eta_group (r : group) : group :=
  mk_group (gr_id r) (gr_spec r) (gr_dh r) (gr_ec r) (gr_curve25519 r) (gr_kemsx r).
Definition set_gr_dh (v : option (Z * Z * option (Z * Z))) (r : group) : group := ltac:(upd eta_group gr_dh r v).
Definition set_gr_ec (v : option (curve_nid * Z * ec_point)) (r : group) : group := ltac:(upd eta_group gr_ec r v).
Definition set_gr_curve25519 (v : option curve25519_key) (r : group) : group :=
  ltac:(upd eta_group gr_curve25519 r v).
Definition set_gr_kemsx (v : option kemsx_key) (r : group) : group := ltac:(upd eta_group gr_kemsx r v).

(** The group, the random bytes to come and the outcomes of allocations (no
    more of them: they succeed). *)
Record gstate := mk_gstate { gs_group : group; gs_rand : bytes; gs_alloc : list bool }.
Abbreviation G := (M gstate).

Definition g_alloc : G bool := λ s,
  match gs_alloc s with
  | [] => Ok (true, s)
  | a :: l => Ok (a, mk_gstate (gs_group s) (gs_rand s) l)
  end.
Definition rand {A} (m : R A) : G A := λ s,
  match m (gs_rand s) with
  | Ok (a, r) => Ok (a, mk_gstate (gs_group s) r (gs_alloc s))
  | Fault f => Fault f
  end.
Definition upd_group (f : group → group) : G unit :=
  modify (λ s, mk_gstate (f (gs_group s)) (gs_rand s) (gs_alloc s)).
Definition deref {A} (o : option A) : G A := match o with Some a => mret a | None => fail Fnull end.

(** [ibuf_new(NULL, len)], and a store at its data. *)
Definition g_new (len : Z) : G (option ibuf) := a ← g_alloc; lift (ibuf_new a None len).
Definition g_fill (buf : ibuf) (off : Z) (data : bytes) : G ibuf :=
  nb ← lift (store (ib_buf buf) (ib_rpos buf + off) data); mret (set_ib_buf nb buf).
(** A store to memory. *)
Definition wr (buf : bytes) (off : Z) (data : bytes) : out bytes :=
  if (0 <=? off) && (off + blen data <=? blen buf)
  then Ok (take (Z.to_nat off) buf ++ data ++ drop (Z.to_nat off + length data) buf) else Fault Foob.

Definition roundup (x y : Z) : Z := (x + (y - 1)) / y * y.

(** ** Lengths *)

Definition modp_getlen (g : group) : Z :=
  match gr_spec g with None => 0 | Some spec => roundup (gi_bits spec) 8 / 8 end.
Definition ec_getlen (g : group) : Z :=
  match gr_spec g with None => 0 | Some spec => roundup (gi_bits spec) 8 * 2 / 8 end.
Definition ec_secretlen (g : group) : Z := ec_getlen g / 2.
Definition ec25519_getlen (g : group) : Z := match gr_spec g with None => 0 | Some _ => CURVE25519_SIZE end.
Definition kemsx_getlen (g : group) : Z := 0.

(** The function pointers that [group_get] sets, by the type of the group. *)
Definition group_getlen (t : group_type) (g : group) : Z :=
  match t with
  | GROUP_MODP => modp_getlen g
  | GROUP_ECP => ec_getlen g
  | GROUP_CURVE25519 => ec25519_getlen g
  | GROUP_SNTRUP761X25519 => kemsx_getlen g
  end.
Definition group_secretlen (t : group_type) (g : group) : Z :=
  match t with GROUP_ECP => ec_secretlen g | _ => group_getlen t g end.

(** ** MODP *)

(** The results: [true] for 0, [false] for -1. *)
Definition modp_init : G bool :=
  g ← gets gs_group;
  spec ← deref (gr_spec g);
  dh ← g_alloc;
  if negb dh then mret false
  else
    match gi_prime spec, gi_generator spec with
    | Some p, Some gen =>
        a ← g_alloc;
        if negb a then mret false
        else
          b ← g_alloc;
          if negb b then mret false
          else _ ← upd_group (set_gr_dh (Some (p, gen, None))); mret true
    | _, _ => mret false
    end.

(** The padding of a number of [ret] bytes to [len]. *)
Definition add_padding (buf : bytes) (ret len : Z) : out bytes :=
  if ret <? len then
    x ← Prelude.rd buf 0 ret;
    buf ← wr buf (len - ret) x;
    wr buf 0 (zeros (len - ret))
  else Ok buf.

Definition modp_create_exchange (buf : bytes) : G (option bytes) :=
  g ← gets gs_group;
  dh ← deref (gr_dh g);
  let '(p, gen, key) := dh in
  o ← rand (DH_generate_key p gen (fst <$> key));
  match o with
  | None => mret None
  | Some (priv, pub) =>
      _ ← upd_group (set_gr_dh (Some (p, gen, Some (priv, pub))));
      buf ← lift (wr buf 0 (BN_bn2bin pub));
      let ret := BN_num_bytes pub in
      if ret =? 0 then mret None
      else buf ← lift (add_padding buf ret (modp_getlen g)); mret (Some buf)
  end.

Definition modp_create_shared (secret exchange : bytes) : G (option bytes) :=
  g ← gets gs_group;
  let len := modp_getlen g in
  x ← lift (Prelude.rd exchange 0 len);
  a ← g_alloc;
  if negb a then mret None
  else
    dh ← deref (gr_dh g);
    let '(p, gen, key) := dh in
    match key with
    | None => mret None
    | Some (priv, _) =>
        match DH_compute_key p gen priv (BN_bin2bn x) with
        | None => mret None
        | Some v =>
            secret ← lift (wr secret 0 (BN_bn2bin v));
            let ret := BN_num_bytes v in
            if ret <=? 0 then mret None
            else secret ← lift (add_padding secret ret len); mret (Some secret)
        end
    end.

(** ** ECP *)

Definition ec_init : G bool :=
  g ← gets gs_group;
  spec ← deref (gr_spec g);
  match gi_nid spec with
  | None => mret false
  | Some nid =>
      a ← g_alloc;
      if negb a then mret false
      else
        o ← rand (EC_generate_key nid);
        match o with
        | None => mret false
        | Some (priv, pub) =>
            _ ← upd_group (set_gr_ec (Some (nid, priv, pub)));
            mret (EC_KEY_check_key nid pub)
        end
  end.

(** [EC_POINT2RAW_XONLY], [EC_POINT2RAW_FULL] *)
Definition ec_point2raw (nid : curve_nid) (point : ec_point) (buf : bytes) (len : Z) (xonly : bool) :
    G (option bytes) :=
  a ← g_alloc;
  if negb a then mret None
  else
    g ← gets gs_group;
    let eclen := ec_getlen g in
    let xlen := eclen / 2 in
    let ylen := if xonly then 0 else eclen / 2 in
    if len <? xlen + ylen then mret None
    else
      match EC_POINT_get_affine nid point with
      | None => mret None
      | Some (x, y) =>
          let xoff := xlen - BN_num_bytes x in
          buf ← lift (wr buf 0 (zeros xoff));
          buf ← lift (wr buf xoff (BN_bn2bin x));
          if BN_num_bytes x =? 0 then mret None
          else if 0 <? ylen then
            let yoff := ylen - BN_num_bytes y + xlen in
            buf ← lift (wr buf xlen (zeros (yoff - xlen)));
            buf ← lift (wr buf yoff (BN_bn2bin y));
            if BN_num_bytes y =? 0 then mret None else mret (Some buf)
          else mret (Some buf)
      end.

Definition ec_raw2point (nid : curve_nid) (buf : bytes) (len : Z) : G (option ec_point) :=
  a ← g_alloc;
  if negb a then mret None
  else
    g ← gets gs_group;
    let eclen := ec_getlen g in
    if len <? eclen then mret None
    else
      let xlen := eclen / 2 in
      x ← lift (Prelude.rd buf 0 xlen);
      y ← lift (Prelude.rd buf xlen xlen);
      b ← g_alloc;
      if negb b then mret None
      else mret (EC_POINT_set_affine nid (BN_bin2bn x) (BN_bin2bn y)).

Definition ec_create_exchange (buf : bytes) : G (option bytes) :=
  g ← gets gs_group;
  let len := ec_getlen g in
  buf ← lift (wr buf 0 (zeros len));
  ec ← deref (gr_ec g);
  let '(nid, _, pub) := ec in
  ec_point2raw nid pub buf len false.

Definition ec_create_shared (secret exchange : bytes) : G (option bytes) :=
  g ← gets gs_group;
  ec ← deref (gr_ec g);
  let '(nid, priv, _) := ec in
  o ← ec_raw2point nid exchange (ec_getlen g);
  match o with
  | None => mret None
  | Some exchangep =>
      a ← g_alloc;
      if negb a then mret None
      else if negb (EC_KEY_check_key nid exchangep) then mret None
      else
        b ← g_alloc;
        if negb b then mret None
        else
          match EC_POINT_mul nid priv exchangep with
          | None => mret None
          | Some secretp => ec_point2raw nid secretp secret (ec_secretlen g) true
          end
  end.

(** ** Curve25519 *)

Definition ec25519_init : G bool :=
  a ← g_alloc;
  if negb a then mret false
  else
    secret ← rand (randombytes 32);
    _ ← upd_group (set_gr_curve25519 (Some (mk_curve25519_key secret (smult secret basepoint))));
    mret true.

Definition ec25519_create_exchange (buf : bytes) : G (option bytes) :=
  g ← gets gs_group;
  c ← deref (gr_curve25519 g);
  x ← lift (Prelude.rd (ck_public c) 0 (ec25519_getlen g));
  buf ← lift (wr buf 0 x);
  mret (Some buf).

Definition ec25519_create_shared (shared public : bytes) : G (option bytes) :=
  g ← gets gs_group;
  c ← deref (gr_curve25519 g);
  public ← lift (Prelude.rd public 0 CURVE25519_SIZE);
  shared ← lift (wr shared 0 (smult (ck_secret c) public));
  x ← lift (Prelude.rd shared 0 CURVE25519_SIZE);
  if bool_decide (x = zeros CURVE25519_SIZE) then mret None else mret (Some shared).

(** ** Streamlined NTRU Prime with Curve25519 *)

Definition KEM_PUBLICKEYBYTES : Z := Z.of_nat PublicKeys_bytes.
Definition KEM_SECRETKEYBYTES : Z :=
  Z.of_nat (SecretKeys_bytes + PublicKeys_bytes + Inputs_bytes + Hash_bytes).
Definition KEM_CIPHERTEXTBYTES : Z := Z.of_nat (Ciphertexts_bytes + Confirm_bytes).
Definition KEM_BYTES : Z := 32.

Definition kemsx_init : G bool := mret true.

(** The rest of [kemsx_create_exchange2]: the public value of the curve
    behind the [off] bytes of the other part. *)
Definition kemsx_append (buf : ibuf) (off : Z) : G (option ibuf) :=
  g ← gets gs_group;
  c ← deref (gr_curve25519 g);
  buf ← g_fill buf off (ck_public c);
  mret (Some buf).

Definition kemsx_create_exchange2 (iexchange : option bytes) : G (option ibuf) :=
  i ← ec25519_init;
  if negb i then mret None
  else
    a ← g_alloc;
    if negb a then mret None
    else
      match iexchange with
      | None =>
          t ← rand crypto_kem_keypair;
          let '(public, secret) := t in
          _ ← upd_group (set_gr_kemsx (Some (mk_kemsx_key (zeros KEM_BYTES) secret public 1)));
          o ← g_new (KEM_PUBLICKEYBYTES + CURVE25519_SIZE);
          match o with
          | None => mret None
          | Some buf => buf ← g_fill buf 0 public; kemsx_append buf KEM_PUBLICKEYBYTES
          end
      | Some x =>
          _ ← upd_group (set_gr_kemsx (Some (mk_kemsx_key (zeros KEM_BYTES) (zeros KEM_SECRETKEYBYTES) (zeros KEM_PUBLICKEYBYTES) 0)));
          if negb (blen x =? KEM_PUBLICKEYBYTES + CURVE25519_SIZE) then mret None
          else
            o ← g_new (KEM_CIPHERTEXTBYTES + CURVE25519_SIZE);
            match o with
            | None => mret None
            | Some buf =>
                t ← rand (crypto_kem_enc x);
                let '(c, kemkey) := t in
                _ ← upd_group (set_gr_kemsx (Some
                  (mk_kemsx_key kemkey (zeros KEM_SECRETKEYBYTES) (zeros KEM_PUBLICKEYBYTES) 0)));
                buf ← g_fill buf 0 c;
                kemsx_append buf KEM_CIPHERTEXTBYTES
            end
      end.

(** The end of [kemsx_create_shared2]: the hash of the two secrets. *)
Definition kemsx_combine (kemkey cp : bytes) : G (option ibuf) :=
  g ← gets gs_group;
  c ← deref (gr_curve25519 g);
  y ← lift (Prelude.rd cp 0 CURVE25519_SIZE);
  let shared := smult (ck_secret c) y in
  o ← g_new SHA512_DIGEST_LENGTH;
  match o with
  | None => mret None
  | Some buf =>
      a ← g_alloc;
      if negb a then mret None
      else buf ← g_fill buf 0 (crypto_hash_sha512 (kemkey ++ shared)); mret (Some buf)
  end.

Definition kemsx_create_shared2 (exchange : option bytes) : G (option ibuf) :=
  g ← gets gs_group;
  match gr_kemsx g, exchange with
  | Some kemsx, Some x =>
      let have := blen x in
      o ← (if negb (kx_initiator kemsx =? 0) then
             if negb (have =? KEM_CIPHERTEXTBYTES + CURVE25519_SIZE) then mret None
             else
               k ← lift (crypto_kem_dec x (kx_secret kemsx));
               _ ← upd_group (set_gr_kemsx (Some (set_kx_kemkey k kemsx)));
               mret (Some (k, drop (Z.to_nat KEM_CIPHERTEXTBYTES) x))
           else if negb (have =? KEM_PUBLICKEYBYTES + CURVE25519_SIZE) then mret None
           else mret (Some (kx_kemkey kemsx, drop (Z.to_nat KEM_PUBLICKEYBYTES) x)));
      match o with
      | None => mret None
      | Some (kemkey, cp) => kemsx_combine kemkey cp
      end
  | _, _ => mret None
  end.

(** ** Groups *)

Definition dh_init (t : group_type) : G bool :=
  match t with
  | GROUP_MODP => modp_init
  | GROUP_ECP => ec_init
  | GROUP_CURVE25519 => ec25519_init
  | GROUP_SNTRUP761X25519 => kemsx_init
  end.

(** [group_get], run on the random bytes and allocations to come. *)
Definition group_get (id : Z) (rnd : bytes) (al : list bool) : out (option gstate) :=
  match group_getid id with
  | None => Ok None
  | Some p =>
      match g_alloc (mk_gstate (mk_group id (Some p) None None None None) rnd al) with
      | Fault f => Fault f
      | Ok (false, _) => Ok None
      | Ok (true, s) =>
          match dh_init (gi_type p) s with
          | Fault f => Fault f
          | Ok (ok, s) => Ok (if (ok : bool) then Some s else None)
          end
      end
  end.

Definition group_exchange (t : group_type) (buf : bytes) : G (option bytes) :=
  match t with
  | GROUP_MODP => modp_create_exchange buf
  | GROUP_ECP => ec_create_exchange buf
  | GROUP_CURVE25519 => ec25519_create_exchange buf
  | GROUP_SNTRUP761X25519 => fail Fnull
  end.
Definition group_shared (t : group_type) (secret exchange : bytes) : G (option bytes) :=
  match t with
  | GROUP_MODP => modp_create_shared secret exchange
  | GROUP_ECP => ec_create_shared secret exchange
  | GROUP_CURVE25519 => ec25519_create_shared secret exchange
  | GROUP_SNTRUP761X25519 => fail Fnull
  end.

Definition dh_create_exchange (iexchange : option bytes) : G (option ibuf) :=
  g ← gets gs_group;
  spec ← deref (gr_spec g);
  match gi_type spec with
  | GROUP_SNTRUP761X25519 => kemsx_create_exchange2 iexchange
  | t =>
      o ← g_new (group_getlen t g);
      match o with
      | None => mret None
      | Some buf =>
          r ← group_exchange t (zeros (group_getlen t g));
          match r with
          | None => mret None
          | Some content => buf ← g_fill buf 0 content; mret (Some buf)
          end
      end
  end.

(** The function pointers as the derivation of the keys calls them. *)
Definition run_plenty {A} (g : group) (m : G (option A)) : option A :=
  match m (mk_gstate g [] []) with Ok (o, _) => o | Fault _ => None end.
Definition group_ops (g : group) : dh_group :=
  match gr_spec g with
  | Some spec =>
      let t := gi_type spec in
      mk_dh_group (gr_id g) (group_getlen t g) (group_secretlen t g)
        (λ x, run_plenty g (group_shared t (zeros (group_secretlen t g)) x))
        (match t with
         | GROUP_SNTRUP761X25519 =>
             Some (λ x, b ← run_plenty g (kemsx_create_shared2 x);
                        Some (ibuf_content b))
         | _ => None
         end)
  | None => mk_dh_group (gr_id g) 0 0 (λ _, None) None
  end.
End groups.

(** ** Numbers in buffers *)

Lemma wr_run buf off data :
  0 ≤ off → off + blen data ≤ blen buf →
  wr buf off data = Ok (take (Z.to_nat off) buf ++ data ++ drop (Z.to_nat off + length data) buf).
Proof. intros Ho Hl. unfold wr. by rewrite !(proj2 (Z.leb_le _ _)) by lia. Qed.

Lemma rd_whole buf n : n = blen buf → Prelude.rd buf 0 n = Ok buf.
Proof.
  intros ->. pose proof (blen_nonneg buf). unfold Prelude.rd. rewrite !(proj2 (Z.leb_le _ _)) by lia.
  by rewrite sub_bytes_all.
Qed.
Lemma rd_app_l l k n : n = blen l → Prelude.rd (l ++ k) 0 n = Ok l.
Proof.
  intros ->. pose proof (blen_nonneg l). pose proof (blen_nonneg k). unfold Prelude.rd.
  rewrite blen_app, !(proj2 (Z.leb_le _ _)) by lia. simpl. by rewrite sub_bytes_app_l, sub_bytes_all by lia.
Qed.
Lemma rd_app_r l k o n : o = blen l → n = blen k → Prelude.rd (l ++ k) o n = Ok k.
Proof.
  intros -> ->. pose proof (blen_nonneg l). pose proof (blen_nonneg k). unfold Prelude.rd.
  rewrite blen_app, !(proj2 (Z.leb_le _ _)) by lia. simpl. rewrite sub_bytes_app_r by lia.
  by rewrite Z.sub_diag, sub_bytes_all.
Qed.

Lemma blen_be_encode n x : blen (be_encode n x) = Z.of_nat n.
Proof. unfold blen. by rewrite length_be_encode. Qed.

Lemma num_bytes_spec x k :
  0 ≤ x < 256 ^ k → 0 ≤ k → 0 ≤ BN_num_bytes x ≤ k ∧ x < 256 ^ BN_num_bytes x ∧ (BN_num_bytes x = 0 → x = 0).
Proof.
  intros Hx Hk. unfold BN_num_bytes. destruct (Z.leb_spec x 0) as [H0|H0].
  { assert (x = 0) as -> by lia. simpl. lia. }
  pose proof (Z.log2_nonneg x). pose proof (Z.log2_spec x H0) as [_ Hl]. set (b := Z.log2 x) in *.
  pose proof (Z.div_mod b 8 ltac:(lia)) as Ed. pose proof (Z.mod_pos_bound b 8 ltac:(lia)).
  assert (0 ≤ b / 8) by (apply Z.div_pos; lia).
  assert (∀ j, 0 ≤ j → 256 ^ j = 2 ^ (8 * j)) as E by (intros j Hj; change 256 with (2 ^ 8); by rewrite <- Z.pow_mul_r by lia).
  split; [|split; [|lia]].
  - split; [lia|]. rewrite E in Hx by lia.
    assert (b < 8 * k) by (apply Z.log2_lt_pow2; lia). lia.
  - rewrite E by lia. apply Z.lt_le_trans with (2 ^ Z.succ b); [done|]. apply Z.pow_le_mono_r; lia.
Qed.

Lemma be_encode_pad n k x :
  0 ≤ x < 256 ^ Z.of_nat k → be_encode (n + k) x = replicate n x00 ++ be_encode k x.
Proof.
  revert x. induction k as [|k IH]; intros x Hx.
  - simpl in Hx. assert (x = 0) as -> by lia. rewrite Nat.add_0_r, app_nil_r. clear.
    induction n as [|n IH]; [done|]. cbn [be_encode]. rewrite Z.div_0_l, IH by lia.
    change (bZ 0) with x00. by rewrite <- replicate_cons_app.
  - rewrite Nat2Z.inj_succ, Z.pow_succ_r in Hx by lia. rewrite Nat.add_succ_r. cbn [be_encode].
    rewrite IH by (split; [apply Z.div_pos; lia|apply Z.div_lt_upper_bound; lia]). by rewrite app_assoc.
Qed.

(** A number of at most [len] bytes, with leading zeros. *)
Lemma bn2bin_pad x len :
  0 ≤ len → 0 ≤ x < 256 ^ len →
  be_encode (Z.to_nat len) x = zeros (len - BN_num_bytes x) ++ BN_bn2bin x ∧
  blen (BN_bn2bin x) = BN_num_bytes x ∧ 0 ≤ BN_num_bytes x ≤ len.
Proof.
  intros Hlen Hx. destruct (num_bytes_spec x len Hx Hlen) as (Hn & Hb & _).
  split; [|split; [|done]].
  - unfold zeros, BN_bn2bin. rewrite <- be_encode_pad by (rewrite Z2Nat.id by lia; lia). f_equal. lia.
  - unfold BN_bn2bin. rewrite blen_be_encode. lia.
Qed.

Lemma add_padding_run x len :
  0 ≤ len → 0 ≤ x < 256 ^ len →
  ∃ buf, wr (zeros len) 0 (BN_bn2bin x) = Ok buf ∧
    add_padding buf (BN_num_bytes x) len = Ok (be_encode (Z.to_nat len) x).
Proof.
  intros Hlen Hx. destruct (bn2bin_pad x len Hlen Hx) as (E & Hl & Hn).
  set (n := BN_bn2bin x) in *. set (ret := BN_num_bytes x) in *.
  rewrite wr_run by (rewrite ?blen_zeros; lia). eexists. split; [reflexivity|]. change (Z.to_nat 0) with O. rewrite take_0, app_nil_l.
  assert (length n = Z.to_nat ret) as Hln by (unfold blen in Hl; lia).
  assert (drop (0 + length n) (zeros len) = zeros (len - ret)) as Ed.
  { unfold zeros. rewrite drop_replicate. f_equal. lia. }
  rewrite Ed. unfold add_padding. destruct (Z.ltb_spec ret len) as [Hlt|Hge].
  - rewrite rd_app_l by done. unfold mbind, out_bind.
    assert (blen (n ++ zeros (len - ret)) = len) as Hb by (rewrite blen_app, blen_zeros by lia; lia).
    rewrite wr_run by lia. set (b2 := take _ _ ++ n ++ _).
    assert (b2 = take (Z.to_nat (len - ret)) (n ++ zeros (len - ret)) ++ n) as E2.
    { unfold b2. rewrite (drop_ge (n ++ _)); [by rewrite app_nil_r|]. unfold blen in Hb. lia. }
    assert (length (take (Z.to_nat (len - ret)) (n ++ zeros (len - ret))) = Z.to_nat (len - ret)) as Ht.
    { rewrite length_take. unfold blen in Hb. lia. }
    rewrite wr_run; [|lia|rewrite blen_zeros, E2, blen_app, Hl by lia; unfold blen; rewrite Ht; lia].
    rewrite E, E2. change (Z.to_nat 0) with O. rewrite take_0, app_nil_l. f_equal. f_equal.
    unfold zeros at 1. rewrite length_replicate, Nat.add_0_l.
    by rewrite drop_app_length' by done.
  - assert (len - ret = 0) as Er by lia. rewrite E, Er. change (zeros 0) with (@nil byte). by rewrite app_nil_r.
Qed.

(** ** Buffers *)

(** Storing a part of the content. *)
Lemma holds_store b pre old post data :
  holds b (pre ++ old ++ post) → blen data = blen old → 0 < blen data →
  ∃ nb, store (ib_buf b) (ib_rpos b + blen pre) data = Ok nb ∧ holds (set_ib_buf nb b) (pre ++ data ++ post).
Proof.
  intros Hb Hl Hp. pose proof (holds_wpos _ _ Hb) as Hw. pose proof Hb as [Hwf Hc Hr Hm Hf].
  rewrite !blen_app in Hw. pose proof (blen_nonneg pre). pose proof (blen_nonneg post).
  pose proof Hwf as [Ha Hpos Hmx]. destruct (ib_buf b) as [d|] eqn:Eb; [|lia].
  unfold ibuf_content in Hc. rewrite Eb in Hc. cbn [default from_option] in Hc. unfold id in Hc.
  rewrite Hr, Hw, Z.sub_0_r, Z.add_0_l in *.
  assert (∃ tl, d = pre ++ old ++ post ++ tl) as [tl ->].
  { exists (drop (Z.to_nat (blen pre + (blen old + blen post))) d). rewrite <- (take_drop (Z.to_nat (blen pre + (blen old + blen post))) d) at 1.
    unfold sub_bytes in Hc. simpl in Hc. rewrite drop_0 in Hc. rewrite Hc. by rewrite <- !app_assoc. }
  unfold store. rewrite !blen_app in *. pose proof (blen_nonneg tl).
  rewrite !(proj2 (Z.leb_le _ _)) by lia. cbn [andb].
  assert (take (Z.to_nat (blen pre)) (pre ++ old ++ post ++ tl) = pre) as ->.
  { unfold blen. rewrite Nat2Z.id. by apply take_app_length. }
  assert (drop (Z.to_nat (blen pre) + length data) (pre ++ old ++ post ++ tl) = post ++ tl) as ->.
  { unfold blen in *. rewrite Nat2Z.id, <- drop_drop, drop_app_length. apply drop_app_length'. lia. }
  eexists. split; [reflexivity|]. constructor; simpl; try done.
  - constructor; simpl; rewrite ?blen_app; [lia|lia|done].
  - unfold ibuf_content. simpl. rewrite Hr, Hw, Z.sub_0_r. unfold sub_bytes. simpl. rewrite drop_0.
    rewrite (app_assoc data), (app_assoc pre). apply take_app_length'. rewrite !length_app. unfold blen in *. lia.
Qed.

Section buffers.
Context `{!Libcrypto}.

Lemma g_alloc_wp (Q : bool → gstate → Prop) s :
  (∀ a l, Q a (mk_gstate (gs_group s) (gs_rand s) l)) → wp starved g_alloc Q s.
Proof. intros HQ. unfold wp, g_alloc. destruct s as [g r [|a l]]; simpl in *; apply HQ. Qed.

Lemma g_new_wp len (Q : option ibuf → gstate → Prop) s :
  0 ≤ len ≤ IKED_MSGBUF_MAX →
  (∀ o l, (∀ b, o = Some b → holds b (zeros len)) → Q o (mk_gstate (gs_group s) (gs_rand s) l)) →
  wp starved (g_new len) Q s.
Proof.
  intros Hl HQ. apply wp_bind, g_alloc_wp. intros a l. apply wp_lift. rewrite new_zeros_eq by lia.
  destruct a.
  - destruct (holds_new (zeros len)) as (b & E & Hb); [rewrite blen_zeros; lia|]. rewrite blen_zeros in E by lia.
    rewrite E. apply HQ. by intros ? [= <-].
  - unfold ibuf_new, ibuf_dynamic. destruct (_ || _); by apply HQ.
Qed.

Lemma g_fill_wp b pre old post data (Q : ibuf → gstate → Prop) s :
  holds b (pre ++ old ++ post) → blen data = blen old → 0 < blen data →
  (∀ b', holds b' (pre ++ data ++ post) → Q b' s) → wp starved (g_fill b (blen pre) data) Q s.
Proof.
  intros Hb Hl Hp HQ. destruct (holds_store b pre old post data Hb Hl Hp) as (nb & E & Hh).
  apply wp_bind, wp_lift. rewrite E. apply wp_ret. by apply HQ.
Qed.

Lemma rand_wp {A} (m : R A) (P : A → bytes → Prop) (Q : A → gstate → Prop) s :
  wp starved m P (gs_rand s) → (∀ a r, P a r → Q a (mk_gstate (gs_group s) r (gs_alloc s))) →
  wp starved (rand m) Q s.
Proof.
  intros Hm HQ. unfold wp, rand in *. destruct (m (gs_rand s)) as [[a r]|f]; [by apply HQ|done].
Qed.
End buffers.

(** ** The table *)

(** The primes have as many bits as their entries say, and start and end
    with 64 ones; all lengths fit the buffers. *)
Definition entry_okb (gi : group_id) : bool :=
  match gi_type gi, gi_prime gi, gi_generator gi, gi_nid gi with
  | GROUP_MODP, Some p, Some g, None =>
      (g =? 2) && (gi_bits gi mod 8 =? 0) && (0 <? gi_bits gi) && (gi_bits gi <=? 8192) &&
      (Z.log2 p =? gi_bits gi - 1) && (Z.shiftr p (gi_bits gi - 64) =? Z.ones 64) && (Z.land p (Z.ones 64) =? Z.ones 64)
  | GROUP_ECP, None, None, Some _ => (0 <? gi_bits gi) && (gi_bits gi <=? 521)
  | (GROUP_CURVE25519 | GROUP_SNTRUP761X25519), None, None, None => true
  | _, _, _, _ => false
  end.

Lemma ike_groups_okb : forallb entry_okb ike_groups = true.
Proof. vm_compute. reflexivity. Qed.

Lemma entry_ok gi : gi ∈ ike_groups → entry_okb gi = true.
Proof.
  intros Hi. pose proof ike_groups_okb as H. rewrite forallb_forall in H. apply H. by apply list_elem_of_In.
Qed.

Lemma modp_entry gi :
  gi ∈ ike_groups → gi_type gi = GROUP_MODP →
  ∃ p, gi_prime gi = Some p ∧ gi_generator gi = Some 2 ∧ 1 < p < 2 ^ gi_bits gi ∧ 0 < gi_bits gi ≤ 8192 ∧ gi_bits gi mod 8 = 0.
Proof.
  intros Hi Ht. apply entry_ok in Hi. unfold entry_okb in Hi. rewrite Ht in Hi.
  destruct (gi_prime gi) as [p|], (gi_generator gi) as [g|], (gi_nid gi); try done.
  rewrite !andb_true_iff, !Z.eqb_eq, Z.ltb_lt, Z.leb_le in Hi. destruct Hi as ((((((-> & H8) & H0) & Hm) & Hl) & _) & _).
  exists p. split; [done|]. split; [done|]. split; [|lia].
  assert (0 < p) by (destruct (Z.le_gt_cases p 0) as [Hp|]; [rewrite (Z.log2_nonpos p Hp) in Hl; assert (gi_bits gi = 1) as E by lia; rewrite E in H8; done|done]).
  pose proof (Z.log2_spec p ltac:(done)) as [Hlo Hhi]. rewrite Hl in *.
  assert (2 ^ 1 ≤ 2 ^ (gi_bits gi - 1)) by (apply Z.pow_le_mono_r; [lia|]; destruct (Z.eq_dec (gi_bits gi) 1) as [E|]; [rewrite E in H8; done|lia]).
  replace (Z.succ (gi_bits gi - 1)) with (gi_bits gi) in Hhi by lia. lia.
Qed.

Lemma ecp_entry gi :
  gi ∈ ike_groups → gi_type gi = GROUP_ECP → ∃ nid, gi_nid gi = Some nid ∧ 0 < gi_bits gi ≤ 521.
Proof.
  intros Hi Ht. apply entry_ok in Hi. unfold entry_okb in Hi. rewrite Ht in Hi.
  destruct (gi_prime gi) as [p|], (gi_generator gi) as [g|], (gi_nid gi) as [nid|]; try done.
  rewrite andb_true_iff, Z.ltb_lt, Z.leb_le in Hi. by exists nid.
Qed.

Lemma group_getid_in id gi : group_getid id = Some gi → gi ∈ ike_groups ∧ gi_id gi = id.
Proof.
  intros E. apply find_some in E as [Hi E]. split; [by apply list_elem_of_In|]. by apply Z.eqb_eq.
Qed.

Lemma ids_unique gi gi' : gi ∈ ike_groups → gi' ∈ ike_groups → gi_id gi = gi_id gi' → gi = gi'.
Proof.
  assert (∀ l, NoDup (map gi_id l) → ∀ gi gi', gi ∈ l → gi' ∈ l → gi_id gi = gi_id gi' → gi = gi') as Hall.
  { clear. induction l as [|x l IH]; intros Hn gi gi' H1 H2 E; [by apply not_elem_of_nil in H1|].
    apply NoDup_cons in Hn as [Hx Hn]. apply elem_of_cons in H1 as [->|H1], H2 as [->|H2]; [done| | |by apply IH].
    - destruct Hx. rewrite E. by apply (list_elem_of_fmap_2 gi_id).
    - destruct Hx. rewrite <- E. by apply (list_elem_of_fmap_2 gi_id). }
  apply Hall. apply (bool_decide_unpack _). vm_compute. done.
Qed.
Lemma hybrid_type gi : gi ∈ ike_groups → gi_id gi = 1035 → gi_type gi = GROUP_SNTRUP761X25519.
Proof.
  intros Hi. assert (forallb (λ gi, match gi_type gi with GROUP_SNTRUP761X25519 => true | _ => negb (gi_id gi =? 1035) end)
    ike_groups = true) as H by (vm_compute; reflexivity).
  rewrite forallb_forall in H. apply list_elem_of_In in Hi. specialize (H gi Hi). intros Eid. rewrite Eid in H.
  by destruct (gi_type gi).
Qed.
Lemma hybrid_id gi : gi ∈ ike_groups → gi_type gi = GROUP_SNTRUP761X25519 → gi_id gi = 1035.
Proof.
  intros Hi. assert (forallb (λ gi, match gi_type gi with GROUP_SNTRUP761X25519 => gi_id gi =? 1035 | _ => true end)
    ike_groups = true) as H by (vm_compute; reflexivity).
  rewrite forallb_forall in H. apply list_elem_of_In in Hi. specialize (H gi Hi). intros Ht. rewrite Ht in H. by apply Z.eqb_eq.
Qed.

Lemma roundup_8 b : 0 < b → let l := roundup b 8 / 8 in b ≤ 8 * l < b + 8 ∧ roundup b 8 = 8 * l.
Proof.
  intros Hb. unfold roundup. rewrite Z.div_mul by lia. pose proof (Z.div_mod (b + (8 - 1)) 8 ltac:(lia)).
  pose proof (Z.mod_pos_bound (b + (8 - 1)) 8 ltac:(lia)). lia.
Qed.

(** ** Invariant *)

Section invariant.
Context `{!Libcrypto, !LibcryptoLaws, !ScalarMult, !ScalarMultLaws, !Params, !ParamsOk, !Sha512, !Sha512Laws}.

(** A group of the table with its key. *)
Definition keyed (gi : group_id) (g : group) : Prop :=
  gr_spec g = Some gi ∧
  match gi_type gi with
  | GROUP_MODP =>
      ∃ p k, gi_prime gi = Some p ∧ gr_dh g = Some (p, 2, k) ∧
        ∀ a y, k = Some (a, y) → 0 ≤ a ∧ y = 2 ^ a mod p
  | GROUP_ECP =>
      ∃ nid a P, gi_nid gi = Some nid ∧ gr_ec g = Some (nid, a, P) ∧
        EC_POINT_mul nid a (EC_generator nid) = Some P
  | GROUP_CURVE25519 =>
      ∃ a, length a = 32%nat ∧ gr_curve25519 g = Some (mk_curve25519_key a (smult a basepoint))
  | GROUP_SNTRUP761X25519 => True
  end.

(** The value that a group sends. *)
Definition sends (gi : group_id) (g : group) (x : bytes) : Prop :=
  match gi_type gi with
  | GROUP_MODP =>
      ∃ p a y, gi_prime gi = Some p ∧ gr_dh g = Some (p, 2, Some (a, y)) ∧
        x = be_encode (Z.to_nat (modp_getlen g)) y
  | GROUP_ECP =>
      ∃ nid a P px py, gr_ec g = Some (nid, a, P) ∧ EC_POINT_get_affine nid P = Some (px, py) ∧
        x = be_encode (Z.to_nat (ec_secretlen g)) px ++ be_encode (Z.to_nat (ec_secretlen g)) py
  | GROUP_CURVE25519 => ∃ c, gr_curve25519 g = Some c ∧ x = ck_public c
  | GROUP_SNTRUP761X25519 => False
  end.

Lemma modp_len gi g :
  gi ∈ ike_groups → gi_type gi = GROUP_MODP → gr_spec g = Some gi →
  0 < modp_getlen g ≤ 1024 ∧ 2 ^ gi_bits gi ≤ 256 ^ modp_getlen g.
Proof.
  intros Hi Ht Hs. destruct (modp_entry gi Hi Ht) as (p & _ & _ & _ & Hb & _).
  unfold modp_getlen. rewrite Hs. destruct (roundup_8 (gi_bits gi)) as [Hl _]; [lia|].
  set (l := roundup (gi_bits gi) 8 / 8) in *. split; [lia|].
  change 256 with (2 ^ 8). rewrite <- Z.pow_mul_r by lia. apply Z.pow_le_mono_r; lia.
Qed.

Lemma ec_len gi g :
  gi ∈ ike_groups → gi_type gi = GROUP_ECP → gr_spec g = Some gi →
  0 < ec_secretlen g ≤ 66 ∧ ec_getlen g = 2 * ec_secretlen g ∧ 2 ^ gi_bits gi ≤ 256 ^ ec_secretlen g.
Proof.
  intros Hi Ht Hs. destruct (ecp_entry gi Hi Ht) as (nid & _ & Hb).
  unfold ec_secretlen, ec_getlen. rewrite Hs. destruct (roundup_8 (gi_bits gi)) as [Hl E]; [lia|].
  set (l := roundup (gi_bits gi) 8 / 8) in *. rewrite E.
  assert (8 * l * 2 / 8 = 2 * l) as -> by (symmetry; apply (Z.div_unique _ _ _ 0); lia).
  rewrite Z.mul_comm, Z.div_mul by lia. split; [lia|]. split; [lia|].
  change 256 with (2 ^ 8). rewrite <- Z.pow_mul_r by lia. apply Z.pow_le_mono_r; lia.
Qed.

(** *** Initialisation *)

Lemma ec25519_init_wp s :
  wp starved ec25519_init
    (λ ok s', ok = true → ∃ a r l, length a = 32%nat ∧
      s' = mk_gstate (set_gr_curve25519 (Some (mk_curve25519_key a (smult a basepoint))) (gs_group s)) r l) s.
Proof.
  apply wp_bind, g_alloc_wp. intros [] l; [|by apply wp_ret]. cbn [negb]. apply wp_bind.
  eapply rand_wp; [apply randombytes_wp|]. intros a r [Ha _]. apply wp_bind, wp_modify, wp_ret. intros _.
  by exists a, r, l.
Qed.

Lemma dh_init_wp gi s :
  gi ∈ ike_groups → gr_spec (gs_group s) = Some gi →
  wp starved (dh_init (gi_type gi)) (λ ok s', ok = true → keyed gi (gs_group s')) s.
Proof.
  intros Hi Hs. unfold keyed. destruct (gi_type gi) eqn:Ht; cbn [dh_init].
  - destruct (modp_entry gi Hi Ht) as (p & Hp & Hg & _). unfold modp_init. apply wp_bind, wp_gets, wp_bind.
    rewrite Hs. apply wp_ret, wp_bind, g_alloc_wp. intros [] l; [|by apply wp_ret]. rewrite Hp, Hg.
    apply wp_bind, g_alloc_wp. intros [] l'; [|by apply wp_ret].
    apply wp_bind, g_alloc_wp. intros [] l''; [|by apply wp_ret].
    apply wp_bind, wp_modify, wp_ret. intros _. split; [done|]. by exists p, None.
  - destruct (ecp_entry gi Hi Ht) as (nid & Hn & _). unfold ec_init. apply wp_bind, wp_gets, wp_bind.
    rewrite Hs. apply wp_ret. rewrite Hn. apply wp_bind, g_alloc_wp. intros [] l; [|by apply wp_ret].
    apply wp_bind. eapply rand_wp; [apply ec_generate|]. intros [[a P]|] r Hk; [|by apply wp_ret].
    apply wp_bind, wp_modify, wp_ret. intros _. split; [done|]. exists nid, a, P. auto.
  - eapply wp_mono; [apply ec25519_init_wp|]. intros ok s' Hw Hok. destruct (Hw Hok) as (a & r & l & Ha & ->).
    split; [done|]. by exists a.
  - by apply wp_ret.
Qed.

Lemma group_get_wpo id rnd al :
  wpo starved (group_get id rnd al)
    (λ o, ∀ s, o = Some s → ∃ gi, gi ∈ ike_groups ∧ gi_id gi = id ∧ keyed gi (gs_group s)).
Proof.
  unfold group_get. destruct (group_getid id) as [gi|] eqn:Eg; [|done].
  destruct (group_getid_in _ _ Eg) as [Hi Hid].
  set (s0 := mk_gstate (mk_group id (Some gi) None None None None) rnd al).
  pose proof (g_alloc_wp (λ _ s', gs_group s' = gs_group s0) s0 ltac:(done)) as Ha. unfold wp in Ha.
  destruct (g_alloc s0) as [[[] s1]|f]; [|done|done].
  pose proof (dh_init_wp gi s1 Hi) as Hw. rewrite Ha in Hw. specialize (Hw eq_refl). unfold wp in Hw.
  destruct (dh_init (gi_type gi) s1) as [[[] s2]|f]; [|done|done].
  intros s [= <-]. exists gi. auto.
Qed.

(** *** Exchanges *)

Lemma modp_exchange_wp gi s :
  gi ∈ ike_groups → gi_type gi = GROUP_MODP → keyed gi (gs_group s) →
  wp starved (modp_create_exchange (zeros (modp_getlen (gs_group s))))
    (λ o s', keyed gi (gs_group s') ∧ ∀ x, o = Some x →
       sends gi (gs_group s') x ∧ blen x = modp_getlen (gs_group s)) s.
Proof.
  intros Hi Ht Hk. pose proof Hk as [Hs Hk']. rewrite Ht in Hk'. destruct Hk' as (p & k & Hp & Hdh & Hpriv).
  destruct (modp_entry gi Hi Ht) as (p' & Hp' & _ & Hpr & _). rewrite Hp in Hp'. injection Hp' as <-.
  destruct (modp_len gi (gs_group s) Hi Ht Hs) as [Hl Hbig].
  unfold modp_create_exchange. apply wp_bind, wp_gets, wp_bind. rewrite Hdh. apply wp_ret, wp_bind.
  eapply rand_wp; [apply dh_generate|]. intros [[a y]|] r Hgen; [|by apply wp_ret].
  destruct (Hgen a y eq_refl) as (Ha & Hy & _).
  assert (0 ≤ y < 256 ^ modp_getlen (gs_group s)) as Hyr by (pose proof (Z.mod_pos_bound (2 ^ a) p ltac:(lia)); lia).
  assert (keyed gi (set_gr_dh (Some (p, 2, Some (a, y))) (gs_group s))) as Hk2.
  { split; [done|]. rewrite Ht. exists p, (Some (a, y)). split; [done|]. split; [done|]. by intros ? ? [= <- <-]. }
  apply wp_bind, wp_modify, wp_bind, wp_lift. destruct (add_padding_run y (modp_getlen (gs_group s))) as (buf & -> & E); [lia|done|].
  cbn [wpo]. destruct (BN_num_bytes y =? 0); [by apply wp_ret|]. apply wp_bind, wp_lift. rewrite E. apply wp_ret.
  split; [done|]. intros x [= <-]. split; [|rewrite blen_be_encode; lia].
  unfold sends. rewrite Ht. exists p, a, y. done.
Qed.

Lemma wr_at pre d old rest :
  blen d = blen old → wr (pre ++ old ++ rest) (blen pre) d = Ok (pre ++ d ++ rest).
Proof.
  intros Hl. pose proof (blen_nonneg pre). pose proof (blen_nonneg rest).
  rewrite wr_run by (rewrite ?blen_app; lia). unfold blen in *. rewrite Nat2Z.id, take_app_length.
  rewrite <- drop_drop, drop_app_length. do 3 f_equal. apply drop_app_length'. lia.
Qed.

Lemma wr_all buf d : blen d = blen buf → wr buf 0 d = Ok d.
Proof. intros Hl. pose proof (wr_at [] d buf [] Hl) as E. by rewrite !app_nil_r in E. Qed.

(** A coordinate in its half of the buffer. *)
Lemma wr_coord pre old rest x len :
  0 ≤ len → 0 ≤ x < 256 ^ len → blen old = len →
  ∃ b1, wr (pre ++ old ++ rest) (blen pre) (zeros (len - BN_num_bytes x)) = Ok b1 ∧
    wr b1 (blen pre + (len - BN_num_bytes x)) (BN_bn2bin x) = Ok (pre ++ be_encode (Z.to_nat len) x ++ rest).
Proof.
  intros Hl Hx Ho. destruct (bn2bin_pad x len Hl Hx) as (E & Hb & Hn). set (k := len - BN_num_bytes x) in *.
  assert (∃ o1 o2, old = o1 ++ o2 ∧ blen o1 = k ∧ blen o2 = BN_num_bytes x) as (o1 & o2 & -> & Ho1 & Ho2).
  { exists (take (Z.to_nat k) old), (drop (Z.to_nat k) old). split; [by rewrite take_drop|].
    unfold blen in *. rewrite length_take, length_drop. lia. }
  exists (pre ++ zeros k ++ o2 ++ rest). rewrite <- app_assoc. split.
  - apply wr_at. rewrite blen_zeros by lia. lia.
  - rewrite (app_assoc pre). replace (blen pre + k) with (blen (pre ++ zeros k)) by (rewrite blen_app, blen_zeros by lia; lia).
    rewrite wr_at by lia. by rewrite E, <- !app_assoc.
Qed.

Lemma ec_point2raw_wp gi nid P buf (xonly : bool) s :
  gi ∈ ike_groups → gi_type gi = GROUP_ECP → gr_spec (gs_group s) = Some gi → gi_nid gi = Some nid →
  let l := ec_secretlen (gs_group s) in
  let len := if xonly then l else 2 * l in
  blen buf = len →
  wp starved (ec_point2raw nid P buf len xonly)
    (λ o s', gs_group s' = gs_group s ∧ ∀ x, o = Some x →
       ∃ px py, EC_POINT_get_affine nid P = Some (px, py) ∧
         x = be_encode (Z.to_nat l) px ++ (if xonly then [] else be_encode (Z.to_nat l) py)) s.
Proof.
  intros Hi Ht Hs Hn l len Hb. destruct (ec_len gi (gs_group s) Hi Ht Hs) as (Hl & Hg & Hbig). fold l in Hl, Hg, Hbig.
  unfold ec_point2raw. apply wp_bind, g_alloc_wp. intros [] al; [|by apply wp_ret]. cbn [negb].
  apply wp_bind, wp_gets. cbn [gs_group]. rewrite Hg. replace (2 * l / 2) with l by (rewrite Z.mul_comm, Z.div_mul; lia).
  cbv zeta. rewrite (proj2 (Z.ltb_ge _ _)) by (unfold len; destruct xonly; lia).
  destruct (EC_POINT_get_affine nid P) as [[px py]|] eqn:Ea; [|by apply wp_ret].
  destruct (ec_field gi nid P px py Hi Hn Ea) as [Hx Hy].
  assert (∃ old rest, buf = [] ++ old ++ rest ∧ blen old = l ∧ blen rest = len - l) as (old & rest & -> & Ho & Hr).
  { exists (take (Z.to_nat l) buf), (drop (Z.to_nat l) buf). cbn [app]. split; [by rewrite take_drop|].
    unfold blen in *. rewrite length_take, length_drop. unfold len in *. destruct xonly; lia. }
  destruct (wr_coord [] old rest px l) as (b1 & E1 & E2); [lia|lia|done|]. change (blen []) with 0 in E1, E2.
  rewrite Z.add_0_l in E2. apply wp_bind, wp_lift. rewrite E1. apply wp_bind, wp_lift. rewrite E2. cbn [wpo].
  destruct (BN_num_bytes px =? 0); [by apply wp_ret|]. unfold len in Hr. destruct xonly; cbn [app].
  - cbn [Z.ltb Z.compare]. apply wp_ret. split; [done|]. intros x [= <-]. exists px, py. split; [done|].
    f_equal. destruct rest; [done|]. unfold blen in Hr. simpl in Hr. lia.
  - rewrite (proj2 (Z.ltb_lt 0 l)) by lia.
    destruct (wr_coord (be_encode (Z.to_nat l) px) rest [] py l) as (b2 & E3 & E4); [lia|lia|lia|].
    rewrite blen_be_encode, Z2Nat.id, !app_nil_r in * by lia.
    replace (l - BN_num_bytes py + l - l) with (l - BN_num_bytes py) by lia.
    apply wp_bind, wp_lift. rewrite E3. apply wp_bind, wp_lift.
    replace (l - BN_num_bytes py + l) with (l + (l - BN_num_bytes py)) by lia. rewrite E4. cbn [wpo].
    destruct (BN_num_bytes py =? 0); apply wp_ret; (split; [done|]); [done|]. intros x [= <-]. by exists px, py.
Qed.

Lemma ec_exchange_wp gi s :
  gi ∈ ike_groups → gi_type gi = GROUP_ECP → keyed gi (gs_group s) →
  wp starved (ec_create_exchange (zeros (ec_getlen (gs_group s))))
    (λ o s', gs_group s' = gs_group s ∧ ∀ x, o = Some x →
       sends gi (gs_group s) x ∧ blen x = ec_getlen (gs_group s)) s.
Proof.
  intros Hi Ht [Hs Hk]. rewrite Ht in Hk. destruct Hk as (nid & a & P & Hn & Hec & _).
  destruct (ec_len gi (gs_group s) Hi Ht Hs) as (Hl & Hg & Hbig).
  unfold ec_create_exchange. apply wp_bind, wp_gets. cbv zeta. apply wp_bind, wp_lift.
  rewrite wr_run by (rewrite ?blen_zeros by lia; lia). apply wp_bind. rewrite Hec. apply wp_ret. rewrite Hg.
  eapply wp_mono; [apply (ec_point2raw_wp gi nid P _ false); try done|].
  - unfold blen, zeros. rewrite !length_app, length_take, length_drop, !length_replicate. lia.
  - intros o s' [Es Ho]. split; [done|]. intros x Hx. destruct (Ho x Hx) as (px & py & Ea & ->).
    split; [|rewrite blen_app, !blen_be_encode; lia]. unfold sends. rewrite Ht. by exists nid, a, P, px, py.
Qed.

Lemma ec25519_exchange_wp gi s :
  gi_type gi = GROUP_CURVE25519 → keyed gi (gs_group s) →
  wp starved (ec25519_create_exchange (zeros (ec25519_getlen (gs_group s))))
    (λ o s', gs_group s' = gs_group s ∧ ∀ x, o = Some x →
       sends gi (gs_group s) x ∧ blen x = ec25519_getlen (gs_group s)) s.
Proof.
  intros Ht [Hs Hk]. rewrite Ht in Hk. destruct Hk as (a & Ha & Hc).
  assert (length (smult a basepoint) = 32%nat) as Hp by (by apply smult_length).
  unfold ec25519_create_exchange, ec25519_getlen. apply wp_bind, wp_gets, wp_bind. rewrite Hc. apply wp_ret. rewrite Hs.
  apply wp_bind, wp_lift. cbn [ck_public]. rewrite rd_whole by (unfold blen; by rewrite Hp). apply wp_bind, wp_lift.
  rewrite wr_all by (rewrite blen_zeros by done; unfold blen; by rewrite Hp). apply wp_ret. split; [done|].
  intros x [= <-]. split; [|unfold blen; by rewrite Hp]. unfold sends. rewrite Ht. eexists. split; [exact Hc|done].
Qed.

(** No exchange of a group with one value leaves its buffer. *)
Lemma dh_create_exchange_wp gi x s :
  gi ∈ ike_groups → gi_type gi ≠ GROUP_SNTRUP761X25519 → keyed gi (gs_group s) →
  wp starved (dh_create_exchange x)
    (λ o s', keyed gi (gs_group s') ∧ ∀ b, o = Some b →
       ∃ y, holds b y ∧ sends gi (gs_group s') y ∧ blen y = group_getlen (gi_type gi) (gs_group s')) s.
Proof.
  intros Hi Hne Hk. pose proof Hk as [Hs Hk'].
  assert (∀ g g', gr_spec g = gr_spec g' → group_getlen (gi_type gi) g = group_getlen (gi_type gi) g') as Hglen.
  { intros g g' E. unfold group_getlen, modp_getlen, ec_getlen, ec25519_getlen. rewrite E. done. }
  assert (0 < group_getlen (gi_type gi) (gs_group s) ≤ IKED_MSGBUF_MAX) as Hlen.
  { unfold IKED_MSGBUF_MAX. destruct (gi_type gi) eqn:Ht; cbn [group_getlen]; [| | |done].
    - destruct (modp_len gi _ Hi Ht Hs). lia.
    - destruct (ec_len gi _ Hi Ht Hs). lia.
    - unfold ec25519_getlen, CURVE25519_SIZE. rewrite Hs. lia. }
  assert (∀ al, wp starved (group_exchange (gi_type gi) (zeros (group_getlen (gi_type gi) (gs_group s))))
    (λ o s', keyed gi (gs_group s') ∧ ∀ y, o = Some y → sends gi (gs_group s') y ∧
       blen y = group_getlen (gi_type gi) (gs_group s)) (mk_gstate (gs_group s) (gs_rand s) al)) as Hex.
  { intros al. destruct (gi_type gi) eqn:Ht; cbn [group_exchange group_getlen]; [| | |done].
    - by apply (modp_exchange_wp gi (mk_gstate (gs_group s) (gs_rand s) al)).
    - eapply wp_mono; [by apply (ec_exchange_wp gi (mk_gstate (gs_group s) (gs_rand s) al))|]. by intros o s' [-> ?].
    - eapply wp_mono; [by apply (ec25519_exchange_wp gi (mk_gstate (gs_group s) (gs_rand s) al))|]. by intros o s' [-> ?]. }
  unfold dh_create_exchange. apply wp_bind, wp_gets, wp_bind. rewrite Hs. apply wp_ret.
  destruct (gi_type gi) eqn:Ht; [| | |done]; (apply wp_bind, g_new_wp; [lia|]; intros o al Ho;
    destruct o as [buf|]; [|by apply wp_ret]; apply wp_bind; eapply wp_mono; [apply Hex|];
    intros [y|] s' [Hk2 Hy]; [|by apply wp_ret]; destruct (Hy y eq_refl) as [Hsend Hly]; apply wp_bind;
    apply (g_fill_wp buf [] (zeros (group_getlen (gi_type gi) (gs_group s))) [] y); rewrite ?Ht, ?app_nil_r;
    [by apply Ho|rewrite blen_zeros by lia; done|rewrite Hly; lia|]; intros b' Hb';
    apply wp_ret; split; [done|]; intros b [= <-]; exists y; split; [done|]; split; [done|];
    rewrite Hly; apply Hglen; by rewrite Hs, (proj1 Hk2)).
Qed.

(** *** Shared secrets *)

Lemma run_plenty_wp {A} g (m : M gstate (option A)) (P : A → Prop) x :
  wp starved m (λ o _, ∀ x, o = Some x → P x) (mk_gstate g [] []) → run_plenty g m = Some x → P x.
Proof.
  unfold wp, run_plenty. destruct (m (mk_gstate g [] [])) as [[o s]|f]; [|done]. intros Hw ->. by apply Hw.
Qed.

Lemma modp_shared_wp gi g p a y z al :
  gi ∈ ike_groups → gi_type gi = GROUP_MODP → gr_spec g = Some gi → gi_prime gi = Some p →
  gr_dh g = Some (p, 2, Some (a, y)) → 0 ≤ z < 256 ^ modp_getlen g →
  wp starved (modp_create_shared (zeros (modp_getlen g)) (be_encode (Z.to_nat (modp_getlen g)) z))
    (λ o _, ∀ x, o = Some x → x = be_encode (Z.to_nat (modp_getlen g)) (z ^ a mod p)) (mk_gstate g [] al).
Proof.
  intros Hi Ht Hs Hp Hdh Hz. destruct (modp_len gi g Hi Ht Hs) as [Hl Hbig].
  destruct (modp_entry gi Hi Ht) as (p' & Hp' & _ & Hpr & _). rewrite Hp in Hp'. injection Hp' as <-.
  unfold modp_create_shared. apply wp_bind, wp_gets. cbv zeta. cbn [gs_group]. apply wp_bind, wp_lift.
  rewrite rd_whole by (rewrite blen_be_encode; lia). apply wp_bind, g_alloc_wp. intros [] l; [|by apply wp_ret].
  apply wp_bind. rewrite Hdh. apply wp_ret. unfold BN_bin2bn. rewrite be_decode_encode by (rewrite Z2Nat.id by lia; lia).
  destruct (DH_compute_key p 2 a z) as [v|] eqn:Ev; [|by apply wp_ret]. apply dh_compute in Ev as ->.
  pose proof (Z.mod_pos_bound (z ^ a) p ltac:(lia)).
  destruct (add_padding_run (z ^ a mod p) (modp_getlen g)) as (buf & E1 & E2); [lia|lia|].
  apply wp_bind, wp_lift. rewrite E1. cbn [wpo]. destruct (_ <=? 0); [by apply wp_ret|]. apply wp_bind, wp_lift.
  rewrite E2. apply wp_ret. by intros x [= <-].
Qed.

Lemma ec_shared_wp gi g nid a P Q px py al :
  gi ∈ ike_groups → gi_type gi = GROUP_ECP → gr_spec g = Some gi → gi_nid gi = Some nid →
  gr_ec g = Some (nid, a, P) → EC_POINT_get_affine nid Q = Some (px, py) →
  let l := ec_secretlen g in
  wp starved (ec_create_shared (zeros l) (be_encode (Z.to_nat l) px ++ be_encode (Z.to_nat l) py))
    (λ o _, ∀ x, o = Some x → ∃ S sx sy, EC_POINT_mul nid a Q = Some S ∧
       EC_POINT_get_affine nid S = Some (sx, sy) ∧ x = be_encode (Z.to_nat l) sx) (mk_gstate g [] al).
Proof.
  intros Hi Ht Hs Hn Hec Hq l. destruct (ec_len gi g Hi Ht Hs) as (Hl & Hg & Hbig). fold l in Hl, Hg, Hbig.
  destruct (ec_field gi nid Q px py Hi Hn Hq) as [Hx Hy].
  unfold ec_create_shared. apply wp_bind, wp_gets. cbn [gs_group]. apply wp_bind. rewrite Hec. apply wp_ret.
  apply wp_bind. unfold ec_raw2point. apply wp_bind, g_alloc_wp. intros [] l1; [|by apply wp_ret, wp_ret].
  cbn [negb]. apply wp_bind, wp_gets. cbn [gs_group gs_rand]. rewrite Hg. rewrite Z.ltb_irrefl. cbv zeta.
  replace (2 * l / 2) with l by (rewrite Z.mul_comm, Z.div_mul; lia).
  apply wp_bind, wp_lift. rewrite rd_app_l by (rewrite blen_be_encode; lia). apply wp_bind, wp_lift.
  rewrite rd_app_r by (rewrite blen_be_encode; lia). apply wp_bind, g_alloc_wp.
  intros [] l2; [|by apply wp_ret, wp_ret]. apply wp_ret. cbn [gs_group gs_rand]. unfold BN_bin2bn.
  rewrite !be_decode_encode by (rewrite Z2Nat.id by lia; lia).
  destruct (EC_POINT_set_affine nid px py) as [Q'|] eqn:Eq; [|by apply wp_ret].
  apply (ec_affine nid Q px py Q' Hq) in Eq as ->. apply wp_bind, g_alloc_wp. intros [] l3; [|by apply wp_ret].
  cbn [negb gs_group gs_rand]. destruct (EC_KEY_check_key nid Q); [|by apply wp_ret]. cbn [negb].
  apply wp_bind, g_alloc_wp. intros [] l4; [|by apply wp_ret]. cbn [negb gs_group gs_rand].
  destruct (EC_POINT_mul nid a Q) as [S|] eqn:Em; [|by apply wp_ret].
  eapply wp_mono; [apply (ec_point2raw_wp gi nid S (zeros l) true (mk_gstate g [] l4)); try done; cbn [gs_group];
    fold l; by rewrite blen_zeros by lia|].
  intros o s' [_ Ho] x Ex. destruct (Ho x Ex) as (sx & sy & Ea & ->). exists S, sx, sy. rewrite app_nil_r. done.
Qed.

Lemma ec25519_shared_wp g c x al :
  gr_curve25519 g = Some c → length (ck_secret c) = 32%nat → length x = 32%nat →
  wp starved (ec25519_create_shared (zeros 32) x)
    (λ o _, ∀ y, o = Some y → y = smult (ck_secret c) x) (mk_gstate g [] al).
Proof.
  intros Hc Hl Hx. unfold ec25519_create_shared. apply wp_bind, wp_gets, wp_bind. cbn [gs_group]. rewrite Hc. apply wp_ret.
  apply wp_bind, wp_lift. rewrite rd_whole by (unfold blen; by rewrite Hx). apply wp_bind, wp_lift.
  assert (blen (smult (ck_secret c) x) = 32) as Hs by (unfold blen; by rewrite smult_length).
  rewrite wr_all by done. apply wp_bind, wp_lift. rewrite rd_whole by done. cbn [wpo].
  destruct (bool_decide _); apply wp_ret; [done|]. by intros y [= <-].
Qed.

(** *** Agreement *)

(** Both ends have the same secret, of the length of the group. *)
Definition agree (g1 g2 : group) (x1 x2 : bytes) : Prop :=
  ∀ s1 s2, dh_secret (group_ops g1) (Some x2) = Some s1 → dh_secret (group_ops g2) (Some x1) = Some s2 →
  s1 = s2 ∧ 0 < blen s1 ≤ 1024 ∧ blen s1 = dh_secretlen (group_ops g1).

Ltac open_agree Ht :=
  intros Hi Ht [Hs1 Hk1] [Hs2 Hk2] Hx1 Hx2 s1 s2 E1 E2; unfold group_ops, dh_secret, sends in *; rewrite Hs1, Hs2, Ht in *;
  cbn [dh_shared2 dh_getlen dh_shared dh_secretlen mbind option_bind] in *.

Lemma modp_agree gi g1 g2 x1 x2 :
  gi ∈ ike_groups → gi_type gi = GROUP_MODP → keyed gi g1 → keyed gi g2 → sends gi g1 x1 → sends gi g2 x2 →
  agree g1 g2 x1 x2.
Proof.
  open_agree Ht.
  assert (modp_getlen g2 = modp_getlen g1) as El by (unfold modp_getlen; by rewrite Hs1, Hs2).
  destruct (modp_len gi g1 Hi Ht Hs1) as [Hl Hbig].
  destruct Hk1 as (p & k1 & Hp & Hd1 & Hy1). destruct Hk2 as (p2 & k2 & Hp2 & Hd2 & Hy2). simplify_eq.
  destruct Hx1 as (p' & a & y1 & Hp' & Hd1' & ->). destruct Hx2 as (p'' & b & y2 & Hp'' & Hd2' & ->). simplify_eq.
  destruct (Hy1 a y1 eq_refl) as [Ha Ey1]. destruct (Hy2 b y2 eq_refl) as [Hb Ey2].
  destruct (modp_entry gi Hi Ht) as (q' & Hq' & _ & Hpr & _). simplify_eq.
  cbn [group_getlen group_secretlen group_shared] in *. rewrite El in *.
  pose proof (Z.mod_pos_bound (2 ^ a) p' ltac:(lia)). pose proof (Z.mod_pos_bound (2 ^ b) p' ltac:(lia)).
  destruct (_ =? _) in E1; [|done]. destruct (_ =? _) in E2; [|done].
  eapply run_plenty_wp in E1; [|eapply (modp_shared_wp gi g1 p' a); (done || lia)].
  eapply run_plenty_wp in E2; [|rewrite <- El; eapply (modp_shared_wp gi g2 p' b); (done || (rewrite El; lia))].
  rewrite El in E2. cbv beta in E1, E2. subst s1 s2. rewrite blen_be_encode. split; [|lia]. f_equal.
  rewrite <- !Zpower_mod by lia. by rewrite <- !Z.pow_mul_r, Z.mul_comm by lia.
Qed.

Lemma ec_agree gi g1 g2 x1 x2 :
  gi ∈ ike_groups → gi_type gi = GROUP_ECP → keyed gi g1 → keyed gi g2 → sends gi g1 x1 → sends gi g2 x2 →
  agree g1 g2 x1 x2.
Proof.
  open_agree Ht.
  assert (ec_getlen g2 = ec_getlen g1 ∧ ec_secretlen g2 = ec_secretlen g1) as [El El']
    by (unfold ec_secretlen, ec_getlen; by rewrite Hs1, Hs2).
  destruct (ec_len gi g1 Hi Ht Hs1) as (Hl & Hg & _).
  destruct Hk1 as (nid & a & P & Hn & He1 & Hm1). destruct Hk2 as (nid2 & b & Q & Hn2 & He2 & Hm2).
  destruct Hx1 as (n1 & a1 & P1 & px & py & He1' & Hp1 & ->). destruct Hx2 as (n2 & b1 & Q1 & qx & qy & He2' & Hq1 & ->).
  simplify_eq. cbn [group_getlen group_secretlen group_shared] in *. rewrite El, El' in *.
  destruct (_ =? _) in E1; [|done]. destruct (_ =? _) in E2; [|done].
  eapply run_plenty_wp in E1; [|by eapply (ec_shared_wp gi g1 nid a P Q)].
  eapply run_plenty_wp in E2; [|rewrite <- El'; by eapply (ec_shared_wp gi g2 nid b Q P)]. rewrite El' in E2.
  destruct E1 as (S & sx & sy & HS & Hsx & ->). destruct E2 as (T & tx & ty & HT & Htx & ->).
  assert (S = T) as <- by (by eapply (ec_commute nid a b P Q)). rewrite Hsx in Htx. injection Htx as <- <-.
  split; [done|]. rewrite blen_be_encode. lia.
Qed.

Lemma ec25519_agree gi g1 g2 x1 x2 :
  gi ∈ ike_groups → gi_type gi = GROUP_CURVE25519 → keyed gi g1 → keyed gi g2 → sends gi g1 x1 → sends gi g2 x2 →
  agree g1 g2 x1 x2.
Proof.
  open_agree Ht.
  destruct Hk1 as (a & Ha & Hc1). destruct Hk2 as (b & Hb & Hc2).
  destruct Hx1 as (c1 & Hc1' & ->). destruct Hx2 as (c2 & Hc2' & ->). simplify_eq. cbn [ck_public] in *.
  assert (length (smult a basepoint) = 32%nat ∧ length (smult b basepoint) = 32%nat) as [L1 L2]
    by (split; by apply smult_length).
  cbn [group_getlen group_secretlen group_shared] in *. unfold ec25519_getlen in *. rewrite Hs1, Hs2 in *.
  destruct (_ =? _) in E1; [|done]. destruct (_ =? _) in E2; [|done].
  eapply run_plenty_wp in E1; [|by eapply ec25519_shared_wp]. eapply run_plenty_wp in E2; [|by eapply ec25519_shared_wp].
  cbv beta in E1, E2. cbn [ck_secret] in *. subst s1 s2. split; [by apply smult_commute|]. unfold blen. rewrite smult_length by done. done.
Qed.

Lemma exchange_agree gi g1 g2 x1 x2 :
  gi ∈ ike_groups → keyed gi g1 → keyed gi g2 → sends gi g1 x1 → sends gi g2 x2 → agree g1 g2 x1 x2.
Proof.
  intros Hi Hk1 Hk2 Hx1 Hx2. destruct (gi_type gi) eqn:Ht.
  - by apply (modp_agree gi).
  - by apply (ec_agree gi).
  - by apply (ec25519_agree gi).
  - unfold sends in Hx1. by rewrite Ht in Hx1.
Qed.

(** *** The hybrid *)

Definition KEM_sizes_ok : Prop :=
  0 < KEM_PUBLICKEYBYTES ≤ 4096 ∧ 0 < KEM_CIPHERTEXTBYTES ≤ 4096.

(** The state of the initiator that has sent [x], and of the responder that
    has sent [y]. *)
Definition kem_initiator (g : group) (x : bytes) (a pk sk : bytes) : Prop :=
  length a = 32%nat ∧ gr_curve25519 g = Some (mk_curve25519_key a (smult a basepoint)) ∧
  gr_kemsx g = Some (mk_kemsx_key (zeros KEM_BYTES) sk pk 1) ∧ x = pk ++ smult a basepoint ∧
  ∃ h f v rho, kem_key pk sk h f v rho.
Definition kem_responder (g : group) (y : bytes) (b c k : bytes) : Prop :=
  length b = 32%nat ∧ gr_curve25519 g = Some (mk_curve25519_key b (smult b basepoint)) ∧
  gr_kemsx g = Some (mk_kemsx_key k (zeros KEM_SECRETKEYBYTES) (zeros KEM_PUBLICKEYBYTES) 0) ∧
  y = c ++ smult b basepoint ∧ blen c = KEM_CIPHERTEXTBYTES.

(** The two parts of an exchange, one after the other. *)
Lemma fill_first b n c (Q : ibuf → gstate → Prop) s :
  holds b (zeros (n + 32)) → blen c = n → 0 < n → (∀ b', holds b' (c ++ zeros 32) → Q b' s) →
  wp starved (g_fill b 0 c) Q s.
Proof.
  intros Hb Hc Hn HQ. assert (zeros (n + 32) = [] ++ zeros n ++ zeros 32) as Ez.
  { unfold zeros. rewrite app_nil_l, <- replicate_add. f_equal. lia. }
  rewrite Ez in Hb. change 0 with (blen []).
  apply (g_fill_wp b [] (zeros n) (zeros 32) c); [done|by rewrite blen_zeros by lia|lia|done].
Qed.

Lemma kemsx_append_wp b n c a (Q : option ibuf → gstate → Prop) s :
  holds b (c ++ zeros 32) → blen c = n → length a = 32%nat →
  gr_curve25519 (gs_group s) = Some (mk_curve25519_key a (smult a basepoint)) →
  (∀ b', holds b' (c ++ smult a basepoint) → Q (Some b') s) → wp starved (kemsx_append b n) Q s.
Proof.
  intros Hb <- Ha Hc HQ. assert (length (smult a basepoint) = 32%nat) as Hp by (by apply smult_length).
  unfold kemsx_append. apply wp_bind, wp_gets, wp_bind. rewrite Hc. apply wp_ret, wp_bind.
  rewrite <- (app_nil_r (zeros 32)) in Hb. cbn [ck_public].
  apply (g_fill_wp b c (zeros 32) [] (smult a basepoint)); [done|unfold blen; by rewrite Hp|unfold blen; lia|].
  intros b' Hb'. apply wp_ret, HQ. by rewrite app_nil_r in Hb'.
Qed.

Lemma kemsx_initiator_wp s :
  KEM_sizes_ok →
  wp starved (kemsx_create_exchange2 None)
    (λ o s', ∀ b, o = Some b → gr_spec (gs_group s') = gr_spec (gs_group s) ∧
       ∃ x a pk sk, holds b x ∧ kem_initiator (gs_group s') x a pk sk) s.
Proof.
  intros [Hpk _]. unfold kemsx_create_exchange2. apply wp_bind. eapply wp_mono; [apply ec25519_init_wp|].
  intros [] s1 Hi; [|by apply wp_ret]. destruct (Hi eq_refl) as (a & r & l & Ha & ->). cbn [negb].
  apply wp_bind, g_alloc_wp. intros [] l1; [|by apply wp_ret]. cbn [negb gs_group gs_rand]. apply wp_bind.
  eapply rand_wp; [apply KEM_KeyGen_wp|]. intros [pk sk] r1 (h & f & v & rho & Hk). cbn [fst snd] in Hk.
  apply wp_bind, wp_modify, wp_bind. cbn [gs_group gs_rand gs_alloc].
  apply g_new_wp; [unfold IKED_MSGBUF_MAX, CURVE25519_SIZE; lia|]. intros [buf|] l2 Hb; [|by apply wp_ret].
  assert (blen pk = KEM_PUBLICKEYBYTES) as Hl by (unfold blen, KEM_PUBLICKEYBYTES; by rewrite (kk_pk _ _ _ _ _ _ Hk)).
  apply wp_bind, (fill_first buf KEM_PUBLICKEYBYTES); [by apply Hb|done|lia|]. intros b1 Hb1.
  apply (kemsx_append_wp b1 _ pk a); [done|done|done|done|]. intros b2 Hb2 b [= <-]. split; [done|].
  exists (pk ++ smult a basepoint), a, pk, sk. split; [done|]. split; [done|]. split; [done|]. split; [done|].
  split; [done|]. by exists h, f, v, rho.
Qed.

Lemma kemsx_responder_gen x (P : bytes → bytes → Prop) s :
  KEM_sizes_ok →
  (∀ t, blen x = KEM_PUBLICKEYBYTES + CURVE25519_SIZE → wp starved (crypto_kem_enc x)
     (λ o _, length o.1 = (Ciphertexts_bytes + Confirm_bytes)%nat ∧ P o.1 o.2) t) →
  wp starved (kemsx_create_exchange2 (Some x))
    (λ o s', ∀ b, o = Some b → gr_spec (gs_group s') = gr_spec (gs_group s) ∧
       ∃ y d c k, holds b y ∧ kem_responder (gs_group s') y d c k ∧
         blen x = KEM_PUBLICKEYBYTES + CURVE25519_SIZE ∧ P c k) s.
Proof.
  intros [_ Hct] Henc. unfold kemsx_create_exchange2. apply wp_bind. eapply wp_mono; [apply ec25519_init_wp|].
  intros [] s1 Hi; [|by apply wp_ret]. destruct (Hi eq_refl) as (d & r & l & Hd & ->). cbn [negb].
  apply wp_bind, g_alloc_wp. intros [] l1; [|by apply wp_ret]. cbn [negb gs_group gs_rand].
  apply wp_bind, wp_modify. destruct (Z.eqb_spec (blen x) (KEM_PUBLICKEYBYTES + CURVE25519_SIZE)) as [Hlx|];
    [|by apply wp_ret]. cbn [negb]. apply wp_bind. cbn [gs_group gs_rand gs_alloc].
  apply g_new_wp; [unfold IKED_MSGBUF_MAX, CURVE25519_SIZE; lia|]. intros [buf|] l2 Hb; [|by apply wp_ret].
  apply wp_bind. eapply rand_wp; [by apply Henc|].
  intros [c k] r1 (Hlc & HP). cbn [fst snd] in *. apply wp_bind, wp_modify. cbn [gs_group gs_rand gs_alloc].
  assert (blen c = KEM_CIPHERTEXTBYTES) as Hl by (unfold blen, KEM_CIPHERTEXTBYTES; by rewrite Hlc).
  apply wp_bind, (fill_first buf KEM_CIPHERTEXTBYTES); [by apply Hb|done|lia|]. intros b1 Hb1.
  apply (kemsx_append_wp b1 _ c d); [done|done|done|done|]. intros b2 Hb2 b [= <-]. split; [done|].
  by exists (c ++ smult d basepoint), d, c, k.
Qed.

Lemma kemsx_responder_wp pk sk h f v rho rest s :
  KEM_sizes_ok → kem_key pk sk h f v rho →
  wp starved (kemsx_create_exchange2 (Some (pk ++ rest)))
    (λ o s', ∀ b, o = Some b → gr_spec (gs_group s') = gr_spec (gs_group s) ∧
       ∃ y d c k, holds b y ∧ kem_responder (gs_group s') y d c k ∧
         ((Rq_recip3 f).1 = 0 → ∀ rest', crypto_kem_dec (c ++ rest') sk = Ok k)) s.
Proof.
  intros Hok Hk. eapply wp_mono; [apply (kemsx_responder_gen (pk ++ rest) (λ c k,
    (Rq_recip3 f).1 = 0 → ∀ rest', crypto_kem_dec (c ++ rest') sk = Ok k)); [done|]|].
  - intros t _. eapply wp_mono; [apply (Encap_Decap _ _ _ _ _ _ rest _ Hk)|]. by intros o s' (? & _ & ?).
  - intros o s' Ho b Eb. destruct (Ho b Eb) as (? & y & d & c & k & Hh & Hr & _ & Hd). eauto 10.
Qed.

(** Against any value of the peer. *)
Lemma kemsx_exchange_wp x s :
  KEM_sizes_ok →
  wp starved (kemsx_create_exchange2 x)
    (λ o s', ∀ b, o = Some b → ∃ y, holds b y ∧
       blen y = match x with None => KEM_PUBLICKEYBYTES | Some _ => KEM_CIPHERTEXTBYTES end + CURVE25519_SIZE) s.
Proof.
  intros Hok. assert (∀ d, length d = 32%nat → blen (smult d basepoint) = CURVE25519_SIZE) as Hp.
  { intros d Hd. unfold blen. by rewrite (smult_length d basepoint Hd). }
  destruct x as [x|].
  - eapply wp_mono; [apply (kemsx_responder_gen x (λ _ _, True)); [done|]|].
    + intros t Hl. eapply wp_mono; [apply Encap_total|by intros o s' []].
      unfold blen, KEM_PUBLICKEYBYTES, CURVE25519_SIZE in Hl. lia.
    + intros o s' Ho b Eb. destruct (Ho b Eb) as (_ & y & d & c & k & Hh & (Hd & _ & _ & -> & Hc) & _).
      exists (c ++ smult d basepoint). split; [done|]. by rewrite blen_app, Hc, Hp.
  - eapply wp_mono; [by apply kemsx_initiator_wp|]. intros o s' Ho b Eb.
    destruct (Ho b Eb) as (_ & y & a & pk & sk & Hh & (Ha & _ & _ & -> & (h & f & v & rho & Hk))).
    exists (pk ++ smult a basepoint). split; [done|]. rewrite blen_app, (Hp a Ha). f_equal.
    unfold blen, KEM_PUBLICKEYBYTES. by rewrite (kk_pk _ _ _ _ _ _ Hk).
Qed.

Lemma kemsx_combine_run g k y a :
  gr_curve25519 g = Some a → length y = 32%nat →
  ∃ b, kemsx_combine k y (mk_gstate g [] []) = Ok (Some b, mk_gstate g [] []) ∧
    ibuf_content b = crypto_hash_sha512 (k ++ smult (ck_secret a) y).
Proof.
  intros Hc Hy. set (s := mk_gstate g [] []). unfold kemsx_combine. erewrite bind_run by reflexivity. cbn [gs_group s].
  rewrite Hc. erewrite bind_run by reflexivity. unfold lift at 1. rewrite rd_whole by (unfold blen; by rewrite Hy).
  erewrite bind_run by reflexivity. cbv zeta. set (d := crypto_hash_sha512 _).
  assert (blen d = 64) as Hd by (unfold blen, d; by rewrite sha512_length).
  destruct (holds_new (zeros 64)) as (b & E & Hb); [done|]. change (blen (zeros 64)) with 64 in E.
  assert (g_new SHA512_DIGEST_LENGTH s = Ok (Some b, s)) as En.
  { unfold g_new. erewrite bind_run by reflexivity. unfold lift. rewrite new_zeros_eq by done.
    change SHA512_DIGEST_LENGTH with 64. by rewrite E. }
  rewrite (bind_run _ _ _ _ _ En). erewrite bind_run by reflexivity. cbn [negb].
  destruct (holds_store b [] (zeros 64) [] d) as (nb & Es & Hh); [by rewrite app_nil_r|done|lia|].
  change (blen []) with 0 in Es. rewrite app_nil_l, app_nil_r in Hh.
  exists (set_ib_buf nb b). split; [|by destruct Hh]. unfold g_fill, lift, mbind, M_bind. by rewrite Es.
Qed.

(** The two ends of the hybrid agree, and never fail. *)
Lemma kemsx_agree g1 g2 x y a pk sk b c k :
  gr_spec g1 = gr_spec g2 → (gi_type <$> gr_spec g1) = Some GROUP_SNTRUP761X25519 →
  kem_initiator g1 x a pk sk → kem_responder g2 y b c k →
  (∀ rest', crypto_kem_dec (c ++ rest') sk = Ok k) →
  let secret := crypto_hash_sha512 (k ++ smult a (smult b basepoint)) in
  dh_secret (group_ops g1) (Some y) = Some secret ∧ dh_secret (group_ops g2) (Some x) = Some secret.
Proof.
  intros Hsp Ht (Ha & Hc1 & Hk1 & -> & (h & f & v & rho & Hkey)) (Hb & Hc2 & Hk2 & -> & Hlc) Hdec secret.
  assert (∀ d, length d = 32%nat → length (smult d basepoint) = 32%nat) as Hp by (intros; by apply smult_length).
  assert (blen pk = KEM_PUBLICKEYBYTES) as Hlp by (unfold blen, KEM_PUBLICKEYBYTES; by rewrite (kk_pk _ _ _ _ _ _ Hkey)).
  unfold group_ops, dh_secret. rewrite <- Hsp. destruct (gr_spec g1) as [gi|]; [|done]. injection Ht as Ht. rewrite Ht.
  cbn [dh_shared2]. split.
  - set (g1' := set_gr_kemsx (Some (mk_kemsx_key k sk pk 1)) g1).
    destruct (kemsx_combine_run g1' k (smult b basepoint) _ Hc1 (Hp b Hb)) as (buf & E & Hcont).
    assert (run_plenty g1 (kemsx_create_shared2 (Some (c ++ smult b basepoint))) = Some buf) as ->;
      [|cbn [mbind option_bind]; by rewrite Hcont].
    unfold run_plenty, kemsx_create_shared2. erewrite bind_run by reflexivity. cbn [gs_group]. rewrite Hk1.
    cbn [kx_initiator Z.eqb negb]. rewrite blen_app, Hlc. unfold blen at 1. rewrite (Hp b Hb). rewrite Z.eqb_refl. cbn [negb].
    cbn [kx_secret set_kx_kemkey kx_public kx_initiator]. unfold lift, mbind, M_bind. rewrite Hdec.
    cbn [upd_group modify gs_group gs_rand gs_alloc mret M_ret].
    rewrite drop_app_length' by (unfold blen in Hlc; lia). change (set_gr_kemsx _ g1) with g1'. by rewrite E.
  - destruct (kemsx_combine_run g2 k (smult a basepoint) _ Hc2 (Hp a Ha)) as (buf & E & Hcont).
    assert (run_plenty g2 (kemsx_create_shared2 (Some (pk ++ smult a basepoint))) = Some buf) as ->;
      [|cbn [mbind option_bind]; rewrite Hcont; cbn [ck_secret]; unfold secret; by rewrite (smult_commute a b)].
    unfold run_plenty, kemsx_create_shared2. erewrite bind_run by reflexivity. cbn [gs_group]. rewrite Hk2.
    cbn [kx_initiator Z.eqb negb kx_kemkey]. rewrite blen_app, Hlp. unfold blen at 1. rewrite (Hp a Ha), Z.eqb_refl.
    cbn [negb]. erewrite bind_run by reflexivity. rewrite drop_app_length' by (unfold blen in Hlp; lia). by rewrite E.
Qed.

Lemma hybrid_get r al s :
  group_get 1035 r al = Ok (Some s) →
  ∃ gi, gi ∈ ike_groups ∧ gi_type gi = GROUP_SNTRUP761X25519 ∧ gr_spec (gs_group s) = Some gi.
Proof.
  intros G. pose proof (group_get_wpo 1035 r al) as W. rewrite G in W. destruct (W s eq_refl) as (gi & Hi & Eid & [Hs _]).
  exists gi. split; [done|]. split; [|done]. by apply hybrid_type.
Qed.
Lemma hybrid_exchange x s gi :
  gr_spec (gs_group s) = Some gi → gi_type gi = GROUP_SNTRUP761X25519 → dh_create_exchange x s = kemsx_create_exchange2 x s.
Proof.
  intros Hs Ht. unfold dh_create_exchange. erewrite bind_run by reflexivity. rewrite Hs.
  erewrite bind_run by reflexivity. by rewrite Ht.
Qed.
End invariant.

(** ** Theorems *)

(** C16: every group that [group_get] hands out makes its exchange inside the
    buffer it allocates, whatever the peer has sent: no store or load leaves an
    object and no pointer is null, and a value that is sent has exactly the
    length of the group, for the hybrid the length of the public key or of the
    ciphertext and of a Curve25519 value. Only the supply of random bytes can
    end the run early. *)
Theorem exchange_fits_buffer `{!Libcrypto, !LibcryptoLaws, !ScalarMult, !ScalarMultLaws, !Params, !ParamsOk,
    !Sha512, !Sha512Laws} id rnd al x :
  KEM_sizes_ok →
  wpo starved (group_get id rnd al)
    (λ o, ∀ s, o = Some s → ∃ gi, gi ∈ ike_groups ∧ gr_spec (gs_group s) = Some gi ∧
        wp starved (dh_create_exchange x)
          (λ o s', ∀ b, o = Some b → ∃ y, holds b y ∧
             blen y = match gi_type gi, x with
                      | GROUP_SNTRUP761X25519, None => KEM_PUBLICKEYBYTES + CURVE25519_SIZE
                      | GROUP_SNTRUP761X25519, Some _ => KEM_CIPHERTEXTBYTES + CURVE25519_SIZE
                      | t, _ => group_getlen t (gs_group s')
                      end) s).
Proof.
  intros Hok. eapply wpo_mono; [apply group_get_wpo|]. intros o Ho s Es. destruct (Ho s Es) as (gi & Hi & _ & Hk).
  assert (gr_spec (gs_group s) = Some gi) as Hs by (by destruct Hk).
  exists gi. split; [done|]. split; [done|]. destruct (decide (gi_type gi = GROUP_SNTRUP761X25519)) as [Ht|Hne].
  - apply wp_bind, wp_gets, wp_bind. rewrite Hs. apply wp_ret. rewrite Ht.
    eapply wp_mono; [by apply kemsx_exchange_wp|]. intros o' s' Hb b Eb.
    destruct (Hb b Eb) as (y & Hy & Hl). exists y. split; [done|]. by destruct x.
  - eapply wp_mono; [by apply (dh_create_exchange_wp gi)|]. intros o' s' [_ Hb] b Eb.
    destruct (Hb b Eb) as (y & Hy & _ & Hl). exists y. split; [done|]. by destruct (gi_type gi).
Qed.



(** *** Instances *)

(** Exponents from a counter, a cyclic group in place of the curves, and the
    exclusive or in place of the scalar multiplication. *)
Definition toy_libcrypto : Libcrypto := {|
  DH_generate_key p g k := λ s, let a := default 3 k in Ok (if 0 <=? a then Some (a, g ^ a mod p) else None, s);
  DH_compute_key p _ a x := Some (x ^ a mod p);
  ec_point := Z;
  EC_generate_key _ := λ s, Ok (Some (5, 5), s);
  EC_KEY_check_key _ _ := true;
  EC_generator _ := 1;
  EC_POINT_mul _ a P := Some (a * P mod 2 ^ 100);
  EC_POINT_get_affine _ P := if (0 <=? P) && (P <? 2 ^ 100) then Some (P, P) else None;
  EC_POINT_set_affine _ x _ := Some x |}.
Lemma toy_libcrypto_ok : @LibcryptoLaws toy_libcrypto.
Proof.
  split.
  - intros p g k s. cbn. destruct (Z.leb_spec 0 (default 3 k)) as [Ha|]; [|done].
    intros a y [= <- <-]. split; [done|]. split; [done|]. by intros a' ->.
  - intros p g a x v. by intros [= <-].
  - intros nid s. cbn. by intros a P [= <- <-].
  - intros gi nid P x y Hi Hn. cbn. destruct (_ && _) eqn:E; [|done]. intros [= <- <-].
    apply andb_prop in E as [?%Z.leb_le ?%Z.ltb_lt].
    assert (100 ≤ gi_bits gi) as Hb.
    { assert (forallb (λ gi, 100 <=? gi_bits gi) ike_groups = true) as Hall by (vm_compute; reflexivity).
      rewrite forallb_forall in Hall. apply list_elem_of_In, Hall in Hi. by apply Z.leb_le. }
    pose proof (Z.pow_le_mono_r 2 100 (gi_bits gi) ltac:(lia) Hb). lia.
  - intros nid P x y P'. cbn. destruct (_ && _); [|done]. by intros [= <- <-] [= <-].
  - intros nid a b A B S T. cbn [toy_libcrypto EC_POINT_mul EC_generator]. intros [= <-] [= <-] [= <-] [= <-].
    rewrite !Z.mul_1_r, !Zmult_mod_idemp_r. f_equal. lia.
Qed.

Definition toy_smult : ScalarMult :=
  {| smult a x := zip_with (λ c d, bZ (Z.lxor (Zb c) (Zb d))) a x |}.
Lemma toy_smult_ok : @ScalarMultLaws toy_smult.
Proof.
  split.
  - intros a x Ha Hx. cbn [toy_smult smult]. rewrite length_zip_with. lia.
  - intros a b _ _. cbn [toy_smult smult]. revert a b. generalize basepoint as l.
    induction l as [|c l IH]; intros [|x a] [|y b]; try done. cbn [zip_with]. f_equal; [|apply IH].
    rewrite !Zb_bZ, !Z.mod_small by apply lxor_bytes. f_equal. by rewrite <- !Z.lxor_assoc, (Z.lxor_comm (Zb x) (Zb y)).
Qed.

(** The lengths of [crypto_api.h]. *)
Example kem_lengths :
  (@KEM_PUBLICKEYBYTES size761, @KEM_SECRETKEYBYTES size761, @KEM_CIPHERTEXTBYTES size761) =
  (SNTRUP761_PUBLICKEYBYTES, SNTRUP761_SECRETKEYBYTES, SNTRUP761_CIPHERTEXTBYTES).
Proof. vm_compute. reflexivity. Qed.

#[local] Existing Instances toy_libcrypto toy_libcrypto_ok toy_smult toy_smult_ok size5 size5_ok pad64 pad64_ok.

Lemma size5_sizes : KEM_sizes_ok.
Proof. vm_compute. intuition discriminate. Qed.

Definition none_group : gstate := mk_gstate (mk_group 0 None None None None None) [] [].
Definition got (o : out (option gstate)) : gstate := match o with Ok (Some s) => s | _ => none_group end.
Definition got_ok (o : out (option gstate)) : bool := match o with Ok (Some _) => true | _ => false end.
Lemma got_eq o : got_ok o = true → o = Ok (Some (got o)).
Proof. by destruct o as [[]|]. Qed.
Definition sent (o : out (option ibuf * gstate)) : ibuf := match o with Ok (Some b, _) => b | _ => mk_ibuf None 0 0 0 0 0 end.
Definition after (o : out (option ibuf * gstate)) : gstate := match o with Ok (_, s) => s | _ => none_group end.
Definition sent_ok (o : out (option ibuf * gstate)) : bool := match o with Ok (Some _, _) => true | _ => false end.
Lemma sent_eq o : sent_ok o = true → o = Ok (Some (sent o), after o).
Proof. by destruct o as [[[] ]|]. Qed.

(** The two ends on the same supply of random bytes. *)
Definition stock : bytes := take 32 supply ++ supply ++ supply.
#[local] Notation toy_group id := (got (group_get id stock [])).
#[local] Notation toy_init id := (dh_create_exchange None (toy_group id)).
#[local] Notation toy_resp id := (dh_create_exchange (Some (ibuf_content (sent (toy_init id)))) (toy_group id)).

Lemma exchange_fits_buffer_witness :
  KEM_sizes_ok ∧ group_get 31 stock [] = Ok (Some (toy_group 31)) ∧
  wp starved (dh_create_exchange None) (λ o _, ∀ b, o = Some b → ∃ y, holds b y ∧ blen y = 32) (toy_group 31).
Proof.
  assert (group_get 31 stock [] = Ok (Some (toy_group 31))) as E by (apply got_eq; vm_compute; reflexivity).
  split; [exact size5_sizes|]. split; [exact E|].
  pose proof (exchange_fits_buffer 31 stock [] None size5_sizes) as W. rewrite E in W.
  destruct (W _ eq_refl) as (gi & _ & Hs & Hw).
  assert (gi_type <$> gr_spec (gs_group (toy_group 31)) = Some GROUP_CURVE25519) as Ht by (vm_compute; reflexivity).
  rewrite Hs in Ht. injection Ht as Ht. rewrite Ht in Hw. exact Hw.
Defined.


Definition toy_kx : kemsx_key := default (mk_kemsx_key [] [] [] 0) (gr_kemsx (gs_group (after (toy_init 1035)))).

