(* ===== verification/Chap.v ===== *)
(** * MS-CHAP-V2: [chap_ms.c]

    The response to a challenge, the answer of the authenticator, and the
    master session key that takes the place of a shared key once EAP is done.
    MD4, MD5, SHA-1 and DES come from OpenSSL and are parameters. The theorems
    say that no buffer is left and what the buffers hold, that the expansion of
    DES keys keeps all 56 bits of the key, that the two sides derive each
    other's keys, and that the decryption of RADIUS keys undoes their
    encryption. *)

From S2P Require Import Prelude Ibuf.

(** ** OpenSSL *)

Class Digests := {
  md4 : bytes → bytes;
  md5 : bytes → bytes;
  sha1 : bytes → bytes;
  DES_set_odd_parity : bytes → bytes;
  DES_ecb_encrypt : bytes → bytes → bytes }.
Class DigestsLaws `{!Digests} : Prop := {
  md4_length x : blen (md4 x) = 16;
  md5_length x : blen (md5 x) = 16;
  sha1_length x : blen (sha1 x) = 20;
  parity_bits key : Forall2 (λ b b', Zb b' / 2 = Zb b / 2) key (DES_set_odd_parity key);
  des_length key clear : blen key = 8 → blen clear = 8 → blen (DES_ecb_encrypt key clear) = 8 }.

Definition MSCHAP_CHALLENGE_SZ : Z := 8.
Definition MSCHAPV2_CHALLENGE_SZ : Z := 16.
Definition MSCHAP_HASH_SZ : Z := 16.
Definition MSCHAP_MASTERKEY_SZ : Z := 16.
Definition MSCHAP_MSK_SZ : Z := 64.

(** ** Strings *)

(** The text behind the last backslash, or the whole text: [strrchr]. *)
Fixpoint after_backslash (s : bytes) : option bytes :=
  match s with
  | [] => None
  | c :: s =>
      match after_backslash s with
      | Some t => Some t
      | None => if bool_decide (c = "\"%byte) then Some s else None
      end
  end.

(** [string2unicode] of [util.c]: the first [len * 2] bytes. *)
Fixpoint string2unicode (ascii : bytes) : bytes :=
  match ascii with [] => [] | c :: s => c :: x00 :: string2unicode s end.

Definition text (l : list Z) : bytes := map bZ l.

Definition sha1_pad1 : bytes := replicate 40 x00.
Definition sha1_pad2 : bytes := replicate 40 xf2.

(** "Magic server to client signing constant", "Pad to make it do more than one
    iteration" *)
Definition auth_magic1 : bytes := text
  [0x4D; 0x61; 0x67; 0x69; 0x63; 0x20; 0x73; 0x65; 0x72; 0x76;
   0x65; 0x72; 0x20; 0x74; 0x6F; 0x20; 0x63; 0x6C; 0x69; 0x65;
   0x6E; 0x74; 0x20; 0x73; 0x69; 0x67; 0x6E; 0x69; 0x6E; 0x67;
   0x20; 0x63; 0x6F; 0x6E; 0x73; 0x74; 0x61; 0x6E; 0x74].
Definition auth_magic2 : bytes := text
  [0x50; 0x61; 0x64; 0x20; 0x74; 0x6F; 0x20; 0x6D; 0x61; 0x6B;
   0x65; 0x20; 0x69; 0x74; 0x20; 0x64; 0x6F; 0x20; 0x6D; 0x6F;
   0x72; 0x65; 0x20; 0x74; 0x68; 0x61; 0x6E; 0x20; 0x6F; 0x6E;
   0x65; 0x20; 0x69; 0x74; 0x65; 0x72; 0x61; 0x74; 0x69; 0x6F;
   0x6E].
Definition master_magic1 : bytes := text
  [0x54; 0x68; 0x69; 0x73; 0x20; 0x69; 0x73; 0x20; 0x74;
   0x68; 0x65; 0x20; 0x4d; 0x50; 0x50; 0x45; 0x20; 0x4d;
   0x61; 0x73; 0x74; 0x65; 0x72; 0x20; 0x4b; 0x65; 0x79].
Definition startkey_magic2 : bytes := text
  [0x4f; 0x6e; 0x20; 0x74; 0x68; 0x65; 0x20; 0x63; 0x6c; 0x69;
   0x65; 0x6e; 0x74; 0x20; 0x73; 0x69; 0x64; 0x65; 0x2c; 0x20;
   0x74; 0x68; 0x69; 0x73; 0x20; 0x69; 0x73; 0x20; 0x74; 0x68;
   0x65; 0x20; 0x73; 0x65; 0x6e; 0x64; 0x20; 0x6b; 0x65; 0x79;
   0x3b; 0x20; 0x6f; 0x6e; 0x20; 0x74; 0x68; 0x65; 0x20; 0x73;
   0x65; 0x72; 0x76; 0x65; 0x72; 0x20; 0x73; 0x69; 0x64; 0x65;
   0x2c; 0x20; 0x69; 0x74; 0x20; 0x69; 0x73; 0x20; 0x74; 0x68;
   0x65; 0x20; 0x72; 0x65; 0x63; 0x65; 0x69; 0x76; 0x65; 0x20;
   0x6b; 0x65; 0x79; 0x2e].
Definition startkey_magic3 : bytes := text
  [0x4f; 0x6e; 0x20; 0x74; 0x68; 0x65; 0x20; 0x63; 0x6c; 0x69;
   0x65; 0x6e; 0x74; 0x20; 0x73; 0x69; 0x64; 0x65; 0x2c; 0x20;
   0x74; 0x68; 0x69; 0x73; 0x20; 0x69; 0x73; 0x20; 0x74; 0x68;
   0x65; 0x20; 0x72; 0x65; 0x63; 0x65; 0x69; 0x76; 0x65; 0x20;
   0x6b; 0x65; 0x79; 0x3b; 0x20; 0x6f; 0x6e; 0x20; 0x74; 0x68;
   0x65; 0x20; 0x73; 0x65; 0x72; 0x76; 0x65; 0x72; 0x20; 0x73;
   0x69; 0x64; 0x65; 0x2c; 0x20; 0x69; 0x74; 0x20; 0x69; 0x73;
   0x20; 0x74; 0x68; 0x65; 0x20; 0x73; 0x65; 0x6e; 0x64; 0x20;
   0x6b; 0x65; 0x79; 0x2e].

Definition hex_digit (d : Z) : byte := bZ (if d <? 10 then 0x30 + d else 0x41 + (d - 10)).

(** ** DES keys *)

Definition get7bits (inp : bytes) (start : Z) : out Z :=
  w ← rd inp (start / 8) 2;
  let word := Z.lor (Z.shiftl (fld8 w 0) 8) (fld8 w 1) in
  let word := Z.shiftr word (15 - (start mod 8 + 7)) in
  Ok (Z.land word 0xfe).

(** [des_key[i] = get7bits(key, 7 * i)] *)
Fixpoint des_bits (key : bytes) (starts : list Z) : out bytes :=
  match starts with
  | [] => Ok []
  | start :: starts => b ← get7bits key start; l ← des_bits key starts; Ok (bZ b :: l)
  end.

Section chap.
Context `{!Digests}.

Definition mschap_des_addparity (key : bytes) : out bytes :=
  des_key ← des_bits key [0; 7; 14; 21; 28; 35; 42; 49];
  Ok (DES_set_odd_parity des_key).

Definition mschap_des_encrypt (clear key : bytes) : out bytes :=
  des_key ← mschap_des_addparity key;
  clear ← rd clear 0 8;
  Ok (DES_ecb_encrypt des_key clear).

(** ** Responses *)

Definition mschap_challenge_response (challenge pwhash : bytes) : out bytes :=
  pw ← rd pwhash 0 MSCHAP_HASH_SZ;
  let padpwhash := pw ++ replicate 6 x00 in
  r0 ← mschap_des_encrypt challenge padpwhash;
  r1 ← mschap_des_encrypt challenge (drop 7 padpwhash);
  r2 ← mschap_des_encrypt challenge (drop 14 padpwhash);
  Ok (r0 ++ r1 ++ r2).

Definition mschap_ntpassword_hash (inp : bytes) : bytes := md4 inp.

Definition mschap_challenge_hash (peer_challenge auth_challenge username : bytes) : out bytes :=
  let name := default username (after_backslash username) in
  p ← rd peer_challenge 0 MSCHAPV2_CHALLENGE_SZ;
  a ← rd auth_challenge 0 MSCHAPV2_CHALLENGE_SZ;
  rd (sha1 (p ++ a ++ name)) 0 MSCHAP_CHALLENGE_SZ.

Definition mschap_nt_response (auth_challenge peer_challenge username password : bytes) : out bytes :=
  challenge ← mschap_challenge_hash peer_challenge auth_challenge username;
  mschap_challenge_response challenge (mschap_ntpassword_hash password).

Definition mschap_auth_response (password ntresponse auth_challenge peer_challenge username : bytes) : out bytes :=
  let password_hash := mschap_ntpassword_hash password in
  h ← rd password_hash 0 MSCHAP_HASH_SZ;
  let password_hash2 := mschap_ntpassword_hash h in
  nt ← rd ntresponse 0 24;
  let md := sha1 (password_hash2 ++ nt ++ auth_magic1) in
  challenge ← mschap_challenge_hash peer_challenge auth_challenge username;
  let md := sha1 (md ++ challenge ++ auth_magic2) in
  Ok ("S"%byte :: "="%byte ::
      concat (map (λ b, [hex_digit (Z.shiftr (Zb b) 4); hex_digit (Z.land (Zb b) 0x0f)]) md)).

(** ** Keys *)

Definition mschap_masterkey (password_hash2 ntresponse : bytes) : out bytes :=
  h ← rd password_hash2 0 MSCHAP_HASH_SZ;
  nt ← rd ntresponse 0 24;
  rd (sha1 (h ++ nt ++ master_magic1)) 0 16.

Definition mschap_asymetric_startkey (masterkey : bytes) (sessionkeylen : Z) (issend isserver : bool) : out bytes :=
  let s := if issend then (if isserver then startkey_magic3 else startkey_magic2)
           else (if isserver then startkey_magic2 else startkey_magic3) in
  m ← rd masterkey 0 16;
  rd (sha1 (m ++ sha1_pad1 ++ s ++ sha1_pad2)) 0 sessionkeylen.

Definition mschap_msk (password ntresponse : bytes) : out bytes :=
  let password_hash := mschap_ntpassword_hash password in
  h ← rd password_hash 0 MSCHAP_HASH_SZ;
  let password_hash2 := mschap_ntpassword_hash h in
  masterkey ← mschap_masterkey password_hash2 ntresponse;
  recvkey ← mschap_asymetric_startkey masterkey MSCHAP_MASTERKEY_SZ false true;
  sendkey ← mschap_asymetric_startkey masterkey MSCHAP_MASTERKEY_SZ true true;
  Ok (recvkey ++ sendkey ++ zeros (MSCHAP_MSK_SZ - 2 * MSCHAP_MASTERKEY_SZ)).

Definition xor_bytes (a b : bytes) : bytes := zip_with (λ x y, bZ (Z.lxor (Zb x) (Zb y))) a b.

(** [for (i = 0; i < mdlen; i++) p[i] = b[i] ^ crypted[off + i]] *)
Definition mschap_radiuskey (crypted authenticator secret : bytes) : out bytes :=
  a ← rd authenticator 0 16;
  salt ← rd crypted 0 2;
  let b := md5 (secret ++ a ++ salt) in
  c1 ← rd crypted 2 (blen b);
  let p1 := xor_bytes b c1 in
  let b := md5 (secret ++ c1) in
  c2 ← rd crypted 18 (blen b);
  let p2 := xor_bytes b c2 in
  rd (p1 ++ p2) 1 16.
End chap.

(** ** Bits of a DES key *)

Lemma land_double x m : Z.land x (2 * m) = 2 * Z.land (x / 2) m.
Proof.
  apply Z.bits_inj'. intros n Hn. rewrite Z.land_spec. destruct (Z.eq_dec n 0) as [->|Hne].
  - rewrite !Z.testbit_even_0. apply andb_false_r.
  - replace n with (Z.succ (n - 1)) by lia. rewrite !Z.testbit_even_succ, Z.land_spec by lia. f_equal.
    change (x / 2) with (x / 2 ^ 1). rewrite Z.div_pow2_bits by lia. done.
Qed.

(** Seven bits of two bytes. *)
Lemma seven_bits a b r :
  0 ≤ a < 256 → 0 ≤ b < 256 → 0 ≤ r < 8 →
  Z.land (Z.shiftr (Z.lor (Z.shiftl a 8) b) (15 - (r + 7))) 0xfe = 2 * ((a * 256 + b) / 2 ^ (9 - r) mod 128).
Proof.
  intros Ha Hb Hr. change 0xfe with (2 * 127). rewrite land_double. f_equal.
  assert (Z.lor (Z.shiftl a 8) b = a * 256 + b) as ->.
  { rewrite Z.shiftl_mul_pow2 by lia. pose proof (Z.add_lor_land (a * 2 ^ 8) b) as E.
    assert (Z.land (a * 2 ^ 8) b = 0) as Hz; [|change (2 ^ 8) with 256 in *; lia]. clear E.
    apply Z.bits_inj'. intros n Hn. rewrite Z.land_spec, Z.bits_0, Z.mul_pow2_bits by lia.
    destruct (Z.lt_ge_cases n 8); [rewrite Z.testbit_neg_r by lia; done|].
    apply andb_false_iff. right. destruct (Z.eq_dec b 0) as [->|]; [apply Z.bits_0|].
    apply Z.bits_above_log2; [lia|]. pose proof (Z.log2_lt_pow2 b 8). lia. }
  change 127 with (Z.ones 7). rewrite Z.land_ones, Z.shiftr_div_pow2 by lia. f_equal.
  rewrite Z.div_div by lia. f_equal. change 2 with (2 ^ 1) at 2. rewrite <- Z.pow_add_r by lia. f_equal. lia.
Qed.

Lemma get7bits_run pre a b post start :
  start / 8 = blen pre → get7bits (pre ++ a :: b :: post) start =
    Ok (2 * ((Zb a * 256 + Zb b) / 2 ^ (9 - start mod 8) mod 128)).
Proof.
  intros Hs. unfold get7bits. rewrite Hs. unfold rd, mbind, out_bind.
  assert (sub_bytes (blen pre) 2 (pre ++ a :: b :: post) = [a; b]) as E.
  { rewrite sub_bytes_app_r by lia. by rewrite Z.sub_diag. }
  rewrite E. rewrite blen_app. change (blen (a :: b :: post)) with (Z.of_nat (S (S (length post)))).
  pose proof (blen_nonneg pre). rewrite (proj2 (Z.leb_le 0 (blen pre))) by lia.
  rewrite (proj2 (Z.leb_le (blen pre + 2) _)) by lia. change (0 <=? 2) with true. cbn [andb].
  change (fld8 [a; b] 0) with (Zb a). change (fld8 [a; b] 1) with (Zb b).
  rewrite seven_bits; [done|apply Zb_range..|apply Z.mod_pos_bound; lia].
Qed.

(** The digits of a number in base 128. *)
Definition septets (l : bytes) : Z := foldl (λ acc b, acc * 128 + Zb b / 2) 0 l.

Lemma septet_byte x : Zb (bZ (2 * (x mod 128))) / 2 = x mod 128.
Proof.
  pose proof (Z.mod_pos_bound x 128 ltac:(lia)). rewrite Zb_bZ, Z.mod_small by lia.
  rewrite Z.mul_comm. apply Z.div_mul. lia.
Qed.

Lemma split_bits a b k :
  0 ≤ a < 256 → 0 ≤ b < 256 → 2 ≤ k ≤ 8 → (a * 256 + b) / 2 ^ k mod 128 = a mod 2 ^ (k - 1) * 2 ^ (8 - k) + b / 2 ^ k.
Proof.
  intros Ha Hb Hk. assert (k = 2 ∨ k = 3 ∨ k = 4 ∨ k = 5 ∨ k = 6 ∨ k = 7 ∨ k = 8) as Hc by lia.
  destruct Hc as [-> | [-> | [-> | [-> | [-> | [-> | ->]]]]]]; cbn -[Z.div Z.modulo Z.mul Z.add];
    Z.to_euclidean_division_equations; lia.
Qed.
Lemma top_bits a b : 0 ≤ a < 256 → 0 ≤ b < 256 → (a * 256 + b) / 2 ^ 9 mod 128 = a / 2.
Proof. intros Ha Hb. change (2 ^ 9) with 512. Z.to_euclidean_division_equations. lia. Qed.

Lemma des_bits_run b0 b1 b2 b3 b4 b5 b6 b7 rest :
  ∃ d, des_bits (b0 :: b1 :: b2 :: b3 :: b4 :: b5 :: b6 :: b7 :: rest) [0; 7; 14; 21; 28; 35; 42; 49] = Ok d ∧
    length d = 8%nat ∧ septets d = be_decode 0 [b0; b1; b2; b3; b4; b5; b6].
Proof.
  cbn [des_bits].
  pose proof (get7bits_run [] b0 b1 (b2 :: b3 :: b4 :: b5 :: b6 :: b7 :: rest) 0 eq_refl) as E0.
  pose proof (get7bits_run [] b0 b1 (b2 :: b3 :: b4 :: b5 :: b6 :: b7 :: rest) 7 eq_refl) as E1.
  pose proof (get7bits_run [b0] b1 b2 (b3 :: b4 :: b5 :: b6 :: b7 :: rest) 14 eq_refl) as E2.
  pose proof (get7bits_run [b0; b1] b2 b3 (b4 :: b5 :: b6 :: b7 :: rest) 21 eq_refl) as E3.
  pose proof (get7bits_run [b0; b1; b2] b3 b4 (b5 :: b6 :: b7 :: rest) 28 eq_refl) as E4.
  pose proof (get7bits_run [b0; b1; b2; b3] b4 b5 (b6 :: b7 :: rest) 35 eq_refl) as E5.
  pose proof (get7bits_run [b0; b1; b2; b3; b4] b5 b6 (b7 :: rest) 42 eq_refl) as E6.
  pose proof (get7bits_run [b0; b1; b2; b3; b4; b5] b6 b7 rest 49 eq_refl) as E7.
  cbn [app] in *. rewrite E0, E1, E2, E3, E4, E5, E6, E7. clear E0 E1 E2 E3 E4 E5 E6 E7.
  eexists. split; [reflexivity|]. split; [done|]. unfold septets. cbn [foldl be_decode]. rewrite !septet_byte.
  pose proof (Zb_range b0). pose proof (Zb_range b1). pose proof (Zb_range b2). pose proof (Zb_range b3).
  pose proof (Zb_range b4). pose proof (Zb_range b5). pose proof (Zb_range b6). pose proof (Zb_range b7).
  change (9 - 0 mod 8) with 9. change (9 - 7 mod 8) with 2. change (9 - 14 mod 8) with 3. change (9 - 21 mod 8) with 4.
  change (9 - 28 mod 8) with 5. change (9 - 35 mod 8) with 6. change (9 - 42 mod 8) with 7. change (9 - 49 mod 8) with 8.
  rewrite top_bits, !split_bits by lia.
  repeat match goal with |- context [2 ^ ?e] => let v := eval vm_compute in (2 ^ e) in change (2 ^ e) with v end.
  rewrite (Z.div_small (Zb b7)) by lia.
  pose proof (Z.div_mod (Zb b0) 2 ltac:(lia)). pose proof (Z.div_mod (Zb b1) 4 ltac:(lia)).
  pose proof (Z.div_mod (Zb b2) 8 ltac:(lia)). pose proof (Z.div_mod (Zb b3) 16 ltac:(lia)).
  pose proof (Z.div_mod (Zb b4) 32 ltac:(lia)). pose proof (Z.div_mod (Zb b5) 64 ltac:(lia)).
  pose proof (Z.div_mod (Zb b6) 128 ltac:(lia)).
  lia.
Qed.

(** ** Runs *)

Lemma rd_prefix l n : 0 ≤ n ≤ blen l → ∃ x, rd l 0 n = Ok x ∧ blen x = n ∧ x = take (Z.to_nat n) l.
Proof.
  intros Hn. exists (take (Z.to_nat n) l). split; [|split; [|done]].
  - unfold rd. rewrite (proj2 (Z.leb_le 0 n)), (proj2 (Z.leb_le (0 + n) _)) by lia. unfold sub_bytes. by rewrite drop_0.
  - unfold blen in *. rewrite length_take. lia.
Qed.

Section runs.
Context `{!Digests, !DigestsLaws}.

Lemma septets_parity d : septets (DES_set_odd_parity d) = septets d ∧ length (DES_set_odd_parity d) = length d.
Proof.
  pose proof (parity_bits d) as Hp. split; [|by rewrite <- (Forall2_length _ _ _ Hp)].
  unfold septets. generalize 0. induction Hp as [|b b' l l' E _ IH]; intros acc; [done|]. cbn [foldl]. by rewrite E, IH.
Qed.

Lemma addparity_run key :
  8 ≤ blen key → ∃ d, mschap_des_addparity key = Ok d ∧ blen d = 8 ∧ septets d = be_decode 0 (take 7 key).
Proof.
  intros Hl. unfold blen in Hl.
  destruct key as [|b0 [|b1 [|b2 [|b3 [|b4 [|b5 [|b6 [|b7 rest]]]]]]]]; simpl length in Hl; try lia.
  destruct (des_bits_run b0 b1 b2 b3 b4 b5 b6 b7 rest) as (d & E & Hd & Hs).
  destruct (septets_parity d) as [Hp Hpl]. exists (DES_set_odd_parity d).
  unfold mschap_des_addparity, mbind, out_bind. rewrite E. split; [done|]. split; [unfold blen; lia|by rewrite Hp, Hs].
Qed.

(** The DES key made of seven bytes. *)
Definition des_key (key d : bytes) : Prop := blen d = 8 ∧ septets d = be_decode 0 key.

Lemma des_encrypt_run clear key :
  8 ≤ blen clear → 8 ≤ blen key →
  ∃ d, mschap_des_encrypt clear key = Ok (DES_ecb_encrypt d (take 8 clear)) ∧ des_key (take 7 key) d ∧
    blen (DES_ecb_encrypt d (take 8 clear)) = 8.
Proof.
  intros Hc Hk. destruct (addparity_run key Hk) as (d & Ed & Hd & Hs). destruct (rd_prefix clear 8) as (x & Ex & Hx & ->); [lia|].
  exists d. unfold mschap_des_encrypt, mbind, out_bind. rewrite Ed, Ex. split; [done|]. split; [done|]. by apply des_length.
Qed.

(** RFC 2759, section 8.5: the hash, padded to 21 bytes, makes three keys. *)
Lemma challenge_response_run challenge pwhash :
  blen challenge = 8 → blen pwhash = 16 → ∃ d0 d1 d2 r,
    mschap_challenge_response challenge pwhash = Ok r ∧ blen r = 24 ∧
    des_key (take 7 pwhash) d0 ∧ des_key (take 7 (drop 7 pwhash)) d1 ∧ des_key (drop 14 pwhash ++ zeros 5) d2 ∧
    r = DES_ecb_encrypt d0 challenge ++ DES_ecb_encrypt d1 challenge ++ DES_ecb_encrypt d2 challenge.
Proof.
  intros Hc Hp. destruct (rd_prefix pwhash 16) as (pw & Ep & Hl & Epw); [lia|].
  rewrite take_ge in Epw by (unfold blen in Hp; lia). subst pw. unfold blen in Hp, Hc.
  set (pad := pwhash ++ replicate 6 x00). assert (length pad = 22%nat) as Hpad.
  { unfold pad. rewrite length_app, length_replicate. lia. }
  assert (take 8 challenge = challenge) as Et by (apply take_ge; lia).
  destruct (des_encrypt_run challenge pad) as (d0 & E0 & K0 & L0); [unfold blen; lia..|].
  destruct (des_encrypt_run challenge (drop 7 pad)) as (d1 & E1 & K1 & L1); [unfold blen; rewrite ?length_drop; lia..|].
  destruct (des_encrypt_run challenge (drop 14 pad)) as (d2 & E2 & K2 & L2); [unfold blen; rewrite ?length_drop; lia..|].
  rewrite Et in *. eexists d0, d1, d2, _. unfold mschap_challenge_response, MSCHAP_HASH_SZ, mbind, out_bind.
  rewrite Ep. fold pad. rewrite E0, E1, E2. split; [reflexivity|]. split; [rewrite !blen_app; lia|]. unfold pad in *.
  rewrite take_app_le in K0 by lia. rewrite drop_app_le, take_app_le in K1 by (rewrite ?length_drop; lia).
  rewrite drop_app_le, take_app_ge in K2 by (rewrite ?length_drop; lia). rewrite length_drop in K2.
  split; [done|]. split; [done|]. split; [|done]. replace (7 - (length pwhash - 14))%nat with 5%nat in K2 by lia. exact K2.
Qed.

Lemma challenge_hash_run peer auth name :
  16 ≤ blen peer → 16 ≤ blen auth → ∃ c, mschap_challenge_hash peer auth name = Ok c ∧ blen c = 8.
Proof.
  intros Hp Ha. destruct (rd_prefix peer 16) as (p & Ep & _); [lia|]. destruct (rd_prefix auth 16) as (a & Ea & _); [lia|].
  destruct (rd_prefix (sha1 (p ++ a ++ default name (after_backslash name))) 8) as (c & Ec & Hc & _);
    [rewrite sha1_length; lia|].
  exists c. unfold mschap_challenge_hash, MSCHAPV2_CHALLENGE_SZ, MSCHAP_CHALLENGE_SZ, mbind, out_bind.
  by rewrite Ep, Ea, Ec.
Qed.

Lemma length_hex (f g : byte → byte) l : length (concat (map (λ b, [f b; g b]) l)) = (2 * length l)%nat.
Proof. induction l as [|b l IH]; [done|]. cbn [map concat app length]. rewrite IH. lia. Qed.

Lemma mschap_auth_response_run password nt auth peer name :
  24 ≤ blen nt → 16 ≤ blen auth → 16 ≤ blen peer →
  ∃ r, mschap_auth_response password nt auth peer name = Ok r ∧ blen r = 42.
Proof.
  intros Hn Ha Hp. destruct (rd_prefix (mschap_ntpassword_hash password) 16) as (h & Eh & _);
    [unfold mschap_ntpassword_hash; rewrite md4_length; lia|].
  destruct (rd_prefix nt 24) as (n & En & _); [lia|]. destruct (challenge_hash_run peer auth name Hp Ha) as (c & Ec & _).
  eexists. unfold mschap_auth_response, MSCHAP_HASH_SZ, mbind, out_bind. rewrite Eh, En, Ec. split; [reflexivity|].
  set (md := sha1 _). assert (length md = 20%nat) as Hmd.
  { unfold md. pose proof (sha1_length (sha1 (mschap_ntpassword_hash h ++ n ++ auth_magic1) ++ c ++ auth_magic2)).
    unfold blen in *. lia. }
  unfold blen. cbn [length]. rewrite length_hex. lia.
Qed.

Lemma msk_run password nt :
  24 ≤ blen nt → ∃ mk recv send,
    mschap_asymetric_startkey mk 16 false true = Ok recv ∧ mschap_asymetric_startkey mk 16 true true = Ok send ∧
    mschap_msk password nt = Ok (recv ++ send ++ zeros 32) ∧ blen recv = 16 ∧ blen send = 16.
Proof.
  intros Hn. destruct (rd_prefix (mschap_ntpassword_hash password) 16) as (h & Eh & _);
    [unfold mschap_ntpassword_hash; rewrite md4_length; lia|].
  destruct (rd_prefix (mschap_ntpassword_hash h) 16) as (h2 & Eh2 & _); [unfold mschap_ntpassword_hash; rewrite md4_length; lia|].
  destruct (rd_prefix nt 24) as (n & En & _); [lia|].
  destruct (rd_prefix (sha1 (h2 ++ n ++ master_magic1)) 16) as (mk & Em & Hm & _); [rewrite sha1_length; lia|].
  destruct (rd_prefix mk 16) as (m & Emk & _); [lia|].
  destruct (rd_prefix (sha1 (m ++ sha1_pad1 ++ startkey_magic2 ++ sha1_pad2)) 16) as (r & Er & Hr & _); [rewrite sha1_length; lia|].
  destruct (rd_prefix (sha1 (m ++ sha1_pad1 ++ startkey_magic3 ++ sha1_pad2)) 16) as (s & Es & Hs & _); [rewrite sha1_length; lia|].
  exists mk, r, s. assert (mschap_asymetric_startkey mk 16 false true = Ok r) as E1.
  { unfold mschap_asymetric_startkey, mbind, out_bind. by rewrite Emk. }
  assert (mschap_asymetric_startkey mk 16 true true = Ok s) as E2.
  { unfold mschap_asymetric_startkey, mbind, out_bind. by rewrite Emk. }
  split; [done|]. split; [done|]. split; [|done].
  unfold mschap_msk, mschap_masterkey, MSCHAP_HASH_SZ, MSCHAP_MASTERKEY_SZ, mbind, out_bind.
  by rewrite Eh, Eh2, En, Em, E1, E2.
Qed.
End runs.

(** ** Theorems *)


(** The keys of the two sides: what one sends with, the other receives with. *)
Lemma startkey_mirror `{!Digests} mk n issend isserver :
  mschap_asymetric_startkey mk n issend isserver = mschap_asymetric_startkey mk n (negb issend) (negb isserver).
Proof. by destruct issend, isserver. Qed.

(** *** RADIUS *)

(** Encryption of a key of 32 bytes, RFC 2548, section 2.4.2. *)
Definition radius_encrypt `{!Digests} (salt authenticator secret p1 p2 : bytes) : bytes :=
  let c1 := xor_bytes (md5 (secret ++ authenticator ++ salt)) p1 in
  let c2 := xor_bytes (md5 (secret ++ c1)) p2 in
  salt ++ c1 ++ c2.

Lemma xor_xor a b : length a = length b → xor_bytes a (xor_bytes a b) = b.
Proof.
  revert b. induction a as [|x a IH]; intros [|y b] Hl; try done. unfold xor_bytes in *. cbn [zip_with]. f_equal.
  - rewrite Zb_bZ. assert (0 ≤ Z.lxor (Zb x) (Zb y) < 256) as Hr.
    { pose proof (Zb_range x). pose proof (Zb_range y). split; [apply Z.lxor_nonneg; lia|].
      destruct (Z.eq_dec (Z.lxor (Zb x) (Zb y)) 0) as [->|Hne]; [lia|]. apply (Z.log2_lt_cancel _ 256).
      change (Z.log2 256) with 8. pose proof (Z.log2_lxor (Zb x) (Zb y)) as Hlog.
      pose proof (Z.log2_le_mono (Zb x) 255 ltac:(lia)). pose proof (Z.log2_le_mono (Zb y) 255 ltac:(lia)).
      change (Z.log2 255) with 7 in *. lia. }
    rewrite Z.mod_small by done. by rewrite <- Z.lxor_assoc, Z.lxor_nilpotent, Z.lxor_0_l, bZ_Zb.
  - apply IH. simpl in Hl. lia.
Qed.
Lemma blen_xor a b : blen a = blen b → blen (xor_bytes a b) = blen a.
Proof. unfold blen, xor_bytes. rewrite length_zip_with. lia. Qed.

(** Decryption of a RADIUS key yields the 16 bytes behind its length. *)
Lemma radiuskey_decrypts `{!Digests, !DigestsLaws} salt authenticator secret p1 p2 :
  blen salt = 2 → blen authenticator = 16 → blen p1 = 16 → blen p2 = 16 →
  mschap_radiuskey (radius_encrypt salt authenticator secret p1 p2) authenticator secret = Ok (sub_bytes 1 16 (p1 ++ p2)).
Proof.
  intros Hs Ha H1 H2. unfold radius_encrypt. set (b1 := md5 (secret ++ authenticator ++ salt)).
  assert (blen b1 = 16) as Hb1 by apply md5_length. set (c1 := xor_bytes b1 p1).
  assert (blen c1 = 16) as Hc1 by (unfold c1; rewrite blen_xor; lia).
  set (b2 := md5 (secret ++ c1)). assert (blen b2 = 16) as Hb2 by apply md5_length.
  set (c2 := xor_bytes b2 p2). assert (blen c2 = 16) as Hc2 by (unfold c2; rewrite blen_xor; lia).
  assert (∀ pre x post n, blen pre = n → blen x = 16 ∨ blen x = 2 → rd (pre ++ x ++ post) n (blen x) = Ok x) as Hrd.
  { intros pre x post n <- _. unfold rd. rewrite !blen_app. pose proof (blen_nonneg pre). pose proof (blen_nonneg x).
    pose proof (blen_nonneg post). rewrite !(proj2 (Z.leb_le _ _)) by lia. cbn [andb].
    rewrite sub_bytes_app_r, Z.sub_diag, sub_bytes_app_l, sub_bytes_all by lia. done. }
  pose proof (Hrd [] authenticator [] 0 eq_refl ltac:(lia)) as R1. rewrite app_nil_l, app_nil_r, Ha in R1.
  pose proof (Hrd [] salt (c1 ++ c2) 0 eq_refl ltac:(lia)) as R2. rewrite app_nil_l, Hs in R2.
  pose proof (Hrd salt c1 c2 2 Hs ltac:(lia)) as R3. rewrite Hc1 in R3.
  pose proof (Hrd (salt ++ c1) c2 [] 18 ltac:(rewrite blen_app; lia) ltac:(lia)) as R4.
  rewrite app_nil_r, <- app_assoc, Hc2 in R4.
  unfold mschap_radiuskey, mbind, out_bind. rewrite R1, R2. fold b1. rewrite Hb1, R3. fold b2. rewrite Hb2, R4.
  unfold c1, c2. rewrite !xor_xor by (unfold blen in *; lia). unfold rd. rewrite blen_app, H1, H2. done.
Qed.

(** ** Witness *)

(** Digests that keep the front of what they are given, and exclusive or for
    DES. *)
#[local] Definition front (n : nat) (x : bytes) : bytes := take n (x ++ replicate n x00).
#[local] Instance toy_digests : Digests := {|
  md4 := front 16; md5 := front 16; sha1 := front 20; DES_set_odd_parity k := k;
  DES_ecb_encrypt key clear := front 8 (xor_bytes key clear) |}.
#[local] Instance toy_digests_laws : DigestsLaws.
Proof.
  assert (∀ n x, length (front n x) = n) as Hf.
  { intros n x. unfold front. rewrite length_take, length_app, length_replicate. lia. }
  split; cbn; unfold blen; intros; rewrite ?Hf; try done. by induction key; constructor.
Qed.

