(* ===== verification/Dsa.v ===== *)
(** * Signatures: [dsa_new] to [dsa_verify_final] of [crypto.c]

    The AUTH payload is a MAC or a digital signature; a signature of RFC 7427
    is preceded by the identifier of its algorithm. RSA and ECDSA are OpenSSL's
    and parameters here. The theorems show that what [dsa_sign_final] makes
    [dsa_verify_final] accepts, for each method, that no signature makes the
    verifier read outside of it, and which identifiers are well-formed. *)

From S2P Require Import Prelude Types Ibuf Build Parse Queue Crypto Dh.

Definition IKEV2_AUTH_NONE : Z := 0.
Definition IKEV2_AUTH_RSA_SIG : Z := 1.
Definition IKEV2_AUTH_DSS_SIG : Z := 3.
Definition IKEV2_AUTH_ECDSA_256 : Z := 9.
Definition IKEV2_AUTH_ECDSA_384 : Z := 10.
Definition IKEV2_AUTH_ECDSA_521 : Z := 11.
Definition IKEV2_AUTH_SIG : Z := 14.
Definition IKEV2_AUTH_SIG_ANY : Z := 255.
Definition IKEV2_CERT_RSA_KEY : Z := 11.
Definition IKEV2_CERT_ECDSA : Z := 201.

(** ** OpenSSL *)

(** The digests; [hash_priv h] is the one a PRF was set up with. *)
Inductive evp_md := EVP_sha1 | EVP_sha256 | EVP_sha384 | EVP_sha512 | hash_priv (h : iked_hash).
#[global] Instance evp_md_eq_dec : EqDecision evp_md.
Proof. assert (EqDecision iked_hash) by solve_decision. solve_decision. Defined.

Definition EVP_PKEY_RSA : Z := 6.
Definition EVP_PKEY_EC : Z := 408.

(** Keys and what is done with them. [EVP_PKEY_id] is the base type of a key
    ([EVP_PKEY_type], [EVP_PKEY_base_id]), [d2i_X509] stands for the public key of
    the certificate. A signature depends on the random numbers of the time;
    [EVP_DigestSign] and [EVP_DigestVerify] are the whole of initialisation,
    update and final call. The flag is PSS padding. *)
Class Pkeys := {
  pkey : Type;
  EVP_PKEY_id : pkey → Z;
  EVP_PKEY_bits : pkey → Z;
  EVP_PKEY_size : pkey → Z;
  d2i_X509 : bytes → option pkey;
  d2i_RSAPrivateKey : bytes → option pkey;
  d2i_RSAPublicKey : bytes → option pkey;
  d2i_ECPrivateKey : bytes → option pkey;
  d2i_EC_PUBKEY : bytes → option pkey;
  EVP_DigestInit : option evp_md → pkey → bool;
  EVP_PKEY_CTX_set_pss : pkey → bool;
  EVP_DigestSign : pkey → option evp_md → bool → bytes → bytes → option bytes;
  EVP_DigestVerify : pkey → option evp_md → bool → bytes → bytes → bool;
  d2i_ECDSA_SIG : bytes → option (Z * Z);
  i2d_ECDSA_SIG : Z * Z → option bytes;
  key_pair : pkey → pkey → Prop }.

(** A key pair signs and verifies; an ECDSA signature is the DER encoding of
    two numbers of the size of the curve. *)
Class PkeysLaws `{!Pkeys} : Prop := {
  pair_id sk pk : key_pair sk pk → EVP_PKEY_id pk = EVP_PKEY_id sk;
  pair_init sk pk md : key_pair sk pk → EVP_DigestInit md sk = true → EVP_DigestInit md pk = true;
  pair_verify sk pk md pss msg rnd sig : key_pair sk pk → EVP_DigestSign sk md pss msg rnd = Some sig →
    EVP_DigestVerify pk md pss msg sig = true;
  pkey_size k : 0 ≤ EVP_PKEY_size k;
  pkey_bits k : 0 ≤ EVP_PKEY_bits k;
  pss_padding k : EVP_PKEY_id k = EVP_PKEY_RSA → EVP_PKEY_CTX_set_pss k = true;
  sign_size k md pss msg rnd sig : EVP_DigestSign k md pss msg rnd = Some sig → blen sig ≤ EVP_PKEY_size k;
  sign_ecdsa k md msg rnd sig : EVP_PKEY_id k = EVP_PKEY_EC → EVP_DigestSign k md false msg rnd = Some sig →
    ∃ r s, d2i_ECDSA_SIG sig = Some (r, s) ∧ i2d_ECDSA_SIG (r, s) = Some sig ∧
      0 ≤ r < 2 ^ EVP_PKEY_bits k ∧ 0 ≤ s < 2 ^ EVP_PKEY_bits k }.

(** What [EVP_MD_size] is documented to return. *)
Definition EVP_MD_size (md : evp_md) : Z :=
  match md with
  | EVP_sha1 => SHA_DIGEST_LENGTH
  | EVP_sha256 => SHA256_DIGEST_LENGTH
  | EVP_sha384 => SHA384_DIGEST_LENGTH
  | EVP_sha512 => SHA512_DIGEST_LENGTH
  | hash_priv h => hash_length_f h
  end.

(** ** Algorithm identifiers *)

Definition oid (l : list Z) : bytes := map bZ l.

(** RFC 7427, A.1 RSA and A.3 ECDSA *)
Definition sha256WithRSA : bytes := oid
  [0x30; 0x0d; 0x06; 0x09; 0x2a; 0x86; 0x48; 0x86;
   0xf7; 0x0d; 0x01; 0x01; 0x0b; 0x05; 0x00].
Definition sha384WithRSA : bytes := oid
  [0x30; 0x0d; 0x06; 0x09; 0x2a; 0x86; 0x48; 0x86;
   0xf7; 0x0d; 0x01; 0x01; 0x0c; 0x05; 0x00].
Definition sha512WithRSA : bytes := oid
  [0x30; 0x0d; 0x06; 0x09; 0x2a; 0x86; 0x48; 0x86;
   0xf7; 0x0d; 0x01; 0x01; 0x0d; 0x05; 0x00].
Definition ecdsa_sha256 : bytes := oid
  [0x30; 0x0a; 0x06; 0x08; 0x2a; 0x86; 0x48; 0xce;
   0x3d; 0x04; 0x03; 0x02].
Definition ecdsa_sha384 : bytes := oid
  [0x30; 0x0a; 0x06; 0x08; 0x2a; 0x86; 0x48; 0xce;
   0x3d; 0x04; 0x03; 0x03].
Definition ecdsa_sha512 : bytes := oid
  [0x30; 0x0a; 0x06; 0x08; 0x2a; 0x86; 0x48; 0xce;
   0x3d; 0x04; 0x03; 0x04].

(** RFC 7427, A.4.3 RSASSA-PSS with SHA-256 *)
Definition rsapss_sha256 : bytes := oid
  [0x30; 0x46; 0x06; 0x09; 0x2a; 0x86; 0x48; 0x86;
   0xf7; 0x0d; 0x01; 0x01; 0x0a; 0x30; 0x39; 0xa0;
   0x0f; 0x30; 0x0d; 0x06; 0x09; 0x60; 0x86; 0x48;
   0x01; 0x65; 0x03; 0x04; 0x02; 0x01; 0x05; 0x00;
   0xa1; 0x1c; 0x30; 0x1a; 0x06; 0x09; 0x2a; 0x86;
   0x48; 0x86; 0xf7; 0x0d; 0x01; 0x01; 0x08; 0x30;
   0x0d; 0x06; 0x09; 0x60; 0x86; 0x48; 0x01; 0x65;
   0x03; 0x04; 0x02; 0x01; 0x05; 0x00; 0xa2; 0x03;
   0x02; 0x01; 0x20; 0xa3; 0x03; 0x02; 0x01; 0x01].
(** RSASSA-PSS SHA-384 *)
Definition rsapss_sha384 : bytes := oid
  [0x30; 0x46; 0x06; 0x09; 0x2a; 0x86; 0x48; 0x86;
   0xf7; 0x0d; 0x01; 0x01; 0x0a; 0x30; 0x34; 0xa0;
   0x0f; 0x30; 0x0d; 0x06; 0x09; 0x60; 0x86; 0x48;
   0x01; 0x65; 0x03; 0x04; 0x02; 0x02; 0x05; 0x00;
   0xa1; 0x1c; 0x30; 0x1a; 0x06; 0x09; 0x2a; 0x86;
   0x48; 0x86; 0xf7; 0x0d; 0x01; 0x01; 0x08; 0x30;
   0x0d; 0x06; 0x09; 0x60; 0x86; 0x48; 0x01; 0x65;
   0x03; 0x04; 0x02; 0x02; 0x05; 0x00; 0xa2; 0x03;
   0x02; 0x01; 0x30; 0xa3; 0x03; 0x02; 0x01; 0x01].
(** RSASSA-PSS SHA-512 *)
Definition rsapss_sha512 : bytes := oid
  [0x30; 0x46; 0x06; 0x09; 0x2a; 0x86; 0x48; 0x86;
   0xf7; 0x0d; 0x01; 0x01; 0x0a; 0x30; 0x34; 0xa0;
   0x0f; 0x30; 0x0d; 0x06; 0x09; 0x60; 0x86; 0x48;
   0x01; 0x65; 0x03; 0x04; 0x02; 0x03; 0x05; 0x00;
   0xa1; 0x1c; 0x30; 0x1a; 0x06; 0x09; 0x2a; 0x86;
   0x48; 0x86; 0xf7; 0x0d; 0x01; 0x01; 0x08; 0x30;
   0x0d; 0x06; 0x09; 0x60; 0x86; 0x48; 0x01; 0x65;
   0x03; 0x04; 0x02; 0x03; 0x05; 0x00; 0xa2; 0x03;
   0x02; 0x01; 0x40; 0xa3; 0x03; 0x02; 0x01; 0x01].
(** RSASSA-PSS SHA-256, no trailer *)
Definition rsapss_sha256nt : bytes := oid
  [0x30; 0x41; 0x06; 0x09; 0x2a; 0x86; 0x48; 0x86;
   0xf7; 0x0d; 0x01; 0x01; 0x0a; 0x30; 0x34; 0xa0;
   0x0f; 0x30; 0x0d; 0x06; 0x09; 0x60; 0x86; 0x48;
   0x01; 0x65; 0x03; 0x04; 0x02; 0x01; 0x05; 0x00;
   0xa1; 0x1c; 0x30; 0x1a; 0x06; 0x09; 0x2a; 0x86;
   0x48; 0x86; 0xf7; 0x0d; 0x01; 0x01; 0x08; 0x30;
   0x0d; 0x06; 0x09; 0x60; 0x86; 0x48; 0x01; 0x65;
   0x03; 0x04; 0x02; 0x01; 0x05; 0x00; 0xa2; 0x03;
   0x02; 0x01; 0x20].
(** RSASSA-PSS SHA-384, no trailer *)
Definition rsapss_sha384nt : bytes := oid
  [0x30; 0x41; 0x06; 0x09; 0x2a; 0x86; 0x48; 0x86;
   0xf7; 0x0d; 0x01; 0x01; 0x0a; 0x30; 0x34; 0xa0;
   0x0f; 0x30; 0x0d; 0x06; 0x09; 0x60; 0x86; 0x48;
   0x01; 0x65; 0x03; 0x04; 0x02; 0x02; 0x05; 0x00;
   0xa1; 0x1c; 0x30; 0x1a; 0x06; 0x09; 0x2a; 0x86;
   0x48; 0x86; 0xf7; 0x0d; 0x01; 0x01; 0x08; 0x30;
   0x0d; 0x06; 0x09; 0x60; 0x86; 0x48; 0x01; 0x65;
   0x03; 0x04; 0x02; 0x02; 0x05; 0x00; 0xa2; 0x03;
   0x02; 0x01; 0x30].
(** RSASSA-PSS SHA-512, no trailer *)
Definition rsapss_sha512nt : bytes := oid
  [0x30; 0x41; 0x06; 0x09; 0x2a; 0x86; 0x48; 0x86;
   0xf7; 0x0d; 0x01; 0x01; 0x0a; 0x30; 0x34; 0xa0;
   0x0f; 0x30; 0x0d; 0x06; 0x09; 0x60; 0x86; 0x48;
   0x01; 0x65; 0x03; 0x04; 0x02; 0x03; 0x05; 0x00;
   0xa1; 0x1c; 0x30; 0x1a; 0x06; 0x09; 0x2a; 0x86;
   0x48; 0x86; 0xf7; 0x0d; 0x01; 0x01; 0x08; 0x30;
   0x0d; 0x06; 0x09; 0x60; 0x86; 0x48; 0x01; 0x65;
   0x03; 0x04; 0x02; 0x03; 0x05; 0x00; 0xa2; 0x03;
   0x02; 0x01; 0x40].

Definition FLAG_RSA_PSS : Z := 1.
Definition force_rsa_pss : Z := 0.

Record scheme := mk_scheme { sc_keytype : Z; sc_md : evp_md; sc_oid : bytes; sc_flags : Z }.
Definition sc_len (sc : scheme) : Z := blen (sc_oid sc).

Definition schemes : list scheme := [
  mk_scheme EVP_PKEY_RSA EVP_sha256 sha256WithRSA 0;
  mk_scheme EVP_PKEY_RSA EVP_sha384 sha384WithRSA 0;
  mk_scheme EVP_PKEY_RSA EVP_sha512 sha512WithRSA 0;
  mk_scheme EVP_PKEY_EC EVP_sha256 ecdsa_sha256 0;
  mk_scheme EVP_PKEY_EC EVP_sha384 ecdsa_sha384 0;
  mk_scheme EVP_PKEY_EC EVP_sha512 ecdsa_sha512 0;
  mk_scheme EVP_PKEY_RSA EVP_sha256 rsapss_sha256 FLAG_RSA_PSS;
  mk_scheme EVP_PKEY_RSA EVP_sha384 rsapss_sha384 FLAG_RSA_PSS;
  mk_scheme EVP_PKEY_RSA EVP_sha512 rsapss_sha512 FLAG_RSA_PSS;
  mk_scheme EVP_PKEY_RSA EVP_sha256 rsapss_sha256nt FLAG_RSA_PSS;
  mk_scheme EVP_PKEY_RSA EVP_sha384 rsapss_sha384nt FLAG_RSA_PSS;
  mk_scheme EVP_PKEY_RSA EVP_sha512 rsapss_sha512nt FLAG_RSA_PSS].

Section dsa.
Context `{!External, !Pkeys}.

(** What was fed to a context since it was initialised. *)
Inductive evp_ctx :=
  | HmacCtx (h : iked_hash) (key data : bytes)
  | DigestCtx (key : pkey) (md : option evp_md) (pss : bool) (data : bytes).

Record iked_dsa := mk_dsa {
  dsa_method : Z;
  dsa_priv : option evp_md;
  dsa_hmac : bool;
  dsa_sign : bool;
  dsa_keydata : option bytes;
  dsa_key : option pkey;
  dsa_flags : Z;
  dsa_ctx : option evp_ctx }.
Definition eta_dsa (r : iked_dsa) : iked_dsa :=
  mk_dsa (dsa_method r) (dsa_priv r) (dsa_hmac r) (dsa_sign r) (dsa_keydata r) (dsa_key r) (dsa_flags r) (dsa_ctx r).
Definition set_dsa_priv (v : option evp_md) (r : iked_dsa) : iked_dsa := ltac:(upd eta_dsa dsa_priv r v).
Definition set_dsa_keydata (v : option bytes) (r : iked_dsa) : iked_dsa := ltac:(upd eta_dsa dsa_keydata r v).
Definition set_dsa_key (v : option pkey) (r : iked_dsa) : iked_dsa := ltac:(upd eta_dsa dsa_key r v).
Definition set_dsa_flags (v : Z) (r : iked_dsa) : iked_dsa := ltac:(upd eta_dsa dsa_flags r v).
Definition set_dsa_ctx (v : option evp_ctx) (r : iked_dsa) : iked_dsa := ltac:(upd eta_dsa dsa_ctx r v).

(** ** Setting up *)

(** [dsa_priv] and [dsa_hmac] of a method. *)
Definition dsa_digest (id : Z) (prf : option iked_hash) (sign : bool) : out (option evp_md * bool) :=
  if id =? IKEV2_AUTH_SIG then Ok (if sign then Some EVP_sha256 else None, false)
  else if id =? IKEV2_AUTH_RSA_SIG then Ok (Some EVP_sha1, false)
  else if id =? IKEV2_AUTH_SHARED_KEY_MIC then
    match prf with
    | None => Fault Ffatal
    | Some h => if hash_isaead h then Fault Ffatal else Ok (Some (hash_priv h), true)
    end
  else if id =? IKEV2_AUTH_DSS_SIG then Ok (Some EVP_sha1, false)
  else if id =? IKEV2_AUTH_ECDSA_256 then Ok (Some EVP_sha256, false)
  else if id =? IKEV2_AUTH_ECDSA_384 then Ok (Some EVP_sha384, false)
  else if id =? IKEV2_AUTH_ECDSA_521 then Ok (Some EVP_sha512, false)
  else Ok (None, false).

Definition dsa_new (id : Z) (prf : option iked_hash) (sign : bool) : N (option iked_dsa) :=
  d ← lift (dsa_digest id prf sign);
  a ← n_alloc;
  if negb a then mret None
  else
    ctx ← n_alloc;
    if negb (ctx : bool) then mret None
    else mret (Some (mk_dsa id d.1 d.2 sign None None 0 None)).

Definition dsa_sign_new (id : Z) (prf : option iked_hash) : N (option iked_dsa) := dsa_new id prf true.
Definition dsa_verify_new (id : Z) (prf : option iked_hash) : N (option iked_dsa) := dsa_new id prf false.

(** The key in the format of [type]; [None] is an error. The inner option is
    the key, which a MAC does not have. *)
Definition parse_key (dsa : iked_dsa) (key : bytes) (type : Z) : N (option (option pkey)) :=
  if type =? IKEV2_CERT_X509_CERT then mret (Some <$> d2i_X509 key)
  else if (type =? IKEV2_CERT_RSA_KEY) || (type =? IKEV2_CERT_ECDSA) then
    match (if type =? IKEV2_CERT_RSA_KEY
           then (if dsa_sign dsa then d2i_RSAPrivateKey key else d2i_RSAPublicKey key)
           else (if dsa_sign dsa then d2i_ECPrivateKey key else d2i_EC_PUBKEY key)) with
    | None => mret None
    | Some k => a ← n_alloc; mret (if (a : bool) then Some (Some k) else None)
    end
  else mret (if dsa_hmac dsa then Some None else None).

(** The data of the key, [None] on failure, and the context. *)
Definition dsa_setkey (dsa : iked_dsa) (key : bytes) (type : Z) : N (option bytes * iked_dsa) :=
  o ← n_new (Some key) (blen key);
  match o with
  | None => mret (None, set_dsa_keydata None dsa)
  | Some _ =>
      bio ← n_alloc;
      if negb bio then mret (None, set_dsa_keydata None dsa)
      else
        k ← parse_key dsa key type;
        match k with
        | None => mret (None, set_dsa_keydata None dsa)
        | Some k =>
            let dsa := set_dsa_keydata (Some key) dsa in
            let dsa := match k with Some _ => set_dsa_key k dsa | None => dsa end in
            mret (Some key, dsa)
        end
  end.

(** The first scheme with the key type and identifier of the signature. *)
Definition scheme_of (keytype oidlen : Z) (sig : bytes) (sc : scheme) : bool :=
  (keytype =? sc_keytype sc) && (oidlen =? sc_len sc) &&
  bool_decide (sub_bytes 1 (sc_len sc) sig = sc_oid sc).

(** Each return value comes with the context. *)
Definition _dsa_verify_init (dsa : iked_dsa) (sig : option bytes) : out (Z * iked_dsa) :=
  match dsa_priv dsa with
  | Some _ => Ok (0, dsa)
  | None =>
      if negb (dsa_method dsa =? IKEV2_AUTH_SIG) then Ok (-1, dsa)
      else match dsa_key dsa, sig with
      | Some key, Some sig =>
          let keytype := EVP_PKEY_id key in
          if blen sig <? 1 then Ok (-1, dsa)
          else
            b ← rd sig 0 1;
            let oidlen := fld8 b 0 in
            if blen sig <? oidlen + 1 then Ok (-1, dsa)
            else match List.find (scheme_of keytype oidlen sig) schemes with
            | Some sc => Ok (0, set_dsa_flags (sc_flags sc) (set_dsa_priv (Some (sc_md sc)) dsa))
            | None => Ok (-1, dsa)
            end
      | _, _ => Ok (-1, dsa)
      end
  end.

(** The scheme a signature of RFC 7427 is announced with. *)
Definition dsa_scheme (dsa : iked_dsa) (key : pkey) : option scheme :=
  List.find (λ sc, (EVP_PKEY_id key =? sc_keytype sc) && (dsa_flags dsa =? sc_flags sc) &&
                  bool_decide (dsa_priv dsa = Some (sc_md sc))) schemes.

(** The offset behind the identifier and the buffer, [None] for -1; there may
    be no buffer. *)
Definition _dsa_sign_encode (dsa : iked_dsa) (ptr : option bytes) : out (option (Z * option bytes)) :=
  if negb (dsa_method dsa =? IKEV2_AUTH_SIG) then Ok (Some (0, ptr))
  else match dsa_key dsa with
  | None => Ok None
  | Some key =>
      match dsa_scheme dsa key with
      | None => Ok None
      | Some sc =>
          let need := 1 + sc_len sc in
          match ptr with
          | None => Ok (Some (need, None))
          | Some buf =>
              if blen buf <? need then Ok None
              else
                buf ← store (Some buf) 0 [bZ (sc_len sc)];
                buf ← store buf 1 (sc_oid sc);
                Ok (Some (need, buf))
          end
      end
  end.

Definition dsa_init (dsa : iked_dsa) (buf : option bytes) : out (Z * iked_dsa) :=
  if dsa_hmac dsa then
    match dsa_keydata dsa, dsa_priv dsa with
    | Some key, Some (hash_priv h) => Ok (0, set_dsa_ctx (Some (HmacCtx h key [])) dsa)
    | _, _ => Fault Fnull
    end
  else
    v ← (if dsa_sign dsa then
           match dsa_key dsa with
           | None => Fault Fnull
           | Some key =>
               Ok (0, if negb (force_rsa_pss =? 0) && (EVP_PKEY_id key =? EVP_PKEY_RSA)
                      then set_dsa_flags FLAG_RSA_PSS dsa else dsa)
           end
         else _dsa_verify_init dsa buf);
    let dsa := v.2 in
    if negb (v.1 =? 0) then Ok v
    else match dsa_key dsa with
    | None => Fault Fnull
    | Some key =>
        let ret := EVP_DigestInit (dsa_priv dsa) key in
        let pss := dsa_flags dsa =? FLAG_RSA_PSS in
        let dsa := set_dsa_ctx (Some (DigestCtx key (dsa_priv dsa) pss [])) dsa in
        if ret && pss && negb (EVP_PKEY_CTX_set_pss key) then Ok (-1, dsa)
        else
          e ← _dsa_sign_encode dsa None;
          Ok (match e with None => -1 | Some _ => if ret then 0 else -1 end, dsa)
    end.

Definition dsa_update (dsa : iked_dsa) (buf : bytes) : Z * iked_dsa :=
  match dsa_ctx dsa with
  | Some (HmacCtx h key data) => (0, set_dsa_ctx (Some (HmacCtx h key (data ++ buf))) dsa)
  | Some (DigestCtx key md pss data) => (0, set_dsa_ctx (Some (DigestCtx key md pss (data ++ buf))) dsa)
  | None => (-1, dsa)
  end.

(** ** Signing *)

Definition dsa_prefix (dsa : iked_dsa) : out Z :=
  e ← _dsa_sign_encode dsa None;
  match e with None => Fault Ffatal | Some (off, _) => Ok off end.

Definition is_ecdsa (method : Z) : bool :=
  (method =? IKEV2_AUTH_ECDSA_256) || (method =? IKEV2_AUTH_ECDSA_384) || (method =? IKEV2_AUTH_ECDSA_521).

Definition dsa_length (dsa : iked_dsa) : out Z :=
  if dsa_hmac dsa then
    match dsa_priv dsa with Some md => Ok (EVP_MD_size md) | None => Fault Fnull end
  else match dsa_key dsa with
  | None => Fault Fnull
  | Some key =>
      if is_ecdsa (dsa_method dsa) then Ok (2 * ((EVP_PKEY_bits key + 7) / 8))
      else off ← dsa_prefix dsa; Ok (off + EVP_PKEY_size key)
  end.

(** What a context of signing makes with the random numbers [rnd]. *)
Definition EVP_DigestSignFinal (dsa : iked_dsa) (rnd : bytes) : option bytes :=
  match dsa_ctx dsa with Some (DigestCtx key md pss data) => EVP_DigestSign key md pss data rnd | _ => None end.

(** r and s, padded to half the buffer each; [None] for -1. *)
Definition _dsa_sign_ecdsa (dsa : iked_dsa) (ptr : bytes) : N (option bytes) :=
  if negb (blen ptr mod 2 =? 0) then mret None
  else
    let bnlen := blen ptr / 2 in
    a ← n_alloc;
    if negb a then mret None
    else
      rnd ← gets nd_rand;
      match EVP_DigestSignFinal dsa rnd with
      | None => mret None
      | Some tmp =>
          match d2i_ECDSA_SIG tmp with
          | None => mret None
          | Some (r, s) =>
              if (bnlen <? BN_num_bytes r) || (bnlen <? BN_num_bytes s) then mret None
              else
                let off := bnlen - BN_num_bytes r in
                p ← lift (store (Some (zeros (blen ptr))) off (BN_bn2bin r));
                let off := 2 * bnlen - BN_num_bytes s in
                lift (store p off (BN_bn2bin s))
          end
      end.

(** The length of the signature, -1 on failure, and the buffer. *)
Definition dsa_sign_final (dsa : iked_dsa) (buf : bytes) : N (Z * bytes) :=
  need ← lift (dsa_length dsa);
  if blen buf <? need then mret (-1, buf)
  else if dsa_hmac dsa then
    match dsa_ctx dsa with
    | Some (HmacCtx h key data) =>
        let mac := ext_mac h key data in
        o ← lift (store (Some buf) 0 mac);
        if 2 ^ 31 - 1 <? blen mac then mret (-1, buf) else mret (blen mac, default buf o)
    | _ => mret (-1, buf)
    end
  else if is_ecdsa (dsa_method dsa) then
    o ← _dsa_sign_ecdsa dsa buf;
    mret (match o with None => (-1, buf) | Some buf' => (blen buf, buf') end)
  else
    e ← lift (_dsa_sign_encode dsa (Some buf));
    match e with
    | Some (off, Some buf) =>
        if blen buf <? off then mret (-1, buf)
        else
          rnd ← gets nd_rand;
          match EVP_DigestSignFinal dsa rnd with
          | None => mret (-1, buf)
          | Some sig => o ← lift (store (Some buf) off sig); mret (blen sig + off, default buf o)
          end
    | _ => mret (-1, buf)
    end.

(** ** Verifying *)

(** The signature as OpenSSL expects it; [None] for -1. *)
Definition _dsa_verify_prepare (dsa : iked_dsa) (sig : bytes) : N (option bytes) :=
  if dsa_method dsa =? IKEV2_AUTH_SIG then
    b ← lift (rd sig 0 1);
    let off := fld8 b 0 + 1 in
    s ← lift (rd sig off (blen sig - off)%sz);
    mret (Some s)
  else if is_ecdsa (dsa_method dsa) then
    if (blen sig <? 64) || (132 <? blen sig) || negb (blen sig mod 2 =? 0) then mret None
    else
      let bnlen := blen sig / 2 in
      obj ← n_alloc;
      if negb obj then mret None
      else
        br ← lift (rd sig 0 bnlen);
        r ← n_alloc;
        if negb (r : bool) then mret None
        else
          bs ← lift (rd sig bnlen bnlen);
          s ← n_alloc;
          if negb (s : bool) then mret None
          else mret (i2d_ECDSA_SIG (be_decode 0 br, be_decode 0 bs))
  else mret (Some sig).

Definition dsa_verify_final (dsa : iked_dsa) (buf : bytes) : N Z :=
  if dsa_hmac dsa then
    match dsa_ctx dsa with
    | Some (HmacCtx h key data) =>
        mret (if bool_decide (buf = ext_mac h key data) then 0 else -1)
    | _ => mret (-1)
    end
  else
    o ← _dsa_verify_prepare dsa buf;
    match o with
    | None => mret (-1)
    | Some sig =>
        match dsa_ctx dsa with
        | Some (DigestCtx key md pss data) => mret (if EVP_DigestVerify key md pss data sig then 0 else -1)
        | _ => mret (-1)
        end
    end.
End dsa.

(** ** Identifiers *)

Lemma find_ext {A} (f g : A → bool) l : (∀ x, f x = g x) → List.find f l = List.find g l.
Proof. intros H. induction l as [|x l IH]; [done|]. simpl. by rewrite H, IH. Qed.

(** A signature that begins with the identifier of a scheme selects it. *)
Lemma scheme_selected sc rest :
  sc ∈ schemes →
  List.find (scheme_of (sc_keytype sc) (sc_len sc) ([bZ (sc_len sc)] ++ sc_oid sc ++ rest)) schemes = Some sc.
Proof.
  intros Hsc. assert (∀ sc', scheme_of (sc_keytype sc) (sc_len sc) ([bZ (sc_len sc)] ++ sc_oid sc ++ rest) sc' =
    (sc_keytype sc =? sc_keytype sc') && bool_decide (sc_oid sc = sc_oid sc')) as Hs.
  { intros sc'. unfold scheme_of. destruct (sc_keytype sc =? sc_keytype sc'); [|done]. cbn [andb].
    destruct (Z.eqb_spec (sc_len sc) (sc_len sc')) as [El|El].
    - rewrite <- El. rewrite (sub_bytes_app_r _ _ [_]) by done. change (1 - blen [bZ (sc_len sc)]) with 0.
      pose proof (blen_nonneg (sc_oid sc)). unfold sc_len. rewrite sub_bytes_app_l, sub_bytes_all by lia. done.
    - symmetry. apply bool_decide_eq_false. intros E. apply El. unfold sc_len. by rewrite E. }
  rewrite (find_ext _ _ _ Hs).
  clear Hs rest. revert sc Hsc. apply Forall_forall. repeat constructor.
Qed.

Lemma scheme_len sc : sc ∈ schemes → 0 < sc_len sc < 255.
Proof. revert sc. apply Forall_forall. repeat constructor; vm_compute; done. Qed.

(** ** Memory *)

Lemma store_mid a b c data :
  blen b = blen data → store (Some (a ++ b ++ c)) (blen a) data = Ok (Some (a ++ data ++ c)).
Proof.
  intros Hb. pose proof (blen_nonneg a). pose proof (blen_nonneg c). unfold store. rewrite !blen_app.
  rewrite (proj2 (Z.leb_le _ _)), (proj2 (Z.leb_le _ _)) by lia. cbn [andb]. unfold blen in *. rewrite Nat2Z.id.
  rewrite take_app_length, drop_app_ge by lia. replace (length a + length data - length a)%nat with (length b) by lia.
  by rewrite drop_app_length.
Qed.
Lemma zeros_plus a b : 0 ≤ a → 0 ≤ b → zeros (a + b) = zeros a ++ zeros b.
Proof. intros. unfold zeros. rewrite Z2Nat.inj_add by lia. apply replicate_add. Qed.

(** Two numbers, padded to [n] bytes each. *)
Lemma store_numbers n r s :
  0 ≤ n → 0 ≤ r < 256 ^ n → 0 ≤ s < 256 ^ n → ∃ p,
    store (Some (zeros (2 * n))) (n - BN_num_bytes r) (BN_bn2bin r) = Ok p ∧
    store p (2 * n - BN_num_bytes s) (BN_bn2bin s) = Ok (Some (be_encode (Z.to_nat n) r ++ be_encode (Z.to_nat n) s)).
Proof.
  intros Hn Hr Hs. destruct (bn2bin_pad r n Hn Hr) as (-> & Lr & Br). destruct (bn2bin_pad s n Hn Hs) as (-> & Ls & Bs).
  set (nr := BN_num_bytes r) in *. set (ns := BN_num_bytes s) in *.
  exists (Some ((zeros (n - nr) ++ BN_bn2bin r) ++ zeros (n - ns) ++ zeros ns ++ [])). split.
  - replace (2 * n) with ((n - nr) + (nr + ((n - ns) + ns))) by lia. rewrite !zeros_plus by lia.
    rewrite <- (blen_zeros (n - nr)) at 2 by lia. rewrite store_mid by (rewrite blen_zeros; lia).
    rewrite app_nil_r, <- app_assoc. done.
  - rewrite app_assoc. replace (2 * n - ns) with (blen ((zeros (n - nr) ++ BN_bn2bin r) ++ zeros (n - ns)))
      by (rewrite !blen_app, !blen_zeros by lia; lia).
    rewrite store_mid by (rewrite blen_zeros; lia). by rewrite app_nil_r, <- !app_assoc.
Qed.

(** ** The allocator *)

(** Only the allocator's answers were used, and none of them made up. *)
Definition spent (s s' : node) : Prop := ∃ l, s' = set_nd_alloc l s ∧ (nd_alloc s = [] → l = []).

Lemma spent_refl s : spent s s.
Proof. exists (nd_alloc s). by rewrite set_nd_alloc_id. Qed.
Lemma spent_trans s1 s2 s3 : spent s1 s2 → spent s2 s3 → spent s1 s3.
Proof. intros (l & -> & H1) (l' & -> & H2). exists l'. split; [done|]. intros H. by apply H2, H1. Qed.
Lemma spent_plenty s s' : spent s s' → nd_alloc s = [] → nd_alloc s' = [].
Proof. intros (l & -> & H) E. by apply H. Qed.
#[global] Hint Resolve spent_refl spent_trans spent_plenty : core.

Lemma n_alloc_wp F (Q : bool → node → Prop) s :
  (∀ a s', spent s s' → (nd_alloc s = [] → a = true) → Q a s') → wp F n_alloc Q s.
Proof.
  intros HQ. destruct (n_alloc_run s) as (a & l & E & H). unfold wp. rewrite E. apply HQ; [|by intros []%H].
  exists l. split; [done|]. by intros []%H.
Qed.

Lemma n_new_wp F c (Q : option ibuf → node → Prop) s :
  (∀ o s', spent s s' → (nd_alloc s = [] → blen c ≤ IKED_MSGBUF_MAX → is_Some o) → Q o s') →
  wp F (n_new (Some c) (blen c)) Q s.
Proof.
  intros HQ. destruct (Z.le_gt_cases (blen c) IKED_MSGBUF_MAX) as [Hc|Hc].
  - destruct (n_new_run c s Hc) as (o & l & E & _ & H). unfold wp. rewrite E. apply HQ; [|by intros []%H].
    exists l. split; [done|]. by intros []%H.
  - unfold n_new. apply wp_bind, n_alloc_wp. intros a s' Hs _. apply wp_lift. unfold ibuf_new, ibuf_dynamic.
    rewrite (proj2 (Z.ltb_lt _ _)) by lia. rewrite orb_true_r. destruct a; simpl; apply HQ; auto; lia.
Qed.

Section specs.
Context `{EX : External, EL : !ExternalLaws, PK : Pkeys, PL : !PkeysLaws}.

(** ** Contexts *)

Lemma dsa_new_spec F method prf sign md hmac s :
  dsa_digest method prf sign = Ok (md, hmac) →
  wp F (dsa_new method prf sign) (λ o s', spent s s' ∧ (nd_alloc s = [] → is_Some o) ∧
    ∀ dsa, o = Some dsa → dsa = mk_dsa method md hmac sign None None 0 None) s.
Proof.
  intros E. unfold dsa_new. apply wp_bind, wp_lift. rewrite E. apply wp_bind, n_alloc_wp. intros a s1 H1 Ha.
  destruct a; [|apply wp_ret; split_and!; [done|by intros ?%Ha|done]].
  apply wp_bind, n_alloc_wp. intros a s2 H2 Hb. destruct a; apply wp_ret.
  - split_and!; [by eauto|done|]. by intros ? [= <-].
  - split_and!; [by eauto| |done]. intros Hs. by specialize (Hb (spent_plenty _ _ H1 Hs)).
Qed.

(** The key that data of some type is. *)
Definition key_of (sign : bool) (type : Z) (key : bytes) : option pkey :=
  if type =? IKEV2_CERT_X509_CERT then d2i_X509 key
  else if type =? IKEV2_CERT_RSA_KEY then (if sign then d2i_RSAPrivateKey key else d2i_RSAPublicKey key)
  else if type =? IKEV2_CERT_ECDSA then (if sign then d2i_ECPrivateKey key else d2i_EC_PUBKEY key)
  else None.

(** A context with its key. *)
Definition keyed (method : Z) (md : option evp_md) (hmac sign : bool) (key : bytes) (k : option pkey) : iked_dsa :=
  mk_dsa method md hmac sign (Some key) k 0 None.

Lemma dsa_setkey_spec F method md hmac sign key type s :
  wp F (dsa_setkey (mk_dsa method md hmac sign None None 0 None) key type) (λ r s', spent s s' ∧
    (is_Some r.1 → r.2 = keyed method md hmac sign key (key_of sign type key) ∧
                   (hmac = false → is_Some (key_of sign type key))) ∧
    (nd_alloc s = [] → blen key ≤ IKED_MSGBUF_MAX →
      (if hmac then type = 0 else is_Some (key_of sign type key)) → is_Some r.1)) s.
Proof.
  unfold dsa_setkey. apply wp_bind, n_new_wp. intros o s1 H1 Ho. destruct o as [b|].
  2:{ apply wp_ret. split_and!; [done|by intros []|]. intros Hs Hl _. by destruct (Ho Hs Hl). }
  apply wp_bind, n_alloc_wp. intros bio s2 H2 Hbio. destruct bio.
  2:{ apply wp_ret. split_and!; [by eauto|by intros []|]. intros Hs. by specialize (Hbio (spent_plenty _ _ H1 Hs)). }
  cbn [negb]. unfold parse_key, key_of. cbn [dsa_sign dsa_hmac].
  destruct (Z.eqb_spec type IKEV2_CERT_X509_CERT) as [->|H4].
  { apply wp_bind, wp_ret. destruct (d2i_X509 key) as [k|]; simpl; apply wp_ret; split_and!;
      [by eauto|intros _; split; by eauto|done|by eauto|by intros []|destruct hmac; [done|by intros ?? []]]. }
  destruct (Z.eqb_spec type IKEV2_CERT_RSA_KEY) as [->|Hr]; [|destruct (Z.eqb_spec type IKEV2_CERT_ECDSA) as [->|He]];
    cbn [orb].
  1,2: match goal with |- context [match ?x with Some _ => _ | None => _ end] => destruct x as [k|] end;
    [apply wp_bind, wp_bind, n_alloc_wp; intros a s3 H3 Ha; destruct a; apply wp_ret, wp_ret; split_and!;
       [by eauto|intros _; split; by eauto|by eauto|by eauto|by intros []|];
       intros Hs; by specialize (Ha (spent_plenty _ _ (spent_trans _ _ _ H1 H2) Hs))
    |apply wp_bind, wp_ret, wp_ret; split_and!; [by eauto|by intros []|destruct hmac; [done|by intros ?? []]]].
  apply wp_bind, wp_ret. destruct hmac; apply wp_ret; split_and!; try by eauto.
  by intros [].
Qed.

(** ** What is a signature *)

(** [raw] is what OpenSSL gets to see of [sig]. *)
Definition encodes (method : Z) (pk : pkey) (md : evp_md) (pss : bool) (sig raw : bytes) : Prop :=
  if method =? IKEV2_AUTH_SIG then
    ∃ sc, sc ∈ schemes ∧ sc_keytype sc = EVP_PKEY_id pk ∧ md = sc_md sc ∧ pss = (sc_flags sc =? FLAG_RSA_PSS) ∧
      sig = [bZ (sc_len sc)] ++ sc_oid sc ++ raw
  else
    dsa_digest method None false = Ok (Some md, false) ∧ pss = false ∧
    if is_ecdsa method then
      64 ≤ blen sig ≤ 132 ∧ blen sig mod 2 = 0 ∧
      i2d_ECDSA_SIG (be_decode 0 (sub_bytes 0 (blen sig / 2) sig),
                     be_decode 0 (sub_bytes (blen sig / 2) (blen sig / 2) sig)) = Some raw
    else sig = raw.

Definition signature (method : Z) (prf : iked_hash) (key : bytes) (k : option pkey) (msg sig : bytes) : Prop :=
  if method =? IKEV2_AUTH_SHARED_KEY_MIC then sig = ext_mac prf key msg
  else ∃ pk md pss raw, k = Some pk ∧ EVP_DigestInit (Some md) pk = true ∧ encodes method pk md pss sig raw ∧
    EVP_DigestVerify pk (Some md) pss msg raw = true.

Lemma scheme_encoded sc : sc ∈ schemes → ∃ sc', List.find (λ x, (sc_keytype sc =? sc_keytype x) &&
  (sc_flags sc =? sc_flags x) && bool_decide (Some (sc_md sc) = Some (sc_md x))) schemes = Some sc' ∧
  sc' ∈ schemes ∧ sc_keytype sc' = sc_keytype sc ∧ sc_flags sc' = sc_flags sc ∧ sc_md sc' = sc_md sc.
Proof.
  revert sc. apply Forall_forall. repeat (constructor; [eexists; split; [vm_compute; reflexivity|]; set_solver|]). constructor.
Qed.

Lemma scheme_unique sc sc' raw raw' :
  sc ∈ schemes → sc' ∈ schemes → sc_keytype sc = sc_keytype sc' →
  [bZ (sc_len sc)] ++ sc_oid sc ++ raw = [bZ (sc_len sc')] ++ sc_oid sc' ++ raw' → sc = sc' ∧ raw = raw'.
Proof.
  intros Hsc Hsc' Hk E. assert (sc_len sc = sc_len sc') as El.
  { pose proof (scheme_len _ Hsc). pose proof (scheme_len _ Hsc'). injection E as Eb _. apply (f_equal Zb) in Eb.
    rewrite !Zb_bZ, !Z.mod_small in Eb by lia. done. }
  pose proof (scheme_selected sc raw Hsc) as F1. pose proof (scheme_selected sc' raw' Hsc') as F2.
  rewrite E, Hk, El in F1. assert (sc = sc') as <- by congruence. split; [done|]. by apply app_inv_head, app_inv_head in E.
Qed.

(** The identifier in front selects the scheme, and nothing is read that is
    not there. *)
Lemma verify_init_sig key k sig :
  ∃ i d', _dsa_verify_init (keyed IKEV2_AUTH_SIG None false false key (Some k)) (Some sig) = Ok (i, d') ∧
    (i = 0 ∧ (∃ sc raw, sc ∈ schemes ∧ sc_keytype sc = EVP_PKEY_id k ∧ sig = [bZ (sc_len sc)] ++ sc_oid sc ++ raw ∧
       d' = set_dsa_flags (sc_flags sc) (keyed IKEV2_AUTH_SIG (Some (sc_md sc)) false false key (Some k))) ∨
     i = -1 ∧ ∀ sc raw, sc ∈ schemes → sc_keytype sc = EVP_PKEY_id k → sig ≠ [bZ (sc_len sc)] ++ sc_oid sc ++ raw).
Proof.
  unfold _dsa_verify_init, keyed. cbn [dsa_priv dsa_method dsa_key]. change (negb (_ =? _)) with false. cbv iota.
  destruct sig as [|b sig]; [eexists _, _; split; [reflexivity|]; by right|].
  assert (blen (b :: sig) = 1 + blen sig) as Hl by (unfold blen; simpl; lia). pose proof (blen_nonneg sig).
  rewrite (proj2 (Z.ltb_ge _ _)) by lia. unfold rd. rewrite !(proj2 (Z.leb_le _ _)) by lia. cbn [andb mbind out_bind].
  change (fld8 (sub_bytes 0 1 (b :: sig)) 0) with (Zb b). pose proof (Zb_range b).
  assert (∀ sc, sc ∈ schemes → Zb b = sc_len sc ↔ b = bZ (sc_len sc)) as Hb.
  { intros sc Hsc. pose proof (scheme_len sc Hsc). split; [intros <-; by rewrite bZ_Zb|].
    intros ->. rewrite Zb_bZ. apply Z.mod_small. lia. }
  destruct (Z.ltb_spec (blen (b :: sig)) (Zb b + 1)).
  { eexists _, _. split; [reflexivity|]. right. split; [done|]. intros sc raw Hsc Hk [= E1%Hb ->]; [|done].
    rewrite blen_app in *. pose proof (blen_nonneg raw). unfold sc_len in E1. lia. }
  destruct (List.find _ schemes) as [sc|] eqn:Ef.
  - apply List.find_some in Ef as [Hin%list_elem_of_In Hs]. unfold scheme_of in Hs.
    apply andb_true_iff in Hs as [[Hk%Z.eqb_eq Hn%Z.eqb_eq]%andb_true_iff Ho%bool_decide_eq_true].
    eexists _, _. split; [reflexivity|]. left. split; [done|]. exists sc, (drop (Z.to_nat (sc_len sc)) sig).
    split; [done|]. split; [done|]. split; [|done]. apply Hb in Hn; [|done]. rewrite <- Hn. cbn [app]. f_equal.
    rewrite <- (take_drop (Z.to_nat (sc_len sc)) sig) at 1. f_equal. exact Ho.
  - eexists _, _. split; [reflexivity|]. right. split; [done|]. intros sc raw Hsc Hk Es.
    pose proof (scheme_selected sc raw Hsc) as Hf. rewrite Hk, <- Es in Hf. rewrite <- (proj2 (Hb sc Hsc)) in Hf; [congruence|].
    by injection Es.
Qed.
(** ** Verification *)

(** After a successful [dsa_init] of a verifier. *)
Definition verifying (method : Z) (pk : pkey) (md : evp_md) (flags : Z) (key msg : bytes) : iked_dsa :=
  mk_dsa method (Some md) false false (Some key) (Some pk) flags
    (Some (DigestCtx pk (Some md) (flags =? FLAG_RSA_PSS) msg)).

Lemma verify_final_sig F pk sc key msg raw s :
  let sig := [bZ (sc_len sc)] ++ sc_oid sc ++ raw in
  sc ∈ schemes → blen sig < size_max →
  wp F (dsa_verify_final (verifying IKEV2_AUTH_SIG pk (sc_md sc) (sc_flags sc) key msg) sig)
    (λ r s', spent s s' ∧ r =
    if EVP_DigestVerify pk (Some (sc_md sc)) (sc_flags sc =? FLAG_RSA_PSS) msg raw then 0 else -1) s.
Proof.
  intros sig Hsc Hmax. unfold sig in *. pose proof (scheme_len sc Hsc) as Hl.
  unfold dsa_verify_final, _dsa_verify_prepare, verifying.
  cbn [dsa_hmac dsa_method]. change (_ =? IKEV2_AUTH_SIG) with true. cbv iota. apply wp_bind, wp_bind, wp_lift.
  rewrite rd_app_l by done. hnf. change (fld8 [bZ (sc_len sc)] 0) with (Zb (bZ (sc_len sc))). rewrite Zb_bZ, Z.mod_small by lia.
  apply wp_bind, wp_lift. rewrite app_assoc in *. set (front := [bZ (sc_len sc)] ++ sc_oid sc) in *.
  assert (sc_len sc + 1 = blen front) as -> by (unfold front; rewrite blen_app; unfold sc_len; change (blen [_]) with 1; lia).
  pose proof (blen_nonneg front). pose proof (blen_nonneg raw). rewrite blen_app in *.
  rewrite sz_sub_id by lia. rewrite rd_app_r by lia. hnf. cbn [dsa_ctx]. by destruct (EVP_DigestVerify _ _ _ _ _).
Qed.

(** The two halves of an ECDSA signature. *)
Lemma prepare_ecdsa F dsa sig s :
  is_ecdsa (dsa_method dsa) = true →
  wp F (_dsa_verify_prepare dsa sig) (λ o s', spent s s' ∧
    let ok raw := 64 ≤ blen sig ≤ 132 ∧ blen sig mod 2 = 0 ∧
      i2d_ECDSA_SIG (be_decode 0 (sub_bytes 0 (blen sig / 2) sig),
                     be_decode 0 (sub_bytes (blen sig / 2) (blen sig / 2) sig)) = Some raw in
    (∀ raw, o = Some raw → ok raw) ∧ (nd_alloc s = [] → ∀ raw, ok raw → o = Some raw)) s.
Proof.
  intros He. unfold _dsa_verify_prepare. assert ((dsa_method dsa =? IKEV2_AUTH_SIG) = false) as ->.
  { apply Z.eqb_neq. intros E. by rewrite E in He. }
  rewrite He. destruct ((blen sig <? 64) || (132 <? blen sig) || negb (blen sig mod 2 =? 0)) eqn:El.
  { apply wp_ret. split_and!; [done..|]. intros _ raw (Hl & Hm & _).
    rewrite Hm, (proj2 (Z.ltb_ge _ _)), (proj2 (Z.ltb_ge _ _)) in El by lia. done. }
  bool_facts. pose proof (Z.div_mod (blen sig) 2 ltac:(lia)) as Hdm.
  apply wp_bind, n_alloc_wp. intros a s1 P1 Ha. destruct a.
  2:{ apply wp_ret. split_and!; [done..|]. by intros ?%Ha. }
  apply wp_bind, wp_lift, wpo_rd; [lia..|]. apply wp_bind, n_alloc_wp. intros a s2 P2 Hb. destruct a.
  2:{ apply wp_ret. split_and!; [by eauto|done|]. intros Hs. by specialize (Hb (spent_plenty _ _ P1 Hs)). }
  apply wp_bind, wp_lift, wpo_rd; [lia..|]. apply wp_bind, n_alloc_wp. intros a s3 P3 Hc. destruct a.
  2:{ apply wp_ret. split_and!; [by eauto|done|]. intros Hs.
      by specialize (Hc (spent_plenty _ _ (spent_trans _ _ _ P1 P2) Hs)). }
  apply wp_ret. split_and!; [by eauto|done|]. by intros _ raw (_ & _ & ->).
Qed.

(** The digest of a method that is neither a MAC nor has an identifier. *)
Lemma digest_other method prf md hmac :
  method ≠ IKEV2_AUTH_SHARED_KEY_MIC → method ≠ IKEV2_AUTH_SIG → dsa_digest method prf false = Ok (md, hmac) →
  hmac = false ∧ dsa_digest method None false = Ok (md, false).
Proof.
  intros Hm Hs. unfold dsa_digest. rewrite (proj2 (Z.eqb_neq _ _) Hm), (proj2 (Z.eqb_neq _ _) Hs).
  repeat case_match; by intros [= <- <-].
Qed.

Lemma verify_mic F prf key k msg sig s :
  let d := set_dsa_ctx (Some (HmacCtx prf key msg)) (keyed IKEV2_AUTH_SHARED_KEY_MIC (Some (hash_priv prf)) true false key k) in
  wp F (dsa_verify_final d sig) (λ r s', s' = s ∧ r = if bool_decide (sig = ext_mac prf key msg) then 0 else -1) s.
Proof. done. Qed.

(** Verification with a key of OpenSSL. *)
Lemma init_other method md key pk sig :
  method ≠ IKEV2_AUTH_SIG →
  dsa_init (keyed method (Some md) false false key (Some pk)) sig =
    Ok (if EVP_DigestInit (Some md) pk then 0 else -1, verifying method pk md 0 key []).
Proof.
  intros Hs. unfold dsa_init, keyed. cbn. destruct (EVP_DigestInit (Some md) pk); cbn [andb];
    unfold _dsa_sign_encode; cbn; rewrite (proj2 (Z.eqb_neq _ _) Hs); done.
Qed.

Lemma init_sig key pk sc raw :
  sc ∈ schemes → sc_keytype sc = EVP_PKEY_id pk →
  dsa_init (keyed IKEV2_AUTH_SIG None false false key (Some pk)) (Some ([bZ (sc_len sc)] ++ sc_oid sc ++ raw)) =
    Ok (if EVP_DigestInit (Some (sc_md sc)) pk then 0 else -1, verifying IKEV2_AUTH_SIG pk (sc_md sc) (sc_flags sc) key []).
Proof.
  intros Hsc Hkt. destruct (verify_init_sig key pk ([bZ (sc_len sc)] ++ sc_oid sc ++ raw)) as (i & d & Ei & Hi).
  destruct Hi as [(-> & sc' & raw' & Hsc' & Hkt' & E & ->)|[_ Hno]]; [|by destruct (Hno sc raw)].
  destruct (scheme_unique sc sc' raw raw') as [<- _]; [done..|congruence|done|].
  unfold dsa_init, keyed in *. cbn [dsa_hmac dsa_sign]. rewrite Ei. cbn -[_dsa_sign_encode].
  destruct (scheme_encoded sc Hsc) as (sc2 & Ef & _). rewrite Hkt in Ef.
  assert (∀ x, _dsa_sign_encode (mk_dsa IKEV2_AUTH_SIG (Some (sc_md sc)) false false (Some key) (Some pk)
    (sc_flags sc) x) None = Ok (Some (1 + sc_len sc2, None))) as Ee.
  { intros x. unfold _dsa_sign_encode, dsa_scheme. cbn -[List.find schemes]. by rewrite Ef. }
  assert ((sc_flags sc =? FLAG_RSA_PSS) && negb (EVP_PKEY_CTX_set_pss pk) = false) as Hp.
  { destruct (Z.eqb_spec (sc_flags sc) FLAG_RSA_PSS) as [Hf|]; [|done]. rewrite pss_padding; [done|]. rewrite <- Hkt.
    assert (Forall (λ sc, sc_flags sc = FLAG_RSA_PSS → sc_keytype sc = EVP_PKEY_RSA) schemes) as Hall by by repeat constructor.
    rewrite Forall_forall in Hall. by apply Hall. }
  rewrite <- andb_assoc, Hp, andb_false_r. unfold set_dsa_ctx, set_dsa_flags. cbn -[_dsa_sign_encode]. by rewrite Ee.
Qed.

Lemma verify_final_other F method pk md key msg sig s :
  method ≠ IKEV2_AUTH_SIG → dsa_digest method None false = Ok (Some md, false) →
  wp F (dsa_verify_final (verifying method pk md 0 key msg) sig) (λ r s', spent s s' ∧ (r = 0 ∨ r = -1) ∧
    (r = 0 → ∃ raw, encodes method pk md false sig raw ∧ EVP_DigestVerify pk (Some md) false msg raw = true) ∧
    (nd_alloc s = [] → ∀ raw, encodes method pk md false sig raw → EVP_DigestVerify pk (Some md) false msg raw = true → r = 0)) s.
Proof.
  intros Hs Hd. unfold encodes. rewrite (proj2 (Z.eqb_neq _ _) Hs). unfold dsa_verify_final. cbn [dsa_hmac verifying].
  apply wp_bind. destruct (is_ecdsa method) eqn:He.
  - eapply wp_mono; [by apply prepare_ecdsa|]. intros o s' (Hsp & Ho & Hp). destruct o as [raw|]; apply wp_ret.
    + cbn. destruct (EVP_DigestVerify _ _ _ _ _) eqn:Hv; split_and!; auto; try done.
      * intros _. exists raw. split; [|done]. split; [done|]. split; [done|]. by apply Ho.
      * intros Ha raw' (_ & _ & Hok) Hv'. assert (raw' = raw) as -> by (specialize (Hp Ha raw' Hok); congruence). congruence.
    + split_and!; auto; try done. intros Ha raw (_ & _ & Hok) _. by specialize (Hp Ha raw Hok).
  - unfold _dsa_verify_prepare. cbn [dsa_method verifying]. rewrite (proj2 (Z.eqb_neq _ _) Hs), He. apply wp_ret, wp_ret. cbn.
    destruct (EVP_DigestVerify _ _ _ _ _) eqn:Hv; split_and!; auto; try done.
    + intros _. by exists sig.
    + intros _ raw (_ & _ & <-) Hv'. congruence.
Qed.

(** [dsa_init] and [dsa_verify_final] on one signature: whatever it is, the
    answer is 0 or -1, and 0 for a signature only. *)
Lemma dsa_verify_spec F method prf key k md hmac msg sig s :
  dsa_digest method (Some prf) false = Ok (md, hmac) → (hmac = false → is_Some k) → blen sig < size_max →
  ∃ i d, dsa_init (keyed method md hmac false key k) (Some sig) = Ok (i, d) ∧ (i = 0 ∨ i = -1) ∧
    (i = -1 → ¬ signature method prf key k msg sig) ∧
    (i = 0 → (dsa_update d msg).1 = 0 ∧ wp F (dsa_verify_final (dsa_update d msg).2 sig) (λ r s',
      spent s s' ∧ (r = 0 ∨ r = -1) ∧ (r = 0 → signature method prf key k msg sig) ∧
      (nd_alloc s = [] → signature method prf key k msg sig → r = 0)) s).
Proof.
  intros Hd Hk Hmax. unfold signature. destruct (Z.eqb_spec method IKEV2_AUTH_SHARED_KEY_MIC) as [->|Hm].
  { unfold dsa_digest in Hd. cbn in Hd. destruct (hash_isaead prf); [done|]. injection Hd as <- <-.
    eexists _, _. split; [reflexivity|]. split_and!; [by left|done|]. intros _. split; [done|].
    eapply wp_mono; [apply verify_mic|]. intros r s' [-> ->]. case_bool_decide; split_and!; auto; by intros. }
  destruct (Z.eq_dec method IKEV2_AUTH_SIG) as [->|Hs].
  - unfold dsa_digest in Hd. cbn in Hd. injection Hd as <- <-. destruct (Hk eq_refl) as [pk ->]. unfold encodes.
    change (IKEV2_AUTH_SIG =? IKEV2_AUTH_SIG) with true. cbv iota.
    destruct (verify_init_sig key pk sig) as (i & d & Ei & Hi).
    destruct Hi as [(-> & sc & raw & Hsc & Hkt & -> & _)|[-> Hno]].
    2:{ unfold dsa_init, keyed in *. cbn [dsa_hmac dsa_sign]. rewrite Ei. cbn [mbind out_bind fst snd].
        eexists _, _. split; [reflexivity|]. split_and!; [by right| |done]. intros _ (pk' & md & pss & raw & [= <-] & _ & He & _).
        destruct He as (sc & Hsc & Hkt & _ & _ & ->). by eapply Hno. }
    assert (∀ pk' md pss raw', Some pk = Some pk' → (∃ sc', sc' ∈ schemes ∧ sc_keytype sc' = EVP_PKEY_id pk' ∧ md = sc_md sc' ∧
      pss = (sc_flags sc' =? FLAG_RSA_PSS) ∧ [bZ (sc_len sc)] ++ sc_oid sc ++ raw = [bZ (sc_len sc')] ++ sc_oid sc' ++ raw') →
      pk' = pk ∧ md = sc_md sc ∧ pss = (sc_flags sc =? FLAG_RSA_PSS) ∧ raw' = raw) as Hu.
    { intros pk' md pss raw' [= <-] (sc' & Hsc' & Hkt' & -> & -> & E).
      destruct (scheme_unique sc sc' raw raw') as [<- <-]; [done..|congruence|done|done]. }
    eexists _, _. split; [by apply init_sig|]. split; [destruct (EVP_DigestInit _ _); auto|]. split.
    + intros Hi (pk' & md & pss & raw' & Epk & Hin & He & _). destruct (Hu _ _ _ _ Epk He) as (-> & -> & _). by rewrite Hin in Hi.
    + intros Hi. split; [done|]. eapply wp_mono; [by apply verify_final_sig|]. intros r s' [Hsp ->].
      destruct (EVP_DigestVerify _ _ _ _ _) eqn:Hv; split_and!; auto; try done.
      * intros _. exists pk, (sc_md sc), (sc_flags sc =? FLAG_RSA_PSS), raw. split; [done|]. split; [by destruct (EVP_DigestInit _ _)|].
        split; [|done]. by exists sc.
      * intros _ (pk' & md & pss & raw' & Epk & Hin & He & Hv'). destruct (Hu _ _ _ _ Epk He) as (-> & -> & -> & ->).
        destruct (eq_true_false_abs _ Hv' Hv).
  - destruct (digest_other _ _ _ _ Hm Hs Hd) as [-> Hd']. destruct (Hk eq_refl) as [pk ->]. unfold encodes.
    rewrite (proj2 (Z.eqb_neq _ _) Hs). destruct md as [md|].
    2:{ eexists _, _. unfold dsa_init, _dsa_verify_init, keyed. cbn. rewrite (proj2 (Z.eqb_neq _ _) Hs). cbn.
        split; [reflexivity|]. split_and!; [by right| |done]. intros _ (pk' & md & pss & raw & _ & _ & (E & _) & _). congruence. }
    eexists _, _. split; [by apply (init_other method md key pk)|]. split; [destruct (EVP_DigestInit _ _); auto|]. split.
    + intros Hi (pk' & md' & pss & raw' & [= <-] & Hin & (E & _) & _). assert (md' = md) as -> by congruence. by rewrite Hin in Hi.
    + intros Hi. split; [done|]. eapply wp_mono; [by apply (verify_final_other F method pk md key msg)|]. intros r s' (Hsp & Hr & Hok & Hok').
      split_and!; [done..| |].
      * intros (raw & He & Hv)%Hok. exists pk, md, false, raw. split; [done|]. split; [by destruct (EVP_DigestInit _ _)|]. split; [|done].
        unfold encodes in He. by rewrite (proj2 (Z.eqb_neq _ _) Hs) in He.
      * intros Ha (pk' & md' & pss & raw & [= <-] & _ & (E & -> & He) & Hv). assert (md' = md) as -> by congruence.
        apply (Hok' Ha raw); [|done]. unfold encodes. by rewrite (proj2 (Z.eqb_neq _ _) Hs).
Qed.
(** ** Signing *)

(** After a successful [dsa_init] of a signer. *)
Definition signing (method : Z) (sk : pkey) (md : evp_md) (key msg : bytes) : iked_dsa :=
  mk_dsa method (Some md) false true (Some key) (Some sk) 0 (Some (DigestCtx sk (Some md) false msg)).

Lemma sign_final_mic F prf key k msg s :
  let d := set_dsa_ctx (Some (HmacCtx prf key msg)) (keyed IKEV2_AUTH_SHARED_KEY_MIC (Some (hash_priv prf)) true true key k) in
  0 ≤ hash_length_f prf < 2 ^ 31 →
  dsa_length d = Ok (hash_length_f prf) ∧
  wp F (dsa_sign_final d (zeros (hash_length_f prf))) (λ r s', s' = s ∧ r = (hash_length_f prf, ext_mac prf key msg)) s.
Proof.
  intros d Hl. split; [done|]. unfold dsa_sign_final. apply wp_bind, wp_lift. change (dsa_length d) with (Ok (hash_length_f prf)). hnf.
  unfold d, set_dsa_ctx. cbn [dsa_hmac dsa_ctx keyed].
  rewrite blen_zeros, Z.ltb_irrefl by lia. assert (blen (ext_mac prf key msg) = hash_length_f prf) as Hm by (apply ext_mac_length; lia).
  apply wp_bind, wp_lift. assert (store (Some (zeros (hash_length_f prf))) 0 (ext_mac prf key msg) = Ok (Some (ext_mac prf key msg))) as ->.
  { pose proof (store_mid [] (zeros (hash_length_f prf)) [] (ext_mac prf key msg)) as E. rewrite !app_nil_l, !app_nil_r in E.
    apply E. rewrite blen_zeros; lia. }
  hnf. rewrite Hm, (proj2 (Z.ltb_ge _ _)) by lia. by apply wp_ret.
Qed.

(** What an ECDSA signature looks like. *)
Definition two_numbers (sk : pkey) (md : evp_md) (msg : bytes) (n : Z) (buf : bytes) : Prop :=
  ∃ a b raw rnd, buf = be_encode (Z.to_nat n) a ++ be_encode (Z.to_nat n) b ∧ 0 ≤ a < 256 ^ n ∧ 0 ≤ b < 256 ^ n ∧
    EVP_DigestSign sk (Some md) false msg rnd = Some raw ∧ i2d_ECDSA_SIG (a, b) = Some raw.

Lemma sign_ecdsa_run F dsa sk md msg s :
  let n := (EVP_PKEY_bits sk + 7) / 8 in
  EVP_PKEY_id sk = EVP_PKEY_EC → dsa_ctx dsa = Some (DigestCtx sk (Some md) false msg) →
  wp F (_dsa_sign_ecdsa dsa (zeros (2 * n))) (λ o s', spent s s' ∧ ∀ buf, o = Some buf → two_numbers sk md msg n buf) s.
Proof.
  intros n Hid Hctx. assert (0 ≤ n) as Hn by (apply Z.div_pos; pose proof (pkey_bits sk); lia).
  unfold _dsa_sign_ecdsa, EVP_DigestSignFinal. rewrite blen_zeros, Z.mul_comm, Z.mod_mul by lia. cbn [Z.eqb negb].
  rewrite Z.div_mul by lia. apply wp_bind, n_alloc_wp. intros a s1 P1 Ha. destruct a; [|by apply wp_ret].
  apply wp_bind, wp_gets. rewrite Hctx. destruct (EVP_DigestSign _ _ _ _ _) as [raw|] eqn:Es; [|by apply wp_ret].
  destruct (sign_ecdsa _ _ _ _ _ Hid Es) as (r & t & Ed & Ei & Hr & Ht). rewrite Ed.
  assert (2 ^ EVP_PKEY_bits sk ≤ 256 ^ n) as Hb.
  { change 256 with (2 ^ 8). rewrite <- Z.pow_mul_r by lia. apply Z.pow_le_mono_r; [lia|]. unfold n.
    pose proof (Z.div_mod (EVP_PKEY_bits sk + 7) 8 ltac:(lia)). pose proof (Z.mod_pos_bound (EVP_PKEY_bits sk + 7) 8 ltac:(lia)). lia. }
  destruct (_ || _); [by apply wp_ret|].
  destruct (store_numbers n r t) as (p & E1 & E2); [lia..|]. apply wp_bind, wp_lift. rewrite Z.mul_comm, E1. hnf.
  apply wp_lift. rewrite E2. hnf. split; [done|]. intros buf [= <-]. exists r, t, raw, (nd_rand s1). split_and!; auto; lia.
Qed.

Lemma sign_final_ecdsa F method sk md key msg s :
  is_ecdsa method = true → EVP_PKEY_id sk = EVP_PKEY_EC →
  let n := (EVP_PKEY_bits sk + 7) / 8 in
  dsa_length (signing method sk md key msg) = Ok (2 * n) ∧ 0 ≤ n ∧
  wp F (dsa_sign_final (signing method sk md key msg) (zeros (2 * n))) (λ r s', spent s s' ∧
    (r.1 = -1 ∨ r.1 = 2 * n ∧ two_numbers sk md msg n r.2)) s.
Proof.
  intros He Hid n. assert (0 ≤ n) as Hn by (apply Z.div_pos; pose proof (pkey_bits sk); lia).
  assert (dsa_length (signing method sk md key msg) = Ok (2 * n)) as El by (unfold dsa_length; cbn; by rewrite He).
  split; [done|]. split; [done|]. unfold dsa_sign_final. apply wp_bind, wp_lift. rewrite El. hnf.
  rewrite blen_zeros, Z.ltb_irrefl by lia. cbn [dsa_hmac dsa_method signing]. rewrite He. apply wp_bind.
  eapply wp_mono; [by apply sign_ecdsa_run|]. intros o s' [Hs Ho]. apply wp_ret. split; [done|].
  destruct o as [buf|]; [|by left]. right. split; [done|]. by apply Ho.
Qed.
(** The identifier [pre] in front of a signature, which may be empty. *)
Definition prefixed (method : Z) (sk : pkey) (md : evp_md) (pre : bytes) : Prop :=
  if method =? IKEV2_AUTH_SIG then
    ∃ sc, sc ∈ schemes ∧ sc_keytype sc = EVP_PKEY_id sk ∧ sc_md sc = md ∧ sc_flags sc = 0 ∧ pre = [bZ (sc_len sc)] ++ sc_oid sc
  else pre = [].

Lemma sign_encode_run method sk md key msg :
  (∃ pre, prefixed method sk md pre ∧ _dsa_sign_encode (signing method sk md key msg) None = Ok (Some (blen pre, None)) ∧
    ∀ n, 0 ≤ n → _dsa_sign_encode (signing method sk md key msg) (Some (zeros (blen pre + n))) =
      Ok (Some (blen pre, Some (pre ++ zeros n)))) ∨
  _dsa_sign_encode (signing method sk md key msg) None = Ok None.
Proof.
  unfold prefixed, _dsa_sign_encode. cbn [dsa_method dsa_key signing].
  destruct (method =? IKEV2_AUTH_SIG); cbn [negb]; [|left; by exists []].
  destruct (dsa_scheme _ _) as [sc|] eqn:Ef; [left|by right]. unfold dsa_scheme in Ef.
  apply List.find_some in Ef as [Hin%list_elem_of_In Hs]. cbn [dsa_flags dsa_priv signing] in Hs. bool_facts.
  match goal with H : bool_decide _ = true |- _ => apply bool_decide_eq_true in H as [= Hmd] end.
  assert (blen ([bZ (sc_len sc)] ++ sc_oid sc) = 1 + sc_len sc) as El by (rewrite blen_app; done).
  exists ([bZ (sc_len sc)] ++ sc_oid sc). rewrite El. split; [by exists sc|]. split; [done|]. intros n Hn.
  pose proof (scheme_len _ Hin). rewrite blen_zeros, (proj2 (Z.ltb_ge _ _)) by lia.
  rewrite <- Z.add_assoc, !zeros_plus by lia. unfold mbind, out_bind.
  pose proof (store_mid [] (zeros 1) (zeros (sc_len sc) ++ zeros n) [bZ (sc_len sc)] eq_refl) as E1.
  cbn [app] in E1. change (blen []) with 0 in E1. rewrite E1. clear E1. cbv beta iota.
  pose proof (store_mid [bZ (sc_len sc)] (zeros (sc_len sc)) (zeros n) (sc_oid sc)) as E2. cbn [app] in E2.
  change (blen [_]) with 1 in E2. rewrite E2; [done|]. by rewrite blen_zeros by lia.
Qed.

Lemma sign_final_prefixed F method sk md key msg pre s :
  is_ecdsa method = false →
  _dsa_sign_encode (signing method sk md key msg) None = Ok (Some (blen pre, None)) →
  (∀ n, 0 ≤ n → _dsa_sign_encode (signing method sk md key msg) (Some (zeros (blen pre + n))) =
    Ok (Some (blen pre, Some (pre ++ zeros n)))) →
  let n := blen pre + EVP_PKEY_size sk in
  dsa_length (signing method sk md key msg) = Ok n ∧ 0 ≤ n ∧
  wp F (dsa_sign_final (signing method sk md key msg) (zeros n)) (λ r s', s' = s ∧ (r.1 = -1 ∨
    ∃ raw rnd, EVP_DigestSign sk (Some md) false msg rnd = Some raw ∧ r.1 = blen (pre ++ raw) ∧ r.1 ≤ n ∧
      take (Z.to_nat r.1) r.2 = pre ++ raw)) s.
Proof.
  intros He E0 En n. pose proof (pkey_size sk). pose proof (blen_nonneg pre). assert (0 ≤ n) as Hn by lia.
  assert (dsa_length (signing method sk md key msg) = Ok n) as El.
  { unfold dsa_length, dsa_prefix. cbn [dsa_hmac dsa_key dsa_method signing]. rewrite He. fold (signing method sk md key msg).
    by rewrite E0. }
  split; [done|]. split; [done|]. unfold dsa_sign_final. apply wp_bind, wp_lift. rewrite El. hnf.
  rewrite blen_zeros, Z.ltb_irrefl by lia. cbn [dsa_hmac dsa_method signing]. rewrite He. fold (signing method sk md key msg).
  apply wp_bind, wp_lift. unfold n. rewrite En by lia. hnf. rewrite blen_app, blen_zeros, (proj2 (Z.ltb_ge _ _)) by lia.
  apply wp_bind, wp_gets. unfold EVP_DigestSignFinal. cbn [dsa_ctx signing].
  destruct (EVP_DigestSign _ _ _ _ _) as [raw|] eqn:Es; [|apply wp_ret; split; [done|by left]].
  pose proof (sign_size _ _ _ _ _ _ Es) as Hl. pose proof (blen_nonneg raw). apply wp_bind, wp_lift.
  replace (EVP_PKEY_size sk) with (blen raw + (EVP_PKEY_size sk - blen raw)) by lia. rewrite zeros_plus by lia.
  rewrite store_mid by (rewrite blen_zeros; lia). unfold wpo. apply wp_ret. split; [done|]. right. exists raw, (nd_rand s). cbn.
  split; [done|]. rewrite blen_app. split; [lia|]. split; [lia|]. rewrite app_assoc. rewrite take_app_le, take_ge;
    unfold blen in *; rewrite ?length_app; try lia; done.
Qed.
Lemma init_sign method sk md key :
  dsa_init (keyed method (Some md) false true key (Some sk)) None =
    Ok (match _dsa_sign_encode (signing method sk md key []) None with
        | Ok (Some _) => if EVP_DigestInit (Some md) sk then 0 else -1
        | _ => -1
        end, signing method sk md key []).
Proof.
  unfold dsa_init, keyed. cbn -[_dsa_sign_encode]. rewrite andb_false_r. cbn [andb]. unfold mbind, out_bind, set_dsa_ctx.
  cbn -[_dsa_sign_encode]. fold (signing method sk md key []).
  destruct (sign_encode_run method sk md key []) as [(pre & _ & -> & _)| ->]; done.
Qed.

(** What a signer makes of [sk] is a signature for the other key of the pair. *)
Lemma made_prefixed method prf key sk pk md msg pre raw rnd :
  method ≠ IKEV2_AUTH_SHARED_KEY_MIC → is_ecdsa method = false → dsa_digest method None true = Ok (Some md, false) →
  key_pair sk pk → EVP_DigestInit (Some md) sk = true → prefixed method sk md pre →
  EVP_DigestSign sk (Some md) false msg rnd = Some raw → signature method prf key (Some pk) msg (pre ++ raw).
Proof.
  intros Hm He Hd Hp Hi Hpre Hs. unfold signature. rewrite (proj2 (Z.eqb_neq _ _) Hm). exists pk, md, false, raw.
  split; [done|]. split; [by eapply pair_init|]. split; [|by eapply pair_verify]. unfold encodes, prefixed, dsa_digest in *.
  destruct (method =? IKEV2_AUTH_SIG).
  - destruct Hpre as (sc & Hsc & Hkt & <- & Hf & ->). exists sc. split; [done|]. split; [by rewrite (pair_id _ _ Hp)|].
    split; [done|]. rewrite Hf. split; [done|]. by rewrite <- app_assoc.
  - subst pre. rewrite He. done.
Qed.

Lemma made_ecdsa method prf key sk pk md msg sig :
  let n := (EVP_PKEY_bits sk + 7) / 8 in
  is_ecdsa method = true → dsa_digest method None false = Ok (Some md, false) → key_pair sk pk →
  EVP_DigestInit (Some md) sk = true → 32 ≤ n ≤ 66 → two_numbers sk md msg n sig → signature method prf key (Some pk) msg sig.
Proof.
  intros n He Hd Hp Hi Hn (a & b & raw & rnd & -> & Ha & Hb & Hs & Hr). unfold signature, encodes.
  assert ((method =? IKEV2_AUTH_SHARED_KEY_MIC) = false ∧ (method =? IKEV2_AUTH_SIG) = false) as [-> ->].
  { split; apply Z.eqb_neq; intros ->; done. }
  exists pk, md, false, raw. split; [done|]. split; [by eapply pair_init|]. split; [|by eapply pair_verify].
  split; [done|]. split; [done|]. rewrite He, blen_app, !blen_be_encode, !Z2Nat.id by lia.
  replace (n + n) with (n * 2) by lia. rewrite Z.mod_mul, Z.div_mul by lia. split; [lia|]. split; [done|].
  assert (blen (be_encode (Z.to_nat n) a) = n ∧ blen (be_encode (Z.to_nat n) b) = n) as [La Lb] by (rewrite !blen_be_encode; lia).
  rewrite sub_bytes_app_l by lia. rewrite sub_bytes_app_r by lia. rewrite La, Z.sub_diag. rewrite <- La at 1. rewrite <- Lb at 3.
  rewrite !sub_bytes_all, !be_decode_encode by (rewrite Z2Nat.id by lia; lia). done.
Qed.
(** The key of the verifier: the same one for a MAC, the other of the pair
    otherwise; ECDSA has curves of 32 to 66 bytes. *)
Definition counterpart (method : Z) (key : bytes) (k : option pkey) (key' : bytes) (k' : option pkey) : Prop :=
  if method =? IKEV2_AUTH_SHARED_KEY_MIC then key' = key
  else ∃ sk pk, k = Some sk ∧ k' = Some pk ∧ key_pair sk pk ∧
    (is_ecdsa method = true → EVP_PKEY_id sk = EVP_PKEY_EC ∧ 32 ≤ (EVP_PKEY_bits sk + 7) / 8 ≤ 66).

Lemma sign_key_spec F method prf key sk pk key' md msg s :
  method ≠ IKEV2_AUTH_SHARED_KEY_MIC → dsa_digest method None true = Ok (Some md, false) →
  counterpart method key (Some sk) key' (Some pk) →
  ∃ i d, dsa_init (keyed method (Some md) false true key (Some sk)) None = Ok (i, d) ∧ (i = 0 ∨ i = -1) ∧
    (i = 0 → (dsa_update d msg).1 = 0 ∧ ∃ n, dsa_length (dsa_update d msg).2 = Ok n ∧ 0 ≤ n ∧
      wp F (dsa_sign_final (dsa_update d msg).2 (zeros n)) (λ r s', spent s s' ∧ (r.1 = -1 ∨ 0 ≤ r.1 ≤ n ∧ r.1 ≤ blen r.2 ∧
        signature method prf key' (Some pk) msg (take (Z.to_nat r.1) r.2))) s).
Proof.
  intros Hm Hd Hc. unfold counterpart in Hc. rewrite (proj2 (Z.eqb_neq _ _) Hm) in Hc.
  destruct Hc as (? & ? & [= <-] & [= <-] & Hp & Hec). rewrite init_sign. eexists _, _. split; [reflexivity|].
  change (dsa_update (signing method sk md key []) msg) with (0, signing method sk md key msg). cbn [fst snd].
  assert (_dsa_sign_encode (signing method sk md key []) None = _dsa_sign_encode (signing method sk md key msg) None) as -> by done.
  destruct (sign_encode_run method sk md key msg) as [(pre & Hpre & E0 & En)| ->]; [rewrite E0|by split; [right|]].
  destruct (EVP_DigestInit (Some md) sk) eqn:Hi; split; auto; try done. intros _. split; [done|].
  destruct (is_ecdsa method) eqn:He.
  - destruct (Hec eq_refl) as [Hid Hn]. destruct (sign_final_ecdsa F method sk md key msg s He Hid) as (El & Hpos & Hw).
    eexists. split; [exact El|]. split; [lia|]. eapply wp_mono; [exact Hw|]. intros r s' [Hs Hr]. split; [done|].
    destruct Hr as [?|[-> Hr]]; [by left|right]. split; [lia|].
    assert (blen r.2 = 2 * ((EVP_PKEY_bits sk + 7) / 8)) as Hb.
    { destruct Hr as (a & b & _ & _ & -> & _). rewrite blen_app, !blen_be_encode. lia. }
    split; [lia|]. rewrite take_ge.
    + eapply made_ecdsa; try done. assert ((method =? IKEV2_AUTH_SIG) = false) as Ex by (apply Z.eqb_neq; by intros ->).
      unfold dsa_digest in *. by rewrite Ex in *.
    + unfold blen in Hb. lia.
  - destruct (sign_final_prefixed F method sk md key msg pre s He E0 En) as (El & Hpos & Hw).
    eexists. split; [exact El|]. split; [lia|]. eapply wp_mono; [exact Hw|]. intros r s' [-> Hr]. split; [done|].
    destruct Hr as [?|(raw & rnd & Hs & Er & Hl & Et)]; [by left|right]. pose proof (blen_nonneg (pre ++ raw)).
    split; [lia|]. split; [|rewrite Et; by eapply made_prefixed].
    apply (f_equal length) in Et. rewrite length_take in Et. unfold blen in *. lia.
Qed.

(** [dsa_init] and [dsa_sign_final] make a signature the counterpart
    accepts. *)
Lemma dsa_sign_spec F method prf key k key' k' md hmac msg s :
  dsa_digest method (Some prf) true = Ok (Some md, hmac) → 0 ≤ hash_length_f prf < 2 ^ 31 →
  counterpart method key k key' k' →
  ∃ i d, dsa_init (keyed method (Some md) hmac true key k) None = Ok (i, d) ∧ (i = 0 ∨ i = -1) ∧
    (i = 0 → (dsa_update d msg).1 = 0 ∧ ∃ n, dsa_length (dsa_update d msg).2 = Ok n ∧ 0 ≤ n ∧
      wp F (dsa_sign_final (dsa_update d msg).2 (zeros n)) (λ r s', spent s s' ∧ (r.1 = -1 ∨ 0 ≤ r.1 ≤ n ∧ r.1 ≤ blen r.2 ∧
        signature method prf key' k' msg (take (Z.to_nat r.1) r.2))) s).
Proof.
  intros Hd Hl Hc. destruct (Z.eq_dec method IKEV2_AUTH_SHARED_KEY_MIC) as [->|Hm].
  - unfold dsa_digest in Hd. cbn in Hd. destruct (hash_isaead prf); [done|]. injection Hd as <- <-.
    eexists _, _. split; [reflexivity|]. split; [by left|]. intros _. split; [done|].
    destruct (sign_final_mic F prf key k msg s Hl) as [El Hw]. exists (hash_length_f prf). split; [exact El|]. split; [lia|].
    eapply wp_mono; [exact Hw|]. intros r s' [-> ->]. split; [done|]. right. cbn [fst snd]. split; [lia|].
    pose proof (ext_mac_length prf key msg ltac:(lia)) as Hm. split; [lia|]. unfold counterpart in Hc. cbn in Hc. subst key'. unfold signature. cbn. apply take_ge. unfold blen in *. lia.
  - assert (hmac = false ∧ dsa_digest method None true = Ok (Some md, false)) as [-> Hd'].
    { unfold dsa_digest in *. rewrite (proj2 (Z.eqb_neq _ _) Hm) in *. repeat case_match; by injection Hd as <- <-. }
    pose proof Hc as Hc'. unfold counterpart in Hc'. rewrite (proj2 (Z.eqb_neq _ _) Hm) in Hc'.
    destruct Hc' as (sk & pk & -> & -> & _). by apply sign_key_spec.
Qed.
End specs.

(** ** The identifiers as DER *)

(** The DER elements of [b], tag and content, for lengths below 128; [fuel]
    bounds their number. *)
Fixpoint der_elements (fuel : nat) (b : bytes) : option (list (byte * bytes)) :=
  match fuel, b with
  | O, _ => None
  | _, [] => Some []
  | _, [_] => None
  | S fuel, tag :: len :: rest =>
      let n := Zb len in
      if (n <? 128) && (n <=? blen rest) then
        l ← der_elements fuel (drop (Z.to_nat n) rest);
        Some ((tag, take (Z.to_nat n) rest) :: l)
      else None
  end.
Definition der (b : bytes) : option (list (byte * bytes)) := der_elements (S (length b)) b.

(** AlgorithmIdentifier of RFC 5280: a sequence of an object identifier and
    perhaps one element of parameters. *)
Definition algorithm_identifier (b : bytes) : bool :=
  match der b with
  | Some [(x30, content)] =>
      match der content with
      | Some ((x06, _) :: parameters) => (length parameters <=? 1)%nat
      | _ => false
      end
  | _ => false
  end.

(** The parameters of [rsapss_sha384] and [rsapss_sha512] claim 0x34 bytes where
    0x39 belong to them, so that the trailer field is left outside. *)
Lemma scheme_identifiers :
  List.filter (λ sc, negb (algorithm_identifier (sc_oid sc))) schemes =
    [mk_scheme EVP_PKEY_RSA EVP_sha384 rsapss_sha384 FLAG_RSA_PSS;
     mk_scheme EVP_PKEY_RSA EVP_sha512 rsapss_sha512 FLAG_RSA_PSS].
Proof. vm_compute. reflexivity. Qed.
