(* ===== verification/Payload.v ===== *)
(** * Payloads of IKE_AUTH: more [ikev2_add_*] of [ikev2.c], and [eap.c]

    The payloads after the proposals of [Build]: identity, certificates, AUTH,
    notifications, configuration, traffic selectors, and the EAP messages of
    the responder. The theorems are about traffic selectors: the range of
    addresses that is sent for a network is the network. *)

From S2P Require Import Prelude Types Ibuf Build Policy.

Definition IKEV2_PAYLOAD_VENDOR : Z := 43.
Definition IKEV2_CP_REQUEST : Z := 1.
Definition IKEV2_CP_REPLY : Z := 2.
Definition IKEV2_CFG_INTERNAL_IP4_NETMASK : Z := 2.
Definition IKEV2_CFG_INTERNAL_IP4_NBNS : Z := 4.
Definition IKEV2_CFG_INTERNAL_IP4_DHCP : Z := 6.
Definition IKEV2_CFG_APPLICATION_VERSION : Z := 7.
Definition IKEV2_CFG_INTERNAL_IP6_NBNS : Z := 11.
Definition IKEV2_CFG_INTERNAL_IP6_DHCP : Z := 12.
Definition IKEV2_CFG_INTERNAL_IP4_SUBNET : Z := 13.
Definition IKEV2_CFG_INTERNAL_IP6_SUBNET : Z := 15.
Definition IKEV2_CFG_INTERNAL_IP4_SERVER : Z := 23456.
Definition IKEV2_CFG_INTERNAL_IP6_SERVER : Z := 23457.
Definition IKEV2_IPCOMP_DEFLATE : Z := 2.
Definition EAP_MSCHAP_SUCCESS_SZ : Z := 42.

(** ** Early returns *)

(** [m], then [k] unless [m] failed: [if ((x = m) == NULL) goto done]. *)
Definition tryb {S A C} (m : M S (option A)) (k : A → M S (option C)) : M S (option C) :=
  o ← m; match o with None => mret None | Some a => k a end.
Notation "x ←? y ; z" := (tryb y (λ x, z))
  (at level 20, y at level 100, z at level 200, right associativity) : stdpp_scope.

(** A call that answers -1, or something other than 0, on failure. *)
Definition ok0 {S} (m : M S Z) : M S (option unit) := r ← m; mret (if r =? 0 then Some tt else None).

(** A payload under construction: its header and the length of its body. *)
Definition chain : Type := Z * Z.

Definition link (c : chain) (next : Z) : B (option unit) := ok0 (ikev2_next_payload c.1 c.2 next).

(** [ibuf_add_ibuf] of a buffer that may be null. *)
Definition add_ibuf (o : option bytes) : B (option Z) :=
  match o with
  | None => fail Fnull
  | Some d => _ ←? ok0 (b_add d); mret (Some (blen d))
  end.

(** ** Identity, certificates and AUTH *)

Definition add_id (id : iked_id) : B (option chain) :=
  pld ←? ikev2_add_payload;
  len ←? add_ibuf (id_buf id);
  mret (Some (pld, len)).

Definition add_cert (c : chain) (id : iked_id) : B (option chain) :=
  _ ←? link c IKEV2_PAYLOAD_CERT;
  pld ←? ikev2_add_payload;
  cert ←? b_reserve sizeof_cert;
  _ ← b_put cert [bZ (id_type id)];
  len ←? add_ibuf (id_buf id);
  mret (Some (pld, len + sizeof_cert)).

(** [for (i = 0; i < IKED_SCERT_MAX; i++)] *)
Fixpoint add_scerts (c : chain) (scert : list iked_id) : B (option chain) :=
  match scert with
  | [] => mret (Some c)
  | id :: scert =>
      if id_type id =? IKEV2_CERT_NONE then mret (Some c)
      else c ←? add_cert c id; add_scerts c scert
  end.

Definition add_auth (id : iked_id) : B (option chain) :=
  pld ←? ikev2_add_payload;
  auth ←? b_reserve sizeof_auth;
  _ ← b_put auth [bZ (id_type id)];
  len ←? add_ibuf (id_buf id);
  mret (Some (pld, len + sizeof_auth)).

Definition ikev2_add_certreq (c : chain) (certreq : option bytes) (type : Z) : B (option chain) :=
  if type =? IKEV2_CERT_NONE then mret (Some c)
  else
    _ ←? link c IKEV2_PAYLOAD_CERTREQ;
    pld ←? ikev2_add_payload;
    cert ←? b_reserve sizeof_cert;
    _ ← b_put cert [bZ type];
    match certreq with
    | Some d =>
        if type =? IKEV2_CERT_X509_CERT then _ ←? ok0 (b_add d); mret (Some (pld, sizeof_cert + blen d))
        else mret (Some (pld, sizeof_cert))
    | None => mret (Some (pld, sizeof_cert))
    end.

(** ** Notifications *)

Definition add_notify (c : chain) (notify : Z) : B (option chain) :=
  r ← ikev2_add_notify (Some c.1) c.2 notify;
  mret (match r with (len, Some pld) => if len =? -1 then None else Some (pld, len) | _ => None end).
Definition ikev2_add_mobike (c : chain) : B (option chain) := add_notify c IKEV2_N_MOBIKE_SUPPORTED.
Definition ikev2_add_fragmentation (c : chain) : B (option chain) := add_notify c IKEV2_N_FRAGMENTATION_SUPPORTED.
Definition ikev2_add_transport_mode (c : chain) : B (option chain) := add_notify c IKEV2_N_USE_TRANSPORT_MODE.

Definition signature_hashes : list Z := [2; 3; 4].

Definition ikev2_add_sighashnotify (c : chain) : B (option chain) :=
  _ ←? link c IKEV2_PAYLOAD_NOTIFY;
  let len := sizeof_notify + Z.of_nat (length signature_hashes) * 2 in
  pld ←? ikev2_add_payload;
  ptr ←? b_reserve len;
  _ ← b_put ptr [x00];
  _ ← b_put (ptr + 1) [x00];
  _ ← b_put (ptr + 2) (be_encode 2 IKEV2_N_SIGNATURE_HASH_ALGORITHMS);
  _ ← b_put (ptr + sizeof_notify) (concat (be_encode 2 <$> signature_hashes));
  mret (Some (pld, len)).

Definition ikev2_add_vendor_id (c : option chain) (id : bytes) : B (option chain) :=
  _ ←? match c with Some c => link c IKEV2_PAYLOAD_VENDOR | None => mret (Some tt) end;
  pld ←? ikev2_add_payload;
  len ←? add_ibuf (Some id);
  mret (Some (pld, len)).

(** The responder's answer to IPCOMP_SUPPORTED; the index is used once. *)
Definition ikev2_add_ipcompnotify (c : chain) (cpi_in : Z) : B (option chain) :=
  if cpi_in =? 0 then mret (Some c)
  else
    _ ←? link c IKEV2_PAYLOAD_NOTIFY;
    pld ←? ikev2_add_payload;
    let len := sizeof_notify + 2 + 1 in
    ptr ←? b_reserve len;
    _ ← b_put ptr [x00];
    _ ← b_put (ptr + 1) [x00];
    _ ← b_put (ptr + 2) (be_encode 2 IKEV2_N_IPCOMP_SUPPORTED);
    _ ← b_put (ptr + sizeof_notify) (be_encode 2 (to_u16 cpi_in));
    _ ← b_put (ptr + sizeof_notify + 2) [bZ IKEV2_IPCOMP_DEFLATE];
    mret (Some (pld, len)).

(** The length of the notification, or -1; what was written before a failure
    stays in the buffer. *)
Definition ikev2_add_error (m : iked_message) : B Z :=
  let err := msg_error m in
  if (err =? IKEV2_N_CHILD_SA_NOT_FOUND) || (err =? IKEV2_N_NO_PROPOSAL_CHOSEN) || (err =? IKEV2_N_INVALID_KE_PAYLOAD) then
    o ← b_reserve sizeof_notify;
    match o with
    | None => mret (-1)
    | Some n =>
        _ ← b_put (n + 2) (be_encode 2 err);
        if err =? IKEV2_N_CHILD_SA_NOT_FOUND then
          let rekey := msg_rekey m in
          if (spi_size rekey =? 4) || (spi_size rekey =? 8) then
            r ← b_add (be_encode (Z.to_nat (spi_size rekey)) (Types.spi rekey));
            if negb (r =? 0) then mret (-1)
            else
              _ ← b_put n [bZ (spi_protoid rekey)];
              _ ← b_put (n + 1) [bZ (spi_size rekey)];
              mret (sizeof_notify + spi_size rekey)
          else mret (-1)
        else if err =? IKEV2_N_INVALID_KE_PAYLOAD then
          r ← b_add (be_encode 2 (msg_dhgroup m));
          if negb (r =? 0) then mret (-1)
          else
            _ ← b_put n [x00];
            _ ← b_put (n + 1) [x00];
            mret (sizeof_notify + 2)
        else
          _ ← b_put n [x00];
          _ ← b_put (n + 1) [x00];
          mret sizeof_notify
    end
  else mret (-1).

(** ** Configuration *)

Fixpoint le_encode (n : nat) (z : Z) : bytes :=
  match n with O => [] | S n => bZ z :: le_encode n (z / 256) end.

Record iked_cfg := mk_cfg { cfg_action : Z; cfg_type : Z; cfg_address : iked_addr }.

(** What an SA knows of configured addresses: [sa_cp], [sa_addrpool],
    [sa_addrpool6], [sa_cp_addr] and [sa_cp_addr6]. *)
Record cp_info := mk_cp_info {
  sa_cp : Z;
  sa_addrpool : option iked_addr; sa_addrpool6 : option iked_addr;
  sa_cp_addr : option iked_addr; sa_cp_addr6 : option iked_addr }.

Definition ip4_of (a : iked_addr) : out bytes := rd (sin_addr (addr a)) 0 4.
Definition ip6_of (a : iked_addr) : out bytes := rd (sin_addr (addr a)) 0 16.

Definition cfg_ip4 (type : Z) : bool :=
  (type =? IKEV2_CFG_INTERNAL_IP4_ADDRESS) || (type =? IKEV2_CFG_INTERNAL_IP4_NETMASK) ||
  (type =? IKEV2_CFG_INTERNAL_IP4_DNS) || (type =? IKEV2_CFG_INTERNAL_IP4_NBNS) ||
  (type =? IKEV2_CFG_INTERNAL_IP4_DHCP) || (type =? IKEV2_CFG_INTERNAL_IP4_SERVER).
Definition cfg_ip6 (type : Z) : bool :=
  (type =? IKEV2_CFG_INTERNAL_IP6_DNS) || (type =? IKEV2_CFG_INTERNAL_IP6_NBNS) ||
  (type =? IKEV2_CFG_INTERNAL_IP6_DHCP) || (type =? IKEV2_CFG_INTERNAL_IP6_SERVER).

(** A pool of the family, if there is one. *)
Definition pool_of (pool : option iked_addr) (af : Z) : option iked_addr :=
  match pool with Some a => if addr_af a =? af then Some a else None | None => None end.

(** The flags of [ikev2_add_cp] and the length so far. *)
Record cp_sent := mk_cp_sent { sent_addr4 : bool; sent_addr6 : bool; have_mask4 : bool; sent_mask4 : bool; cp_len : Z }.

(** The [switch] of [ikev2_add_cp] on one attribute at [cfg]. *)
Definition add_cfg (i : cp_info) (type : Z) (cfg : Z) (c : iked_cfg) (s : cp_sent) : B (option cp_sent) :=
  let t := cfg_type c in
  let len := cp_len s + sizeof_cfg in
  let keep len := mk_cp_sent (sent_addr4 s) (sent_addr6 s) (have_mask4 s) (sent_mask4 s) len in
  if cfg_ip4 t then
    let pool := pool_of (sa_addrpool i) AF_INET in
    let a := if t =? IKEV2_CFG_INTERNAL_IP4_ADDRESS then default (cfg_address c) pool else cfg_address c in
    in4 ← lift (ip4_of a);
    if (type =? IKEV2_CP_REQUEST) && (le_decode in4 =? 0) then mret (Some (keep len))
    else
      _ ← b_put (cfg + 2) (be_encode 2 4);
      _ ←? ok0 (b_add in4);
      let isaddr := t =? IKEV2_CFG_INTERNAL_IP4_ADDRESS in
      mret (Some (mk_cp_sent (isaddr || sent_addr4 s) (sent_addr6 s)
        ((isaddr && match pool with Some p => negb (addr_mask p =? 0) | None => false end) || have_mask4 s)
        ((t =? IKEV2_CFG_INTERNAL_IP4_NETMASK) || sent_mask4 s) (len + 4)))
  else if t =? IKEV2_CFG_INTERNAL_IP4_SUBNET then
    in4 ← lift (ip4_of (cfg_address c));
    _ ← b_put (cfg + 2) (be_encode 2 8);
    _ ←? ok0 (b_add in4);
    _ ←? ok0 (b_add (le_encode 4 (prefixlen2mask (addr_mask (cfg_address c)))));
    mret (Some (keep (len + 8)))
  else if cfg_ip6 t then
    in6 ← lift (ip6_of (cfg_address c));
    _ ← b_put (cfg + 2) (be_encode 2 16);
    _ ←? ok0 (b_add in6);
    mret (Some (keep (len + 16)))
  else if (t =? IKEV2_CFG_INTERNAL_IP6_ADDRESS) || (t =? IKEV2_CFG_INTERNAL_IP6_SUBNET) then
    let isaddr := t =? IKEV2_CFG_INTERNAL_IP6_ADDRESS in
    let a := if isaddr then default (cfg_address c) (pool_of (sa_addrpool6 i) AF_INET6) else cfg_address c in
    in6 ← lift (ip6_of a);
    if (type =? IKEV2_CP_REQUEST) && (le_decode in6 =? 0) then mret (Some (keep len))
    else
      _ ← b_put (cfg + 2) (be_encode 2 17);
      _ ←? ok0 (b_add in6);
      let prefixlen := if addr_net (cfg_address c) then addr_mask (cfg_address c) else 128 in
      _ ←? ok0 (b_add [bZ prefixlen]);
      mret (Some (mk_cp_sent (sent_addr4 s) (isaddr || sent_addr6 s) (have_mask4 s) (sent_mask4 s) (len + 16 + 1)))
  else if t =? IKEV2_CFG_APPLICATION_VERSION then _ ← b_put (cfg + 2) (be_encode 2 0); mret (Some (keep len))
  else mret (Some (keep len)).

Fixpoint add_cfgs (i : cp_info) (type : Z) (cfgs : list iked_cfg) (s : cp_sent) : B (option cp_sent) :=
  match cfgs with
  | [] => mret (Some s)
  | c :: cfgs =>
      if negb (cfg_action c =? type) then add_cfgs i type cfgs s
      else if (type =? IKEV2_CP_REPLY) &&
              (((cfg_type c =? IKEV2_CFG_INTERNAL_IP4_ADDRESS) && sent_addr4 s) ||
               ((cfg_type c =? IKEV2_CFG_INTERNAL_IP6_ADDRESS) && sent_addr6 s)) then add_cfgs i type cfgs s
      else
        cfg ←? b_reserve sizeof_cfg;
        _ ← b_put cfg (be_encode 2 (cfg_type c));
        s ←? add_cfg i type cfg c s;
        add_cfgs i type cfgs s
  end.

(** The length of the payload. *)
Definition ikev2_add_cp (i : cp_info) (pol_cfg : list iked_cfg) (type : Z) : B (option Z) :=
  cp ←? b_reserve sizeof_cp;
  if negb ((type =? IKEV2_CP_REQUEST) || (type =? IKEV2_CP_REPLY)) then mret None
  else
    _ ← b_put cp [bZ type];
    s ←? add_cfgs i type pol_cfg (mk_cp_sent false false false false sizeof_cp);
    if (type =? IKEV2_CP_REPLY) && have_mask4 s && negb (sent_mask4 s) then
      cfg ←? b_reserve sizeof_cfg;
      _ ← b_put cfg (be_encode 2 IKEV2_CFG_INTERNAL_IP4_NETMASK);
      match sa_addrpool i with
      | None => fail Fnull
      | Some pool =>
          _ ← b_put (cfg + 2) (be_encode 2 4);
          _ ←? ok0 (b_add (le_encode 4 (prefixlen2mask (addr_mask pool))));
          mret (Some (cp_len s + sizeof_cfg + 4))
      end
    else mret (Some (cp_len s)).

Definition ikev2_resp_add_cp (i : cp_info) (pol_cfg : list iked_cfg) : B (option Z) :=
  if sa_cp i =? IKEV2_CP_REQUEST then ikev2_add_cp i pol_cfg IKEV2_CP_REPLY else mret None.
Definition ikev2_init_add_cp (i : cp_info) (pol_cfg : list iked_cfg) : B (option Z) :=
  ikev2_add_cp i pol_cfg IKEV2_CP_REQUEST.
Definition ikev2_cp_request_configured (pol_cfg : list iked_cfg) : bool :=
  existsb (λ c, cfg_action c =? IKEV2_CP_REQUEST) pol_cfg.

(** ** Traffic selectors *)

Record iked_ts := mk_ts { ts_addr : iked_addr; ts_ipproto : Z }.

(** The address to send in place of an unspecified one, in [patched]: [None]
    for a negative return value. *)
Definition ikev2_cp_fixaddr (i : cp_info) (a patched : iked_addr) : out (option iked_addr) :=
  let patch (naddr : option iked_addr) mask :=
    match naddr with
    | None => None
    | Some n => Some (mk_iked_addr (addr_af n) (Types.addr n) mask false (addr_port n))
    end in
  if addr_net a then Ok None
  else if sa_cp i =? 0 then Ok None
  else if addr_af a =? AF_INET then
    in4 ← ip4_of a;
    Ok (if negb (le_decode in4 =? 0) then None
        else patch (if sa_cp i =? IKEV2_CP_REQUEST then sa_addrpool i else sa_cp_addr i) 32)
  else if addr_af a =? AF_INET6 then
    in6 ← ip6_of a;
    Ok (if negb (le_decode in6 =? 0) then None
        else patch (if sa_cp i =? IKEV2_CP_REQUEST then sa_addrpool6 i else sa_cp_addr6 i) 128)
  else Ok (Some patched).

(** The first and the last address of a selector, as they are in memory. *)
Definition ts_range4 (a : iked_addr) : out (bytes * bytes) :=
  in4 ← ip4_of a;
  let s_addr := le_decode in4 in
  if addr_net a then
    let mv := prefixlen2mask (addr_mask a) in
    Ok (le_encode 4 (Z.land s_addr mv), le_encode 4 (Z.lor s_addr (Z.lxor mv 0xffffffff)))
  else Ok (le_encode 4 s_addr, le_encode 4 s_addr).

Definition ts_range6 (a : iked_addr) : out (bytes * bytes) :=
  in6 ← ip6_of a;
  if addr_net a then
    let mv := prefixlen2mask6 (addr_mask a) in
    Ok (concat ((λ j, le_encode 4 (Z.land (word j in6) (word j mv))) <$> [0; 1; 2; 3]),
        concat ((λ j, le_encode 4 (Z.lor (word j in6) (Z.lxor (word j mv) 0xffffffff))) <$> [0; 1; 2; 3]))
  else Ok (in6, in6).

(** One selector; the length it adds. A port is kept in network order. *)
Definition add_ts (a : iked_addr) (ipproto : Z) : B (option Z) :=
  ts ←? b_reserve sizeof_ts;
  _ ← b_put (ts + 1) [bZ ipproto];
  _ ← b_put (ts + 4) (host16 (if negb (addr_port a =? 0) then addr_port a else 0));
  _ ← b_put (ts + 6) (host16 (if negb (addr_port a =? 0) then addr_port a else 0xffff));
  if addr_af a =? AF_INET then
    _ ← b_put ts [bZ IKEV2_TS_IPV4_ADDR_RANGE];
    _ ← b_put (ts + 2) (be_encode 2 (sizeof_ts + 8));
    ptr ←? b_reserve 8;
    r ← lift (ts_range4 a);
    _ ← b_put ptr r.1;
    _ ← b_put (ptr + 4) r.2;
    mret (Some (sizeof_ts + 8))
  else if addr_af a =? AF_INET6 then
    _ ← b_put ts [bZ IKEV2_TS_IPV6_ADDR_RANGE];
    _ ← b_put (ts + 2) (be_encode 2 (sizeof_ts + 32));
    ptr ←? b_reserve 32;
    r ← lift (ts_range6 a);
    _ ← b_put ptr r.1;
    _ ← b_put (ptr + 16) r.2;
    mret (Some (sizeof_ts + 32))
  else mret (Some 0).

Definition addr_zero : iked_addr := mk_iked_addr 0 (mk_sockaddr 0 0 []) 0 false 0.

Fixpoint add_tss (i : cp_info) (patch : bool) (tss : list iked_ts) (pooladdr : iked_addr) (len : Z) : B (option Z) :=
  match tss with
  | [] => mret (Some len)
  | t :: tss =>
      o ← (if patch then lift (ikev2_cp_fixaddr i (ts_addr t) pooladdr) else mret None);
      n ←? add_ts (default (ts_addr t) o) (ts_ipproto t);
      add_tss i patch tss (default pooladdr o) (len + n)
  end.

(** [src] and [dst] are the selectors of the policy, with their counts. *)
Definition ikev2_add_ts_payload (initiator : bool) (i : cp_info) (src dst : list iked_ts) (type : Z) : B (option Z) :=
  tsp ←? b_reserve sizeof_tsp;
  if (type =? IKEV2_PAYLOAD_TSi) || (type =? IKEV2_PAYLOAD_TSr) then
    let tss := if Bool.eqb (type =? IKEV2_PAYLOAD_TSi) initiator then src else dst in
    _ ← b_put tsp [bZ (Z.of_nat (length tss))];
    let patch := ((type =? IKEV2_PAYLOAD_TSi) && negb initiator) || ((type =? IKEV2_PAYLOAD_TSr) && initiator) in
    add_tss i patch tss addr_zero sizeof_tsp
  else mret None.

Definition ikev2_add_ts (initiator : bool) (i : cp_info) (src dst : list iked_ts) (c : chain) (reverse : bool)
  : B (option chain) :=
  _ ←? link c IKEV2_PAYLOAD_TSi;
  pld ←? ikev2_add_payload;
  len ←? ikev2_add_ts_payload initiator i src dst (if reverse then IKEV2_PAYLOAD_TSr else IKEV2_PAYLOAD_TSi);
  _ ←? link (pld, len) IKEV2_PAYLOAD_TSr;
  pld ←? ikev2_add_payload;
  len ←? ikev2_add_ts_payload initiator i src dst (if reverse then IKEV2_PAYLOAD_TSi else IKEV2_PAYLOAD_TSr);
  mret (Some (pld, len)).

(** ** EAP *)

Definition sizeof_eap : Z := 5.

(** The header of an EAP message with a type. *)
Definition put_eap (p code id length type : Z) : B unit :=
  _ ← b_put p [bZ code];
  _ ← b_put (p + 1) [bZ id];
  _ ← b_put (p + 2) (be_encode 2 length);
  b_put (p + 4) [bZ type].

Definition eap_add_id_request : B (option Z) :=
  p ←? b_reserve sizeof_eap;
  _ ← put_eap p EAP_CODE_REQUEST 0 sizeof_eap EAP_TYPE_IDENTITY;
  mret (Some sizeof_eap).

(** [IKED_USER] *)
Definition eap_name : bytes := bZ <$> [0x5f; 0x69; 0x6b; 0x65; 0x64].
Definition sizeof_msc : Z := 21.

Definition eap_challenge (eap_id : Z) (challenge : bytes) : B (option unit) :=
  let id := to_u8 (eap_id + 1) in
  p ←? b_reserve sizeof_eap;
  _ ← put_eap p EAP_CODE_REQUEST id (sizeof_eap + sizeof_msc + blen eap_name) EAP_TYPE_MSCHAP_V2;
  ms ←? b_reserve sizeof_msc;
  _ ← b_put ms [bZ EAP_MSOPCODE_CHALLENGE];
  _ ← b_put (ms + 1) [bZ id];
  _ ← b_put (ms + 2) (be_encode 2 (sizeof_msc + blen eap_name));
  _ ← b_put (ms + 4) [bZ EAP_MSCHAP_CHALLENGE_SZ];
  _ ← b_put (ms + 5) challenge;
  ok0 (b_add eap_name).

Definition eap_short (eap_code eap_id : Z) : B (option unit) :=
  p ←? b_reserve 4;
  _ ← b_put p [bZ eap_code];
  _ ← b_put (p + 1) [bZ eap_id];
  _ ← b_put (p + 2) (be_encode 2 4);
  mret (Some tt).

(** " M=Welcome" *)
Definition eap_welcome : bytes := bZ <$> [0x20; 0x4d; 0x3d; 0x57; 0x65; 0x6c; 0x63; 0x6f; 0x6d; 0x65].

Definition eap_success_request (eap_id msr_id : Z) (successmsg : bytes) : B (option unit) :=
  let len := 4 + blen successmsg + blen eap_welcome in
  p ←? b_reserve sizeof_eap;
  _ ← put_eap p EAP_CODE_REQUEST (to_u8 (eap_id + 1)) (sizeof_eap + len) EAP_TYPE_MSCHAP_V2;
  mss ←? b_reserve 4;
  _ ← b_put mss [bZ EAP_MSOPCODE_SUCCESS];
  _ ← b_put (mss + 1) [bZ msr_id];
  _ ← b_put (mss + 2) (be_encode 2 len);
  _ ←? ok0 (b_add successmsg);
  ok0 (b_add eap_welcome).

Definition eap_success_response (eap_id : Z) : B (option unit) :=
  p ←? b_reserve sizeof_eap;
  _ ← put_eap p EAP_CODE_RESPONSE eap_id (sizeof_eap + 1) EAP_TYPE_MSCHAP_V2;
  ms ←? b_reserve 1;
  _ ← b_put ms [bZ EAP_MSOPCODE_SUCCESS];
  mret (Some tt).

(** ** Bytes and bits *)

Definition band (a b : byte) : byte := bZ (Z.land (Zb a) (Zb b)).
Definition bor (a b : byte) : byte := bZ (Z.lor (Zb a) (Zb b)).
Definition bnot (a : byte) : byte := bZ (255 - Zb a).

(** A bit-wise operation on numbers, byte by byte. *)
Class Bitwise (f : Z → Z → Z) : Prop := {
  bitwise_split x r y t : 0 ≤ x < 256 → 0 ≤ y < 256 → f (x + 256 * r) (y + 256 * t) = f x y + 256 * f r t;
  bitwise_byte x y : 0 ≤ x < 256 → 0 ≤ y < 256 → 0 ≤ f x y < 256;
  bitwise_0 : f 0 0 = 0 }.

Lemma testbit_split x r n : 0 ≤ x < 256 → 0 ≤ n → Z.testbit (x + 256 * r) n = if n <? 8 then Z.testbit x n else Z.testbit r (n - 8).
Proof.
  intros Hx Hn. change 256 with (2 ^ 8). destruct (Z.ltb_spec n 8).
  - rewrite <- (Z.mod_pow2_bits_low (x + _) 8) by done. rewrite (Z.mul_comm (2 ^ 8)), Z.mod_add, Z.mod_pow2_bits_low by lia. done.
  - replace n with (n - 8 + 8) at 1 by lia. rewrite <- Z.div_pow2_bits by lia. f_equal.
    rewrite (Z.mul_comm (2 ^ 8)), Z.div_add by lia. rewrite (Z.div_small x) by (change (2 ^ 8) with 256; lia). lia.
Qed.

Lemma byte_bits x : 0 ≤ x → (∀ n, 8 ≤ n → Z.testbit x n = false) → x < 256.
Proof.
  intros Hx Hb. destruct (Z.eq_dec x 0) as [->|]; [lia|]. apply (Z.log2_lt_cancel _ 256). change (Z.log2 256) with 8.
  apply Z.nle_gt. intros Hl. specialize (Hb _ Hl). rewrite Z.bit_log2 in Hb by lia. done.
Qed.
Lemma byte_high x n : 0 ≤ x < 256 → 8 ≤ n → Z.testbit x n = false.
Proof.
  intros Hx Hn. destruct (Z.eq_dec x 0) as [->|]; [apply Z.bits_0|]. apply Z.bits_above_log2; [lia|].
  pose proof (Z.log2_lt_pow2 x 8). lia.
Qed.

#[global] Instance land_bitwise : Bitwise Z.land.
Proof.
  assert (∀ x y, 0 ≤ x < 256 → 0 ≤ y < 256 → 0 ≤ Z.land x y < 256) as Hb.
  { intros x y Hx Hy. assert (0 ≤ Z.land x y) by (apply Z.land_nonneg; lia). split; [done|]. apply byte_bits; [done|].
    intros n Hn. rewrite Z.land_spec, byte_high by lia. done. }
  split; [|done|done]. intros x r y t Hx Hy. apply Z.bits_inj'. intros n Hn.
  rewrite testbit_split by (try apply Hb; lia). rewrite !Z.land_spec, !testbit_split by lia. by destruct (n <? 8).
Qed.
#[global] Instance lor_bitwise : Bitwise Z.lor.
Proof.
  assert (∀ x y, 0 ≤ x < 256 → 0 ≤ y < 256 → 0 ≤ Z.lor x y < 256) as Hb.
  { intros x y Hx Hy. assert (0 ≤ Z.lor x y) by (apply Z.lor_nonneg; lia). split; [done|]. apply byte_bits; [done|].
    intros n Hn. rewrite Z.lor_spec, !byte_high by lia. done. }
  split; [|done|done]. intros x r y t Hx Hy. apply Z.bits_inj'. intros n Hn.
  rewrite testbit_split by (try apply Hb; lia). rewrite !Z.lor_spec, !testbit_split by lia. by destruct (n <? 8).
Qed.

Definition zipb (f : Z → Z → Z) (a b : bytes) : bytes := zip_with (λ x y, bZ (f (Zb x) (Zb y))) a b.

Section zipb.
Context (f : Z → Z → Z) `{!Bitwise f}.

Lemma le_decode_zip a b : length a = length b → le_decode (zipb f a b) = f (le_decode a) (le_decode b).
Proof.
  revert b. induction a as [|x a IH]; intros [|y b] Hl; try done; [by rewrite bitwise_0|]. cbn. unfold zipb in IH.
  pose proof (Zb_range x). pose proof (Zb_range y). rewrite bitwise_split, IH by (try simpl in Hl; lia).
  rewrite Zb_bZ, Z.mod_small by (apply bitwise_byte; lia). done.
Qed.
Lemma be_decode_zip a b acc acc' :
  length a = length b → be_decode (f acc acc') (zipb f a b) = f (be_decode acc a) (be_decode acc' b).
Proof.
  revert b acc acc'. induction a as [|x a IH]; intros [|y b] acc acc' Hl; try done. cbn. unfold zipb in IH.
  pose proof (Zb_range x). pose proof (Zb_range y). rewrite <- IH by (simpl in Hl; lia). f_equal.
  rewrite Zb_bZ, Z.mod_small by (apply bitwise_byte; lia). rewrite (Z.add_comm (acc * 256)), (Z.add_comm (acc' * 256)).
  rewrite (Z.mul_comm acc), (Z.mul_comm acc'), bitwise_split by lia. lia.
Qed.
End zipb.

Lemma le_encode_decode l : le_encode (length l) (le_decode l) = l.
Proof.
  induction l as [|x l IH]; [done|]. cbn [length le_encode le_decode]. pose proof (Zb_range x).
  rewrite (Z.mul_comm 256), Z.div_add, (Z.div_small (Zb x)), Z.add_0_l, IH by lia. f_equal. apply Zb_inj.
  rewrite Zb_bZ, Z.mod_add, Z.mod_small by lia. done.
Qed.
Lemma length_zipb f a b : length a = length b → length (zipb f a b) = length a.
Proof. intros. unfold zipb. rewrite length_zip_with. lia. Qed.
Lemma le_encode_zip f `{!Bitwise f} a b n :
  length a = n → length b = n → le_encode n (f (le_decode a) (le_decode b)) = zipb f a b.
Proof.
  intros Ha Hb. rewrite <- (le_decode_zip f) by congruence. rewrite <- Ha at 1.
  rewrite <- (length_zipb f a b) by congruence. apply le_encode_decode.
Qed.
Lemma zipb_app f a b a' b' : length a = length a' → zipb f (a ++ b) (a' ++ b') = zipb f a a' ++ zipb f b b'.
Proof. intros. unfold zipb. by apply zip_with_app. Qed.

Lemma le_decode_inj a b : length a = length b → le_decode a = le_decode b → a = b.
Proof. intros Hl E. rewrite <- (le_encode_decode a), <- (le_encode_decode b). congruence. Qed.
Lemma be_decode_inj a b acc : length a = length b → be_decode acc a = be_decode acc b → a = b.
Proof.
  revert b acc. induction a as [|x a IH] using rev_ind; intros b acc Hl E.
  { by destruct b. }
  destruct b as [|y b _] using rev_ind; [rewrite length_app in Hl; simpl in Hl; lia|].
  rewrite !length_app in Hl. simpl in Hl. rewrite !be_decode_app in E. cbn in E.
  pose proof (Zb_range x). pose proof (Zb_range y).
  assert (be_decode acc a = be_decode acc b ∧ Zb x = Zb y) as [E1 E2%Zb_inj] by lia.
  rewrite (IH b acc), E2; [done|lia|done].
Qed.

Lemma length_bnot m : length (bnot <$> m) = length m.
Proof. apply length_fmap. Qed.
Lemma be_decode_bnot m : be_decode 0 (bnot <$> m) = 256 ^ Z.of_nat (length m) - 1 - be_decode 0 m.
Proof.
  induction m as [|x m IH] using rev_ind; [done|]. rewrite fmap_app, !be_decode_app, IH, length_app. cbn.
  pose proof (Zb_range x). unfold bnot. rewrite Zb_bZ, Z.mod_small by lia. rewrite Nat2Z.inj_add, Z.pow_add_r by lia.
  change (256 ^ Z.of_nat 1) with 256. lia.
Qed.
Lemma le_decode_bnot m : le_decode (bnot <$> m) = 256 ^ Z.of_nat (length m) - 1 - le_decode m.
Proof.
  induction m as [|x m IH]; [done|]. cbn [fmap list_fmap le_decode length]. rewrite IH. pose proof (Zb_range x). unfold bnot.
  rewrite Zb_bZ, Z.mod_small by lia. rewrite Nat2Z.inj_succ, Z.pow_succ_r by lia. lia.
Qed.

(** ** Ranges *)

Lemma land_high n k x : 0 ≤ k ≤ n → 0 ≤ x < 2 ^ n → Z.land x (2 ^ n - 2 ^ k) = 2 ^ k * (x / 2 ^ k).
Proof.
  intros Hk Hx. assert (2 ^ n - 2 ^ k = Z.ldiff (Z.ones n) (Z.ones k)) as ->.
  { rewrite Z.ldiff_ones_r by lia. rewrite Z.shiftr_div_pow2, Z.shiftl_mul_pow2, Z.ones_equiv by lia.
    replace n with (n - k + k) at 2 by lia. rewrite Z.pow_add_r by lia. pose proof (Z.pow_pos_nonneg 2 k).
    replace (Z.pred (2 ^ (n - k) * 2 ^ k)) with (2 ^ k - 1 + (2 ^ (n - k) - 1) * 2 ^ k) by lia.
    rewrite Z.div_add, Z.div_small by lia. replace n with (n - k + k) at 1 by lia. rewrite Z.pow_add_r by lia. lia. }
  assert (Z.land x (Z.ldiff (Z.ones n) (Z.ones k)) = Z.ldiff (Z.land x (Z.ones n)) (Z.ones k)) as ->.
  { apply Z.bits_inj'. intros i Hi. rewrite !Z.land_spec, !Z.ldiff_spec, Z.land_spec. by rewrite andb_assoc. }
  rewrite Z.land_ones, Z.mod_small, Z.ldiff_ones_r, Z.shiftr_div_pow2, Z.shiftl_mul_pow2 by lia. lia.
Qed.
Lemma lor_low k x : 0 ≤ k → 0 ≤ x → Z.lor x (2 ^ k - 1) = 2 ^ k * (x / 2 ^ k) + (2 ^ k - 1).
Proof.
  intros Hk Hx. replace (2 ^ k - 1) with (Z.ones k) by (rewrite Z.ones_equiv; lia).
  replace (2 ^ k * (x / 2 ^ k)) with (Z.ldiff x (Z.ones k))
    by (rewrite Z.ldiff_ones_r, Z.shiftr_div_pow2, Z.shiftl_mul_pow2 by lia; lia).
  rewrite <- Z.add_lor_land. assert (Z.land (Z.ldiff x (Z.ones k)) (Z.ones k) = 0) as ->.
  { apply Z.bits_inj'. intros i Hi. rewrite Z.land_spec, Z.ldiff_spec, Z.bits_0. by destruct (Z.testbit x i), (Z.testbit (Z.ones k) i). }
  rewrite Z.add_0_r. apply Z.bits_inj'. intros i Hi. rewrite !Z.lor_spec, Z.ldiff_spec.
  by destruct (Z.testbit x i), (Z.testbit (Z.ones k) i).
Qed.

(** The addresses between the first and the last are those with the same
    bits under the mask. *)
Lemma masked_range a m x k :
  length m = length a → length x = length a → 0 ≤ k ≤ 8 * Z.of_nat (length a) →
  be_decode 0 m = 2 ^ (8 * Z.of_nat (length a)) - 2 ^ k →
  be_decode 0 (zipb Z.land a m) ≤ be_decode 0 x ≤ be_decode 0 (zipb Z.lor a (bnot <$> m)) ↔
  zipb Z.land x m = zipb Z.land a m.
Proof.
  intros Lm Lx Hk Em. assert (∀ y, length y = length a → 0 ≤ be_decode 0 y < 2 ^ (8 * Z.of_nat (length a))) as Hr.
  { intros y Hy. pose proof (be_decode_range 0 y ltac:(lia)) as H. rewrite Hy in H. rewrite Z.pow_mul_r by lia.
    change (2 ^ 8) with 256. lia. }
  assert (∀ y, length y = length a → be_decode 0 (zipb Z.land y m) = 2 ^ k * (be_decode 0 y / 2 ^ k)) as Hand.
  { intros y Hy. pose proof (be_decode_zip Z.land y m 0 0 ltac:(congruence)) as E. change (Z.land 0 0) with 0 in E. rewrite E, Em.
    apply land_high; [lia|by apply Hr]. }
  pose proof (be_decode_zip Z.lor a (bnot <$> m) 0 0 ltac:(rewrite length_bnot; congruence)) as Eor. change (Z.lor 0 0) with 0 in Eor.
  rewrite be_decode_bnot, Em, Lm in Eor. change 256 with (2 ^ 8) in Eor. rewrite <- Z.pow_mul_r in Eor by lia.
  replace (2 ^ (8 * Z.of_nat (length a)) - 1 - (2 ^ (8 * Z.of_nat (length a)) - 2 ^ k)) with (2 ^ k - 1) in Eor by lia.
  rewrite lor_low in Eor by (try apply Hr; lia). rewrite Eor, Hand by done. set (A := be_decode 0 a). set (X := be_decode 0 x).
  pose proof (Z.pow_pos_nonneg 2 k ltac:(lia) ltac:(lia)). pose proof (Z.div_mod X (2 ^ k) ltac:(lia)) as Ex.
  pose proof (Z.mod_pos_bound X (2 ^ k) ltac:(lia)). split.
  - intros Hb. apply (be_decode_inj _ _ 0); [rewrite !length_zipb; congruence|]. rewrite !Hand by done. fold A X. f_equal. nia.
  - intros E. apply (f_equal (be_decode 0)) in E. rewrite !Hand in E by done. fold A X in E.
    assert (X / 2 ^ k = A / 2 ^ k) as Eq by nia. nia.
Qed.

Lemma lxor_ones n x : 0 ≤ n → 0 ≤ x < 2 ^ n → Z.lxor x (2 ^ n - 1) = 2 ^ n - 1 - x.
Proof.
  intros Hn Hx. replace (2 ^ n - 1) with (Z.ones n) by (rewrite Z.ones_equiv; lia).
  assert (∀ i, 0 ≤ i → n ≤ i → Z.testbit x i = false) as Hh.
  { intros i Hi Hni. destruct (Z.eq_dec x 0) as [->|]; [apply Z.bits_0|]. apply Z.bits_above_log2; [lia|].
    pose proof (proj1 (Z.log2_lt_pow2 x n ltac:(lia)) ltac:(lia)). lia. }
  rewrite Z.sub_nocarry_ldiff.
  - apply Z.bits_inj'. intros i Hi. rewrite Z.lxor_spec, Z.ldiff_spec. destruct (Z.lt_ge_cases i n).
    + rewrite Z.ones_spec_low by lia. by destruct (Z.testbit x i).
    + rewrite Z.ones_spec_high, Hh by lia. done.
  - apply Z.bits_inj'. intros i Hi. rewrite Z.ldiff_spec, Z.bits_0. destruct (Z.lt_ge_cases i n).
    + rewrite Z.ones_spec_low by lia. apply andb_false_r.
    + by rewrite Hh by lia.
Qed.

(** A test on all values of a byte. *)
Lemma check_bytes (f : Z → bool) : forallb (λ i, f (Z.of_nat i)) (seq 0 256) = true → ∀ p, 0 ≤ p < 256 → f p = true.
Proof.
  intros H p Hp. rewrite List.forallb_forall in H. specialize (H (Z.to_nat p)). rewrite Z2Nat.id in H by lia.
  apply H, List.in_seq. lia.
Qed.

(** The masks, as bytes. *)
Lemma mask4_bytes p : 0 ≤ p < 256 →
  let m := le_encode 4 (prefixlen2mask p) in
  le_decode m = prefixlen2mask p ∧ ∃ k, 0 ≤ k ≤ 32 ∧ be_decode 0 m = 2 ^ 32 - 2 ^ k.
Proof.
  intros Hp m. assert ((le_decode m =? prefixlen2mask p) && (be_decode 0 m =? 2 ^ 32 - 2 ^ (32 - Z.min p 32)) = true) as H.
  { unfold m. revert p m Hp. intros p _. revert p. apply check_bytes. vm_compute. reflexivity. }
  apply andb_true_iff in H as [E1%Z.eqb_eq E2%Z.eqb_eq]. split; [done|]. exists (32 - Z.min p 32). split; [lia|done].
Qed.
Lemma mask6_bytes p : 0 ≤ p < 256 →
  length (prefixlen2mask6 p) = 16%nat ∧ ∃ k, 0 ≤ k ≤ 128 ∧ be_decode 0 (prefixlen2mask6 p) = 2 ^ 128 - 2 ^ k.
Proof.
  intros Hp. assert ((be_decode 0 (prefixlen2mask6 p) =? 2 ^ 128 - 2 ^ (128 - Z.min p 128)) = true) as H%Z.eqb_eq.
  { revert p Hp. apply check_bytes. vm_compute. reflexivity. }
  split; [done|]. exists (128 - Z.min p 128). split; [lia|done].
Qed.

Lemma length_le_encode n z : length (le_encode n z) = n.
Proof. revert z. induction n as [|n IH]; intros z; [done|]. cbn. by rewrite IH. Qed.

(** First and last address of four bytes under a mask. *)
Lemma word_range a m :
  length a = 4%nat → length m = 4%nat →
  le_encode 4 (Z.land (le_decode a) (le_decode m)) = zipb Z.land a m ∧
  le_encode 4 (Z.lor (le_decode a) (Z.lxor (le_decode m) 0xffffffff)) = zipb Z.lor a (bnot <$> m).
Proof.
  intros Ha Hm. split; [by apply le_encode_zip; try apply _|].
  rewrite <- (le_encode_zip Z.lor) with (n := 4%nat) by (rewrite ?length_bnot; done). do 2 f_equal. rewrite le_decode_bnot, Hm.
  apply (lxor_ones 32); [lia|]. clear Ha. do 4 (destruct m as [|? m]; [done|]). destruct m; [|done]. cbn -[Zb].
  pose proof (Zb_range b). pose proof (Zb_range b0). pose proof (Zb_range b1). pose proof (Zb_range b2). lia.
Qed.

Lemma masked_word a b m :
  length a = 4%nat → length b = 4%nat → length m = 4%nat →
  Z.land (le_decode a) (le_decode m) = Z.land (le_decode b) (le_decode m) ↔ zipb Z.land a m = zipb Z.land b m.
Proof.
  intros Ha Hb Hm. rewrite <- !(le_decode_zip Z.land) by congruence. split; [|by intros ->].
  apply le_decode_inj. rewrite !length_zipb; congruence.
Qed.

Lemma rd_four l : length l = 4%nat → rd l 0 4 = Ok l ∧ word 0 l = le_decode l.
Proof. intros. do 5 (destruct l as [|? l]; try done). Qed.

Lemma range4_spec a x :
  addr_net a = true → 0 ≤ addr_mask a < 256 → length (sin_addr (Types.addr a)) = 4%nat → length x = 4%nat →
  ∃ first last, ts_range4 a = Ok (first, last) ∧
    (be_decode 0 first ≤ be_decode 0 x ≤ be_decode 0 last ↔
     Z.land (word 0 x) (prefixlen2mask (addr_mask a)) = Z.land (word 0 (sin_addr (Types.addr a))) (prefixlen2mask (addr_mask a))).
Proof.
  intros Hn Hp La Lx. set (ip := sin_addr (Types.addr a)) in *. destruct (mask4_bytes _ Hp) as (Em & k & Hk & Eb).
  set (m := le_encode 4 (prefixlen2mask (addr_mask a))) in *. assert (length m = 4%nat) as Lm by apply length_le_encode.
  destruct (rd_four ip La) as [Er Ew]. destruct (rd_four x Lx) as [_ Ex]. destruct (word_range ip m La Lm) as [E1 E2].
  exists (zipb Z.land ip m), (zipb Z.lor ip (bnot <$> m)). unfold ts_range4, ip4_of, mbind, out_bind. fold ip.
  rewrite Er, Hn, <- Em, E1, E2, Ew, Ex. split; [done|]. rewrite masked_word by done.
  apply (masked_range _ _ _ k); rewrite ?La; done.
Qed.

Lemma split16 l : length l = 16%nat → ∃ w0 w1 w2 w3, l = w0 ++ w1 ++ w2 ++ w3 ∧
  length w0 = 4%nat ∧ length w1 = 4%nat ∧ length w2 = 4%nat ∧ length w3 = 4%nat ∧
  word 0 l = le_decode w0 ∧ word 1 l = le_decode w1 ∧ word 2 l = le_decode w2 ∧ word 3 l = le_decode w3.
Proof.
  intros Hl. do 16 (destruct l as [|? l]; [done|]). destruct l; [|done].
  exists [b; b0; b1; b2], [b3; b4; b5; b6], [b7; b8; b9; b10], [b11; b12; b13; b14]. done.
Qed.

Lemma range6_spec a x :
  let ip := sin_addr (Types.addr a) in let m := prefixlen2mask6 (addr_mask a) in
  addr_net a = true → 0 ≤ addr_mask a < 256 → length ip = 16%nat → length x = 16%nat →
  ∃ first last, ts_range6 a = Ok (first, last) ∧
    (be_decode 0 first ≤ be_decode 0 x ≤ be_decode 0 last ↔
     Z.land (word 3 x) (word 3 m) = Z.land (word 3 ip) (word 3 m) ∧ Z.land (word 2 x) (word 2 m) = Z.land (word 2 ip) (word 2 m) ∧
     Z.land (word 1 x) (word 1 m) = Z.land (word 1 ip) (word 1 m) ∧ Z.land (word 0 x) (word 0 m) = Z.land (word 0 ip) (word 0 m)).
Proof.
  intros ip m Hn Hp La Lx. destruct (mask6_bytes _ Hp) as (Lm & k & Hk & Eb). fold m in Lm, Eb.
  assert (rd ip 0 16 = Ok ip) as Er by (clearbody ip; do 17 (destruct ip as [|? ip]; try done)).
  destruct (split16 ip La) as (a0 & a1 & a2 & a3 & Ea & A0 & A1 & A2 & A3 & wa0 & wa1 & wa2 & wa3).
  destruct (split16 m Lm) as (m0 & m1 & m2 & m3 & Ema & M0 & M1 & M2 & M3 & wm0 & wm1 & wm2 & wm3).
  destruct (split16 x Lx) as (x0 & x1 & x2 & x3 & Ex & X0 & X1 & X2 & X3 & wx0 & wx1 & wx2 & wx3).
  destruct (word_range a0 m0 A0 M0) as [P0 Q0]. destruct (word_range a1 m1 A1 M1) as [P1 Q1].
  destruct (word_range a2 m2 A2 M2) as [P2 Q2]. destruct (word_range a3 m3 A3 M3) as [P3 Q3].
  exists (zipb Z.land ip m), (zipb Z.lor ip (bnot <$> m)). split.
  - unfold ts_range6, ip6_of, mbind, out_bind. fold ip m. rewrite Er, Hn. unfold fmap, list_fmap.
    rewrite wa0, wa1, wa2, wa3, wm0, wm1, wm2, wm3, P0, P1, P2, P3, Q0, Q1, Q2, Q3. cbn [concat]. rewrite !app_nil_r, Ea, Ema.
    fold (list_fmap _ _ bnot) . rewrite !fmap_app. rewrite !zipb_app by (rewrite ?length_bnot; congruence). done.
  - rewrite wa0, wa1, wa2, wa3, wm0, wm1, wm2, wm3, wx0, wx1, wx2, wx3, !masked_word by done.
    etrans; [apply (masked_range _ _ _ k); rewrite ?La; done|].
    assert (zipb Z.land x m = zipb Z.land x0 m0 ++ zipb Z.land x1 m1 ++ zipb Z.land x2 m2 ++ zipb Z.land x3 m3) as ->
      by (rewrite Ex, Ema; by rewrite !zipb_app by congruence).
    assert (zipb Z.land ip m = zipb Z.land a0 m0 ++ zipb Z.land a1 m1 ++ zipb Z.land a2 m2 ++ zipb Z.land a3 m3) as ->
      by (rewrite Ea, Ema; by rewrite !zipb_app by congruence).
    split; [|by intros (-> & -> & -> & ->)]. intros E.
    apply app_inj_1 in E as [-> E]; [|rewrite !length_zipb; congruence].
    apply app_inj_1 in E as [-> E]; [|rewrite !length_zipb; congruence].
    apply app_inj_1 in E as [-> ->]; [done|rewrite !length_zipb; congruence].
Qed.

(** C19: the traffic selector of a network is the network: the addresses between
    the first and the last one of [ikev2_add_ts_payload], read as numbers in
    network order, are those the network contains for [sockaddr_cmp], the test
    for matching policies, in both families and for every prefix length. *)
Theorem ts_range_network a peer :
  addr_net a = true → 0 ≤ addr_mask a < 256 → sa_family peer = sa_family (Types.addr a) →
  length (sin_addr peer) = length (sin_addr (Types.addr a)) →
  let inside first last :=
    be_decode 0 first ≤ be_decode 0 (sin_addr peer) ≤ be_decode 0 last ↔ sockaddr_cmp peer (Types.addr a) (addr_mask a) = 0 in
  (sa_family peer = AF_INET → length (sin_addr peer) = 4%nat → ∃ first last, ts_range4 a = Ok (first, last) ∧ inside first last) ∧
  (sa_family peer = AF_INET6 → length (sin_addr peer) = 16%nat → ∃ first last, ts_range6 a = Ok (first, last) ∧ inside first last).
Proof.
  intros Hn Hp Hf Hl inside. unfold inside, sockaddr_cmp. rewrite <- Hf, Z.ltb_irrefl. split; intros Ef L; rewrite Ef.
  - destruct (range4_spec a (sin_addr peer)) as (first & last & E & H); [done..|congruence|done|]. exists first, last.
    split; [done|]. cbn -[prefixlen2mask word]. unfold to_u8. rewrite Z.mod_small by done.
    rewrite (proj2 (Z.eqb_neq _ _)) by lia. by rewrite word_cmp_eq.
  - destruct (range6_spec a (sin_addr peer)) as (first & last & E & H); [done..|congruence|done|]. exists first, last.
    split; [done|]. cbn -[prefixlen2mask6 word]. unfold to_u8. rewrite Z.mod_small by done.
    rewrite (proj2 (Z.eqb_neq _ _)) by lia. by rewrite !cmp_or_eq, !word_cmp_eq.
Qed.

(** 10.1.0.0/16 and a host in it. *)
Definition demo_net : iked_addr :=
  mk_iked_addr AF_INET (mk_sockaddr AF_INET 0 (bZ <$> [10; 1; 0; 0])) 16 true 0.
Definition demo_host : sockaddr := mk_sockaddr AF_INET 0 (bZ <$> [10; 1; 2; 3]).

Lemma ts_range_network_witness :
  ∃ first last, ts_range4 demo_net = Ok (first, last) ∧
    (be_decode 0 first ≤ be_decode 0 (sin_addr demo_host) ≤ be_decode 0 last ↔
     sockaddr_cmp demo_host (Types.addr demo_net) 16 = 0).
Proof.
  refine (proj1 (ts_range_network demo_net demo_host eq_refl _ eq_refl eq_refl) eq_refl eq_refl).
  change (0 ≤ 16 < 256). lia.
Defined.
