(* ===== verification/Auth.v ===== *)
(** * Authentication: [ikev2_msg_auth] and its kin of [ikev2_msg.c]

    What an end signs, how it signs and how it verifies. [astate] is what the
    IKE_AUTH exchange works on: the SA of [Queue] and the fields of [struct
    iked_sa] for identities, certificates and authentication. The log
    [at_log] is not in the code: it notes what was verified. *)

From S2P Require Import Prelude Types SaState Proposals Ibuf Build Parse Policy Queue Crypto.
From S2P Require Import ParseSk Encrypt Keys Dsa Payload.

(** [IKEV2_KEYPAD]: "Key Pad for IKEv2" *)
Definition IKEV2_KEYPAD : bytes := bZ <$>
  [0x4b; 0x65; 0x79; 0x20; 0x50; 0x61; 0x64; 0x20; 0x66; 0x6f; 0x72; 0x20; 0x49; 0x4b; 0x45; 0x76; 0x32].

(** ** State *)

(** [struct iked_auth]; [auth_length] is the length of the data. *)
Record iked_auth := mk_auth { auth_method : Z; auth_eap : Z; auth_data : bytes }.
Definition set_auth_method (v : Z) (a : iked_auth) : iked_auth := mk_auth v (auth_eap a) (auth_data a).

(** A successful verification: the method, the identity that was claimed,
    the policy, and what was signed. The other events are a user who knew the
    password, with the session key, and a certificate that the process with
    the trust anchors found valid. *)
Record verified := mk_verified {
  v_method : Z; v_id : iked_id; v_policy : option nat; v_key : bytes; v_keytype : Z; v_octets : bytes; v_sig : bytes }.

Inductive auth_event :=
  | Verified (v : verified)
  | EapUser (name msk : bytes)
  | Vouched (type : Z) (cert : option bytes).

(** A request to the process that holds the keys: [IMSG_CERTREQ], [IMSG_CERT]
    and [IMSG_AUTH]. *)
Inductive ca_msg :=
  | CaReq (id : iked_id) (type : Z) (more : bool) (data : option bytes)
  | CaCert (id : iked_id) (type : Z) (data : option bytes)
  | CaAuth (type : Z) (data : option bytes).

Record astate := mk_astate {
  at_nd : node;
  at_iid : iked_id; at_rid : iked_id;
  at_icert : iked_id; at_rcert : iked_id; at_scert : list iked_id;
  at_localauth : iked_id; at_peerauth : iked_id;
  at_eap : iked_id; at_eapid : option bytes; at_eapmsk : option bytes;
  at_policy : option nat;
  at_cp : cp_info;
  at_ipcompi : Z; at_ipcompr : Z * Z; at_transport : bool;
  at_ca : list ca_msg;
  at_log : list auth_event }.
Definition eta_at (r : astate) : astate :=
  mk_astate (at_nd r) (at_iid r) (at_rid r) (at_icert r) (at_rcert r) (at_scert r) (at_localauth r) (at_peerauth r)
    (at_eap r) (at_eapid r) (at_eapmsk r) (at_policy r) (at_cp r) (at_ipcompi r) (at_ipcompr r) (at_transport r) (at_ca r) (at_log r).
Definition set_at_nd (v : node) (r : astate) : astate := ltac:(upd eta_at at_nd r v).
Definition set_at_iid (v : iked_id) (r : astate) : astate := ltac:(upd eta_at at_iid r v).
Definition set_at_rid (v : iked_id) (r : astate) : astate := ltac:(upd eta_at at_rid r v).
Definition set_at_icert (v : iked_id) (r : astate) : astate := ltac:(upd eta_at at_icert r v).
Definition set_at_rcert (v : iked_id) (r : astate) : astate := ltac:(upd eta_at at_rcert r v).
Definition set_at_scert (v : list iked_id) (r : astate) : astate := ltac:(upd eta_at at_scert r v).
Definition set_at_localauth (v : iked_id) (r : astate) : astate := ltac:(upd eta_at at_localauth r v).
Definition set_at_peerauth (v : iked_id) (r : astate) : astate := ltac:(upd eta_at at_peerauth r v).
Definition set_at_eap (v : iked_id) (r : astate) : astate := ltac:(upd eta_at at_eap r v).
Definition set_at_eapid (v : option bytes) (r : astate) : astate := ltac:(upd eta_at at_eapid r v).
Definition set_at_eapmsk (v : option bytes) (r : astate) : astate := ltac:(upd eta_at at_eapmsk r v).
Definition set_at_policy (v : option nat) (r : astate) : astate := ltac:(upd eta_at at_policy r v).
Definition set_at_cp (v : cp_info) (r : astate) : astate := ltac:(upd eta_at at_cp r v).
Definition set_at_ipcompi (v : Z) (r : astate) : astate := ltac:(upd eta_at at_ipcompi r v).
Definition set_at_ipcompr (v : Z * Z) (r : astate) : astate := ltac:(upd eta_at at_ipcompr r v).
Definition set_at_ca (v : list ca_msg) (r : astate) : astate := ltac:(upd eta_at at_ca r v).
Definition set_at_log (v : list auth_event) (r : astate) : astate := ltac:(upd eta_at at_log r v).

Abbreviation X := (M astate).

(** The identity and the certificate of the peer. *)
Definition peer_id (initiator : bool) (r : astate) : iked_id := if initiator then at_rid r else at_iid r.
Definition set_peer_id (initiator : bool) (v : iked_id) (r : astate) : astate :=
  if initiator then set_at_rid v r else set_at_iid v r.
Definition peer_cert (initiator : bool) (r : astate) : iked_id := if initiator then at_rcert r else at_icert r.
Definition local_cert (initiator : bool) (r : astate) : iked_id := if initiator then at_icert r else at_rcert r.

Definition at_sa (r : astate) : option iked_sa := nd_sa (at_nd r).

(** Code on the SA. *)
Definition on_nd {A} (m : N A) : X A := λ r,
  match m (at_nd r) with Ok (a, n) => Ok (a, set_at_nd n r) | Fault f => Fault f end.
Definition with_asa {A} (k : iked_sa → X A) : X A :=
  o ← gets at_sa; match o with None => fail Fnull | Some sa => k sa end.
Definition upd_asa (f : iked_sa → iked_sa) : X unit := on_nd (upd_nsa f).
Definition x_alloc : X bool := on_nd n_alloc.

(** [sa_state] and [sa_stateflags] *)
Definition x_state (state : Z) : X unit := with_asa (λ sa,
  on_nd (modify (λ s, let '(sa, st) := sa_state_set state sa (nd_stats s) in set_nd_sa (Some sa) (set_nd_stats st s)))).
Definition x_flags (flags : Z) : X unit := with_asa (λ sa, upd_asa (sa_stateflags_or flags)).
Definition x_log (e : auth_event) : X unit := modify (λ r, set_at_log (at_log r ++ [e]) r).

(** The content of a buffer. *)
Definition n_content (b : ibuf) : N bytes := lift (ibuf_data b (ibuf_size b)).

Section auth.
Context `{!External, !Pkeys}.

(** ** What is signed *)

(** [ikev2_psk]: the key for a MAC; [None] for -1. *)
Definition ikev2_psk (prf : iked_hash) (data : bytes) : N (option bytes) :=
  k ← n_new (Some data) (blen data);
  match k with
  | None => mret None
  | Some _ =>
      a ← n_alloc;
      if negb a then mret None
      else
        let mac := ext_mac prf data IKEV2_KEYPAD in
        psk ← lift (store (Some (zeros (hash_keylength prf))) 0 mac);
        let psklen := if negb (hash_trunc prf =? 0) && (hash_trunc prf <? blen mac) then hash_trunc prf else blen mac in
        k ← lift (rd (default [] psk) 0 psklen);
        mret (Some k)
  end.

(** [ikev2_msg_auth]: [None] for a null pointer. *)
Definition auth_parts (sa : iked_sa) (iid rid : iked_id) (response : bool) : option (bytes * iked_id * bytes * bytes) :=
  let id := if negb response then iid else rid in
  match (if negb response then sa_rnonce sa else sa_inonce sa),
        (if negb response then sa_key_iprf sa else sa_key_rprf sa),
        (if negb response then sa_1stmsg sa else sa_2ndmsg sa) with
  | Some nonce, Some prfkey, Some buf => if id_type id =? 0 then None else Some (nonce, id, prfkey, buf)
  | _, _, _ => None
  end.

Definition ikev2_msg_auth (sa : iked_sa) (iid rid : iked_id) (response : bool) : N (option ibuf) :=
  match auth_parts sa iid rid response with
  | None => mret None
  | Some (nonce, id, prfkey, buf) =>
      o ← n_new (Some buf) (blen buf);
      match o with
      | None => mret None
      | Some authmsg =>
          r ← withbuf authmsg (b_add nonce);
          if negb (r.1 =? 0) then mret None
          else match sa_prf sa with
          | None => fail Fnull
          | Some prf =>
              k ← n_new (Some prfkey) (blen prfkey);
              match k with
              | None => mret None
              | Some _ =>
                  if negb (hash_keylength prf =? hash_length prf) then mret None
                  else
                    p ← withbuf r.2 (b_reserve (hash_keylength prf));
                    match p with
                    | (None, _) => mret None
                    | (Some ptr, authmsg) =>
                        match id_buf id with
                        | None => fail Fnull
                        | Some idb =>
                            let mac := ext_mac prf prfkey idb in
                            w ← withbuf authmsg (b_put ptr mac);
                            let tmplen := if negb (hash_trunc prf =? 0) && (hash_trunc prf <? blen mac)
                                          then hash_trunc prf else blen mac in
                            mret (if tmplen =? hash_length prf then Some w.2 else None)
                        end
                    end
              end
          end
      end
  end.

(** ** Verifying and signing *)

(** The key for a method, with its type; [None] is [goto done]. *)
Definition verify_key (auth : iked_auth) (prf : option iked_hash) (id : iked_id) : N (option (bytes * Z)) :=
  if auth_method auth =? IKEV2_AUTH_SHARED_KEY_MIC then
    if blen (auth_data auth) =? 0 then mret None
    else match prf with
    | None => fail Fnull
    | Some h => k ← ikev2_psk h (auth_data auth); mret ((λ k, (k, 0)) <$> k)
    end
  else match id_buf id with
  | None => mret None
  | Some d => if (id_type id =? 0) || (blen d =? 0) then mret None else mret (Some (d, id_type id))
  end.

(** [dsa_setkey], [dsa_init] and [dsa_update]: the context, [None] when one of
    them fails. *)
Definition dsa_prepare (dsa : iked_dsa) (key : bytes) (keytype : Z) (sig : option bytes) (authmsg : bytes)
  : N (option iked_dsa) :=
  k ← dsa_setkey dsa key keytype;
  match k.1 with
  | None => mret None
  | Some _ =>
      i ← lift (dsa_init k.2 sig);
      if negb (i.1 =? 0) then mret None
      else let u := dsa_update i.2 authmsg in mret (if u.1 =? 0 then Some u.2 else None)
  end.

Definition ikev2_msg_authverify (auth : iked_auth) (buf authmsg : bytes) : X Z := with_asa (λ sa,
  cert ← gets (peer_cert (sh_initiator (sa_hdr sa)));
  dsa ← on_nd (dsa_verify_new (auth_method auth) (sa_prf sa));
  match dsa with
  | None => mret (-1)
  | Some dsa =>
      k ← on_nd (verify_key auth (sa_prf sa) cert);
      match k with
      | None => mret (-1)
      | Some (key, keytype) =>
          d ← on_nd (dsa_prepare dsa key keytype (Some buf) authmsg);
          match d with
          | None => mret (-1)
          | Some dsa =>
              ret ← on_nd (dsa_verify_final dsa buf);
              if ret =? 0 then
                id ← gets (peer_id (sh_initiator (sa_hdr sa)));
                pol ← gets at_policy;
                _ ← x_log (Verified (mk_verified (auth_method auth) id pol key keytype authmsg buf));
                _ ← x_state IKEV2_STATE_AUTH_SUCCESS;
                _ ← x_flags IKED_REQ_AUTHVALID;
                mret 0
              else _ ← x_state IKEV2_STATE_AUTH_REQUEST; mret ret
          end
      end
  end).

(** The key to sign with; the certificate is not looked at. *)
Definition sign_key (auth : iked_auth) (prf : option iked_hash) (id : iked_id) : N (option (bytes * Z)) :=
  if auth_method auth =? IKEV2_AUTH_SHARED_KEY_MIC then verify_key auth prf id
  else match id_buf id with
  | None => fail Fnull
  | Some d => mret (Some (d, id_type id))
  end.

Definition ikev2_msg_authsign (auth : iked_auth) (authmsg : bytes) : X Z := with_asa (λ sa,
  cert ← gets (local_cert (sh_initiator (sa_hdr sa)));
  dsa ← on_nd (dsa_sign_new (auth_method auth) (sa_prf sa));
  match dsa with
  | None => mret (-1)
  | Some dsa =>
      k ← on_nd (sign_key auth (sa_prf sa) cert);
      match k with
      | None => mret (-1)
      | Some (key, keytype) =>
          d ← on_nd (dsa_prepare dsa key keytype None authmsg);
          match d with
          | None => mret (-1)
          | Some dsa =>
              _ ← modify (λ r, set_at_localauth (mk_id (id_type (at_localauth r)) (id_offset (at_localauth r)) None) r);
              len ← lift (dsa_length dsa);
              o ← on_nd (n_new None len);
              match o with
              | None => mret (-1)
              | Some buf =>
                  d ← on_nd (n_content buf);
                  r ← on_nd (dsa_sign_final dsa d);
                  if r.1 <? 0 then mret (-1)
                  else
                    let s := ibuf_setsize buf r.1 in
                    if s.1 <? 0 then mret (-1)
                    else
                      sig ← lift (rd r.2 0 r.1);
                      _ ← modify (λ r, set_at_localauth (mk_id (auth_method auth) (id_offset (at_localauth r)) (Some sig)) r);
                      mret 0
              end
          end
      end
  end).
End auth.

(** ** Rules *)

Lemma wp_on_nd {A} F (m : N A) (Q : A → astate → Prop) r :
  wp F m (λ a n, Q a (set_at_nd n r)) (at_nd r) → wp F (on_nd m) Q r.
Proof. unfold wp, on_nd. destruct (m (at_nd r)) as [[a n]|f]; done. Qed.
Lemma wp_with_asa {A} F (k : iked_sa → X A) Q r sa :
  at_sa r = Some sa → wp F (k sa) Q r → wp F (with_asa k) Q r.
Proof. intros E H. unfold with_asa. apply wp_bind, wp_gets. by rewrite E. Qed.

(** [r] with the SA [sa], where only the allocator and counters moved
    otherwise. *)
Definition moved (r : astate) (sa : iked_sa) (r' : astate) : Prop :=
  ∃ l st, r' = set_at_nd (set_nd_stats st (set_nd_sa (Some sa) (set_nd_alloc l (at_nd r)))) r ∧
    (nd_alloc (at_nd r) = [] → l = []).

Lemma moved_sa r sa r' : moved r sa r' → at_sa r' = Some sa.
Proof. by intros (l & st & -> & _). Qed.
Lemma moved_refl r sa : at_sa r = Some sa → moved r sa r.
Proof.
  intros E. exists (nd_alloc (at_nd r)), (nd_stats (at_nd r)). split; [|done]. unfold at_sa in E.
  destruct r as [[] ]; simpl in *. by subst.
Qed.
Lemma moved_trans r sa r' sa' r'' : moved r sa r' → moved r' sa' r'' → moved r sa' r''.
Proof. intros (l & st & -> & H1) (l' & st' & -> & H2). exists l', st'. split; [done|]. intros E. by apply H2, H1. Qed.
Lemma moved_plenty r sa r' : moved r sa r' → nd_alloc (at_nd r) = [] → nd_alloc (at_nd r') = [].
Proof. intros (l & st & -> & H1) E. by apply H1. Qed.

(** A computation that only spends allocations. *)
Lemma wp_on_nd_spent {A} F (m : N A) (P : A → Prop) (Q : A → astate → Prop) r sa :
  at_sa r = Some sa →
  wp F m (λ a n, spent (at_nd r) n ∧ P a) (at_nd r) →
  (∀ a r', moved r sa r' → P a → Q a r') → wp F (on_nd m) Q r.
Proof.
  intros Hsa Hm HQ. apply wp_on_nd. eapply wp_mono; [exact Hm|]. intros a n [(l & -> & Hl) Ha]. apply HQ; [|done].
  exists l, (nd_stats (at_nd r)). split; [|done]. unfold at_sa in Hsa. destruct r as [[] ]; simpl in *. by subst.
Qed.
Lemma wp_x_state F state (Q : unit → astate → Prop) r sa :
  at_sa r = Some sa → (∀ r', moved r (sa_state_set state sa (nd_stats (at_nd r))).1 r' → Q tt r') → wp F (x_state state) Q r.
Proof.
  intros Hsa HQ. unfold x_state. apply (wp_with_asa F _ _ r sa); [done|]. apply wp_on_nd, wp_modify.
  apply HQ. destruct (sa_state_set _ _ _) as [sa' st] eqn:E. exists (nd_alloc (at_nd r)), st. split; [|done].
  by destruct r as [[] ].
Qed.
Lemma wp_x_flags F flags (Q : unit → astate → Prop) r sa :
  at_sa r = Some sa → (∀ r', moved r (sa_stateflags_or flags sa) r' → Q tt r') → wp F (x_flags flags) Q r.
Proof.
  intros Hsa HQ. unfold x_flags. apply (wp_with_asa F _ _ r sa); [done|]. apply wp_on_nd, wp_modify. apply HQ.
  exists (nd_alloc (at_nd r)), (nd_stats (at_nd r)). split; [|done]. unfold at_sa in Hsa.
  destruct r as [[] ]; simpl in *. by subst.
Qed.

(** A PRF as [ikev2_sa_negotiate_common] sets it up. *)
Record prf_ok (h : iked_hash) : Prop := {
  po_aead : hash_isaead h = false;
  po_trunc : hash_trunc h = 0;
  po_length : 0 < hash_length_f h ≤ 64 }.

Section specs.
Context `{EX : External, EL : !ExternalLaws, PK : Pkeys, PL : !PkeysLaws}.

Lemma psk_spec F prf data s :
  prf_ok prf →
  wp F (ikev2_psk prf data) (λ o s', spent s s' ∧ (∀ k, o = Some k → k = ext_mac prf data IKEV2_KEYPAD) ∧
    (nd_alloc s = [] → blen data ≤ IKED_MSGBUF_MAX → is_Some o)) s.
Proof.
  intros [_ Ht Hl]. unfold ikev2_psk. apply wp_bind, n_new_wp. intros o s1 P1 Ho. destruct o as [b|].
  2:{ apply wp_ret. split_and!; [done..|]. intros Hs Hd. by destruct (Ho Hs Hd). }
  apply wp_bind, n_alloc_wp. intros a s2 P2 Ha. destruct a.
  2:{ apply wp_ret. split_and!; [by eauto|done|]. intros Hs. by specialize (Ha (spent_plenty _ _ P1 Hs)). }
  pose proof (ext_mac_length prf data IKEV2_KEYPAD ltac:(lia)) as Hm. unfold hash_keylength. apply wp_bind, wp_lift.
  pose proof (store_mid [] (zeros (hash_length_f prf)) [] (ext_mac prf data IKEV2_KEYPAD)) as E.
  rewrite !app_nil_l, !app_nil_r in E. change (blen []) with 0 in E. rewrite E by (rewrite blen_zeros; lia).
  unfold wpo. rewrite Ht. cbn [Z.eqb negb andb default from_option]. unfold id. apply wp_bind, wp_lift, wpo_rd; [lia..|]. rewrite sub_bytes_all.
  apply wp_ret. split_and!; [by eauto|by intros ? [= <-]|done].
Qed.
(** The data that a method takes for a key. *)
Definition key_data (auth : iked_auth) (prf : iked_hash) (id : iked_id) (key : bytes) (keytype : Z) : Prop :=
  if auth_method auth =? IKEV2_AUTH_SHARED_KEY_MIC then key = ext_mac prf (auth_data auth) IKEV2_KEYPAD ∧ keytype = 0
  else id_buf id = Some key ∧ keytype = id_type id.

Lemma verify_key_spec F auth prf id s :
  prf_ok prf →
  wp F (verify_key auth (Some prf) id) (λ o s', spent s s' ∧
    (∀ key keytype, o = Some (key, keytype) → key_data auth prf id key keytype) ∧
    (nd_alloc s = [] → 0 < blen (auth_data auth) ≤ IKED_MSGBUF_MAX →
      (auth_method auth ≠ IKEV2_AUTH_SHARED_KEY_MIC → id_type id ≠ 0 ∧ ∃ d, id_buf id = Some d ∧ 0 < blen d) → is_Some o)) s.
Proof.
  intros Hp. unfold verify_key, key_data. destruct (Z.eqb_spec (auth_method auth) IKEV2_AUTH_SHARED_KEY_MIC) as [Em|Em].
  - destruct (Z.eqb_spec (blen (auth_data auth)) 0); [apply wp_ret; split_and!; [done..|lia]|].
    apply wp_bind. eapply wp_mono; [by apply psk_spec|]. intros o s' (Hs & Ho & Hi). apply wp_ret. split_and!; [done| |].
    + intros key keytype. destruct o as [k|]; [|done]. intros [= <- <-]. split; [by apply Ho|done].
    + intros Ha [_ Hd] _. destruct (Hi Ha Hd) as [k ->]. done.
  - destruct (id_buf id) as [d|]; [|apply wp_ret; split_and!; [done..|]; intros _ _ H; by destruct (H Em) as [_ (d & ? & _)]].
    destruct ((id_type id =? 0) || (blen d =? 0)) eqn:Ez; apply wp_ret; (split_and!; [done| |]).
    + done.
    + intros _ _ H. destruct (H Em) as (H1 & d' & [= <-] & H2). rewrite (proj2 (Z.eqb_neq _ _) H1), (proj2 (Z.eqb_neq _ _)) in Ez by lia. done.
    + by intros key keytype [= <- <-].
    + done.
Qed.

Lemma dsa_prepare_verify F method prf md hmac key keytype sig msg s :
  dsa_digest method (Some prf) false = Ok (md, hmac) → blen sig < size_max →
  let k := key_of false keytype key in
  wp F (dsa_prepare (mk_dsa method md hmac false None None 0 None) key keytype (Some sig) msg) (λ o s', spent s s' ∧
    (∀ d, o = Some d → ∀ F' s1, wp F' (dsa_verify_final d sig) (λ r s2, spent s1 s2 ∧ (r = 0 ∨ r = -1) ∧
       (r = 0 → signature method prf key k msg sig) ∧ (nd_alloc s1 = [] → signature method prf key k msg sig → r = 0)) s1) ∧
    (nd_alloc s = [] → blen key ≤ IKED_MSGBUF_MAX → (if hmac then keytype = 0 else is_Some k) →
       signature method prf key k msg sig → is_Some o)) s.
Proof.
  intros Hd Hmax k. unfold dsa_prepare. apply wp_bind. eapply wp_mono; [apply dsa_setkey_spec|].
  intros [o dsa] s1 (P1 & Hset & Hok). cbn [fst snd] in *. destruct o as [x|].
  2:{ apply wp_ret. split_and!; [done..|]. intros Ha Hl Hk _. by destruct (Hok Ha Hl Hk). }
  destruct (Hset (mk_is_Some _ _ eq_refl)) as [-> Hk]. fold k in Hk |- *.
  destruct (dsa_verify_spec never method prf key k md hmac msg sig s Hd Hk Hmax) as (i & d & Ei & Hi & Hno & Hyes).
  apply wp_bind, wp_lift. rewrite Ei. unfold wpo. cbn [fst snd]. destruct (Z.eqb_spec i 0) as [->|Hne]; cbn [negb].
  - destruct (Hyes eq_refl) as [-> _]. cbn [Z.eqb]. apply wp_ret. split_and!; [done| |done]. intros d' [= <-] F' s2.
    destruct (dsa_verify_spec F' method prf key k md hmac msg sig s2 Hd Hk Hmax) as (i' & d' & Ei' & _ & _ & Hw).
    rewrite Ei in Ei'. injection Ei' as <- <-. by destruct (Hw eq_refl).
  - apply wp_ret. split_and!; [done..|]. intros _ _ _ Hs. destruct Hi; [done|]. by destruct (Hno H).
Qed.
Lemma digest_total method prf sign : prf_ok prf → ∃ md hmac, dsa_digest method (Some prf) sign = Ok (md, hmac).
Proof. intros [E _ _]. unfold dsa_digest. rewrite E. repeat case_match; eauto. Qed.

(** What a verification notes. *)
Definition verified_at (r : astate) (sa : iked_sa) (auth : iked_auth) (key : bytes) (keytype : Z) (octets sig : bytes) : verified :=
  mk_verified (auth_method auth) (peer_id (sh_initiator (sa_hdr sa)) r) (at_policy r) key keytype octets sig.

(** Verification of any bytes ends without a fault; it succeeds for a
    signature of the octets with the key of the policy or of the certificate,
    and for nothing else. *)
Lemma authverify_spec F auth buf authmsg r sa prf :
  at_sa r = Some sa → sa_prf sa = Some prf → prf_ok prf → blen buf < size_max →
  wp F (ikev2_msg_authverify auth buf authmsg) (λ ret r',
    (ret = -1 ∧ ∃ sa', moved r sa' r' ∧ (sa' = sa ∨ sa' = set_sa_state IKEV2_STATE_AUTH_REQUEST sa)) ∨
    (ret = 0 ∧ ∃ key keytype,
      key_data auth prf (peer_cert (sh_initiator (sa_hdr sa)) r) key keytype ∧
      signature (auth_method auth) prf key (key_of false keytype key) authmsg buf ∧
      moved (set_at_log (at_log r ++ [Verified (verified_at r sa auth key keytype authmsg buf)]) r)
        (sa_stateflags_or IKED_REQ_AUTHVALID (set_sa_state IKEV2_STATE_AUTH_SUCCESS sa)) r')) r.
Proof.
  intros Hsa Hprf Hp Hmax. unfold ikev2_msg_authverify. apply (wp_with_asa F _ _ r sa); [done|]. apply wp_bind, wp_gets.
  rewrite Hprf. destruct (digest_total (auth_method auth) prf false Hp) as (md & hmac & Hd).
  assert (∀ r', moved r sa r' → (-1 = -1 ∧ ∃ sa', moved r sa' r' ∧ (sa' = sa ∨ sa' = set_sa_state IKEV2_STATE_AUTH_REQUEST sa))) as Hno
    by (intros r' Hm; split; [done|]; exists sa; auto).
  apply wp_bind. eapply (wp_on_nd_spent F _ _ _ r sa); [done|eapply wp_mono; [by apply dsa_new_spec|]; intros o n (Hs & _ & Hm); split; [exact Hs|exact Hm]|].
  intros o r1 M1 Ho. destruct o as [dsa|]; [|apply wp_ret; left; auto]. rewrite (Ho dsa eq_refl). clear Ho dsa.
  apply wp_bind. eapply (wp_on_nd_spent F _ _ _ r1 sa); [by eapply moved_sa|
    eapply wp_mono; [by apply verify_key_spec|]; intros o n (Hs & Hm & _); split; [exact Hs|exact Hm]|].
  intros o r2 M2 Ho. pose proof (moved_trans _ _ _ _ _ M1 M2) as M. destruct o as [[key keytype]|]; [|apply wp_ret; left; auto].
  specialize (Ho key keytype eq_refl). apply wp_bind.
  eapply (wp_on_nd_spent F _ _ _ r2 sa); [by eapply moved_sa|
    eapply wp_mono; [by eapply dsa_prepare_verify|]; intros o n (Hs & Hm & _); split; [exact Hs|exact Hm]|].
  intros d r3 M3 Hfin. pose proof (moved_trans _ _ _ _ _ M M3) as M'. destruct d as [d|]; [|apply wp_ret; left; auto].
  apply wp_bind. eapply (wp_on_nd_spent F _ _ _ r3 sa); [by eapply moved_sa|
    eapply wp_mono; [by eapply Hfin|]; intros ret n (Hs & H1 & H2 & _); split; [exact Hs|exact (conj H1 H2)]|].
  intros ret r4 M4 [Hret Hsig]. pose proof (moved_trans _ _ _ _ _ M' M4) as M''.
  destruct (Z.eqb_spec ret 0) as [->|Hne].
  - apply wp_bind, wp_gets, wp_bind, wp_gets, wp_bind, wp_modify. apply wp_bind.
    apply (wp_x_state F _ _ _ sa); [exact (moved_sa _ _ _ M4)|]. intros r5 M5. apply wp_bind.
    eapply wp_x_flags; [by eapply moved_sa|]. intros r6 M6. apply wp_ret. right. split; [done|]. exists key, keytype.
    split; [exact Ho|]. split; [by apply Hsig|].
    replace (sa_state_set IKEV2_STATE_AUTH_SUCCESS sa _).1 with (set_sa_state IKEV2_STATE_AUTH_SUCCESS sa) in *
      by (unfold sa_state_set, sa_stateok; cbn; by destruct (sa_state sa =? _)).
    destruct M'' as (l & st & -> & Hl). eapply moved_trans; [|eapply moved_trans; [exact M5|exact M6]].
    exists l, st. split; [|done]. by destruct r.
  - apply wp_bind. apply (wp_x_state F _ _ _ sa); [by eapply moved_sa|]. intros r5 M5. apply wp_ret. left.
    destruct Hret as [?|Hret]; [done|]. split; [done|]. eexists. split; [eapply moved_trans; [exact M''|exact M5]|]. right.
    unfold sa_state_set, sa_stateok. cbn. by destruct (sa_state sa =? _).
Qed.
(** A key that an end can verify with. *)
Definition usable (auth : iked_auth) (cert : iked_id) (key : bytes) (keytype : Z) : Prop :=
  blen key ≤ IKED_MSGBUF_MAX ∧ 0 < blen (auth_data auth) ≤ IKED_MSGBUF_MAX ∧
  (auth_method auth ≠ IKEV2_AUTH_SHARED_KEY_MIC → id_type cert ≠ 0 ∧ 0 < blen key ∧ is_Some (key_of false keytype key)).

(** With memory to spare, a signature is accepted. *)
Lemma authverify_accepts F auth buf authmsg r sa prf key keytype :
  let cert := peer_cert (sh_initiator (sa_hdr sa)) r in
  at_sa r = Some sa → sa_prf sa = Some prf → prf_ok prf → blen buf < size_max → nd_alloc (at_nd r) = [] →
  key_data auth prf cert key keytype → usable auth cert key keytype →
  signature (auth_method auth) prf key (key_of false keytype key) authmsg buf →
  wp F (ikev2_msg_authverify auth buf authmsg) (λ ret _, ret = 0) r.
Proof.
  intros cert Hsa Hprf Hp Hmax Ha Hk (Hkl & Hdl & Hu) Hsig. unfold ikev2_msg_authverify. apply (wp_with_asa F _ _ r sa); [done|].
  apply wp_bind, wp_gets. rewrite Hprf. fold cert. destruct (digest_total (auth_method auth) prf false Hp) as (md & hmac & Hd).
  apply wp_bind. eapply (wp_on_nd_spent F _ _ _ r sa); [done|eapply wp_mono; [by apply dsa_new_spec|];
    intros o n (Hs & Hi & Hm); split; [exact Hs|exact (conj (Hi Ha) Hm)]|].
  intros o r1 M1 [[dsa ->] Ho]. rewrite (Ho dsa eq_refl). clear Ho dsa. pose proof (moved_plenty _ _ _ M1 Ha) as Ha1.
  apply wp_bind. eapply (wp_on_nd_spent F _ (λ o, o = Some (key, keytype)) _ r1 sa); [by eapply moved_sa| |].
  { eapply wp_mono; [by apply verify_key_spec|]. intros o n (Hs & Hm & Hi). split; [done|].
    destruct Hi as [[key' type'] ->]; [done|done| |].
    - intros Hne. destruct (Hu Hne) as (H1 & H2 & _). split; [done|]. exists key. unfold key_data in Hk.
      rewrite (proj2 (Z.eqb_neq _ _) Hne) in Hk. by destruct Hk as [-> _].
    - specialize (Hm _ _ eq_refl). unfold key_data in *. destruct (_ =? _); [by destruct Hm as [-> ->], Hk as [-> ->]|].
      destruct Hm as [E1 ->], Hk as [E2 ->]. rewrite E1 in E2. by injection E2 as ->. }
  intros o r2 M2 ->. pose proof (moved_plenty _ _ _ M2 Ha1) as Ha2. apply wp_bind.
  eapply (wp_on_nd_spent F _ (λ o, ∃ d, o = Some d ∧ ∀ F' s1, wp F' (dsa_verify_final d buf) (λ r s2, spent s1 s2 ∧ (nd_alloc s1 = [] → r = 0)) s1)
    _ r2 sa); [by eapply moved_sa| |].
  { eapply wp_mono; [by apply (dsa_prepare_verify F _ prf md hmac key keytype buf authmsg)|]. intros o n (Hs & Hm & Hi). split; [done|].
    destruct Hi as [d ->]; [done|done| |done|].
    - destruct hmac.
      + unfold dsa_digest in Hd. unfold key_data in Hk. repeat (case_match; try done).
        all: by destruct Hk.
      + apply Hu. intros Em. rewrite Em in Hd. unfold dsa_digest in Hd. cbn in Hd. by rewrite (po_aead _ Hp) in Hd.
    - exists d. split; [done|]. intros F' s1. eapply wp_mono; [by apply Hm|]. intros x s2 (? & _ & _ & Hx). split; [done|]. auto. }
  intros o r3 M3 (d & -> & Hfin). pose proof (moved_plenty _ _ _ M3 Ha2) as Ha3. apply wp_bind.
  eapply (wp_on_nd_spent F _ (λ x, x = 0) _ r3 sa); [by eapply moved_sa| |].
  { eapply wp_mono; [by apply Hfin|]. intros x n [Hs Hx]. split; [done|]. by apply Hx. }
  intros x r4 M4 ->. cbn [Z.eqb]. apply wp_bind, wp_gets, wp_bind, wp_gets, wp_bind, wp_modify. apply wp_bind.
  apply (wp_x_state F _ _ _ sa); [exact (moved_sa _ _ _ M4)|]. intros r5 M5. apply wp_bind.
  eapply wp_x_flags; [by eapply moved_sa|]. intros r6 M6. by apply wp_ret.
Qed.

(** [ibuf_reserve] and a store there are [ibuf_add]. *)
Lemma reserve_put b c data s :
  holds b c → blen data < size_max →
  ∃ p b1 l, withbuf b (b_reserve (blen data)) s = Ok ((p, b1), set_nd_alloc l s) ∧ (nd_alloc s = [] → l = []) ∧
    (nd_alloc s = [] → 0 < blen data → blen c + blen data ≤ IKED_MSGBUF_MAX → is_Some p) ∧
    ∀ ptr, p = Some ptr → ∃ b2 l', withbuf b1 (b_put ptr data) (set_nd_alloc l s) = Ok ((tt, b2), set_nd_alloc l' s) ∧
      (nd_alloc s = [] → l' = []) ∧ holds b2 (c ++ data).
Proof.
  intros Hb Hd. destruct (withbuf_add b c data s Hb Hd) as (r & b' & l & E & Hr & Hl).
  unfold withbuf, b_add, mbind, M_bind in E. unfold withbuf.
  destruct (b_reserve (blen data) (mk_bstate b (nd_alloc s))) as [[p t]|] eqn:Er; [|done].
  assert (nd_alloc s = [] → bs_alloc t = []) as Ht.
  { intros Ha. unfold b_reserve in Er. cbn in Er. rewrite Ha in Er.
    destruct (ib_size b <? _), (ibuf_reserve _ _ _); by injection Er as <- <-. }
  exists p, (bs_buf t), (bs_alloc t). split; [done|]. split; [done|]. destruct p as [ptr|].
  - split; [done|]. intros ? [= <-]. destruct t as [tb ta]. cbn in *.
    destruct (b_put ptr data _) as [[u t']|] eqn:Ep; [|done]. injection E as <- <- <-. exists (bs_buf t'), (bs_alloc t').
    split; [by destruct u|]. split.
    + intros Ha. unfold b_put in Ep. destruct (store _ _ _); [|done]. injection Ep as <- <-. by apply Ht.
    + destruct Hr as [[_ H]|[? _]]; done.
  - split; [|done]. intros Ha Hp Hc. destruct (Hl Ha Hp Hc) as [-> _]. by injection E.
Qed.

Lemma withbuf_add_wp F b c data (Q : Z * ibuf → node → Prop) s :
  holds b c → blen data < size_max →
  (∀ r b' s', spent s s' → (r = 0 ∧ holds b' (c ++ data) ∨ r = -1) →
    (nd_alloc s = [] → 0 < blen data → blen c + blen data ≤ IKED_MSGBUF_MAX → r = 0) → Q (r, b') s') →
  wp F (withbuf b (b_add data)) Q s.
Proof.
  intros Hb Hd HQ. destruct (reserve_put b c data s Hb Hd) as (p & b1 & l & E & Hl & Hp & Hput).
  unfold withbuf in E. unfold wp, withbuf, b_add, mbind, M_bind.
  destruct (b_reserve _ _) as [[p' t]|] eqn:Er; [|done].
  assert (p' = p ∧ bs_buf t = b1 ∧ bs_alloc t = l) as (-> & <- & <-).
  { by injection E as -> -> E. }
  destruct p as [ptr|].
  - destruct (Hput ptr eq_refl) as (b2 & l' & E2 & Hl' & H2). unfold withbuf in E2. destruct t as [tb ta]. cbn in *.
    destruct (b_put ptr data _) as [[u t']|]; [|done]. injection E2 as -> <- E2.
    apply HQ; [by exists (bs_alloc t'); rewrite E2|by left|done].
  - apply HQ; [by exists (bs_alloc t)|by right|]. intros Ha Hpos Hfit. by destruct (Hp Ha Hpos Hfit).
Qed.

Lemma n_new_holds F c (Q : option ibuf → node → Prop) s :
  (∀ o s', spent s s' → (∀ b, o = Some b → holds b c) → (nd_alloc s = [] → blen c ≤ IKED_MSGBUF_MAX → is_Some o) → Q o s') →
  wp F (n_new (Some c) (blen c)) Q s.
Proof.
  intros HQ. destruct (Z.le_gt_cases (blen c) IKED_MSGBUF_MAX) as [Hb|Hb].
  - destruct (n_new_run c s Hb) as (o & l & E & Ho & Ha). unfold wp. rewrite E. apply HQ; [|done|by intros []%Ha].
    exists l. split; [done|]. by intros []%Ha.
  - unfold n_new. apply wp_bind, n_alloc_wp. intros a s1 P1 _. apply wp_lift. unfold ibuf_new, ibuf_dynamic.
    rewrite (proj2 (Z.ltb_lt _ _)) by lia. rewrite orb_true_r. destruct a; simpl; apply HQ; auto; try done; lia.
Qed.

(** The octets of RFC 7296, section 2.15: message, nonce and identity. *)
Definition signed_octets (prf : iked_hash) (nonce prfkey buf idb : bytes) : bytes := buf ++ nonce ++ ext_mac prf prfkey idb.

Lemma msg_auth_spec F sa iid rid response nonce id prfkey buf prf idb s :
  auth_parts sa iid rid response = Some (nonce, id, prfkey, buf) → sa_prf sa = Some prf → prf_ok prf → id_buf id = Some idb →
  blen nonce < size_max →
  wp F (ikev2_msg_auth sa iid rid response) (λ o s', spent s s' ∧
    (∀ b, o = Some b → holds b (signed_octets prf nonce prfkey buf idb)) ∧
    (nd_alloc s = [] → 0 < blen nonce → blen prfkey ≤ IKED_MSGBUF_MAX → blen buf + blen nonce + 64 ≤ IKED_MSGBUF_MAX → is_Some o)) s.
Proof.
  intros Ep Hprf [_ Ht Hl] Hid Hn. unfold ikev2_msg_auth. rewrite Ep, Hprf, Hid. pose proof (blen_nonneg nonce). pose proof (blen_nonneg buf).
  apply wp_bind, n_new_holds. intros o s1 P1 Ho Hp1. destruct o as [authmsg|].
  2:{ apply wp_ret. split_and!; [done..|]. intros Ha _ _ Hf. by destruct (Hp1 Ha ltac:(lia)). }
  apply wp_bind. eapply withbuf_add_wp; [by apply Ho|done|]. intros q b1 s2 P2 Hq Hp2. cbn [fst snd].
  pose proof (spent_trans _ _ _ P1 P2) as P12. destruct (Z.eqb_spec q 0) as [->|Hne]; cbn [negb].
  2:{ apply wp_ret. split_and!; [done..|]. intros Ha Hn0 _ Hf. destruct Hne. apply Hp2; [by eauto|done|lia]. }
  destruct Hq as [[_ Hq]|?]; [|done]. apply wp_bind, n_new_wp. intros k s3 P3 Hp3.
  pose proof (spent_trans _ _ _ P12 P3) as P13. destruct k as [k|].
  2:{ apply wp_ret. split_and!; [done..|]. intros Ha _ Hk _. by destruct (Hp3 (spent_plenty _ _ P12 Ha) Hk). }
  unfold hash_keylength, hash_length. rewrite Ht. cbn [Z.eqb]. rewrite Z.eqb_refl. cbn [negb].
  pose proof (ext_mac_length prf prfkey idb ltac:(lia)) as Hm.
  assert (blen (ext_mac prf prfkey idb) < size_max) as Hsz by (unfold size_max; lia).
  destruct (reserve_put b1 (buf ++ nonce) (ext_mac prf prfkey idb) s3 Hq Hsz) as (p & b2 & l & E & Hl3 & Hfit & Hput).
  rewrite Hm in E. apply wp_bind. unfold wp at 1. rewrite E. assert (spent s3 (set_nd_alloc l s3)) as P4 by (by exists l).
  destruct p as [ptr|].
  2:{ apply wp_ret. split_and!; [by eauto|done|]. intros Ha _ _ Hf. destruct (Hfit (spent_plenty _ _ P13 Ha) ltac:(lia)); [|done].
      rewrite blen_app. lia. }
  destruct (Hput ptr eq_refl) as (b3 & l' & E3 & Hl' & H3). apply wp_bind. unfold wp at 1. rewrite E3. apply wp_ret.
  cbn [Z.eqb negb andb snd]. rewrite Hm, Z.eqb_refl. split_and!; [|intros b [= <-]; unfold signed_octets; by rewrite app_assoc|done].
  eapply spent_trans; [exact P13|]. by exists l'.
Qed.
Lemma new_zeros_holds F len (Q : option ibuf → node → Prop) s :
  0 ≤ len →
  (∀ o s', spent s s' → (∀ b, o = Some b → holds b (zeros len)) → (nd_alloc s = [] → len ≤ IKED_MSGBUF_MAX → is_Some o) → Q o s') →
  wp F (n_new None len) Q s.
Proof.
  intros Hl HQ. assert (n_new None len s = n_new (Some (zeros len)) (blen (zeros len)) s) as E.
  { unfold n_new, mbind, M_bind, lift. destruct (n_alloc s) as [[a s1]|]; [|done]. rewrite blen_zeros by done. by rewrite new_zeros_eq. }
  unfold wp. rewrite E. apply n_new_holds. intros o s' P1 Ho Hp. apply HQ; [done..|]. by rewrite blen_zeros in Hp by done.
Qed.

Lemma dsa_prepare_sign F method prf md hmac key keytype msg s :
  prf_ok prf → dsa_digest method (Some prf) true = Ok (Some md, hmac) →
  (∃ key' k', counterpart method key (key_of true keytype key) key' k') →
  wp F (dsa_prepare (mk_dsa method (Some md) hmac true None None 0 None) key keytype None msg) (λ o s', spent s s' ∧
    ∀ d, o = Some d → ∃ n, dsa_length d = Ok n ∧ 0 ≤ n ∧ ∀ F' s1, wp F' (dsa_sign_final d (zeros n)) (λ r s2, spent s1 s2 ∧
      (r.1 = -1 ∨ 0 ≤ r.1 ≤ n ∧ r.1 ≤ blen r.2 ∧ ∀ key' k', counterpart method key (key_of true keytype key) key' k' →
        signature method prf key' k' msg (take (Z.to_nat r.1) r.2))) s1) s.
Proof.
  intros Hp Hd (key0 & k0 & Hc0). assert (0 ≤ hash_length_f prf < 2 ^ 31) as Hl by (destruct Hp as [_ _ ?]; lia).
  unfold dsa_prepare. apply wp_bind. eapply wp_mono; [apply dsa_setkey_spec|].
  intros [o dsa] s1 (P1 & Hset & _). cbn [fst snd] in *. destruct o as [x|]; [|by apply wp_ret].
  destruct (Hset (mk_is_Some _ _ eq_refl)) as [-> _].
  destruct (dsa_sign_spec never method prf key _ key0 k0 md hmac msg s Hd Hl Hc0) as (i & d & Ei & _ & Hyes).
  apply wp_bind, wp_lift. rewrite Ei. unfold wpo. cbn [fst snd]. destruct (Z.eqb_spec i 0) as [->|Hne]; cbn [negb]; [|by apply wp_ret].
  destruct (Hyes eq_refl) as (-> & n & En & Hn & _). cbn [Z.eqb]. apply wp_ret. split; [done|]. intros d' [= <-]. exists n.
  split; [done|]. split; [done|]. intros F' s2. apply wp_weaken with never; [|done].
  assert (∀ key' k', counterpart method key (key_of true keytype key) key' k' →
    wp never (dsa_sign_final (dsa_update d msg).2 (zeros n)) (λ r s', spent s2 s' ∧ (r.1 = -1 ∨ 0 ≤ r.1 ≤ n ∧ r.1 ≤ blen r.2 ∧
      signature method prf key' k' msg (take (Z.to_nat r.1) r.2))) s2) as Hall.
  { intros key' k' Hc. destruct (dsa_sign_spec never method prf key _ key' k' md hmac msg s2 Hd Hl Hc) as (i & d' & Ei' & _ & Hw).
    rewrite Ei in Ei'. injection Ei' as <- <-. destruct (Hw eq_refl) as (_ & n' & En' & _ & Hw'). rewrite En in En'. by injection En' as <-. }
  pose proof (Hall _ _ Hc0) as H0. apply wp_total in H0 as (r & s3 & Er & P3 & Hr). apply wp_total. exists r, s3. split; [done|].
  split; [done|]. destruct Hr as [?|(Hr & Hb & _)]; [by left|]. right. split; [done|]. split; [done|]. intros key' k' Hc.
  specialize (Hall _ _ Hc). apply wp_total in Hall as (r' & s' & Er' & _ & Hr'). rewrite Er in Er'. injection Er' as <- <-.
  destruct Hr' as [?|(_ & _ & ?)]; [lia|done].
Qed.
Lemma sign_key_wp F auth prf id s :
  prf_ok prf → (auth_method auth ≠ IKEV2_AUTH_SHARED_KEY_MIC → is_Some (id_buf id)) →
  wp F (sign_key auth (Some prf) id) (λ o s', spent s s' ∧
    ∀ key keytype, o = Some (key, keytype) → key_data auth prf id key keytype) s.
Proof.
  intros Hp Hid. unfold sign_key. destruct (Z.eqb_spec (auth_method auth) IKEV2_AUTH_SHARED_KEY_MIC) as [Em|Em].
  - eapply wp_mono; [by apply verify_key_spec|]. by intros o s' (? & ? & _).
  - destruct (Hid Em) as [d Ed]. rewrite Ed. apply wp_ret. split; [done|]. intros key keytype [= <- <-]. unfold key_data.
    by rewrite (proj2 (Z.eqb_neq _ _) Em).
Qed.

(** What [ikev2_msg_authsign] leaves in [sa_localauth] is a signature of the
    octets that the counterpart accepts. *)
Lemma authsign_spec F auth authmsg r sa prf md hmac :
  let cert := local_cert (sh_initiator (sa_hdr sa)) r in
  at_sa r = Some sa → sa_prf sa = Some prf → prf_ok prf → dsa_digest (auth_method auth) (Some prf) true = Ok (Some md, hmac) →
  (auth_method auth ≠ IKEV2_AUTH_SHARED_KEY_MIC → ∃ d key' k', id_buf cert = Some d ∧
    counterpart (auth_method auth) d (key_of true (id_type cert) d) key' k') →
  wp F (ikev2_msg_authsign auth authmsg) (λ ret r', (ret = 0 ∨ ret = -1) ∧ ∃ la, moved (set_at_localauth la r) sa r' ∧
    (ret = 0 → ∃ key keytype sig, key_data auth prf cert key keytype ∧ id_type la = auth_method auth ∧ id_buf la = Some sig ∧
      ∀ key' k', counterpart (auth_method auth) key (key_of true keytype key) key' k' →
        signature (auth_method auth) prf key' k' authmsg sig)) r.
Proof.
  intros cert Hsa Hprf Hp Hd Hc. unfold ikev2_msg_authsign. apply (wp_with_asa F _ _ r sa); [done|]. apply wp_bind, wp_gets.
  rewrite Hprf. fold cert.
  assert (∀ la r', moved (set_at_localauth la r) sa r' → ((-1 = 0 ∨ -1 = -1) ∧ ∃ la, moved (set_at_localauth la r) sa r' ∧
    (-1 = 0 → ∃ key keytype sig, key_data auth prf cert key keytype ∧ id_type la = auth_method auth ∧ id_buf la = Some sig ∧
      ∀ key' k', counterpart (auth_method auth) key (key_of true keytype key) key' k' →
        signature (auth_method auth) prf key' k' authmsg sig))) as Hno.
  { intros la r' Hm. split; [by right|]. exists la. split; [done|lia]. }
  assert (∀ r', moved r sa r' → moved (set_at_localauth (at_localauth r) r) sa r') as Hsame by (by destruct r).
  apply wp_bind. eapply (wp_on_nd_spent F _ _ _ r sa); [done|eapply wp_mono; [by apply dsa_new_spec|]; intros o n (Hs & _ & Hm); split; [exact Hs|exact Hm]|].
  intros o r1 M1 Ho. destruct o as [dsa|]; [|apply wp_ret; eauto]. rewrite (Ho dsa eq_refl). clear Ho dsa.
  apply wp_bind. eapply (wp_on_nd_spent F _ _ _ r1 sa); [by eapply moved_sa|apply sign_key_wp; [done|]|].
  { intros Hne. destruct (Hc Hne) as (d & _ & _ & -> & _). done. }
  intros o r2 M2 Ho. pose proof (moved_trans _ _ _ _ _ M1 M2) as M. destruct o as [[key keytype]|]; [|apply wp_ret; eauto].
  specialize (Ho key keytype eq_refl). apply wp_bind.
  assert (∃ key' k', counterpart (auth_method auth) key (key_of true keytype key) key' k') as Hex.
  { unfold key_data in Ho. destruct (Z.eqb_spec (auth_method auth) IKEV2_AUTH_SHARED_KEY_MIC) as [Em|Em].
    - exists key, None. unfold counterpart. by rewrite Em.
    - destruct (Hc Em) as (d & key' & k' & Ed & Hcp). destruct Ho as [Ek ->]. rewrite Ed in Ek. injection Ek as ->. eauto. }
  eapply (wp_on_nd_spent F _ _ _ r2 sa); [by eapply moved_sa|by apply (dsa_prepare_sign F _ prf)|].
  intros d r3 M3 Hfin. pose proof (moved_trans _ _ _ _ _ M M3) as M'. destruct d as [d|]; [|apply wp_ret; eauto].
  destruct (Hfin d eq_refl) as (n & En & Hn & Hsign). clear Hfin M1 M2 M3 M. apply wp_bind, wp_modify, wp_bind, wp_lift. rewrite En.
  unfold wpo. set (la0 := mk_id _ _ None). assert (moved (set_at_localauth la0 r) sa (set_at_localauth la0 r3)) as M0.
  { destruct M' as (l & st & -> & Hl). exists l, st. split; [by destruct r|done]. }
  clearbody la0. apply wp_bind. eapply (wp_on_nd_spent F _ (λ o, ∀ b, o = Some b → holds b (zeros n)) _ _ sa); [by eapply moved_sa| |].
  { apply new_zeros_holds; [done|]. intros o s' ? ? _. done. }
  intros o r4 M4 Hb. pose proof (moved_trans _ _ _ _ _ M0 M4) as M5. destruct o as [buf|]; [|apply wp_ret; eauto].
  specialize (Hb buf eq_refl). apply wp_bind, wp_on_nd, wp_lift. rewrite (holds_data _ _ Hb). unfold wpo. replace (set_at_nd (at_nd r4) r4) with r4 by (by destruct r4).
  apply wp_bind. eapply (wp_on_nd_spent F _ _ _ r4 sa); [by eapply moved_sa|by apply Hsign|].
  intros q r5 M6 Hq. pose proof (moved_trans _ _ _ _ _ M5 M6) as M7. destruct (Z.ltb_spec q.1 0) as [|Hq0]; [apply wp_ret; eauto|].
  destruct Hq as [?|(Hq & Hb2 & Hsig)]; [lia|]. destruct (_ <? 0); [apply wp_ret; eauto|].
  apply wp_bind, wp_lift, wpo_rd; [lia..|]. apply wp_bind, wp_modify, wp_ret. split; [by left|].
  match goal with |- context [set_at_localauth ?x r5] => exists x end. split.
  { generalize (mk_id (auth_method auth) (id_offset (at_localauth r5)) (Some (sub_bytes 0 q.1 q.2))). intros la.
    destruct M7 as (l & st & -> & Hl). exists l, st. split; [|done]. by destruct r. }
  intros _. exists key, keytype, (take (Z.to_nat q.1) q.2). split; [done|]. split; [done|]. split; [|exact Hsig]. cbn [id_buf]. unfold sub_bytes. by rewrite drop_0.
Qed.
End specs.
