(* ===== verification/Ident.v ===== *)
(** * Identities, policies and requests to the certificate process

    What IKE_AUTH needs before it can authenticate a peer: an identity as text
    ([ikev2_print_id]) and as a payload ([ikev2_policy2id]) of [ikev2.c], the
    policy for a message and the part of [sa_new] that applies it
    ([policy.c]), and the messages to the process that holds certificates and
    private keys ([ca.c]). *)

From S2P Require Import Prelude Tree Types SaState Proposals Ibuf Build Parse ParsePld Policy Queue Crypto.
From S2P Require Import Encrypt Keys Dsa Payload Auth.

(** What the operating system and OpenSSL know: the name of the host, the
    address in a text, and the DER encoding of a distinguished name, which is
    [ca_x509_name_parse] and [i2d_X509_NAME]. *)
Class Names := {
  gethostname : option bytes;
  inet_pton : Z → bytes → option bytes;
  x509_name : bytes → option bytes }.

(** ** Configuration *)

(** A policy with the fields that authentication uses. *)
Record auth_policy := mk_ap {
  ap_pol : iked_policy;
  ap_auth : iked_auth;
  ap_certreqtype : Z;
  ap_cfg : list iked_cfg;
  ap_tssrc : list iked_ts; ap_tsdst : list iked_ts }.

(** [struct iked]; [sc_policies] is the queue, and a policy is its place in
    it. *)
Record aenv := mk_aenv {
  sc_policies : list auth_policy;
  sc_defaultcon : option nat;
  sc_certreqtype : Z; sc_certreq : option bytes;
  sc_users : list (bytes * bytes);
  sc_verbose : Z }.

(** ** Text *)

(** ["%02x"] *)
Definition hex_lower (d : Z) : byte := bZ (if d <? 10 then 0x30 + d else 0x61 + (d - 10)).
Definition hex_byte (b : byte) : bytes := [hex_lower (Zb b / 16); hex_lower (Zb b mod 16)].

Definition slash : byte := bZ 0x2f.

(** [strchr]: what follows the first slash. *)
Fixpoint after_slash (s : bytes) : option bytes :=
  match s with
  | [] => None
  | b :: s => if Byte.eqb b slash then Some s else after_slash s
  end.

Section ident.
Context `{!External, !Names}.

(** [get_string] *)
Definition n_string (ptr : bytes) (len : Z) : N (option bytes) :=
  b ← lift (rd ptr 0 len);
  a ← n_alloc;
  mret (if (a : bool) then Some (printable_prefix b) else None).

(** [ikev2_print_id] with its text; [None] for -1. *)
Definition print_id (id : iked_id) (idstrlen : Z) : N (option bytes) :=
  match id_buf id with
  | None => mret None
  | Some buf =>
      if blen buf <=? id_offset id then mret None
      else
        let len := blen buf - id_offset id in
        let ptr := drop (Z.to_nat (id_offset id)) buf in
        let type := ext_id_name (id_type id) ++ [slash] in
        if idstrlen <=? blen type then mret None
        else
          let cat (str : bytes) : option bytes :=
            if idstrlen <=? blen type + blen str then None else Some (type ++ str) in
          if id_type id =? IKEV2_ID_IPV4 then
            if negb (len =? 4) then mret None
            else b ← lift (rd ptr 0 4); mret (cat (ext_print_addr (mk_sockaddr AF_INET 0 b)))
          else if (id_type id =? IKEV2_ID_FQDN) || (id_type id =? IKEV2_ID_UFQDN) then
            str ← n_string ptr len;
            mret (match str with None => None | Some str => cat str end)
          else if id_type id =? IKEV2_ID_IPV6 then
            if negb (len =? 16) then mret None
            else b ← lift (rd ptr 0 16); mret (cat (ext_print_addr (mk_sockaddr AF_INET6 0 b)))
          else if id_type id =? IKEV2_ID_ASN1_DN then
            b ← lift (rd ptr 0 len);
            mret (match ext_asn1_name b with None => None | Some str => cat str end)
          else
            b ← lift (rd ptr 0 len);
            mret (Some (take (Z.to_nat (idstrlen - 1)) (type ++ concat (hex_byte <$> b))))
  end.

(** What [policy_lookup] takes from an identity: nothing when there is none
    or it has no text. *)
Definition static_id (id : iked_id) : N iked_static_id :=
  if id_type id =? 0 then mret (mk_static_id 0 [])
  else
    s ← print_id id IKED_ID_SIZE;
    mret (match s with
          | None => mk_static_id 0 []
          | Some s => match after_slash s with None => mk_static_id 0 [] | Some t => mk_static_id (id_type id) t end
          end).

(** ** Identities as payloads *)

(** The data of an identity after its header; [None] is a failure. *)
Definition id_body (type : Z) (data : bytes) : B (option unit) :=
  if type =? IKEV2_ID_IPV4 then
    match inet_pton AF_INET data with None => mret None | Some a => ok0 (b_add a) end
  else if type =? IKEV2_ID_IPV6 then
    match inet_pton AF_INET6 data with None => mret None | Some a => ok0 (b_add a) end
  else if type =? IKEV2_ID_ASN1_DN then
    match x509_name data with
    | None => mret None
    | Some n => p ←? b_reserve (blen n); _ ← b_put p n; mret (Some tt)
    end
  else ok0 (b_add data).

(** [ikev2_policy2id] into [id]: the result and the identity. *)
Definition ikev2_policy2id (polid : iked_static_id) (id : iked_id) (srcid : bool) : N (Z * iked_id) :=
  let local := if srcid && (sid_type polid =? 0)
               then match gethostname with None => None | Some h => Some (mk_static_id IKEV2_ID_FQDN h) end
               else Some polid in
  match local with
  | None => mret (-1, id)
  | Some polid =>
      if blen (sid_data polid) =? 0 then mret (-1, id)
      else
        let type := sid_type polid in
        let hdr := [bZ type; x00; x00; x00] in
        o ← n_new (Some hdr) sizeof_id;
        match o with
        | None => mret (-1, mk_id type sizeof_id None)
        | Some b =>
            r ← withbuf b (id_body type (sid_data polid));
            match r.1 with
            | None => mret (-1, mk_id type sizeof_id None)
            | Some _ =>
                d ← n_content r.2;
                let id := mk_id type sizeof_id (Some d) in
                s ← print_id id IKED_ID_SIZE;
                mret (match s with None => -1 | Some _ => 0 end, id)
            end
        end
  end.

(** ** Policies *)

Context (env : aenv).

Definition the_policy (i : nat) : X auth_policy :=
  match sc_policies env !! i with None => fail Foob | Some p => mret p end.

(** The policy of the SA; it is null while one is looked up. *)
Definition with_policy {A} (k : auth_policy → X A) : X A :=
  o ← gets at_policy; match o with None => fail Fnull | Some i => p ← the_policy i; k p end.

(** [policy_lookup]: the policy for a message, [None] for -1. *)
Definition policy_lookup (m : iked_message) (proposals : list iked_proposal) (flows : rbtree iked_flow) (nflows : Z)
  : X (option nat) :=
  cur ← gets at_policy;
  match cur with
  | Some i => mret (Some i)
  | None =>
      peerid ← on_nd (static_id (msg_peerid m));
      localid ← on_nd (static_id (msg_localid m));
      let flags := if has_bit (msg_flags m) IKED_MSG_FLAGS_USE_TRANSPORT then IKED_POLICY_TRANSPORT else 0 in
      let key := mk_policy flags (sa_family (msg_peer m))
        (mk_iked_addr 0 (msg_peer m) 0 false 0) peerid (mk_iked_addr 0 (msg_local m) 0 false 0) localid
        proposals flows nflows (replicate IKED_SKIP_COUNT 0%nat) in
      r ← lift (policy_test (ap_pol <$> sc_policies env) key);
      mret (match r with Some i => Some i | None => sc_defaultcon env end)
  end.

(** What [sa_new] requires of an SA before it is valid. *)
Definition policy_requires (a : iked_auth) : Z :=
  let all := Z.lor IKED_REQ_AUTH (Z.lor IKED_REQ_AUTHVALID IKED_REQ_SA) in
  if negb (auth_eap a =? 0) then Z.lor all (Z.lor IKED_REQ_CERT IKED_REQ_EAPVALID)
  else if negb (auth_method a =? IKEV2_AUTH_SHARED_KEY_MIC) then Z.lor all (Z.lor IKED_REQ_CERTVALID IKED_REQ_CERT)
  else all.
Definition requires_diff : Z :=
  Z.lor IKED_REQ_CERTVALID (Z.lor IKED_REQ_AUTHVALID (Z.lor IKED_REQ_SA IKED_REQ_EAPVALID)).

Definition set_requires (initiator : bool) (a : iked_auth) (sa : iked_sa) : iked_sa :=
  let valid := policy_requires a in
  if initiator then set_sa_statevalid (Z.land valid requires_diff) (set_sa_stateinit (Z.ldiff valid requires_diff) sa)
  else set_sa_statevalid valid sa.

(** [sa_new] for the SA that exists, from "Update rspi" on: [false] when the
    SA was freed. *)
Definition sa_new_update (initiator : bool) (rspi : Z) (pol : option nat) : X bool := with_asa (λ sa,
  _ ← (if initiator && (sh_rspi (sa_hdr sa) =? 0) && negb (rspi =? 0)
       then upd_asa (λ sa, set_sa_hdr (mk_sahdr (sh_ispi (sa_hdr sa)) rspi (sh_initiator (sa_hdr sa))) sa)
       else mret tt);
  cur ← gets at_policy;
  _ ← match cur with
      | None => match pol with None => fail Ffatal | Some i => modify (set_at_policy (Some i)) end
      | Some _ => mret tt
      end;
  with_policy (λ p,
    _ ← upd_asa (set_requires initiator (ap_auth p));
    localid ← gets (λ r, if initiator then at_iid r else at_rid r);
    r ← on_nd (ikev2_policy2id (pol_localid (ap_pol p)) localid true);
    _ ← modify (if initiator then set_at_iid r.2 else set_at_rid r.2);
    if negb (r.1 =? 0) then _ ← on_nd (modify (set_nd_sa None)); mret false
    else mret true)).

(** ** Messages to the certificate process *)

(** [proc_composev]: the message is queued unless memory runs out. *)
Definition proc_composev (m : ca_msg) : X Z :=
  a ← x_alloc;
  if (a : bool) then _ ← modify (λ r, set_at_ca (at_ca r ++ [m]) r); mret 0 else mret (-1).

Definition ca_setcert (id : iked_id) (type : Z) (data : option bytes) : X Z :=
  if id_type id =? 0 then mret (-1)
  else match id_buf id with
  | None => fail Fnull
  | Some d => if IKED_ID_SIZE <? blen d then mret (-1) else proc_composev (CaCert id type data)
  end.

Definition ca_setreq (localid : iked_static_id) (type : Z) (more : bool) (data : bytes) : X Z :=
  r ← on_nd (ikev2_policy2id localid (mk_id 0 0 None) true);
  if negb (r.1 =? 0) then mret (-1)
  else match id_buf r.2 with
  | None => fail Fnull
  | Some d =>
      if IKED_ID_SIZE <? blen d then mret (-1)
      else
        c ← proc_composev (CaReq r.2 type more (Some data));
        if c =? -1 then mret (-1) else _ ← x_flags IKED_REQ_CERTREQ; mret 0
  end.

Definition auth_sig_compatible (type : Z) : bool :=
  (type =? IKEV2_AUTH_RSA_SIG) || (type =? IKEV2_AUTH_ECDSA_256) || (type =? IKEV2_AUTH_ECDSA_384) ||
  (type =? IKEV2_AUTH_ECDSA_521) || (type =? IKEV2_AUTH_SIG_ANY).

Context `{!Pkeys}.

(** [ca_setauth] to [PROC_CERT]: sign with a shared key, or ask for a
    signature. *)
Definition ca_setauth (authmsg : bytes) : X Z := with_asa (λ sa, with_policy (λ p,
  let type := auth_method (ap_auth p) in
  let type := if sa_sigsha2 sa && auth_sig_compatible type then IKEV2_AUTH_SIG
              else if negb (sa_sigsha2 sa) && (type =? IKEV2_AUTH_SIG_ANY) then IKEV2_AUTH_RSA_SIG
              else type in
  if type =? IKEV2_AUTH_SHARED_KEY_MIC then
    _ ← x_flags IKED_REQ_AUTH; ikev2_msg_authsign (ap_auth p) authmsg
  else
    proc_composev (CaAuth type (if type =? IKEV2_AUTH_NONE then None else Some authmsg)))).

(** [ca_certbundle_add]: type, length and data of a certificate, the length
    as a [size_t] of the machine. *)
Definition ca_certbundle_add (id : iked_id) : B (option unit) :=
  match id_buf id with
  | None => fail Fnull
  | Some d =>
      _ ←? ok0 (b_add [bZ (id_type id)]);
      _ ←? ok0 (b_add (le_encode 8 (blen d)));
      ok0 (b_add d)
  end.

Fixpoint add_bundle (scert : list iked_id) : B (option unit) :=
  match scert with
  | [] => mret (Some tt)
  | id :: scert => if id_type id =? IKEV2_CERT_NONE then mret (Some tt) else _ ←? ca_certbundle_add id; add_bundle scert
  end.
End ident.
