(* ===== verification/IkeAuth.v ===== *)
(** * The IKE_AUTH exchange

    The handlers of [ikev2.c] and [eap.c] from the first encrypted message to
    the established SA, at both ends: what a received IKE_AUTH message does
    ([ikev2_ike_auth_recv], [ikev2_resp_ike_eap]), what an answer of the
    certificate process does ([ikev2_dispatch_cert]), and what is sent. *)

From S2P Require Import Prelude Tree Types SaState Proposals Negotiate Ibuf Build Parse ParseSk Policy Queue Crypto.
From S2P Require Import Encrypt Send Keys Chap Dsa Payload Auth Ident.

Definition IKED_POLICY_IPCOMP : Z := 32.
Definition IKEV2_SAPROTO_IPCOMP : Z := 204.
Definition LOGIN_NAME_MAX : Z := 256.
Definition IKED_PSK_SIZE : Z := 1024.

(** The child SAs and what belongs to them: addresses of a pool
    ([ikev2_cp_setaddr]), [ikev2_childsa_negotiate], [ikev2_childsa_enable]
    and [ikev2_childsa_delete] with the kernel behind them, SPIs the kernel
    hands out, the option for encapsulation on the socket, and what
    [ikev2_enable_timer], [ikev2_record_dstid] and [sa_configure_iface] note
    of an established SA. *)
Class Children := {
  ikev2_cp_setaddr : Z → X Z;
  ikev2_childsa_negotiate : X Z;
  ikev2_childsa_enable : X Z;
  ikev2_childsa_delete : X unit;
  ipsec_sa_init : Z → option Z;
  udp_encap : X Z;
  note_established : X unit }.

Section ike_auth.
Context `{!External, !Encrypter, !Pkeys, !Names, !Digests, !Children} (env : aenv) (peer : sockaddr).

(** ** Building and sending *)

Definition x_static : X (option ibuf) := a ← x_alloc; mret (ibuf_static a).

(** Continue the message in [e]. *)
Definition x_part {A} (e : ibuf) (m : B (option A)) : X (option (A * ibuf)) :=
  r ← on_nd (withbuf e m);
  mret (match r.1 with None => None | Some a => Some (a, r.2) end).

(** A message in a new static buffer; [None] is [goto done]. *)
Definition x_build {A} (m : B (option A)) : X (option (A * ibuf)) := e ←? x_static; x_part e m.

Definition x_send (e : ibuf) (exchange firstpayload : Z) (response : bool) : X Z :=
  on_nd (ikev2_msg_send_encrypt (sc_verbose env) peer e exchange firstpayload response).

Definition ikev2_send_ike_e (buf : option ibuf) (firstpayload exchange : Z) (response : bool) : X Z :=
  e ← x_build (match buf with
               | None => mret (Some tt)
               | Some b =>
                   pld ←? ikev2_add_payload;
                   d ← lift (ibuf_data b (ibuf_size b));
                   len ←? add_ibuf (Some d);
                   link (pld, len) IKEV2_PAYLOAD_NONE
               end);
  match e with None => mret (-1) | Some (_, e) => x_send e exchange firstpayload response end.

(** [sa_timer] *)
Definition x_timer (t : option Z) : X unit := on_nd (modify (set_nd_satimer t)).

Definition auth_failed_notify : B (option unit) :=
  n ←? b_reserve sizeof_notify;
  _ ← b_put n [bZ IKEV2_SAPROTO_IKE];
  _ ← b_put (n + 1) [x00];
  _ ← b_put (n + 2) (be_encode 2 IKEV2_N_AUTHENTICATION_FAILED);
  mret (Some tt).

Definition ikev2_send_auth_failed : X Z := with_asa (λ sa,
  let initiator := sh_initiator (sa_hdr sa) in
  dst ← gets (peer_id initiator);
  _ ← on_nd (print_id dst IKED_ID_SIZE);
  b ← x_build auth_failed_notify;
  ret ← match b with
        | None => mret (-1)
        | Some (_, b) =>
            ret ← ikev2_send_ike_e (Some b) IKEV2_PAYLOAD_NOTIFY
              (if initiator then IKEV2_EXCHANGE_INFORMATIONAL else IKEV2_EXCHANGE_IKE_AUTH) (negb initiator);
            _ ← (if initiator then x_flags IKED_REQ_INF else mret tt);
            mret ret
        end;
  _ ← x_state IKEV2_STATE_CLOSING;
  _ ← x_timer (Some IKED_IKE_SA_DELETE_TIMEOUT);
  _ ← upd_asa (λ sa, set_sa_fragments (config_free_fragments (sa_fragments sa)) sa);
  mret ret).

(** [ikev2_send_error]: nothing is sent when the notification has no length,
    which [ikev2_add_error] never answers. *)
Definition ikev2_send_error (m : iked_message) (exchange : Z) : X Z :=
  if msg_error m =? 0 then mret 0
  else
    b ← x_build (r ← ikev2_add_error m; mret (Some r));
    match b with
    | None => mret (-1)
    | Some (r, b) => if r =? 0 then mret (-1) else ikev2_send_ike_e (Some b) IKEV2_PAYLOAD_NOTIFY exchange true
    end.

(** ** Verifying the peer *)

Definition ikev2_ike_auth_compatible (sigsha2 : bool) (policy wire : Z) : Z :=
  if wire =? IKEV2_AUTH_SIG_ANY then -1
  else if (policy =? wire) || (policy =? IKEV2_AUTH_NONE) then 0
  else if policy =? IKEV2_AUTH_SIG_ANY then
    if (wire =? IKEV2_AUTH_SIG) || (wire =? IKEV2_AUTH_RSA_SIG) || (wire =? IKEV2_AUTH_ECDSA_256) ||
       (wire =? IKEV2_AUTH_ECDSA_384) || (wire =? IKEV2_AUTH_ECDSA_521) then 0 else -1
  else if (policy =? IKEV2_AUTH_SIG) || (policy =? IKEV2_AUTH_RSA_SIG) || (policy =? IKEV2_AUTH_ECDSA_256) ||
          (policy =? IKEV2_AUTH_ECDSA_384) || (policy =? IKEV2_AUTH_ECDSA_521) then
    if (wire =? IKEV2_AUTH_SIG) && sigsha2 then 0 else -1
  else -1.

Definition auth_failed : X Z := _ ← ikev2_send_auth_failed; mret (-1).

(** The key material the policy asks for: the session key of EAP once there
    is one; [None] for one that does not fit. *)
Definition effective_auth (a : iked_auth) (eapmsk : option bytes) : option iked_auth :=
  match eapmsk with
  | Some msk =>
      if negb (auth_eap a =? 0) then
        if (IKED_PSK_SIZE <? blen msk) || (255 <? blen msk) then None
        else Some (mk_auth IKEV2_AUTH_SHARED_KEY_MIC (auth_eap a) msk)
      else Some a
  | None => Some a
  end.

(** [ikev2_msg_auth] with the identities of the SA: the octets. *)
Definition x_msg_auth (response : bool) : X (option bytes) := with_asa (λ sa,
  iid ← gets at_iid; rid ← gets at_rid;
  o ← on_nd (ikev2_msg_auth sa iid rid response);
  match o with None => mret None | Some b => d ← on_nd (n_content b); mret (Some d) end).

(** From "XXX 2nd AUTH for EAP messages" on. *)
Definition eap_verified (a : iked_auth) : X Z := with_asa (λ sa,
  o ← x_msg_auth (negb (sh_initiator (sa_hdr sa)));
  match o with
  | None => mret (-1)
  | Some authmsg =>
      ret ← ikev2_msg_authsign a authmsg;
      if negb (ret =? 0) then auth_failed
      else
        _ ← x_flags IKED_REQ_AUTHVALID;
        _ ← x_flags IKED_REQ_EAPVALID;
        _ ← x_state IKEV2_STATE_EAP_SUCCESS;
        mret 0
  end).

Definition ikev2_auth_verify : X Z := with_asa (λ sa, with_policy env (λ p,
  eapmsk ← gets at_eapmsk;
  peerauth ← gets at_peerauth;
  match effective_auth (ap_auth p) eapmsk with
  | None => auth_failed
  | Some a =>
      if ikev2_ike_auth_compatible (sa_sigsha2 sa) (auth_method a) (id_type peerauth) <? 0 then auth_failed
      else
        let a := set_auth_method (id_type peerauth) a in
        o ← x_msg_auth (sh_initiator (sa_hdr sa));
        match o with
        | None => auth_failed
        | Some authmsg =>
            match id_buf peerauth with
            | None => fail Fnull
            | Some sig =>
                ret ← ikev2_msg_authverify a sig authmsg;
                if negb (ret =? 0) then auth_failed
                else if bool_decide (is_Some eapmsk) then eap_verified a
                else mret 0
            end
        end
  end)).

(** ** Sending AUTH *)

(** The certificates, when the flags of the SA ask for one. *)
Definition add_certs (required : Z) (certid : iked_id) (scert : list iked_id) (c : chain) : B (option chain) :=
  if negb (Z.land required IKED_REQ_CERT =? 0) && negb (id_type certid =? IKEV2_CERT_NONE)
  then c ←? add_cert c certid; add_scerts c scert
  else mret (Some c).

(** [ikev2_add_proposals] in a payload of its own: the header of the payload,
    the length or -1, and the proposals with their SPIs. *)
Definition add_sa (hdr : iked_sahdr) (props : list iked_proposal) (c : chain)
  : B (option (Z * (Z * list iked_proposal))) :=
  _ ←? link c IKEV2_PAYLOAD_SA;
  pld ←? ikev2_add_payload;
  r ← ikev2_add_proposals hdr ipsec_sa_init 0 (sh_initiator hdr) false true props;
  mret (Some (pld, r)).

Definition add_ts_end (p : auth_policy) (initiator : bool) (i : cp_info) (c : chain) : B (option unit) :=
  c ←? ikev2_add_ts initiator i (ap_tssrc p) (ap_tsdst p) c false;
  link c IKEV2_PAYLOAD_NONE.

(** [ikev2_init_ike_auth] from the identity of the peer to the notification for
    compression. *)
Definition init_auth_payloads (p : auth_policy) (sa : iked_sa) (r : astate) (peerid : option iked_id) (c : chain)
  : B (option chain) :=
  c ←? match peerid with
       | None => mret (Some c)
       | Some id => _ ←? link c IKEV2_PAYLOAD_IDr; add_id id
       end;
  c ←? (if negb (Z.land (sa_stateinit sa) IKED_REQ_CERT =? 0) && negb (id_type (at_icert r) =? IKEV2_CERT_NONE) then
          c ←? add_cert c (at_icert r);
          c ←? add_scerts c (at_scert r);
          c ←? ikev2_add_certreq c (sc_certreq env) (sc_certreqtype env);
          if negb (sc_certreqtype env =? ap_certreqtype p) then ikev2_add_certreq c None (ap_certreqtype p)
          else mret (Some c)
        else mret (Some c));
  _ ←? link c IKEV2_PAYLOAD_AUTH;
  c ←? add_auth (at_localauth r);
  if ikev2_cp_request_configured (ap_cfg p) then
    _ ←? link c IKEV2_PAYLOAD_CP;
    pld ←? ikev2_add_payload;
    len ←? ikev2_init_add_cp (at_cp r) (ap_cfg p);
    mret (Some (pld, len))
  else mret (Some c).

(** The index of a compression SA, when the policy asks for one. *)
Definition init_ipcomp (p : auth_policy) : X (option Z) :=
  if has_bit (pol_flags (ap_pol p)) IKED_POLICY_IPCOMP then
    match ipsec_sa_init IKEV2_SAPROTO_IPCOMP with
    | None => mret None
    | Some spi => _ ← modify (set_at_ipcompi spi); mret (Some spi)
    end
  else mret (Some 0).

Definition init_auth_peerid (p : auth_policy) : X (option (option iked_id)) :=
  if sid_type (pol_peerid (ap_pol p)) =? 0 then mret (Some None)
  else
    i ← on_nd (ikev2_policy2id (pol_peerid (ap_pol p)) (mk_id 0 0 None) false);
    mret (if i.1 =? 0 then Some (Some i.2) else None).

(** [ikev2_init_ike_auth]. The SPIs that [ikev2_add_proposals] draws stay in
    the proposals of the policy, for [ikev2_childsa_negotiate]. *)
Definition init_auth_message (p : auth_policy) (sa : iked_sa) : X (option ibuf) :=
  e ←? x_static;
  r ← gets id;
  x ←? x_part e (add_id (at_iid r));
  peerid ←? init_auth_peerid p;
  x ←? x_part x.2 (init_auth_payloads p sa r peerid x.1);
  spi ←? init_ipcomp p;
  x ←? x_part x.2 (
    c ←? ikev2_add_ipcompnotify x.1 spi;
    c ←? (if has_bit (pol_flags (ap_pol p)) IKED_POLICY_TRANSPORT then ikev2_add_transport_mode c else mret (Some c));
    s ←? add_sa (sa_hdr sa) (pol_proposals (ap_pol p)) c;
    if s.2.1 =? -1 then mret None
    else add_ts_end p (sh_initiator (sa_hdr sa)) (at_cp r) (s.1, s.2.1));
  mret (Some x.2).

Definition ikev2_init_ike_auth : X Z := with_asa (λ sa,
  localauth ← gets at_localauth;
  if negb (sa_stateok sa IKEV2_STATE_SA_INIT) then mret 0
  else if id_type localauth =? 0 then mret 0
  else with_policy env (λ p,
    o ← init_auth_message p sa;
    match o with
    | None => mret (-1)
    | Some e => x_send e IKEV2_EXCHANGE_IKE_AUTH IKEV2_PAYLOAD_IDi false
    end)).

(** What follows a successful negotiation of the child SAs. *)
Definition established : X unit :=
  _ ← x_state IKEV2_STATE_ESTABLISHED;
  _ ← x_timer None;
  note_established.

Definition ikev2_init_done : X Z := with_asa (λ sa,
  if negb (sa_stateok sa IKEV2_STATE_VALID) then mret 0
  else
    o ← udp_encap;
    if o <? 0 then mret (-1)
    else
      ret ← ikev2_childsa_negotiate;
      ret ← (if ret =? 0 then ikev2_childsa_enable else mret ret);
      _ ← (if ret =? 0 then established else ikev2_childsa_delete);
      mret ret).

(** [eap_identity_request] *)
Definition eap_identity_payloads (sa : iked_sa) (r : astate) : B (option unit) :=
  c ←? add_id (at_rid r);
  c ←? add_certs (sa_statevalid sa) (at_rcert r) (at_scert r) c;
  _ ←? link c IKEV2_PAYLOAD_AUTH;
  c ←? add_auth (at_localauth r);
  _ ←? link c IKEV2_PAYLOAD_EAP;
  pld ←? ikev2_add_payload;
  len ←? eap_add_id_request;
  link (pld, len) IKEV2_PAYLOAD_NONE.

Definition eap_identity_request : X Z := with_asa (λ sa,
  r ← gets id;
  if sh_initiator (sa_hdr sa) then mret (-1)
  else if id_type (at_localauth r) =? 0 then mret 0
  else
    o ← x_build (eap_identity_payloads sa r);
    match o with
    | None => mret (-1)
    | Some (_, e) => x_send e IKEV2_EXCHANGE_IKE_AUTH IKEV2_PAYLOAD_IDr true
    end).

(** [ikev2_resp_ike_auth] up to the notification for compression. *)
Definition resp_auth_payloads (p : auth_policy) (sa : iked_sa) (r : astate) : B (option (Z * chain)) :=
  let initiator := sh_initiator (sa_hdr sa) in
  let id := if initiator then at_iid r else at_rid r in
  first ←? (if negb (sa_state sa =? IKEV2_STATE_EAP_VALID) then
              c ←? add_id id;
              c ←? add_certs (sa_statevalid sa) (local_cert initiator r) (at_scert r) c;
              _ ←? link c IKEV2_PAYLOAD_AUTH;
              mret (Some IKEV2_PAYLOAD_IDr)
            else mret (Some IKEV2_PAYLOAD_AUTH));
  c ←? add_auth (at_localauth r);
  if negb (sa_cp (at_cp r) =? 0) then
    _ ←? link c IKEV2_PAYLOAD_CP;
    pld ←? ikev2_add_payload;
    len ←? ikev2_resp_add_cp (at_cp r) (ap_cfg p);
    mret (Some (first, (pld, len)))
  else mret (Some (first, c)).

(** The rest of the message: compression, whose index is used once, transport
    mode, MOBIKE, the proposals and the traffic selectors. *)
Definition resp_auth_rest (p : auth_policy) (e : ibuf) (c : chain) : X (option ibuf) := with_asa (λ sa,
  ic ← gets at_ipcompr;
  transport ← gets at_transport;
  _ ← (if negb (ic.1 =? 0) then modify (set_at_ipcompr (0, 0)) else mret tt);
  x ←? x_part e (
    c ←? (if negb (ic.1 =? 0) then ikev2_add_ipcompnotify c ic.2 else mret (Some c));
    c ←? (if (transport : bool) then ikev2_add_transport_mode c else mret (Some c));
    c ←? (if sa_mobike sa then ikev2_add_mobike c else mret (Some c));
    add_sa (sa_hdr sa) (sa_proposals sa) c);
  _ ← upd_asa (set_sa_proposals x.1.2.2);
  if x.1.2.1 =? -1 then mret None
  else
    i ← gets at_cp;
    x ←? x_part x.2 (add_ts_end p (sh_initiator (sa_hdr sa)) i (x.1.1, x.1.2.1));
    mret (Some x.2)).

Definition ikev2_resp_ike_auth : X Z := with_asa (λ sa,
  if sa_state sa =? IKEV2_STATE_EAP then eap_identity_request
  else if negb (sa_stateok sa IKEV2_STATE_VALID) then mret 0
  else
    r4 ← ikev2_cp_setaddr AF_INET;
    r6 ← (if r4 <? 0 then mret r4 else ikev2_cp_setaddr AF_INET6);
    if r6 <? 0 then mret (-1)
    else
      n ← ikev2_childsa_negotiate;
      if n <? 0 then mret (-1)
      else with_policy env (λ p,
        o ← (e ←? x_static;
             localauth ← gets at_localauth;
             _ ← (if id_type localauth =? 0 then x_state IKEV2_STATE_AUTH_SUCCESS else mret tt);
             with_asa (λ sa,
               r ← gets id;
               x ←? x_part e (resp_auth_payloads p sa r);
               e ←? resp_auth_rest p x.2 x.1.2;
               mret (Some (x.1.1, e))));
        ret ← match o with
              | None => mret (-1)
              | Some (first, e) => x_send e IKEV2_EXCHANGE_IKE_AUTH first true
              end;
        ret ← (if ret =? 0 then ikev2_childsa_enable else mret ret);
        _ ← (if ret =? 0 then established else ikev2_childsa_delete);
        mret ret)).

Definition ikev2_ike_auth : X Z := with_asa (λ sa,
  _ ← (if sa_state sa =? IKEV2_STATE_EAP_SUCCESS then x_state IKEV2_STATE_EAP_VALID
       else if sa_state sa =? IKEV2_STATE_AUTH_SUCCESS then x_state IKEV2_STATE_VALID
       else mret tt);
  with_asa (λ sa,
    if sh_initiator (sa_hdr sa) then
      if sa_stateok sa IKEV2_STATE_AUTH_SUCCESS then ikev2_init_done
      else if sa_stateok sa IKEV2_STATE_AUTH_REQUEST then mret 0
      else ikev2_init_ike_auth
    else ikev2_resp_ike_auth)).

(** ** Receiving IKE_AUTH *)

(** The loop over the certificate requests of a message. *)
Fixpoint set_requests (localid : iked_static_id) (crs : list iked_certreq) : X unit :=
  match crs with
  | [] => mret tt
  | cr :: crs =>
      _ ← ca_setreq localid (cr_type cr) (negb (bool_decide (crs = []))) (cr_data cr);
      set_requests localid crs
  end.

Definition ikev2_handle_certreq (m : iked_message) : X Z := with_asa (λ sa, with_policy env (λ p,
  if auth_method (ap_auth p) =? IKEV2_AUTH_SHARED_KEY_MIC then mret 0
  else
    _ ← upd_asa (λ sa, if sh_initiator (sa_hdr sa) then set_sa_stateinit (Z.lor (sa_stateinit sa) IKED_REQ_CERT) sa
                       else set_sa_statevalid (Z.lor (sa_statevalid sa) IKED_REQ_CERT) sa);
    let localid := pol_localid (ap_pol p) in
    _ ← match msg_certreqs m with
        | [] =>
            let crtype := if negb (ap_certreqtype p =? 0) then ap_certreqtype p else sc_certreqtype env in
            match sc_certreq env with
            | None => fail Fnull
            | Some d => _ ← ca_setreq localid crtype false d; mret tt
            end
        | crs => set_requests localid crs
        end;
    mret 0)).

(** "The AUTH payload indicates if the responder wants EAP or not" *)
Definition recv_state (m : iked_message) : X unit :=
  _ ← with_asa (λ sa,
    if negb (id_type (msg_auth m) =? IKEV2_AUTH_NONE) && negb (sa_stateok sa IKEV2_STATE_EAP)
    then x_state IKEV2_STATE_AUTH_REQUEST else mret tt);
  with_asa (λ sa,
    if negb (sh_initiator (sa_hdr sa)) && negb (sa_stateok sa IKEV2_STATE_AUTH_REQUEST) then
      with_policy env (λ p, if negb (auth_eap (ap_auth p) =? 0) then x_state IKEV2_STATE_EAP else mret tt)
    else mret tt).

(** The identity the peer claims, if the message has one. *)
Definition take_peerid (m : iked_message) : X unit := with_asa (λ sa,
  if negb (id_type (msg_peerid m) =? 0)
  then modify (set_peer_id (sh_initiator (sa_hdr sa)) (msg_peerid m)) else mret tt).

(** Policy by identity at the responder, checked at the initiator: [false]
    when the message is given up. *)
Definition recv_policy_resp (m : iked_message) (old : nat) : X bool := with_asa (λ sa,
  _ ← modify (set_at_policy None);
  new ← policy_lookup env m (sa_proposals sa) Null 0;
  match new with
  | None => _ ← ikev2_send_auth_failed; mret false
  | Some new =>
      ok ← (if bool_decide (new = old) then _ ← modify (set_at_policy (Some old)); mret true
            else
              ok ← sa_new_update env false (sh_rspi (sa_hdr sa)) (Some new);
              if (ok : bool) then mret true else _ ← ikev2_send_auth_failed; mret false);
      if negb ok then mret false
      else r ← ikev2_handle_certreq m; mret (r =? 0)
  end).

Definition recv_policy_init (m : iked_message) (old : nat) : X bool := with_asa (λ sa,
  p ← the_policy env old;
  _ ← modify (set_at_policy None);
  new ← policy_lookup env m (sa_proposals sa) (pol_flows (ap_pol p)) (pol_nflows (ap_pol p));
  if bool_decide (new = Some old) then _ ← modify (set_at_policy (Some old)); mret true
  else _ ← take_peerid m; _ ← ikev2_send_auth_failed; mret false).

Definition recv_policy (m : iked_message) : X bool := with_asa (λ sa,
  o ← gets at_policy;
  if negb (id_type (msg_peerid m) =? 0) && negb (sh_initiator (sa_hdr sa)) then
    match o with None => fail Fnull | Some old => recv_policy_resp m old end
  else if sh_initiator (sa_hdr sa) then
    match o with None => fail Fnull | Some old => recv_policy_init m old end
  else mret true).

(** The responder signs as soon as it knows the identity of the peer. *)
Definition recv_id (m : iked_message) : X bool := with_asa (λ sa,
  _ ← take_peerid m;
  if negb (id_type (msg_peerid m) =? 0) && negb (sh_initiator (sa_hdr sa)) then
    o ← x_msg_auth true;
    match o with
    | None => mret false
    | Some authmsg => _ ← ca_setauth env authmsg; mret true
    end
  else mret true).

(** "Encode all received certs as single blob" *)
Definition recv_certs (m : iked_message) : X (option iked_id) :=
  if negb (id_type (msg_cert m) =? IKEV2_CERT_BUNDLE) &&
     negb (id_type (default (mk_id 0 0 None) (msg_scert m !! 0%nat)) =? IKEV2_CERT_NONE) then
    o ← on_nd (n_new None 0);
    match o with
    | None => mret None
    | Some buf =>
        x ←? x_part buf (_ ←? ca_certbundle_add (msg_cert m); add_bundle (msg_scert m));
        d ← on_nd (n_content x.2);
        mret (Some (mk_id IKEV2_CERT_BUNDLE (id_offset (msg_cert m)) (Some d)))
    end
  else mret (Some (msg_cert m)).

Definition recv_proposals (m : iked_message) : X bool := with_asa (λ sa, with_policy env (λ p,
  if bool_decide (msg_proposals m = []) then mret true
  else
    let '(r, props) := proposals_negotiate false (-1) (Some (sa_proposals sa)) (pol_proposals (ap_pol p)) (msg_proposals m) in
    _ ← upd_asa (λ sa, set_sa_proposals (default (sa_proposals sa) props) sa);
    if negb (r =? 0) then _ ← on_nd (count inc_negotiate_failures); mret false
    else _ ← x_flags IKED_REQ_SA; mret true)).

Definition recv_cp (m : iked_message) : X unit :=
  if negb (msg_cp m =? 0) then
    modify (λ r, let i := at_cp r in
      set_at_cp (mk_cp_info (msg_cp m) (sa_addrpool i) (sa_addrpool6 i)
        (match msg_cp_addr m with Some a => Some a | None => sa_cp_addr i end)
        (match msg_cp_addr6 m with Some a => Some a | None => sa_cp_addr6 i end)) r)
  else mret tt.

(** "For EAP and PSK AUTH can be verified without the CA process": the result
    of the verification is not looked at. *)
Definition recv_verify (cert : iked_id) : X bool := with_asa (λ sa, with_policy env (λ p,
  eapmsk ← gets at_eapmsk;
  peerauth ← gets at_peerauth;
  if (negb (auth_eap (ap_auth p) =? 0) && bool_decide (is_Some eapmsk)) ||
     (auth_method (ap_auth p) =? IKEV2_AUTH_SHARED_KEY_MIC)
  then _ ← ikev2_auth_verify; mret true
  else if negb (id_type peerauth =? 0) then
    data ← (if negb (id_type cert =? 0)
            then match id_buf cert with None => fail Fnull | Some d => mret (Some d) end else mret None);
    _ ← upd_asa (λ sa, set_sa_stateflags (Z.ldiff (sa_stateflags sa) IKED_REQ_CERTVALID) sa);
    id ← gets (peer_id (sh_initiator (sa_hdr sa)));
    r ← ca_setcert id (if negb (id_type cert =? 0) then id_type cert else IKEV2_CERT_NONE) data;
    mret (negb (r =? -1))
  else mret true)).

(** [ikev2_ike_auth_recv]: the result and the error for [ikev2_send_error]. *)
Definition recv_authenticate (m : iked_message) : X (Z * Z) :=
  ok ← recv_id m;
  if negb ok then mret (-1, msg_error m)
  else
    cert ← recv_certs m;
    match cert with
    | None => mret (-1, msg_error m)
    | Some cert =>
        ok ← recv_proposals m;
        if negb ok then mret (-1, IKEV2_N_NO_PROPOSAL_CHOSEN)
        else
          _ ← (if negb (id_type (msg_auth m) =? 0) then modify (set_at_peerauth (msg_auth m)) else mret tt);
          _ ← recv_cp m;
          ok ← recv_verify cert;
          if negb ok then mret (-1, msg_error m)
          else r ← ikev2_ike_auth; mret (r, msg_error m)
    end.

Definition ikev2_ike_auth_recv (m : iked_message) : X (Z * Z) :=
  _ ← recv_state m;
  ok ← recv_policy m;
  if negb ok then mret (-1, msg_error m)
  else with_policy env (λ p,
    if (id_type (msg_auth m) =? 0) && (auth_eap (ap_auth p) =? 0) then
      _ ← take_peerid m; _ ← ikev2_send_auth_failed; mret (-1, msg_error m)
    else recv_authenticate m).

(** ** EAP at the responder *)

Definition send_eap (m : B (option unit)) : X Z :=
  o ← x_build m;
  match o with
  | None => mret (-1)
  | Some (_, e) => ikev2_send_ike_e (Some e) IKEV2_PAYLOAD_EAP IKEV2_EXCHANGE_IKE_AUTH true
  end.

(** [eap_challenge_request]: the challenge is kept. *)
Definition eap_challenge_request (eap_id : Z) : X Z := with_policy env (λ p,
  if negb (auth_eap (ap_auth p) =? EAP_TYPE_MSCHAP_V2) then mret (-1)
  else
    challenge ← on_nd (n_random EAP_MSCHAP_CHALLENGE_SZ);
    o ← x_build (eap_challenge eap_id challenge);
    match o with
    | None => mret (-1)
    | Some (_, e) =>
        c ← on_nd (n_new (Some challenge) EAP_MSCHAP_CHALLENGE_SZ);
        match c with
        | None => _ ← modify (λ r, set_at_eap (mk_id EAP_TYPE_MSCHAP_V2 (id_offset (at_eap r)) None) r); mret (-1)
        | Some b =>
            d ← on_nd (n_content b);
            _ ← modify (λ r, set_at_eap (mk_id EAP_TYPE_MSCHAP_V2 (id_offset (at_eap r)) (Some d)) r);
            ikev2_send_ike_e (Some e) IKEV2_PAYLOAD_EAP IKEV2_EXCHANGE_IKE_AUTH true
        end
    end).

Definition eap_success (eap_id : Z) : X Z := send_eap (eap_short EAP_CODE_SUCCESS eap_id).
Definition eap_mschap_challenge (eap_id msr_id : Z) (successmsg : bytes) : X Z :=
  send_eap (eap_success_request eap_id msr_id successmsg).
Definition eap_mschap_success (eap_id : Z) : X Z := send_eap (eap_success_response eap_id).

(** [user_lookup]: the name and the password. *)
Definition user_lookup (user : bytes) : option (bytes * bytes) :=
  if LOGIN_NAME_MAX <=? blen user then None
  else List.find (λ u, bool_decide (u.1 = user)) (sc_users env).

(** The answer to the challenge. *)
Definition mschap_answer (eap : eap_msg) (usr : bytes * bytes) : X Z :=
  a ← x_alloc;
  if negb a then mret (-1)
  else
    let pass := string2unicode usr.2 in
    r ← gets at_eap;
    match id_buf r with
    | None => fail Fnull
    | Some challenge =>
        ntresponse ← lift (mschap_nt_response challenge (eam_challenge eap) usr.1 pass);
        nt ← lift (rd (eam_ntresponse eap) 0 24);
        if negb (bool_decide (ntresponse = nt)) then mret (-1)
        else
          successmsg ← lift (mschap_auth_response pass ntresponse challenge (eam_challenge eap) usr.1);
          o ← on_nd (n_new None MSCHAP_MSK_SZ);
          match o with
          | None => _ ← modify (set_at_eapmsk None); mret (-1)
          | Some _ =>
              msk ← lift (mschap_msk pass ntresponse);
              _ ← modify (set_at_eapmsk (Some msk));
              _ ← x_log (EapUser usr.1 msk);
              ret ← eap_mschap_challenge (eam_id eap) (eam_msrid eap) successmsg;
              _ ← (if ret =? 0 then x_state IKEV2_STATE_AUTH_SUCCESS else mret tt);
              mret 0
          end
    end.

Definition ikev2_resp_ike_eap_mschap (eap : eap_msg) : X Z := with_asa (λ sa,
  if eam_state eap =? EAP_STATE_IDENTITY then
    _ ← modify (set_at_eapid (eam_identity eap)); eap_challenge_request (eam_id eap)
  else if eam_state eap =? EAP_STATE_MSCHAPV2_CHALLENGE then
    eapid ← gets at_eapid;
    match (match eam_user eap with Some u => Some u | None => eapid end) with
    | None => mret (-1)
    | Some name =>
        match user_lookup name with
        | None => mret (-1)
        | Some usr => mschap_answer eap usr
        end
    end
  else if eam_state eap =? EAP_STATE_MSCHAPV2_SUCCESS then eap_mschap_success (eam_id eap)
  else if eam_state eap =? EAP_STATE_SUCCESS then
    if negb (sa_stateok sa IKEV2_STATE_AUTH_SUCCESS) then mret (-1) else eap_success (eam_id eap)
  else mret 0).

Definition ikev2_resp_ike_eap (m : iked_message) : X Z := with_asa (λ sa,
  if negb (sa_stateok sa IKEV2_STATE_EAP) then mret (-1)
  else with_policy env (λ p,
    if auth_eap (ap_auth p) =? EAP_TYPE_MSCHAP_V2 then ikev2_resp_ike_eap_mschap (msg_eap m) else mret (-1))).

(** ** The exchange *)

(** IKE_AUTH in [ikev2_resp_recv]: the checks before the message is parsed
    and the case after. *)
Definition resp_ike_auth_ok (sa : iked_sa) : bool :=
  negb ((sa_state sa =? IKEV2_STATE_CLOSED) || (sa_state sa =? IKEV2_STATE_CLOSING)) &&
  negb (sa_stateok sa IKEV2_STATE_VALID).

Definition resp_recv_auth (m : iked_message) : X unit := with_asa (λ sa,
  if negb (sa_stateok sa IKEV2_STATE_SA_INIT) then x_state IKEV2_STATE_CLOSED
  else if eam_found (msg_eap m) then
    r ← ikev2_resp_ike_eap m;
    if negb (r =? 0) then x_state IKEV2_STATE_CLOSED else mret tt
  else
    r ← ikev2_ike_auth_recv m;
    if negb (r.1 =? 0) then
      _ ← ikev2_send_error (set_msg_error r.2 m) IKEV2_EXCHANGE_IKE_AUTH;
      x_state IKEV2_STATE_CLOSED
    else mret tt).

(** IKE_AUTH in [ikev2_init_recv]. *)
Definition init_recv_auth (m : iked_message) : X unit :=
  if has_bit (msg_flags m) IKED_MSG_FLAGS_AUTHENTICATION_FAILED then x_state IKEV2_STATE_CLOSED
  else if has_bit (msg_flags m) IKED_MSG_FLAGS_NO_PROPOSAL_CHOSEN then x_state IKEV2_STATE_CLOSED
  else _ ← ikev2_ike_auth_recv m; mret tt.

(** An IKE_AUTH message, once it is decrypted: dropped for an SA that closes
    and, at the responder, for one that is valid. *)
Definition recv_auth_message (m : iked_message) : X unit := with_asa (λ sa,
  if sh_initiator (sa_hdr sa) then
    if (sa_state sa =? IKEV2_STATE_CLOSED) || (sa_state sa =? IKEV2_STATE_CLOSING) then mret tt else init_recv_auth m
  else if resp_ike_auth_ok sa then resp_recv_auth m else mret tt).

(** ** Answers of the certificate process *)

(** The certificate of an answer: [false] when memory runs out. *)
Definition set_cert (set : iked_id → astate → astate) (type : Z) (data : bytes) (empty : bool) : X bool :=
  _ ← modify (set (mk_id type 0 None));
  if blen data =? 0 then mret empty
  else
    o ← on_nd (n_new (Some data) (blen data));
    match o with
    | None => mret false
    | Some b => d ← on_nd (n_content b); _ ← modify (set (mk_id type 0 (Some d))); mret true
    end.

(** [IMSG_CERTVALID] and [IMSG_CERTINVALID] *)
Definition dispatch_certvalid (valid : bool) (type : Z) (data : bytes) : X unit := with_asa (λ sa,
  if sa_state sa <? IKEV2_STATE_EAP then mret tt
  else
    let initiator := sh_initiator (sa_hdr sa) in
    ok ← set_cert (if initiator then set_at_rcert else set_at_icert) type data true;
    if negb ok then mret tt
    else if (valid : bool) then
      cert ← gets (peer_cert initiator);
      _ ← x_log (Vouched type (id_buf cert));
      peerauth ← gets at_peerauth;
      r ← (if negb (id_type peerauth =? 0) then ikev2_auth_verify else mret 0);
      if negb (r =? 0) then mret tt
      else _ ← x_flags IKED_REQ_CERTVALID; _ ← ikev2_ike_auth; mret tt
    else _ ← ikev2_send_auth_failed; mret tt).

(** [IMSG_CERT] *)
Definition dispatch_local_cert (type : Z) (data : bytes) : X unit := with_asa (λ sa,
  if negb (Z.land (sa_stateflags sa) IKED_REQ_CERT =? 0) || (type =? IKEV2_CERT_NONE) then mret tt
  else
    ok ← set_cert (if sh_initiator (sa_hdr sa) then set_at_icert else set_at_rcert) type data false;
    if negb ok then mret tt else _ ← x_flags IKED_REQ_CERT; _ ← ikev2_ike_auth; mret tt).

(** [IMSG_SCERT]: the first free place of three. *)
Definition dispatch_scert (type : Z) (data : bytes) : X unit := with_asa (λ sa,
  if negb (Z.land (sa_stateflags sa) IKED_REQ_CERT =? 0) || (type =? IKEV2_CERT_NONE) then mret tt
  else
    scert ← gets at_scert;
    match list_find (λ id, id_type id = IKEV2_CERT_NONE) scert with
    | None => mret tt
    | Some (i, _) => _ ← set_cert (λ id r, set_at_scert (<[i:=id]> (at_scert r)) r) type data false; mret tt
    end).

(** [IMSG_AUTH] *)
Definition dispatch_auth (type : Z) (data : bytes) : X unit := with_asa (λ sa,
  if sa_stateok sa IKEV2_STATE_VALID then mret tt
  else
    ok ← (if negb (type =? IKEV2_AUTH_NONE) then set_cert set_at_localauth type data false
          else _ ← modify (set_at_localauth (mk_id type 0 None)); mret true);
    if negb ok then mret tt else _ ← x_flags IKED_REQ_AUTH; _ ← ikev2_ike_auth; mret tt).

(** What happens to an SA during authentication. *)
Inductive auth_input :=
  | InMessage (m : iked_message)
  | InCertValid (valid : bool) (type : Z) (data : bytes)
  | InCert (type : Z) (data : bytes)
  | InScert (type : Z) (data : bytes)
  | InAuth (type : Z) (data : bytes).

Definition handle_input (i : auth_input) : X unit :=
  match i with
  | InMessage m => recv_auth_message m
  | InCertValid valid type data => dispatch_certvalid valid type data
  | InCert type data => dispatch_local_cert type data
  | InScert type data => dispatch_scert type data
  | InAuth type data => dispatch_auth type data
  end.

Fixpoint handle_inputs (l : list auth_input) : X unit :=
  match l with [] => mret tt | i :: l => _ ← handle_input i; handle_inputs l end.
End ike_auth.
