(* ===== verification/AuthFrame.v ===== *)
(** * What IKE_AUTH leaves alone

    Building, signing and sending messages does not touch what decides
    whether an SA is authenticated: its keys and nonces, its flags and what it
    requires. Sending may start to close the SA. *)

From S2P Require Import Prelude Types SaState Proposals Ibuf Build Parse ParseSk ParseAlloc ParseTop Policy Queue Crypto.
From S2P Require Import Encrypt Send Keys Chap Dsa Payload Auth Ident IkeAuth.

(** The fields of an SA that its authentication depends on. *)
Definition sa_kex (sa : iked_sa) :=
  (sa_hdr sa, sa_prf sa, (sa_inonce sa, sa_rnonce sa), (sa_key_iprf sa, sa_key_rprf sa), (sa_1stmsg sa, sa_2ndmsg sa)).
Definition sa_reqs (sa : iked_sa) : Z * Z * Z := (sa_stateflags sa, sa_stateinit sa, sa_statevalid sa).

Definition quiet (sa sa' : iked_sa) : Prop :=
  sa_kex sa' = sa_kex sa ∧ sa_reqs sa' = sa_reqs sa ∧
  (sa_state sa' = sa_state sa ∨ sa_state sa' = IKEV2_STATE_CLOSING).

Lemma quiet_refl sa : quiet sa sa.
Proof. split_and!; auto. Qed.
Lemma quiet_trans sa sa' sa'' : quiet sa sa' → quiet sa' sa'' → quiet sa sa''.
Proof. intros (A1 & A2 & A3) (B1 & B2 & B3). split_and!; [congruence..|]. destruct B3; [rewrite <-H in A3|]; auto. Qed.

(** ** Code on the SA *)

Class Quiet {A} (m : N A) : Prop := quiet_run s a s' :
  m s = Ok (a, s') → ∀ sa', nd_sa s' = Some sa' → ∃ sa, nd_sa s = Some sa ∧ quiet sa sa'.

(** Code that leaves the SA as it is. *)
Class Still {A} (m : N A) : Prop := still_run s a s' : m s = Ok (a, s') → nd_sa s' = nd_sa s.

Lemma still_quiet {A} (m : N A) : Still m → Quiet m.
Proof. intros H s a s' E sa' Hs. rewrite (H _ _ _ E) in Hs. eauto using quiet_refl. Qed.
#[global] Instance still_ret {A} (a : A) : Still (mret a : N A).
Proof. intros s a' s' E. by injection E as <- <-. Qed.
#[global] Instance still_gets {A} (f : node → A) : Still (gets f).
Proof. intros s a' s' E. by injection E as <- <-. Qed.
#[global] Instance still_fail {A} f : Still (fail f : N A).
Proof. done. Qed.
#[global] Instance still_lift {A} (o : out A) : Still (lift o : N A).
Proof. intros s a' s'. unfold lift. destruct o; [|done]. by intros [= <- <-]. Qed.
Lemma still_bind {A C} (m : N A) (k : A → N C) : Still m → (∀ a, Still (k a)) → Still (m ≫= k).
Proof.
  intros Hm Hk s c s'. unfold mbind, M_bind. destruct (m s) as [[a s1]|] eqn:E; [|done]. intros E'.
  by rewrite (Hk _ _ _ _ E'), (Hm _ _ _ E).
Qed.
Lemma still_modify (f : node → node) : (∀ s, nd_sa (f s) = nd_sa s) → Still (modify f).
Proof. intros H s a s' E. injection E as <- <-. apply H. Qed.
#[global] Instance still_alloc : Still n_alloc.
Proof. intros s a s'. unfold n_alloc. destruct (nd_alloc s); by intros [= <- <-]. Qed.
#[global] Instance still_withbuf {A} b (m : B A) : Still (withbuf b m).
Proof. intros s a s'. unfold withbuf. destruct (m _) as [[]|]; [|done]. by intros [= <- <-]. Qed.

Lemma quiet_bind {A C} (m : N A) (k : A → N C) : Quiet m → (∀ a, Quiet (k a)) → Quiet (m ≫= k).
Proof.
  intros Hm Hk s c s'. unfold mbind, M_bind. destruct (m s) as [[a s1]|] eqn:E; [|done]. intros E' sa' Hs.
  destruct (Hk _ _ _ _ E' _ Hs) as (sa1 & Hs1 & Q1). destruct (Hm _ _ _ E _ Hs1) as (sa & Hs0 & Q0).
  eauto using quiet_trans.
Qed.
Lemma quiet_upd f : (∀ sa, quiet sa (f sa)) → Quiet (upd_nsa f).
Proof.
  intros H s a s' E sa'. injection E as <- <-. simpl. destruct (nd_sa s) as [sa|]; [|done]. intros [= <-]. eauto.
Qed.

Ltac still_step :=
  first
    [ apply _
    | apply still_modify; intros; reflexivity
    | apply still_bind; [|intros]
    | match goal with |- Still (match ?x with _ => _ end) => destruct x end
    | progress cbv zeta ].
Ltac still_tac := repeat still_step.
Ltac quiet_step :=
  first
    [ apply _
    | apply still_quiet; apply _
    | apply quiet_upd; intros; (split; [|split]; [reflexivity|reflexivity|by left])
    | apply quiet_bind; [|intros]
    | apply still_quiet, still_modify; intros; reflexivity
    | match goal with |- Quiet (match ?x with _ => _ end) => destruct x end
    | progress cbv zeta ].
Ltac quiet_tac := repeat quiet_step.

#[global] Instance still_onbuf {A} (m : B A) : Still (onbuf m).
Proof. unfold onbuf. still_tac. Qed.
#[global] Instance still_new data len : Still (n_new data len).
Proof. unfold n_new. still_tac. Qed.
#[global] Instance still_must : Still n_must.
Proof. unfold n_must. still_tac. Qed.
#[global] Instance still_count f : Still (count f).
Proof. unfold count. still_tac. Qed.
#[global] Instance still_random n : Still (n_random n).
Proof. intros s a s' E. by injection E as <- <-. Qed.
#[global] Instance still_content b : Still (n_content b).
Proof. unfold n_content. still_tac. Qed.
#[global] Instance still_sendtofrom data : Still (sendtofrom data).
Proof. intros s a s'. unfold sendtofrom. repeat case_match; by intros [= <- <-]. Qed.
#[global] Instance still_enqueue q m t : Still (ikev2_msg_enqueue q m t).
Proof. unfold ikev2_msg_enqueue. still_tac. Qed.
#[global] Instance still_copy data : Still (ikev2_msg_copy data).
Proof. unfold ikev2_msg_copy. still_tac. Qed.
#[global] Instance still_natt isnatt buf : Still (send_natt isnatt buf).
Proof. unfold send_natt. still_tac. Qed.
#[global] Instance quiet_keep hdr msgid response data : Quiet (msg_keep hdr msgid response data).
Proof. unfold msg_keep. quiet_tac. Qed.

(** The SA that is handed to [msg_transmit] is the one of the node. *)
Lemma transmit_quiet data s a s' :
  msg_transmit (nd_sa s) data s = Ok (a, s') → ∀ sa', nd_sa s' = Some sa' → ∃ sa, nd_sa s = Some sa ∧ quiet sa sa'.
Proof.
  unfold msg_transmit, mbind, M_bind. destruct (sendtofrom data s) as [[r s1]|] eqn:E; [|done].
  pose proof (still_run _ _ _ E) as H1. destruct r as [|[]]; intros E' sa' Hs.
  - rewrite (still_run _ _ _ E') in Hs. rewrite <-H1. eauto using quiet_refl.
  - destruct (nd_sa s) as [sa|] eqn:Hsa.
    + cbn -[count] in E'. rewrite andb_false_r in E'. rewrite (still_run _ _ _ E') in Hs. injection Hs as <-.
      exists sa. split_and!; [done..|]. split_and!; [done..|by right].
    + cbn -[count] in E'. rewrite (still_run _ _ _ E') in Hs. congruence.
  - assert (nd_sa s' = nd_sa s1) as Hss by (destruct (nd_sa s); exact (still_run _ _ _ E')).
    rewrite Hss, H1 in Hs. eauto using quiet_refl.
Qed.

#[global] Instance quiet_send msgid response : Quiet (ikev2_msg_send msgid response).
Proof.
  intros s a s'. unfold ikev2_msg_send, mbind, M_bind, gets, lift, modify.
  destruct (ibuf_seek (nd_buf s) 0 sizeof_ike_header) as [p|]; [|intros [= <- <-]; eauto using quiet_refl].
  destruct (load _ _ _) as [h|]; [|done].
  destruct (send_natt _ _ s) as [[b s1]|] eqn:E1; [|done]. pose proof (still_run _ _ _ E1) as H1.
  destruct b as [b|]; [|intros [= <- <-]; rewrite H1; eauto using quiet_refl].
  destruct (ibuf_data _ _) as [data|]; [|done].
  destruct (msg_transmit (nd_sa s) data (set_nd_buf b s1)) as [[u s2]|] eqn:E2; [|done]. intros E3 sa' Hs.
  destruct (quiet_run _ _ _ E3 _ Hs) as (sa2 & Hs2 & Q2). rewrite <-H1 in E2 |- *.
  change (nd_sa s1) with (nd_sa (set_nd_buf b s1)) in E2.
  destruct (transmit_quiet _ _ _ _ E2 _ Hs2) as (sa & Hs0 & Q0). eauto using quiet_trans.
Qed.

Section external.
Context `{EX : External, EN : !Encrypter}.

#[global] Instance still_setiv c : Still (cipher_setiv c).
Proof. unfold cipher_setiv. still_tac. Qed.
#[global] Instance still_init_encrypt c iv : Still (cipher_init_encrypt c iv).
Proof. unfold cipher_init_encrypt. still_tac. Qed.
#[global] Instance still_pad src pad : Still (encrypt_pad src pad).
Proof. unfold encrypt_pad. still_tac. Qed.
#[global] Instance still_out c h key aad src n : Still (encrypt_out c h key aad src n).
Proof. unfold encrypt_out. still_tac. Qed.
#[global] Instance still_encrypt osa src aad : Still (ikev2_msg_encrypt osa src aad).
Proof. unfold ikev2_msg_encrypt. still_tac. Qed.
#[global] Instance still_prepare osa pld e hdr fp frag : Still (ikev2_msg_encrypt_prepare osa pld e hdr fp frag).
Proof. unfold ikev2_msg_encrypt_prepare. still_tac. Qed.
#[global] Instance still_integr osa : Still (ikev2_msg_integr osa).
Proof. unfold ikev2_msg_integr, msg_integr_value. still_tac. Qed.
#[global] Instance still_seal sa pld hdr e fp frag : Still (msg_seal sa pld hdr e fp frag).
Proof. unfold msg_seal. still_tac. Qed.
#[global] Instance still_sk sa e msgid ex fp response : Still (msg_build_sk sa e msgid ex fp response).
Proof. unfold msg_build_sk. still_tac. Qed.
#[global] Instance still_skf sa e offset len num total msgid ex fp response :
  Still (msg_build_skf sa e offset len num total msgid ex fp response).
Proof. unfold msg_build_skf. still_tac. Qed.
#[global] Instance still_msg_init : Still ikev2_msg_init.
Proof. unfold ikev2_msg_init. still_tac. Qed.
#[global] Instance quiet_msg_id : Quiet ikev2_msg_id.
Proof.
  intros s a s'. unfold ikev2_msg_id, mbind, M_bind, gets. destruct (nd_sa s) as [sa|]; [|done].
  intros [= <- <-] sa' [= <-]. exists sa. split; [done|]. split_and!; [done..|by left].
Qed.
#[global] Instance quiet_send_fragments fuel sa input max left offset num total msgid ex fp response :
  Quiet (send_fragments fuel sa input max left offset num total msgid ex fp response).
Proof. revert left offset num fp. induction fuel; intros; simpl; quiet_tac. Qed.
#[global] Instance quiet_fragments input ex fp response : Quiet (ikev2_send_encrypted_fragments input ex fp response).
Proof. unfold ikev2_send_encrypted_fragments. quiet_tac. Qed.
#[global] Instance quiet_parse_own verbose peer sa response : Quiet (parse_own verbose peer sa response).
Proof.
  intros s a s'. unfold parse_own. set (p := mk_pstate _ _ _ _ _ _ _ _ _). set (hdr := dec_ike_header _).
  pose proof (spends (m := ikev2_pld_parse hdr 0) p) as H. destruct (ikev2_pld_parse hdr 0 p) as [[r p']|]; [|done].
  intros [= <- <-] sa' Hs. destruct H as [_ H]. cbn in Hs. rewrite Hs in H.
  unfold p in H. cbn [ps_sa] in H. destruct (nd_sa s) as [sa0|]; [|done]. assert (sa_core sa' = sa_core sa0) as Hc by (exact (inj Some _ _ H)). exists sa0. split; [done|].
  split_and!; [exact (f_equal sa_kex Hc)|exact (f_equal sa_reqs Hc)|left; exact (f_equal sa_state Hc)].
Qed.
#[global] Instance quiet_send_encrypt verbose peer e ex fp response :
  Quiet (ikev2_msg_send_encrypt verbose peer e ex fp response).
Proof. unfold ikev2_msg_send_encrypt. quiet_tac. Qed.
End external.

Section still_auth.
Context `{EX : External, PK : Pkeys, NM : Names}.

#[global] Instance still_string ptr len : Still (n_string ptr len).
Proof. unfold n_string. still_tac. Qed.
#[global] Instance still_print_id id len : Still (print_id id len).
Proof. unfold print_id. still_tac. Qed.
#[global] Instance still_static_id id : Still (static_id id).
Proof. unfold static_id. still_tac. Qed.
#[global] Instance still_policy2id polid id srcid : Still (ikev2_policy2id polid id srcid).
Proof. unfold ikev2_policy2id. still_tac. Qed.
#[global] Instance still_psk prf data : Still (ikev2_psk prf data).
Proof. unfold ikev2_psk. still_tac. Qed.
#[global] Instance still_msg_auth sa iid rid response : Still (ikev2_msg_auth sa iid rid response).
Proof. unfold ikev2_msg_auth. still_tac. Qed.
#[global] Instance still_dsa_new method prf sign : Still (dsa_new method prf sign).
Proof. unfold dsa_new. still_tac. Qed.
#[global] Instance still_sign_new method prf : Still (dsa_sign_new method prf).
Proof. unfold dsa_sign_new. still_tac. Qed.
#[global] Instance still_verify_key auth prf id : Still (verify_key auth prf id).
Proof. unfold verify_key. still_tac. Qed.
#[global] Instance still_sign_key auth prf id : Still (sign_key auth prf id).
Proof. unfold sign_key. still_tac. Qed.
#[global] Instance still_setkey dsa key type : Still (dsa_setkey dsa key type).
Proof. unfold dsa_setkey, parse_key. still_tac. Qed.
#[global] Instance still_dsa_prepare dsa key type sig msg : Still (dsa_prepare dsa key type sig msg).
Proof. unfold dsa_prepare. still_tac. Qed.
#[global] Instance still_sign_final dsa buf : Still (dsa_sign_final dsa buf).
Proof. unfold dsa_sign_final, _dsa_sign_ecdsa. still_tac. Qed.
End still_auth.
