(* ===== verification/AuthSafe.v ===== *)
(** * Who an established SA belongs to

    Whatever messages arrive and whatever the certificate process answers, an
    SA is established only after a verification of its peer, and everything
    its policy asks for has happened. *)

From S2P Require Import Prelude Types SaState Proposals Negotiate Ibuf Build Parse ParseSk Policy Queue Crypto.
From S2P Require Import Encrypt Send Keys Chap Dsa Payload Auth Ident IkeAuth AuthFrame.

(** ** Steps that decide nothing *)

(** What decides about the peer stays as it is. *)
Record calm (r r' : astate) : Prop := {
  cm_log : at_log r' = at_log r;
  cm_iid : at_iid r' = at_iid r;
  cm_rid : at_rid r' = at_rid r;
  cm_policy : at_policy r' = at_policy r;
  cm_msk : at_eapmsk r' = at_eapmsk r;
  cm_peerauth : at_peerauth r' = at_peerauth r;
  cm_sa sa' : at_sa r' = Some sa' → ∃ sa, at_sa r = Some sa ∧ quiet sa sa' }.

Class Calm {A} (m : X A) : Prop := calm_run r a r' : m r = Ok (a, r') → calm r r'.

Lemma calm_refl r : calm r r.
Proof. constructor; try done. eauto using quiet_refl. Qed.
Lemma calm_trans r r' r'' : calm r r' → calm r' r'' → calm r r''.
Proof.
  intros [] []. constructor; try congruence. intros sa'' Hs. destruct (cm_sa1 _ Hs) as (sa' & Hs' & Q').
  destruct (cm_sa0 _ Hs') as (sa & Hs0 & Q). eauto using quiet_trans.
Qed.

#[global] Instance calm_ret {A} (a : A) : Calm (mret a : X A).
Proof. intros r a' r' E. injection E as <- <-. apply calm_refl. Qed.
#[global] Instance calm_gets {A} (f : astate → A) : Calm (gets f).
Proof. intros r a' r' E. injection E as <- <-. apply calm_refl. Qed.
#[global] Instance calm_fail {A} f : Calm (fail f : X A).
Proof. done. Qed.
#[global] Instance calm_lift {A} (o : out A) : Calm (lift o : X A).
Proof. intros r a' r'. unfold lift. destruct o; [|done]. intros [= <- <-]. apply calm_refl. Qed.
Lemma calm_bind {A C} (m : X A) (k : A → X C) : Calm m → (∀ a, Calm (k a)) → Calm (m ≫= k).
Proof.
  intros Hm Hk r c r'. unfold mbind, M_bind. destruct (m r) as [[a r1]|] eqn:E; [|done]. intros E'.
  eapply calm_trans; [exact (Hm _ _ _ E)|exact (Hk _ _ _ _ E')].
Qed.
Lemma calm_on_nd {A} (m : N A) : Quiet m → Calm (on_nd m).
Proof.
  intros Hm r a r'. unfold on_nd. destruct (m (at_nd r)) as [[x n]|] eqn:E; [|done]. intros [= <- <-].
  constructor; try done. exact (Hm _ _ _ E).
Qed.
Lemma calm_modify (f : astate → astate) : (∀ r, calm r (f r)) → Calm (modify f).
Proof. intros H r a r' E. injection E as <- <-. apply H. Qed.
Lemma calm_tryb {A C} (m : X (option A)) (k : A → X (option C)) : Calm m → (∀ a, Calm (k a)) → Calm (tryb m k).
Proof. intros Hm Hk. apply calm_bind; [done|]. intros []; [apply Hk|apply _]. Qed.
Lemma calm_with_asa {A} (k : iked_sa → X A) : (∀ sa, Calm (k sa)) → Calm (with_asa k).
Proof. intros Hk. apply calm_bind; [apply _|]. intros []; [apply Hk|apply _]. Qed.
Lemma calm_the_policy env i : Calm (the_policy env i).
Proof. unfold the_policy. case_match; apply _. Qed.
Lemma calm_with_policy {A} env (k : auth_policy → X A) : (∀ p, Calm (k p)) → Calm (with_policy env k).
Proof.
  intros Hk. apply calm_bind; [apply _|]. intros []; [|apply _]. apply calm_bind; [apply calm_the_policy|apply Hk].
Qed.

(** Fields that decide nothing. *)
Ltac calm_fields := intros ?; constructor; intros; first [reflexivity | eexists; split; [eassumption|apply quiet_refl]].
Ltac calm_step :=
  first
    [ apply _
    | lazymatch goal with
      | |- Calm (on_nd _) => apply calm_on_nd;
          first [apply still_quiet; apply _ | apply still_quiet, still_modify; intros; reflexivity | apply _]
      | |- Calm (modify _) => apply calm_modify; calm_fields
      | |- Calm (with_asa _) => apply calm_with_asa; intros
      | |- Calm (with_policy _ _) => apply calm_with_policy; intros
      | |- Calm (tryb _ _) => apply calm_tryb; [|intros]
      | |- Calm (mbind _ _) => apply calm_bind; [|intros]
      | |- Calm (match ?x with _ => _ end) => destruct x
      end
    | progress cbv zeta ].
Ltac calm_tac := repeat calm_step.

#[global] Instance calm_alloc : Calm x_alloc.
Proof. unfold x_alloc. calm_tac. Qed.
#[global] Instance calm_timer t : Calm (x_timer t).
Proof. unfold x_timer. calm_tac. Qed.
Lemma calm_upd f : (∀ sa, quiet sa (f sa)) → Calm (upd_asa f).
Proof. intros H. by apply calm_on_nd, quiet_upd. Qed.
#[global] Instance calm_fragments : Calm (upd_asa (λ sa, set_sa_fragments (config_free_fragments (sa_fragments sa)) sa)).
Proof. apply calm_upd. intros sa. split_and!; [done..|by left]. Qed.
#[global] Instance calm_proposals f : Calm (upd_asa (λ sa, set_sa_proposals (f sa) sa)).
Proof. apply calm_upd. intros sa. split_and!; [done..|by left]. Qed.
#[global] Instance calm_static : Calm x_static.
Proof. unfold x_static. calm_tac. Qed.
#[global] Instance calm_part {A} e (m : B (option A)) : Calm (x_part e m).
Proof. unfold x_part. calm_tac. Qed.
#[global] Instance calm_build {A} (m : B (option A)) : Calm (x_build m).
Proof. unfold x_build. calm_tac. Qed.
#[global] Instance calm_composev m : Calm (proc_composev m).
Proof. unfold proc_composev. calm_tac. Qed.
#[global] Instance calm_setcert id type data : Calm (ca_setcert id type data).
Proof. unfold ca_setcert. calm_tac. Qed.

(** The code for child SAs decides nothing about the peer. *)
Class ChildrenLaws `{!Children} : Prop := {
  calm_cp_setaddr af :: Calm (ikev2_cp_setaddr af);
  calm_negotiate :: Calm ikev2_childsa_negotiate;
  calm_enable :: Calm ikev2_childsa_enable;
  calm_delete :: Calm ikev2_childsa_delete;
  calm_udp_encap :: Calm udp_encap;
  calm_note_established :: Calm note_established }.

Section calm_sends.
Context `{EX : External, EN : !Encrypter, PK : Pkeys, NM : Names, DG : Digests, CH : Children, CL : !ChildrenLaws}.
Context (env : aenv) (peer : sockaddr).

#[global] Instance calm_send e ex fp response : Calm (x_send env peer e ex fp response).
Proof. unfold x_send. calm_tac. Qed.
#[global] Instance calm_send_ike_e buf fp ex response : Calm (ikev2_send_ike_e env peer buf fp ex response).
Proof. unfold ikev2_send_ike_e. calm_tac. Qed.
#[global] Instance calm_send_error m ex : Calm (ikev2_send_error env peer m ex).
Proof. unfold ikev2_send_error. calm_tac. Qed.
#[global] Instance calm_msg_auth response : Calm (x_msg_auth response).
Proof. unfold x_msg_auth. calm_tac. Qed.
#[global] Instance calm_authsign auth msg : Calm (ikev2_msg_authsign auth msg).
Proof. unfold ikev2_msg_authsign. calm_tac. Qed.
#[global] Instance calm_init_ike_auth : Calm (ikev2_init_ike_auth env peer).
Proof. unfold ikev2_init_ike_auth, init_auth_message, init_auth_peerid, init_ipcomp. calm_tac. Qed.
#[global] Instance calm_identity_request : Calm (eap_identity_request env peer).
Proof. unfold eap_identity_request. calm_tac. Qed.
#[global] Instance calm_resp_rest p e c : Calm (resp_auth_rest p e c).
Proof. unfold resp_auth_rest. calm_tac. Qed.
#[global] Instance calm_send_eap m : Calm (send_eap env peer m).
Proof. unfold send_eap. calm_tac. Qed.
#[global] Instance calm_challenge_request id : Calm (eap_challenge_request env peer id).
Proof. unfold eap_challenge_request. calm_tac. Qed.
#[global] Instance calm_success id : Calm (eap_success env peer id).
Proof. apply _. Qed.
#[global] Instance calm_mschap_success id : Calm (eap_mschap_success env peer id).
Proof. apply _. Qed.
#[global] Instance calm_mschap_challenge id ms msg : Calm (eap_mschap_challenge env peer id ms msg).
Proof. apply _. Qed.
#[global] Instance calm_certs m : Calm (recv_certs m).
Proof. unfold recv_certs. calm_tac. Qed.
#[global] Instance calm_cp m : Calm (recv_cp m).
Proof. unfold recv_cp. calm_tac. Qed.
End calm_sends.

(** ** The invariant *)

(** The bits of the flags that stand for a check: [IKED_REQ_CERTVALID],
    [IKED_REQ_AUTHVALID] and [IKED_REQ_EAPVALID]. *)
Definition bit_CERTVALID : Z := 1.
Definition bit_AUTHVALID : Z := 4.
Definition bit_EAPVALID : Z := 6.

(** The log shows the check that a bit stands for. *)
Definition supports (log : list auth_event) (n : Z) : Prop :=
  if n =? bit_AUTHVALID then ∃ v, Verified v ∈ log
  else if n =? bit_EAPVALID then ∃ name msk, EapUser name msk ∈ log
  else if n =? bit_CERTVALID then ∃ type cert, Vouched type cert ∈ log
  else True.

(** What an SA with this policy must require. *)
Definition needs (a : iked_auth) (valid : Z) : Prop :=
  Z.testbit valid bit_AUTHVALID = true ∧
  (auth_eap a ≠ 0 → Z.testbit valid bit_EAPVALID = true) ∧
  (auth_eap a = 0 → auth_method a ≠ IKEV2_AUTH_SHARED_KEY_MIC → Z.testbit valid bit_CERTVALID = true).

Definition complete (sa : iked_sa) : Prop := Z.land (sa_stateflags sa) (sa_statevalid sa) = sa_statevalid sa.
Definition is_est (r : astate) : Prop := ∃ sa, at_sa r = Some sa ∧ sa_state sa = IKEV2_STATE_ESTABLISHED.
Definition completed (r : astate) : Prop := ∀ sa, at_sa r = Some sa → complete sa.

Lemma supports_app log l n : supports log n → supports (log ++ l) n.
Proof. unfold supports. repeat case_match; [naive_solver set_solver..|done]. Qed.

(** What the peer signs: the nonce of this end, the key and the message of the
    peer. *)
Definition peer_parts (sa : iked_sa) : option (bytes * bytes * bytes) :=
  let i := sh_initiator (sa_hdr sa) in
  match (if i then sa_inonce sa else sa_rnonce sa), (if i then sa_key_rprf sa else sa_key_iprf sa),
        (if i then sa_2ndmsg sa else sa_1stmsg sa) with
  | Some nonce, Some prfkey, Some buf => Some (nonce, prfkey, buf)
  | _, _, _ => None
  end.

(** [Plain] code does not establish the SA, [Ready] code is for an SA with
    complete flags, and [Free] code looks itself. *)
Inductive mode := Plain | Ready | Free.
Definition may_est (md : mode) : bool := match md with Plain => false | _ => true end.

Section invariant.
Context `{EX : External, EL : !ExternalLaws, EN : !Encrypter, PK : Pkeys, PL : !PkeysLaws}.
Context `{NM : Names, DG : Digests, CH : Children, CL : !ChildrenLaws}.
Context (env : aenv) (peer : sockaddr) (sa0 : iked_sa).

(** Where the key of a verification comes from: the secret of the policy or of
    a user that proved to know the password, or a certificate that the
    certificate process found valid. *)
Definition known_key (prf : iked_hash) (log : list auth_event) (v : verified) : Prop :=
  if v_method v =? IKEV2_AUTH_SHARED_KEY_MIC then
    ∃ secret, v_key v = ext_mac prf secret IKEV2_KEYPAD ∧
      ((∃ i p, v_policy v = Some i ∧ sc_policies env !! i = Some p ∧ secret = auth_data (ap_auth p)) ∨
       ∃ name, EapUser name secret ∈ log)
  else Vouched (v_keytype v) (Some (v_key v)) ∈ log.

(** A verification is of a signature of the octets of RFC 7296 for the
    identity that was claimed; a user answered a challenge. *)
Definition genuine (log : list auth_event) (e : auth_event) : Prop :=
  match e with
  | Verified v => ∃ prf nonce prfkey buf idb,
      sa_prf sa0 = Some prf ∧ peer_parts sa0 = Some (nonce, prfkey, buf) ∧
      id_type (v_id v) ≠ 0 ∧ id_buf (v_id v) = Some idb ∧
      v_octets v = signed_octets prf nonce prfkey buf idb ∧
      signature (v_method v) prf (v_key v) (key_of false (v_keytype v) (v_key v)) (v_octets v) (v_sig v) ∧
      known_key prf log v
  | EapUser name msk => ∃ pass challenge peerch nt, (name, pass) ∈ sc_users env ∧
      mschap_nt_response challenge peerch name (string2unicode pass) = Ok nt ∧ mschap_msk (string2unicode pass) nt = Ok msk
  | Vouched _ _ => True
  end.

Lemma genuine_app log l e : genuine log e → genuine (log ++ l) e.
Proof.
  destruct e as [v| |]; [|done..]. unfold genuine, known_key.
  intros (prf & nonce & prfkey & buf & idb & ? & ? & ? & ? & ? & ? & Hk).
  exists prf, nonce, prfkey, buf, idb. split_and!; [done..|]. case_match; [|set_solver].
  destruct Hk as (secret & ? & [?|[name ?]]); exists secret; (split; [done|]); [by left|right; exists name; set_solver].
Qed.

Record auth_inv (r : astate) : Prop := {
  iv_kex sa : at_sa r = Some sa → sa_kex sa = sa_kex sa0;
  iv_log e : e ∈ at_log r → genuine (at_log r) e;
  iv_flags sa n : at_sa r = Some sa → Z.testbit (sa_stateflags sa) n = true → supports (at_log r) n;
  iv_valid sa : at_sa r = Some sa → Z.testbit (sa_statevalid sa) bit_AUTHVALID = true;
  iv_needs sa i p : at_sa r = Some sa → at_policy r = Some i → sc_policies env !! i = Some p →
    needs (ap_auth p) (sa_statevalid sa);
  iv_msk m : at_eapmsk r = Some m → ∃ name, EapUser name m ∈ at_log r;
  iv_sig d : id_buf (at_peerauth r) = Some d → blen d < size_max }.

(** An SA whose flags are complete was checked as its policy asks. *)
Definition evidence (r : astate) : Prop :=
  (∃ v, Verified v ∈ at_log r) ∧
  ∀ i p, at_policy r = Some i → sc_policies env !! i = Some p →
    (auth_eap (ap_auth p) ≠ 0 → ∃ name msk, EapUser name msk ∈ at_log r) ∧
    (auth_eap (ap_auth p) = 0 → auth_method (ap_auth p) ≠ IKEV2_AUTH_SHARED_KEY_MIC → ∃ type cert, Vouched type cert ∈ at_log r).

(** ** Steps that add checks *)

(** The verifications that are new name the identity and the policy of the
    moment. *)
Definition claimed (r : astate) (e : auth_event) : Prop :=
  match e with
  | Verified v => v_id v = peer_id (sh_initiator (sa_hdr sa0)) r ∧ v_policy v = at_policy r
  | _ => True
  end.

(** [est]: the step may establish the SA, when it is complete. *)
Definition sa_grows (est : bool) (log : list auth_event) (sa sa' : iked_sa) : Prop :=
  sa_kex sa' = sa_kex sa ∧ sa_statevalid sa' = sa_statevalid sa ∧
  (∀ n, Z.testbit (sa_stateflags sa) n = true → Z.testbit (sa_stateflags sa') n = true) ∧
  (∀ n, Z.testbit (sa_stateflags sa') n = true → Z.testbit (sa_stateflags sa) n = true ∨ supports log n) ∧
  (sa_state sa' = IKEV2_STATE_ESTABLISHED → sa_state sa = IKEV2_STATE_ESTABLISHED ∨ est = true ∧ complete sa').

Record grows (est : bool) (r r' : astate) : Prop := {
  gr_log : ∃ l, at_log r' = at_log r ++ l ∧ ∀ e, e ∈ l → genuine (at_log r') e ∧ claimed r e;
  gr_iid : at_iid r' = at_iid r;
  gr_rid : at_rid r' = at_rid r;
  gr_policy : at_policy r' = at_policy r;
  gr_msk m : at_eapmsk r' = Some m → at_eapmsk r = Some m ∨ ∃ name, EapUser name m ∈ at_log r';
  gr_peerauth : at_peerauth r' = at_peerauth r;
  gr_sa sa' : at_sa r' = Some sa' → ∃ sa, at_sa r = Some sa ∧ sa_grows est (at_log r') sa sa' }.

Lemma complete_bits sa : complete sa ↔ ∀ n, Z.testbit (sa_statevalid sa) n = true → Z.testbit (sa_stateflags sa) n = true.
Proof.
  unfold complete. split.
  - intros E n Hn. rewrite <-E, Z.land_spec in Hn. by apply andb_prop in Hn as [? _].
  - intros H. apply Z.bits_inj. intros n. rewrite Z.land_spec. destruct (Z.testbit (sa_statevalid sa) n) eqn:E; [|apply andb_false_r].
    by rewrite H.
Qed.
Lemma sa_grows_complete est log sa sa' : sa_grows est log sa sa' → complete sa → complete sa'.
Proof. intros (_ & Ev & Hf & _) Hc. apply complete_bits. rewrite Ev. pose proof (proj1 (complete_bits _) Hc). auto. Qed.

Lemma calm_grows est r r' : calm r r' → grows est r r'.
Proof.
  intros []. constructor; try done.
  - exists []. rewrite app_nil_r. set_solver.
  - intros m. rewrite cm_msk0. auto.
  - intros sa' Hs. destruct (cm_sa0 _ Hs) as (sa & Hs0 & Ek & Er & Hst). injection Er as Ef Ei Ev. exists sa. split; [done|].
    split_and!; [done..|rewrite Ef; auto|rewrite Ef; auto|]. intros E. destruct Hst as [<-|Hst]; [auto|by rewrite Hst in E].
Qed.

Lemma grows_trans est r r' r'' : grows est r r' → grows est r' r'' → grows est r r''.
Proof.
  intros [(l & El & Hl) I1 R1 P1 M1 A1 S1] [(l' & El' & Hl') I2 R2 P2 M2 A2 S2]. constructor; try congruence.
  - exists (l ++ l'). rewrite El', El, <-app_assoc. split; [done|]. intros e [He|He]%elem_of_app.
    + destruct (Hl _ He) as [Hg Hc]. split; [|done]. rewrite app_assoc, <-El. by apply genuine_app.
    + destruct (Hl' _ He) as [Hg Hc]. rewrite El', El, <-app_assoc in Hg. split; [done|].
      unfold claimed, peer_id in *. destruct e; [|done..]. by rewrite <-I1, <-R1, <-P1.
  - intros m Hm. destruct (M2 _ Hm) as [Hm'|?]; [|auto]. destruct (M1 _ Hm') as [?|[name Hn]]; [auto|]. right. exists name.
    rewrite El'. set_solver.
  - intros sa'' Hs. destruct (S2 _ Hs) as (sa' & Hs' & G2'). pose proof G2' as (K2 & V2 & F2 & G2 & T2).
    destruct (S1 _ Hs') as (sa & Hs0 & G1'). pose proof G1' as (K1 & V1 & F1 & G1 & T1). exists sa. split; [done|].
    split_and!; [congruence..|auto| |].
    + intros n Hn. destruct (G2 _ Hn) as [Hn'|?]; [|auto]. destruct (G1 _ Hn') as [?|?]; [auto|]. right. rewrite El'. by apply supports_app.
    + intros Hst. destruct (T2 Hst) as [Hst'|?]; [|auto]. destruct (T1 Hst') as [?|[? Hc]]; [auto|]. right. split; [done|].
      exact (sa_grows_complete _ _ _ _ G2' Hc).
Qed.

Lemma grows_inv est r r' : grows est r r' → auth_inv r → auth_inv r'.
Proof.
  intros [(l & El & Hl) I1 R1 P1 M1 A1 S1] [K L F V Nd M Sg]. constructor.
  - intros sa' Hs. destruct (S1 _ Hs) as (sa & Hs0 & E & _). rewrite E. eauto.
  - intros e. rewrite El. intros [He|He]%elem_of_app; [apply genuine_app; auto|]. rewrite <-El. by apply Hl.
  - intros sa' n Hs Hn. destruct (S1 _ Hs) as (sa & Hs0 & _ & _ & _ & G & _). destruct (G _ Hn) as [?|?]; [|done].
    rewrite El. apply supports_app. eauto.
  - intros sa' Hs. destruct (S1 _ Hs) as (sa & Hs0 & _ & E & _). rewrite E. eauto.
  - intros sa' i p Hs Hi Hp. destruct (S1 _ Hs) as (sa & Hs0 & _ & E & _). rewrite E. rewrite P1 in Hi. eauto.
  - intros m Hm. destruct (M1 _ Hm) as [Hm'|?]; [|done]. destruct (M _ Hm') as [name Hn]. exists name. rewrite El. set_solver.
  - rewrite A1. exact Sg.
Qed.
Lemma grows_completed est r r' : grows est r r' → completed r → completed r'.
Proof. intros [] Hc sa' Hs. destruct (gr_sa0 _ Hs) as (sa & Hs0 & G). eauto using sa_grows_complete. Qed.
Lemma grows_false est r r' : grows false r r' → grows est r r'.
Proof.
  intros []. constructor; try done. intros sa' Hs. destruct (gr_sa0 _ Hs) as (sa & Hs0 & ? & ? & ? & ? & T). exists sa.
  split; [done|]. split_and!; [done..|]. intros E. destruct (T E) as [?|[? _]]; [auto|done].
Qed.

Lemma inv_evidence r sa : auth_inv r → at_sa r = Some sa → complete sa → evidence r.
Proof.
  intros I Hs Hc. pose proof (proj1 (complete_bits _) Hc) as Hb. split; [exact (iv_flags r I sa bit_AUTHVALID Hs (Hb _ (iv_valid r I _ Hs)))|].
  intros i p Hi Hp. destruct (iv_needs r I sa i p Hs Hi Hp) as (_ & N2 & N3). split.
  - intros He. exact (iv_flags r I sa bit_EAPVALID Hs (Hb _ (N2 He))).
  - intros He Hm. exact (iv_flags r I sa bit_CERTVALID Hs (Hb _ (N3 He Hm))).
Qed.

Class Safe (md : mode) {A} (m : X A) : Prop := safe_run r :
  auth_inv r → (md = Ready → completed r) → wp any m (λ _ r', grows (may_est md) r r') r.

Lemma grows_refl est r : grows est r r.
Proof. apply calm_grows, calm_refl. Qed.
Lemma safe_calm md {A} (m : X A) : Calm m → Safe md m.
Proof. intros H r _ _. unfold wp. destruct (m r) as [[a r']|] eqn:E; [|done]. apply calm_grows. exact (H _ _ _ E). Qed.

(** One step of a longer run that began at [r0]. *)
Lemma safe_step md {A C} (m : X A) (k : A → X C) Q r0 r :
  Safe md m → auth_inv r → (md = Ready → completed r) → grows (may_est md) r0 r →
  (∀ a r', auth_inv r' → (md = Ready → completed r') → grows (may_est md) r0 r' → wp any (k a) Q r') →
  wp any (m ≫= k) Q r.
Proof.
  intros Hm I Hc G Hk. apply wp_bind. eapply wp_mono; [by apply Hm|]. intros a r' G'. cbn beta in G'. apply Hk.
  - exact (grows_inv _ _ _ G' I).
  - intros E. exact (grows_completed _ _ _ G' (Hc E)).
  - exact (grows_trans _ _ _ _ G G').
Qed.
Lemma safe_end md {A} (m : X A) r0 r :
  Safe md m → auth_inv r → (md = Ready → completed r) → grows (may_est md) r0 r →
  wp any m (λ _ r', grows (may_est md) r0 r') r.
Proof. intros Hm I Hc G. eapply wp_mono; [by apply Hm|]. intros a r'. by apply grows_trans. Qed.
Lemma safe_bind md {A C} (m : X A) (k : A → X C) : Safe md m → (∀ a, Safe md (k a)) → Safe md (m ≫= k).
Proof. intros Hm Hk r I Hc. eapply (safe_step md); [done..|apply grows_refl|]. intros. by apply safe_end. Qed.
Lemma safe_tryb md {A C} (m : X (option A)) (k : A → X (option C)) : Safe md m → (∀ a, Safe md (k a)) → Safe md (tryb m k).
Proof. intros Hm Hk. apply safe_bind; [done|]. intros []; [done|apply safe_calm, _]. Qed.
Lemma safe_with_asa md {A} (k : iked_sa → X A) : (∀ sa, Safe md (k sa)) → Safe md (with_asa k).
Proof. intros Hk. apply safe_bind; [apply safe_calm, _|]. intros []; [done|apply safe_calm, _]. Qed.
Lemma safe_with_policy md {A} (k : auth_policy → X A) : (∀ p, Safe md (k p)) → Safe md (with_policy env k).
Proof.
  intros Hk. apply safe_bind; [apply safe_calm, _|]. intros []; [|apply safe_calm, _].
  apply safe_bind; [apply safe_calm, calm_the_policy|done].
Qed.
Lemma safe_plain md {A} (m : X A) : Safe Plain m → Safe md m.
Proof. intros H r I _. eapply wp_mono; [by apply H|]. intros a r'. apply grows_false. Qed.

(** An update of the SA. *)
Lemma grows_sa est r sa sa' n :
  at_sa r = Some sa → nd_sa n = Some sa' → sa_grows est (at_log r) sa sa' → grows est r (set_at_nd n r).
Proof.
  intros Hs Hn G. constructor; try done.
  - exists []. rewrite app_nil_r. set_solver.
  - auto.
  - intros sa1 Hs1. unfold at_sa in Hs1. cbn in Hs1. rewrite Hn in Hs1. injection Hs1 as <-. eauto.
Qed.

Lemma safe_state md state : state ≠ IKEV2_STATE_ESTABLISHED → Safe md (x_state state).
Proof.
  intros Hne r I Hc. destruct (at_sa r) as [sa|] eqn:Hs; [|by unfold wp, x_state, with_asa, mbind, M_bind, gets; rewrite Hs].
  apply (wp_with_asa _ _ _ r sa); [done|]. apply wp_on_nd, wp_modify.
  pose proof (sa_state_set_spec state sa (nd_stats (at_nd r))) as H.
  destruct (sa_state_set _ _ _) as [sa' st] eqn:E. cbn in H. destruct H as (Ef & Ei & Ev & Est).
  eapply grows_sa; [done|reflexivity|]. split_and!; [|done|by rewrite Ef|rewrite Ef; auto|].
  - unfold sa_state_set in E. injection E as <- _. by case_match.
  - rewrite Est. case_decide; [done|auto].
Qed.
#[global] Instance safe_established : Safe Ready (x_state IKEV2_STATE_ESTABLISHED).
Proof.
  intros r I Hc. destruct (at_sa r) as [sa|] eqn:Hs; [|by unfold wp, x_state, with_asa, mbind, M_bind, gets; rewrite Hs].
  apply (wp_with_asa _ _ _ r sa); [done|]. apply wp_on_nd, wp_modify.
  pose proof (sa_state_set_spec IKEV2_STATE_ESTABLISHED sa (nd_stats (at_nd r))) as H.
  destruct (sa_state_set _ _ _) as [sa' st] eqn:E. cbn in H. destruct H as (Ef & Ei & Ev & Est).
  eapply grows_sa; [done|reflexivity|]. split_and!; [|done|by rewrite Ef|rewrite Ef; auto|].
  - unfold sa_state_set in E. injection E as <- _. by case_match.
  - intros _. right. split; [done|]. unfold complete. rewrite Ef, Ev. by apply Hc.
Qed.

(** A flag that the log supports. *)
Lemma flags_wp est k r : 0 ≤ k → supports (at_log r) k → wp any (x_flags (2 ^ k)) (λ _ r', grows est r r') r.
Proof.
  intros Hk Hsup. destruct (at_sa r) as [sa|] eqn:Hs; [|by unfold wp, x_flags, with_asa, mbind, M_bind, gets; rewrite Hs].
  apply (wp_with_asa _ _ _ r sa); [done|]. apply wp_on_nd, wp_modify. unfold at_sa in Hs.
  eapply grows_sa; [exact Hs|cbn; by rewrite Hs|]. unfold sa_stateflags_or. split_and!; [done..| | |by left].
  - intros n Hn. cbn. by rewrite Z.lor_spec, Hn.
  - intros n. cbn. rewrite Z.lor_spec, Z.pow2_bits_eqb by done. intros [?|E]%orb_prop; [auto|]. right.
    by apply Z.eqb_eq in E as <-.
Qed.
Lemma safe_flags md k : 0 ≤ k → (∀ log, supports log k) → Safe md (x_flags (2 ^ k)).
Proof. intros ? ? r I Hc. by apply flags_wp. Qed.
#[global] Instance safe_flag_inf md : Safe md (x_flags IKED_REQ_INF).
Proof. by apply (safe_flags md 8). Qed.
#[global] Instance safe_flag_sa md : Safe md (x_flags IKED_REQ_SA).
Proof. by apply (safe_flags md 5). Qed.
#[global] Instance safe_flag_auth md : Safe md (x_flags IKED_REQ_AUTH).
Proof. by apply (safe_flags md 3). Qed.
#[global] Instance safe_flag_certreq md : Safe md (x_flags IKED_REQ_CERTREQ).
Proof. by apply (safe_flags md 2). Qed.
#[global] Instance safe_flag_cert md : Safe md (x_flags IKED_REQ_CERT).
Proof. by apply (safe_flags md 0). Qed.

Ltac safe_step_tac :=
  first
    [ apply _
    | apply safe_calm; apply _
    | lazymatch goal with
      | |- Safe _ (x_state _) => apply safe_state; discriminate
      | |- Safe _ (with_asa _) => apply safe_with_asa; intros
      | |- Safe _ (with_policy _ _) => apply safe_with_policy; intros
      | |- Safe _ (tryb _ _) => apply safe_tryb; [|intros]
      | |- Safe _ (mbind _ _) => apply safe_bind; [|intros]
      | |- Safe _ (match ?x with _ => _ end) => destruct x
      | |- Safe _ (on_nd _) => apply safe_calm; calm_tac
      | |- Safe _ (modify _) => apply safe_calm; calm_tac
      end
    | progress cbv zeta ].
Ltac safe_tac := repeat safe_step_tac.

#[global] Instance safe_send_auth_failed md : Safe md (ikev2_send_auth_failed env peer).
Proof. unfold ikev2_send_auth_failed. safe_tac. Qed.
#[global] Instance safe_auth_failed md : Safe md (auth_failed env peer).
Proof. unfold auth_failed. safe_tac. Qed.
#[global] Instance safe_setreq md id type more data : Safe md (ca_setreq id type more data).
Proof. unfold ca_setreq. safe_tac. Qed.
#[global] Instance safe_set_requests md id crs : Safe md (set_requests id crs).
Proof. induction crs; simpl; safe_tac. Qed.
#[global] Instance safe_setauth md msg : Safe md (ca_setauth env msg).
Proof. unfold ca_setauth. safe_tac. Qed.
#[global] Instance safe_note : Safe Ready (established).
Proof. unfold established. safe_tac. Qed.
#[global] Instance safe_recv_state md m : Safe md (recv_state env m).
Proof. unfold recv_state. safe_tac. Qed.
#[global] Instance safe_recv_proposals md m : Safe md (recv_proposals env m).
Proof. unfold recv_proposals. safe_tac. Qed.

(** Code behind a look at the flags. *)
Lemma safe_ready {A} (m : X A) r0 r sa :
  Safe Ready m → auth_inv r → at_sa r = Some sa → sa_stateok sa IKEV2_STATE_VALID = true → grows true r0 r →
  wp any m (λ _ r', grows true r0 r') r.
Proof.
  intros Hm I Hs Hok G. apply (safe_end Ready); [done..| |done]. intros _ sa' Hs'. rewrite Hs in Hs'. injection Hs' as <-.
  unfold sa_stateok in Hok. destruct (_ <? _); [done|]. by apply Z.eqb_eq in Hok.
Qed.

#[global] Instance safe_init_done : Safe Free (ikev2_init_done).
Proof.
  intros r I _. destruct (at_sa r) as [sa|] eqn:Hs; [|by unfold wp, ikev2_init_done, with_asa, mbind, M_bind, gets; rewrite Hs].
  apply (wp_with_asa _ _ _ r sa); [done|]. destruct (sa_stateok sa IKEV2_STATE_VALID) eqn:Hok; [|apply wp_ret, grows_refl].
  cbn [negb]. apply (safe_ready _ _ _ sa); [|done..|apply grows_refl]. safe_tac.
Qed.
#[global] Instance safe_resp_ike_auth : Safe Free (ikev2_resp_ike_auth env peer).
Proof.
  intros r I _. destruct (at_sa r) as [sa|] eqn:Hs; [|by unfold wp, ikev2_resp_ike_auth, with_asa, mbind, M_bind, gets; rewrite Hs].
  apply (wp_with_asa _ _ _ r sa); [done|].
  destruct (_ =? IKEV2_STATE_EAP); [apply (safe_end Free); [apply safe_calm, _|done..|apply grows_refl]|].
  destruct (sa_stateok sa IKEV2_STATE_VALID) eqn:Hok; [|apply wp_ret, grows_refl].
  cbn [negb]. apply (safe_ready _ _ _ sa); [|done..|apply grows_refl]. safe_tac.
Qed.
#[global] Instance safe_ike_auth : Safe Free (ikev2_ike_auth env peer).
Proof. unfold ikev2_ike_auth. safe_tac. Qed.

(** ** Verifications *)

Context (prf : iked_hash) (nonce prfkey buf : bytes).
Context (Hprf : sa_prf sa0 = Some prf) (Hprf_ok : prf_ok prf).
Context (Hparts : peer_parts sa0 = Some (nonce, prfkey, buf)) (Hnonce : blen nonce < size_max).

Definition initiator0 : bool := sh_initiator (sa_hdr sa0).

Lemma inv_prf r sa : auth_inv r → at_sa r = Some sa → sa_prf sa = Some prf ∧ sh_initiator (sa_hdr sa) = initiator0.
Proof.
  intros I Hs. pose proof (iv_kex r I _ Hs) as E. unfold sa_kex in E. injection E as E1 E2 _ _ _ _ _ _.
  unfold initiator0. by rewrite E1, E2.
Qed.

Lemma msg_auth_no_id sa iid rid response n id k b s o s' :
  auth_parts sa iid rid response = Some (n, id, k, b) → id_buf id = None →
  ikev2_msg_auth sa iid rid response s = Ok (o, s') → o = None.
Proof.
  intros Ea Eb. unfold ikev2_msg_auth, mbind, M_bind, fail, mret, M_ret. rewrite Ea, Eb.
  repeat (case_match; try done); congruence.
Qed.

(** The octets that the peer signed. *)
Lemma msg_auth_octets r sa :
  auth_inv r → at_sa r = Some sa →
  wp any (x_msg_auth (sh_initiator (sa_hdr sa))) (λ o r', (∃ n, r' = set_at_nd n r ∧ nd_sa n = Some sa) ∧
    ∀ d, o = Some d → ∃ idb, id_type (peer_id initiator0 r) ≠ 0 ∧ id_buf (peer_id initiator0 r) = Some idb ∧
      d = signed_octets prf nonce prfkey buf idb) r.
Proof.
  intros I Hs. destruct (inv_prf _ _ I Hs) as [Ep Ei]. rewrite Ei. apply (wp_with_asa _ _ _ r sa); [done|].
  apply wp_bind, wp_gets, wp_bind, wp_gets, wp_bind, wp_on_nd. unfold wp at 1.
  destruct (ikev2_msg_auth _ _ _ _ (at_nd r)) as [[o n]|] eqn:Em; [|done]. pose proof (still_run _ _ _ Em) as Hn.
  unfold at_sa in Hs. rewrite Hs in Hn. destruct o as [bf|]; [|apply wp_ret; split; [by eauto|done]].
  destruct (auth_parts sa (at_iid r) (at_rid r) initiator0) as [[[[n0 id] k] b]|] eqn:Ea.
  2:{ unfold ikev2_msg_auth in Em. by rewrite Ea in Em. }
  assert (n0 = nonce ∧ id = peer_id initiator0 r ∧ k = prfkey ∧ b = buf ∧ id_type id ≠ 0) as (-> & -> & -> & -> & Hid).
  { clear Ep. pose proof (iv_kex r I _ Hs) as E. unfold sa_kex in E. injection E as _ _ E3 E4 E5 E6 E7 E8.
    unfold auth_parts in Ea. unfold peer_parts in Hparts. fold initiator0 in Hparts. rewrite E3, E4, E5, E6, E7, E8 in Ea.
    unfold peer_id. destruct initiator0; cbn [negb] in Ea; repeat case_match; simplify_eq; split_and!; try done; by apply Z.eqb_neq. }
  destruct (id_buf (peer_id initiator0 r)) as [idb|] eqn:Eb; [|by pose proof (msg_auth_no_id _ _ _ _ _ _ _ _ _ _ _ Ea Eb Em)].
  pose proof (msg_auth_spec any _ _ _ _ _ _ _ _ _ _ (at_nd r) Ea Ep Hprf_ok Eb Hnonce) as H. unfold wp in H. rewrite Em in H.
  destruct H as (_ & Ho & _). apply wp_bind, wp_on_nd, wp_lift. rewrite (holds_data _ _ (Ho _ eq_refl)). apply wp_ret.
  split; [exists n; by destruct r|]. intros d [= <-]. eauto.
Qed.

(** A secret stands in for the method, or the certificate was found valid. *)
Definition verifiable (r : astate) : Prop := ∀ i p, at_policy r = Some i → sc_policies env !! i = Some p →
  (∀ a, effective_auth (ap_auth p) (at_eapmsk r) = Some a → auth_method a = IKEV2_AUTH_SHARED_KEY_MIC) ∨
  Vouched (id_type (peer_cert initiator0 r)) (id_buf (peer_cert initiator0 r)) ∈ at_log r.

Lemma compatible_mic sigsha2 wire :
  (ikev2_ike_auth_compatible sigsha2 IKEV2_AUTH_SHARED_KEY_MIC wire <? 0) = false → wire = IKEV2_AUTH_SHARED_KEY_MIC.
Proof.
  unfold ikev2_ike_auth_compatible. destruct (wire =? IKEV2_AUTH_SIG_ANY); [done|].
  destruct (Z.eqb_spec IKEV2_AUTH_SHARED_KEY_MIC wire) as [<-|]; done.
Qed.

(** The secret of an effective method is the one of the policy or of EAP. *)
Lemma effective_secret r i p a :
  auth_inv r → at_policy r = Some i → sc_policies env !! i = Some p → effective_auth (ap_auth p) (at_eapmsk r) = Some a →
  (∃ i p, at_policy r = Some i ∧ sc_policies env !! i = Some p ∧ auth_data a = auth_data (ap_auth p)) ∨
  ∃ name, EapUser name (auth_data a) ∈ at_log r.
Proof.
  intros I Hi Hp. unfold effective_auth. destruct (at_eapmsk r) as [msk|] eqn:Em; [|intros [= <-]; left; by eauto].
  destruct (negb _); [|intros [= <-]; left; by eauto]. case_match; [done|]. intros [= <-]. right. exact (iv_msk r I _ Em).
Qed.

(** What a successful [ikev2_msg_authverify] adds. *)
Lemma verified_grows est r sa a sig idb key keytype i p r' :
  auth_inv r → at_sa r = Some sa → verifiable r → at_policy r = Some i → sc_policies env !! i = Some p →
  effective_auth (ap_auth p) (at_eapmsk r) = Some a →
  (auth_method a = IKEV2_AUTH_SHARED_KEY_MIC → id_type (at_peerauth r) = IKEV2_AUTH_SHARED_KEY_MIC) →
  id_type (peer_id initiator0 r) ≠ 0 → id_buf (peer_id initiator0 r) = Some idb →
  let a := set_auth_method (id_type (at_peerauth r)) a in let msg := signed_octets prf nonce prfkey buf idb in
  key_data a prf (peer_cert initiator0 r) key keytype → signature (auth_method a) prf key (key_of false keytype key) msg sig →
  moved (set_at_log (at_log r ++ [Verified (verified_at r sa a key keytype msg sig)]) r)
    (sa_stateflags_or IKED_REQ_AUTHVALID (set_sa_state IKEV2_STATE_AUTH_SUCCESS sa)) r' →
  grows est r r' ∧ supports (at_log r') bit_AUTHVALID.
Proof.
  intros I Hs Hv Hi Hp Ha Hmic Hid Hb a' msg Hk Hsig (l & st & -> & _). destruct (inv_prf _ _ I Hs) as [Ep Ei].
  split; [|exists (verified_at r sa a' key keytype msg sig); cbn; set_solver]. constructor; try done.
  - eexists. split; [done|]. intros e He. apply list_elem_of_singleton in He as ->. split; [|by cbn; rewrite Ei].
    exists prf, nonce, prfkey, buf, idb. unfold verified_at. cbn [v_id v_octets v_key v_keytype v_method v_sig v_policy]. rewrite Ei.
    split_and!; [done..|]. unfold known_key. cbn [v_id v_octets v_key v_keytype v_method v_sig v_policy].
    unfold key_data in Hk. destruct (Z.eqb_spec (auth_method a') IKEV2_AUTH_SHARED_KEY_MIC) as [Em|Em].
    + destruct Hk as [-> _]. exists (auth_data a). split; [done|].
      destruct (effective_secret r i p a I Hi Hp Ha) as [(i' & p' & Hi' & Hp' & E)|[name Hn]]; [by eauto 6|right; exists name; cbn; set_solver].
    + destruct Hk as [Hb' ->]. destruct (Hv i p Hi Hp) as [Hm|Hv']; [by destruct Em; apply Hmic, Hm|]. rewrite Hb' in Hv'.
      cbn. set_solver.
  - auto.
  - intros sa' [= <-]. exists sa. split; [done|]. unfold sa_stateflags_or. split_and!; [done..| | |done].
    + intros n Hn. cbn. by rewrite Z.lor_spec, Hn.
    + intros n. change IKED_REQ_AUTHVALID with (2 ^ 4). cbn -[Z.pow]. rewrite Z.lor_spec, Z.pow2_bits_eqb by done.
      intros [?|E]%orb_prop; [auto|]. right. apply Z.eqb_eq in E as <-.
      exists (verified_at r sa a' key keytype msg sig). cbn. set_solver.
Qed.

Lemma failed_grows r r' sa sa' :
  at_sa r = Some sa → (sa' = sa ∨ sa' = set_sa_state IKEV2_STATE_AUTH_REQUEST sa) → moved r sa' r' → ∀ est, grows est r r'.
Proof.
  intros Hs Hsa (l & st & -> & _) est. apply (grows_sa est r sa sa'); [done..|].
  destruct Hsa as [-> | ->]; (split_and!; auto); done.
Qed.

Lemma eap_verified_wp est a r :
  auth_inv r → supports (at_log r) bit_AUTHVALID → supports (at_log r) bit_EAPVALID →
  wp any (eap_verified env peer a) (λ _ r', grows est r r') r.
Proof.
  intros I H4 H6. unfold eap_verified. destruct (at_sa r) as [sa|] eqn:Hs; [|by unfold wp, with_asa, mbind, M_bind, gets; rewrite Hs].
  apply (wp_with_asa _ _ _ r sa); [done|].
  apply (wp_mono _ _ (λ _ r', grows (may_est Plain) r r')); [|intros ? ?; apply grows_false].
  apply (safe_step Plain _ _ _ r r); [apply safe_calm, _|done..|apply grows_refl|]. intros o r1 I1 C1 G1.
  destruct o as [authmsg|]; [|by apply wp_ret].
  apply (safe_step Plain _ _ _ r r1); [apply safe_calm, _|done..|]. intros ret r2 I2 C2 G2.
  destruct (ret =? 0); cbn [negb]; [|apply (safe_end Plain); [apply _|done..]].
  destruct (gr_log _ _ _ G2) as (l & El & _). apply wp_bind. eapply wp_mono.
  { apply (flags_wp (may_est Plain) 4 r2); [done|]. rewrite El. by apply supports_app. }
  intros u3 r3 G3. cbn beta in G3. pose proof (grows_trans _ _ _ _ G2 G3) as G03. destruct (gr_log _ _ _ G03) as (l3 & El3 & _).
  apply wp_bind. eapply wp_mono.
  { apply (flags_wp (may_est Plain) 6 r3); [done|]. rewrite El3. by apply supports_app. }
  intros u4 r4 G4. cbn beta in G4. pose proof (grows_trans _ _ _ _ G03 G4) as G04.
  apply (safe_end Plain); [safe_tac|by eapply grows_inv|done..].
Qed.

(** [ikev2_auth_verify] *)
Lemma auth_verify_wp est r :
  auth_inv r → verifiable r → wp any (ikev2_auth_verify env peer) (λ _ r', grows est r r') r.
Proof.
  intros I Hv. unfold ikev2_auth_verify. destruct (at_sa r) as [sa|] eqn:Hs; [|by unfold wp, with_asa, mbind, M_bind, gets; rewrite Hs].
  apply (wp_with_asa _ _ _ r sa); [done|]. destruct (inv_prf _ _ I Hs) as [Ep Ei].
  unfold with_policy, the_policy. apply wp_bind, wp_gets. destruct (at_policy r) as [i|] eqn:Hi; [|done]. apply wp_bind.
  destruct (sc_policies env !! i) as [p|] eqn:Hp; [|done]. apply wp_ret, wp_bind, wp_gets, wp_bind, wp_gets.
  assert (∀ r1, grows est r r1 → auth_inv r1 → wp any (auth_failed env peer) (λ _ r', grows est r r') r1) as Hfail.
  { intros r1 G1 I1. eapply wp_mono; [apply (safe_auth_failed Plain); done|]. intros u r' G.
    eapply grows_trans; [exact G1|by apply grows_false]. }
  destruct (effective_auth (ap_auth p) (at_eapmsk r)) as [a|] eqn:Ha; [|by apply Hfail, I; apply grows_refl].
  destruct (_ <? 0) eqn:Hcomp; [by apply Hfail, I; apply grows_refl|].
  apply wp_bind. eapply wp_mono; [exact (msg_auth_octets r sa I Hs)|]. intros o r1 [(n & -> & Hn) Ho].
  assert (grows est r (set_at_nd n r)) as G1 by (apply (grows_sa est r sa sa); [done..|split_and!; auto]).
  pose proof (grows_inv _ _ _ G1 I) as I1. destruct o as [msg|]; [|by apply Hfail].
  destruct (Ho msg eq_refl) as (idb & Hid & Hb & ->). clear Ho.
  destruct (id_buf (at_peerauth r)) as [sig|] eqn:Esig; [|done]. apply wp_bind. eapply wp_mono.
  { apply (authverify_spec any _ _ _ _ sa prf); [done..|]. exact (iv_sig r I _ Esig). }
  intros ret r2 [(-> & sa2 & M & Hsa2)|(-> & key & keytype & Hk & Hsig & M)].
  - cbn [Z.eqb negb]. pose proof (failed_grows (set_at_nd n r) _ sa _ Hn Hsa2 M est) as G2. apply Hfail; [by eapply grows_trans|by eapply grows_inv].
  - cbn [Z.eqb negb]. rewrite Ei in Hk.
    destruct (verified_grows est (set_at_nd n r) sa a sig idb key keytype i p r2) as [G2 H4]; try done.
    { intros Em. rewrite Em in Hcomp. by apply compatible_mic in Hcomp. }
    pose proof (grows_trans _ _ _ _ G1 G2) as G02. destruct (bool_decide _) eqn:Emsk; [|by apply wp_ret].
    apply bool_decide_eq_true in Emsk as [msk Emsk]. eapply wp_mono.
    { apply (eap_verified_wp est); [by eapply grows_inv|done|]. destruct (iv_msk r I _ Emsk) as [name Hname].
      destruct (gr_log _ _ _ G02) as (l & -> & _). exists name, msk. set_solver. }
    intros u r3 G3. by eapply grows_trans.
Qed.

(** ** EAP *)

(** The log and the session key of a user that answered. *)
Lemma user_grows est r name msk :
  (∃ pass challenge peerch nt, (name, pass) ∈ sc_users env ∧
    mschap_nt_response challenge peerch name (string2unicode pass) = Ok nt ∧ mschap_msk (string2unicode pass) nt = Ok msk) →
  grows est r (set_at_log (at_log r ++ [EapUser name msk]) (set_at_eapmsk (Some msk) r)).
Proof.
  intros Hg. constructor; try done.
  - eexists. split; [done|]. intros e He. by apply list_elem_of_singleton in He as ->.
  - intros m [= <-]. right. exists name. cbn. set_solver.
  - intros sa' Hs. exists sa'. split; [done|]. split_and!; auto.
Qed.
#[global] Instance safe_no_msk md : Safe md (modify (set_at_eapmsk None)).
Proof.
  intros r I _. apply wp_modify. constructor; try done.
  - exists []. rewrite app_nil_r. set_solver.
  - intros sa' Hs. exists sa'. split; [done|]. split_and!; auto.
Qed.

Lemma safe_mschap_answer md eap usr : usr ∈ sc_users env → Safe md (mschap_answer env peer eap usr).
Proof.
  intros Hu. unfold mschap_answer. apply safe_bind; [apply safe_calm, _|]. intros [|]; [|apply safe_calm, _]. cbn [negb].
  apply safe_bind; [apply safe_calm, _|]. intros ch. destruct (id_buf ch) as [challenge|]; [|apply safe_calm, _].
  intros r I Hc. apply wp_bind, wp_lift. destruct (mschap_nt_response _ _ _ _) as [nt|] eqn:Ent; [|done]. cbn [wpo].
  revert r I Hc. change (Safe md (x ← lift (rd (eam_ntresponse eap) 0 24);
    if negb (bool_decide (nt = x)) then mret (-1) else
    successmsg ← lift (mschap_auth_response (string2unicode usr.2) nt challenge (eam_challenge eap) usr.1);
    o ← on_nd (n_new None MSCHAP_MSK_SZ);
    match o with
    | None => _ ← modify (set_at_eapmsk None); mret (-1)
    | Some _ =>
        msk ← lift (mschap_msk (string2unicode usr.2) nt);
        _ ← modify (set_at_eapmsk (Some msk));
        _ ← x_log (EapUser usr.1 msk);
        ret ← eap_mschap_challenge env peer (eam_id eap) (eam_msrid eap) successmsg;
        _ ← (if ret =? 0 then x_state IKEV2_STATE_AUTH_SUCCESS else mret tt);
        mret 0
    end)).
  apply safe_bind; [apply safe_calm, _|]. intros x. destruct (negb _); [apply safe_calm, _|].
  apply safe_bind; [apply safe_calm, _|]. intros msg. apply safe_bind; [apply safe_calm; calm_tac|]. intros [b|]; [|safe_tac].
  intros r I Hc. apply wp_bind, wp_lift. destruct (mschap_msk _ _) as [msk|] eqn:Emsk; [|done]. cbn [wpo].
  apply wp_bind, wp_modify, wp_bind, wp_modify.
  assert (grows (may_est md) r (set_at_log (at_log r ++ [EapUser usr.1 msk]) (set_at_eapmsk (Some msk) r))) as G.
  { apply user_grows. destruct usr as [name pass]. eauto 10. }
  apply (safe_end md); [safe_tac|by eapply grows_inv|intros E; eapply grows_completed; eauto|done].
Qed.
Lemma user_lookup_in user usr : user_lookup env user = Some usr → usr ∈ sc_users env.
Proof. unfold user_lookup. case_match; [done|]. intros E%find_some. apply list_elem_of_In, E. Qed.

#[global] Instance safe_lookup md eap name :
  Safe md (match user_lookup env name with None => mret (-1) | Some usr => mschap_answer env peer eap usr end).
Proof. destruct (user_lookup env name) as [usr|] eqn:E; [|apply safe_calm, _]. by eapply safe_mschap_answer, user_lookup_in. Qed.
#[global] Instance safe_resp_ike_eap md m : Safe md (ikev2_resp_ike_eap env peer m).
Proof. unfold ikev2_resp_ike_eap, ikev2_resp_ike_eap_mschap. safe_tac. Qed.

(** ** Before the verification *)

(** Code that adds nothing to the log. *)
Class Mute {A} (m : X A) : Prop := mute_run r a r' : m r = Ok (a, r') → at_log r' = at_log r.

Lemma mute_calm {A} (m : X A) : Calm m → Mute m.
Proof. intros H r a r' E. exact (cm_log _ _ (H _ _ _ E)). Qed.
Lemma mute_bind {A C} (m : X A) (k : A → X C) : Mute m → (∀ a, Mute (k a)) → Mute (m ≫= k).
Proof.
  intros Hm Hk r c r'. unfold mbind, M_bind. destruct (m r) as [[a r1]|] eqn:E; [|done]. intros E'.
  by rewrite (Hk _ _ _ _ E'), (Hm _ _ _ E).
Qed.
Lemma mute_with_asa {A} (k : iked_sa → X A) : (∀ sa, Mute (k sa)) → Mute (with_asa k).
Proof. intros Hk. apply mute_bind; [apply mute_calm, _|]. intros []; [done|apply mute_calm, _]. Qed.
Lemma mute_with_policy {A} (k : auth_policy → X A) : (∀ p, Mute (k p)) → Mute (with_policy env k).
Proof.
  intros Hk. apply mute_bind; [apply mute_calm, _|]. intros []; [|apply mute_calm, _].
  apply mute_bind; [apply mute_calm, calm_the_policy|done].
Qed.
Lemma mute_on_nd {A} (m : N A) : Mute (on_nd m).
Proof. intros r a r'. unfold on_nd. destruct (m _) as [[]|]; [|done]. by intros [= <- <-]. Qed.
Ltac mute_tac :=
  repeat first
    [ apply _
    | apply mute_calm; apply _
    | lazymatch goal with
      | |- Mute (on_nd _) => apply mute_on_nd
      | |- Mute (with_asa _) => apply mute_with_asa; intros
      | |- Mute (with_policy _ _) => apply mute_with_policy; intros
      | |- Mute (mbind _ _) => apply mute_bind; [|intros]
      | |- Mute (modify _) => apply mute_calm; calm_tac
      | |- Mute (match ?x with _ => _ end) => destruct x
      end
    | progress cbv zeta ].

#[global] Instance mute_state state : Mute (x_state state).
Proof. unfold x_state. mute_tac. Qed.
#[global] Instance mute_flags flags : Mute (x_flags flags).
Proof. unfold x_flags, upd_asa. mute_tac. Qed.
#[global] Instance mute_send_auth_failed : Mute (ikev2_send_auth_failed env peer).
Proof. unfold ikev2_send_auth_failed. mute_tac. Qed.
#[global] Instance mute_setreq id type more data : Mute (ca_setreq id type more data).
Proof. unfold ca_setreq. mute_tac. Qed.
#[global] Instance mute_set_requests id crs : Mute (set_requests id crs).
Proof. induction crs; simpl; mute_tac. Qed.
#[global] Instance mute_setauth msg : Mute (ca_setauth env msg).
Proof. unfold ca_setauth. mute_tac. Qed.
#[global] Instance mute_recv_state m : Mute (recv_state env m).
Proof. unfold recv_state. mute_tac. Qed.
#[global] Instance mute_recv_proposals m : Mute (recv_proposals env m).
Proof. unfold recv_proposals. mute_tac. Qed.

(** [named]: the message claims an identity. *)
Record later (named : bool) (r r' : astate) : Prop := {
  lt_inv : auth_inv r';
  lt_log : at_log r' = at_log r;
  lt_est : is_est r' → is_est r;
  lt_policy : initiator0 = true ∨ named = false → at_policy r' = at_policy r ∨ at_policy r' = None;
  lt_id : named = false → peer_id initiator0 r' = peer_id initiator0 r }.

Lemma later_refl named r : auth_inv r → later named r r.
Proof. constructor; auto. Qed.
Lemma later_trans named r r' r'' : later named r r' → later named r' r'' → later named r r''.
Proof.
  intros [I1 L1 E1 P1 D1] [I2 L2 E2 P2 D2]. constructor; [done|congruence|auto| |].
  - intros H. destruct (P2 H) as [->|?]; auto.
  - intros H. rewrite D2, D1; auto.
Qed.
Lemma grows_est r r' : grows false r r' → is_est r' → is_est r.
Proof. intros [] (sa' & Hs & E). destruct (gr_sa0 _ Hs) as (sa & Hs0 & _ & _ & _ & _ & T). exists sa. split; [done|]. by destruct (T E) as [?|[? _]]. Qed.
Lemma grows_later named r r' : auth_inv r → grows false r r' → at_log r' = at_log r → later named r r'.
Proof.
  intros I G El. constructor; [by eapply grows_inv|done|by apply grows_est|left; by destruct G|].
  intros _. unfold peer_id. by rewrite (gr_iid _ _ _ G), (gr_rid _ _ _ G).
Qed.

Class Later (named : bool) {A} (m : X A) : Prop := later_run r : auth_inv r → wp any m (λ _ r', later named r r') r.
Lemma later_safe named {A} (m : X A) : Safe Plain m → Mute m → Later named m.
Proof.
  intros Hs Hm r I. pose proof (Hs r I ltac:(done)) as H. unfold wp in *. destruct (m r) as [[a r']|] eqn:E; [|done].
  apply grows_later; [done..|]. exact (Hm _ _ _ E).
Qed.
Lemma later_bind named {A C} (m : X A) (k : A → X C) : Later named m → (∀ a, Later named (k a)) → Later named (m ≫= k).
Proof.
  intros Hm Hk r I. apply wp_bind. eapply wp_mono; [by apply Hm|]. intros a r' L. eapply wp_mono; [apply Hk, L|].
  intros c r''. by apply later_trans.
Qed.
Lemma later_with_asa named {A} (k : iked_sa → X A) : (∀ sa, Later named (k sa)) → Later named (with_asa k).
Proof. intros Hk. apply later_bind; [apply later_safe; [apply safe_calm, _|apply mute_calm, _]|]. intros []; [done|by intros r I]. Qed.
Lemma later_with_policy named {A} (k : auth_policy → X A) : (∀ p, Later named (k p)) → Later named (with_policy env k).
Proof.
  intros Hk. apply later_bind; [apply later_safe; [apply safe_calm, _|apply mute_calm, _]|]. intros []; [|by intros r I].
  apply later_bind; [apply later_safe; [apply safe_calm, calm_the_policy|apply mute_calm, calm_the_policy]|done].
Qed.
Ltac later_tac :=
  repeat first
    [ apply _
    | apply later_safe; [apply safe_calm; apply _|apply mute_calm; apply _]
    | apply later_safe; [apply _|apply _]
    | lazymatch goal with
      | |- Later _ (with_asa _) => apply later_with_asa; intros
      | |- Later _ (with_policy _ _) => apply later_with_policy; intros
      | |- Later _ (mbind _ _) => apply later_bind; [|intros]
      | |- Later _ (on_nd _) => apply later_safe; [apply safe_calm; calm_tac|apply mute_on_nd]
      | |- Later _ (modify _) => apply later_safe; [apply safe_calm; calm_tac|apply mute_calm; calm_tac]
      | |- Later _ (match ?x with _ => _ end) => destruct x
      end
    | progress cbv zeta ].

(** An update that drops flags or requires more. *)
Lemma later_upd named f :
  (∀ sa, sa_kex (f sa) = sa_kex sa ∧ sa_state (f sa) = sa_state sa ∧
    (∀ n, Z.testbit (sa_stateflags (f sa)) n = true → Z.testbit (sa_stateflags sa) n = true) ∧
    (∀ n, Z.testbit (sa_statevalid sa) n = true → Z.testbit (sa_statevalid (f sa)) n = true)) →
  Later named (upd_asa f).
Proof.
  intros Hf r [K L F V Nd M Sg]. apply wp_on_nd, wp_modify.
  assert (∀ sa', f <$> nd_sa (at_nd r) = Some sa' → ∃ sa, at_sa r = Some sa ∧ sa' = f sa) as Hs.
  { unfold at_sa. destruct (nd_sa (at_nd r)) as [sa|]; [|done]. intros sa' [= <-]. eauto. }
  constructor; [constructor|done| |by left|done].
  - intros sa' (sa & Hsa & ->)%Hs. destruct (Hf sa) as (-> & _). eauto.
  - done.
  - intros sa' n (sa & Hsa & ->)%Hs Hn. destruct (Hf sa) as (_ & _ & H & _). eapply F; eauto.
  - intros sa' (sa & Hsa & ->)%Hs. apply (Hf sa). eauto.
  - intros sa' i p (sa & Hsa & ->)%Hs Hi Hp. destruct (Nd _ _ _ Hsa Hi Hp) as (N1 & N2 & N3).
    destruct (Hf sa) as (_ & _ & _ & H). split_and!; auto.
  - done.
  - done.
  - intros (sa' & (sa & Hsa & ->)%Hs & E). exists sa. split; [done|]. by rewrite <-(proj1 (proj2 (Hf sa))).
Qed.
#[global] Instance later_certreq named m : Later named (ikev2_handle_certreq env m).
Proof.
  unfold ikev2_handle_certreq. later_tac. apply later_upd. intros x. destruct (sh_initiator _); (split_and!; auto).
  intros n Hn. cbn. by rewrite Z.lor_spec, Hn.
Qed.
#[global] Instance later_drop named :
  Later named (upd_asa (λ sa, set_sa_stateflags (Z.ldiff (sa_stateflags sa) IKED_REQ_CERTVALID) sa)).
Proof. apply later_upd. intros sa. split_and!; auto. intros n. cbn. rewrite Z.ldiff_spec. by intros [? _]%andb_prop. Qed.

(** Updates of the fields that an SA is not needed for. *)
Lemma later_set named r r' :
  auth_inv r → at_nd r' = at_nd r → at_log r' = at_log r → at_eapmsk r' = at_eapmsk r →
  (∀ sa i p, at_sa r = Some sa → at_policy r' = Some i → sc_policies env !! i = Some p → needs (ap_auth p) (sa_statevalid sa)) →
  (∀ d, id_buf (at_peerauth r') = Some d → blen d < size_max) →
  (initiator0 = true ∨ named = false → at_policy r' = at_policy r ∨ at_policy r' = None) →
  (named = false → peer_id initiator0 r' = peer_id initiator0 r) → later named r r'.
Proof.
  intros [K L F V Nd M Sg] En El Em Hn Hd Hp Hi. assert (at_sa r' = at_sa r) as Es by (unfold at_sa; by rewrite En).
  constructor; [constructor|done| |done|done]; rewrite ?El, ?Em; try done.
  - intros sa. rewrite Es. auto.
  - intros sa n. rewrite Es. eauto.
  - intros sa. rewrite Es. auto.
  - intros sa i p. rewrite Es. eauto.
  - unfold is_est. by rewrite Es.
Qed.

Definition named (m : iked_message) : bool := negb (id_type (msg_peerid m) =? 0).

#[global] Instance later_take_peerid m : Later (named m) (take_peerid m).
Proof.
  intros r I. unfold take_peerid. destruct (at_sa r) as [sa|] eqn:Hs; [|by unfold wp, with_asa, mbind, M_bind, gets; rewrite Hs].
  apply (wp_with_asa _ _ _ r sa); [done|]. fold (named m). destruct (named m) eqn:En; [|apply wp_ret; by apply later_refl].
  apply wp_modify. unfold set_peer_id. destruct (sh_initiator _);
    (apply later_set; [done..|exact (iv_needs r I)|exact (iv_sig r I)|by left|done]).
Qed.
#[global] Instance later_recv_id m : Later (named m) (recv_id env m).
Proof. unfold recv_id. later_tac. Qed.
Lemma later_peerauth named m :
  (∀ d, id_buf (msg_auth m) = Some d → blen d < size_max) → Later named (modify (set_at_peerauth (msg_auth m))).
Proof. intros Hd r I. apply wp_modify, later_set; try done; [exact (iv_needs r I)|by left]. Qed.

#[global] Instance calm_policy_lookup m props flows n : Calm (policy_lookup env m props flows n).
Proof. unfold policy_lookup. calm_tac. Qed.

(** No policy while one is looked up. *)
Lemma no_policy nm r : auth_inv r → later nm r (set_at_policy None r).
Proof. intros I. apply later_set; try done; [exact (iv_sig r I)|by right]. Qed.
Lemma inv_policy r i :
  auth_inv r → (∀ sa p, at_sa r = Some sa → sc_policies env !! i = Some p → needs (ap_auth p) (sa_statevalid sa)) →
  auth_inv (set_at_policy (Some i) r).
Proof. intros [K L F V Nd M Sg] Hn. constructor; try done. intros sa j p Hs [= <-]. by apply Hn. Qed.
Lemma restore_policy nm r r1 old :
  auth_inv r → at_policy r = Some old → calm (set_at_policy None r) r1 → later nm r (set_at_policy (Some old) r1).
Proof.
  intros I Hp C. pose proof (grows_later nm _ _ (lt_inv _ _ _ (no_policy nm r I)) (calm_grows false _ _ C) (cm_log _ _ C)) as L1.
  pose proof (later_trans _ _ _ _ (no_policy nm r I) L1) as [I1 L0 E0 _ D0]. constructor; [|done..|by left|done].
  apply inv_policy; [done|]. intros sa p Hs Hpp. destruct (cm_sa _ _ C _ Hs) as (sa' & Hs' & _ & Er & _).
  injection Er as _ _ ->. exact (iv_needs r I _ _ _ Hs' Hp Hpp).
Qed.

(** [sa_new] at the responder asks for what the policy needs. *)
Lemma needs_requires a : needs a (policy_requires a).
Proof.
  unfold needs, policy_requires. destruct (Z.eqb_spec (auth_eap a) 0), (Z.eqb_spec (auth_method a) IKEV2_AUTH_SHARED_KEY_MIC);
    cbn [negb]; by split_and!.
Qed.

Lemma sa_new_wp rspi new r :
  initiator0 = false → auth_inv r → at_policy r = None → wp any (sa_new_update env false rspi (Some new)) (λ _ r', later true r r') r.
Proof.
  intros Hi I Hp. unfold sa_new_update. destruct (at_sa r) as [sa|] eqn:Hs; [|by unfold wp, with_asa, mbind, M_bind, gets; rewrite Hs].
  apply (wp_with_asa _ _ _ r sa); [done|]. cbn [andb]. apply wp_bind, wp_ret, wp_bind, wp_gets. rewrite Hp.
  apply wp_bind, wp_modify. unfold with_policy, the_policy. apply wp_bind, wp_gets. cbn [at_policy set_at_policy].
  apply wp_bind. destruct (sc_policies env !! new) as [p|] eqn:Hpp; [|done]. apply wp_ret, wp_bind, wp_on_nd, wp_modify.
  set (r1 := set_at_nd _ _).
  assert (at_sa r1 = Some (set_requires false (ap_auth p) sa)) as Hs1 by (unfold at_sa in *; cbn; by rewrite Hs).
  assert (later true r r1) as L1.
  { destruct I as [K L F V Nd M Sg]. constructor; [constructor; try done|done| |by rewrite Hi; intros [?|?]|done].
    - intros sa'. rewrite Hs1. intros [= <-]. exact (K _ Hs).
    - intros sa' n. rewrite Hs1. intros [= <-]. exact (F _ n Hs).
    - intros sa'. rewrite Hs1. intros [= <-]. apply needs_requires.
    - intros sa' i p'. rewrite Hs1. intros [= <-] [= <-]. rewrite Hpp. intros [= <-]. apply needs_requires.
    - intros (sa' & E1 & E). rewrite Hs1 in E1. injection E1 as <-. exists sa. done. }
  clearbody r1. apply wp_bind, wp_gets.
  apply (wp_mono _ _ (λ _ r', later true r1 r')); [|intros ? ?; by apply later_trans].
  apply (later_bind true); [later_tac| |apply L1]. intros [ret id]. cbn [fst snd].
  apply later_bind.
  { intros r2 I2. apply wp_modify, later_set; try done; [exact (iv_needs _ I2)|exact (iv_sig _ I2)|by left]. }
  intros _. destruct (negb _); [|later_tac]. apply later_bind; [|intros; later_tac].
  intros r2 [K L F V Nd M Sg]. apply wp_on_nd, wp_modify. constructor; [by constructor|done| |by left|done]. by intros (? & ? & _).
Qed.

Lemma recv_policy_resp_wp m old r :
  initiator0 = false → auth_inv r → at_policy r = Some old →
  wp any (recv_policy_resp env peer m old) (λ _ r', later true r r') r.
Proof.
  intros Hi I Hp. unfold recv_policy_resp. destruct (at_sa r) as [sa|] eqn:Hs; [|by unfold wp, with_asa, mbind, M_bind, gets; rewrite Hs].
  apply (wp_with_asa _ _ _ r sa); [done|]. apply wp_bind, wp_modify. pose proof (no_policy true r I) as L0.
  apply wp_bind. unfold wp at 1. destruct (policy_lookup _ _ _ _ _ _) as [[new r1]|] eqn:El; [|done].
  pose proof (calm_run _ _ _ El) as C.
  pose proof (grows_later true _ _ (lt_inv _ _ _ L0) (calm_grows false _ _ C) (cm_log _ _ C)) as L1.
  pose proof (later_trans _ _ _ _ L0 L1) as L01. pose proof (lt_inv _ _ _ L01) as I1.
  assert (∀ r2, later true r r2 → wp any (_ ← ikev2_send_auth_failed env peer; mret false) (λ _ r', later true r r') r2) as Hfail.
  { intros r2 L2. eapply wp_mono; [apply (later_bind true); [later_tac|intros; later_tac|apply L2]|]. intros ? ?. by apply later_trans. }
  destruct new as [new|]; [|by apply Hfail].
  assert (∀ r2, later true r r2 → wp any (r ← ikev2_handle_certreq env m; mret (r =? 0)) (λ _ r', later true r r') r2) as Hreq.
  { intros r2 L2. eapply wp_mono; [apply (later_bind true); [later_tac|intros; later_tac|apply L2]|]. intros ? ?. by apply later_trans. }
  apply wp_bind. destruct (bool_decide _).
  - apply wp_bind, wp_modify, wp_ret. cbn [negb]. apply Hreq. by apply restore_policy.
  - apply wp_bind. eapply wp_mono; [apply sa_new_wp; [done..|by rewrite (cm_policy _ _ C)]|]. intros ok r2 L2. cbn beta in L2.
    pose proof (later_trans _ _ _ _ L01 L2) as L02. destruct ok; [apply wp_ret; by apply Hreq|].
    eapply wp_mono; [apply (wp_mono _ _ (λ b r', b = false ∧ later true r r'))|].
    { apply wp_bind. eapply wp_mono; [apply (later_safe true _ _ _ r2 (lt_inv _ _ _ L02))|]. intros u r3 L3. apply wp_ret.
      split; [done|]. by eapply later_trans. }
    { intros b r3 H. exact H. }
    intros b r3 [-> L3]. by apply wp_ret.
Qed.

Lemma recv_policy_init_wp m old r :
  auth_inv r → at_policy r = Some old → wp any (recv_policy_init env peer m old) (λ _ r', later (named m) r r') r.
Proof.
  intros I Hp. unfold recv_policy_init. destruct (at_sa r) as [sa|] eqn:Hs; [|by unfold wp, with_asa, mbind, M_bind, gets; rewrite Hs].
  apply (wp_with_asa _ _ _ r sa); [done|]. unfold the_policy. apply wp_bind. destruct (sc_policies env !! old) as [p|]; [|done].
  apply wp_ret, wp_bind, wp_modify. pose proof (no_policy (named m) r I) as L0.
  apply wp_bind. unfold wp at 1. destruct (policy_lookup _ _ _ _ _ _) as [[new r1]|] eqn:El; [|done].
  pose proof (calm_run _ _ _ El) as C.
  pose proof (grows_later (named m) _ _ (lt_inv _ _ _ L0) (calm_grows false _ _ C) (cm_log _ _ C)) as L1.
  pose proof (later_trans _ _ _ _ L0 L1) as L01. destruct (bool_decide _).
  - apply wp_bind, wp_modify, wp_ret. by apply restore_policy.
  - eapply wp_mono; [apply (later_bind (named m)); [later_tac|intros; later_tac|apply L01]|]. intros ? ?. by apply later_trans.
Qed.

#[global] Instance later_recv_policy m : Later (named m) (recv_policy env peer m).
Proof.
  intros r I. unfold recv_policy. destruct (at_sa r) as [sa|] eqn:Hs; [|by unfold wp, with_asa, mbind, M_bind, gets; rewrite Hs].
  destruct (inv_prf _ _ I Hs) as [_ Ei]. apply (wp_with_asa _ _ _ r sa); [done|]. rewrite Ei. apply wp_bind, wp_gets.
  fold (named m). destruct (named m) eqn:En, initiator0 eqn:Ei0; cbn [negb andb].
  1,3: destruct (at_policy r) as [old|] eqn:Hp; [|done]; rewrite <-En; by apply recv_policy_init_wp.
  - destruct (at_policy r) as [old|] eqn:Hp; [|done]. by apply recv_policy_resp_wp.
  - apply wp_ret. by apply later_refl.
Qed.

(** ** Inputs *)

Definition no_verified (r : astate) : Prop := ∀ v, Verified v ∉ at_log r.

(** Every verification was of the identity the SA has now. *)
Definition bound (r : astate) : Prop := ∀ v, Verified v ∈ at_log r →
  v_id v = peer_id initiator0 r ∧ ∀ i, at_policy r = Some i → v_policy v = Some i.

Record step (est nm : bool) (r r' : astate) : Prop := {
  sp_inv : auth_inv r';
  sp_log : ∃ l, at_log r' = at_log r ++ l;
  sp_est : is_est r' → is_est r ∨ est = true ∧ ∃ sa, at_sa r' = Some sa ∧ complete sa;
  sp_policy : initiator0 = true → at_policy r' = at_policy r ∨ at_policy r' = None;
  sp_id : nm = false → peer_id initiator0 r' = peer_id initiator0 r;
  sp_bound : bound r → (nm = true → no_verified r) → bound r' }.

Lemma grows_bound est r r' : grows est r r' → bound r → bound r'.
Proof.
  intros G Hb v. destruct (gr_log _ _ _ G) as (l & -> & Hl). assert (peer_id initiator0 r' = peer_id initiator0 r) as Eid.
  { unfold peer_id. by rewrite (gr_iid _ _ _ G), (gr_rid _ _ _ G). }
  rewrite Eid, (gr_policy _ _ _ G). intros [Hv|Hv]%elem_of_app; [by apply Hb|]. destruct (Hl _ Hv) as [_ [E1 E2]].
  split; [done|]. intros i <-. done.
Qed.
Lemma later_bound nm r r' :
  later nm r r' → bound r → (nm = true → no_verified r) → bound r' ∧ (nm = true → no_verified r').
Proof.
  intros [_ El _ Hp Hi] Hb Hn. unfold bound, no_verified in *. rewrite El. split; [|done]. intros v Hv.
  destruct nm; [by destruct (Hn eq_refl v)|]. rewrite Hi by done. destruct (Hb v Hv) as [E1 E2]. split; [done|].
  intros i. destruct (Hp (or_intror eq_refl)) as [->| ->]; [apply E2|done].
Qed.

Lemma later_step est nm r r1 r2 : later nm r r1 → step est nm r1 r2 → step est nm r r2.
Proof.
  intros L [I (l & El) E P D B]. pose proof L as [I1 L1 E1 P1 D1]. constructor; [done|exists l; congruence| | | |].
  - intros H. destruct (E H) as [?|?]; auto.
  - intros H. destruct (P H) as [->|?]; auto.
  - intros H. rewrite D, D1; auto.
  - intros Hb Hn. destruct (later_bound _ _ _ L Hb Hn). auto.
Qed.
Lemma step_refl est nm r : auth_inv r → step est nm r r.
Proof. intros I. constructor; auto. exists []. by rewrite app_nil_r. Qed.
Lemma step_grows est nm r r1 r2 : step est nm r r1 → grows est r1 r2 → step est nm r r2.
Proof.
  intros [I (l & El) E P D B] G. destruct (gr_log _ _ _ G) as (l' & El' & _). constructor.
  - by eapply grows_inv.
  - exists (l ++ l'). by rewrite El', El, app_assoc.
  - intros (sa2 & Hs2 & E2). destruct (gr_sa _ _ _ G _ Hs2) as (sa1 & Hs1 & GS). pose proof GS as (_ & _ & _ & _ & T).
    destruct (T E2) as [E1|[? ?]]; [|eauto]. destruct (E ltac:(by exists sa1)) as [?|(? & sa & Hs & Hc)]; [auto|].
    rewrite Hs in Hs1. injection Hs1 as <-. right. split; [done|]. exists sa2. split; [done|]. by eapply sa_grows_complete.
  - rewrite (gr_policy _ _ _ G). done.
  - unfold peer_id in *. by rewrite (gr_iid _ _ _ G), (gr_rid _ _ _ G).
  - intros Hb Hn. eapply grows_bound; [done|auto].
Qed.
Lemma step_plain est nm r r' : step false nm r r' → step est nm r r'.
Proof. intros [I L E P D B]. constructor; try done. intros H. destruct (E H) as [?|[? _]]; [by left|done]. Qed.
Lemma grows_step est nm r r' : auth_inv r → grows est r r' → step est nm r r'.
Proof. intros I G. eapply step_grows; [by apply step_refl|done]. Qed.

Lemma recv_verify_wp nm cert r : auth_inv r → wp any (recv_verify env peer cert) (λ _ r', step false nm r r') r.
Proof.
  intros I. unfold recv_verify. destruct (at_sa r) as [sa|] eqn:Hs; [|by unfold wp, with_asa, mbind, M_bind, gets; rewrite Hs].
  apply (wp_with_asa _ _ _ r sa); [done|]. unfold with_policy, the_policy. apply wp_bind, wp_gets.
  destruct (at_policy r) as [i|] eqn:Hi; [|done]. apply wp_bind. destruct (sc_policies env !! i) as [p|] eqn:Hp; [|done].
  apply wp_ret, wp_bind, wp_gets, wp_bind, wp_gets. destruct (_ || _) eqn:Ec.
  - apply wp_bind. eapply wp_mono; [apply (auth_verify_wp false r I)|].
    + intros i' p' Hi' Hp'. rewrite Hi in Hi'. injection Hi' as <-. rewrite Hp in Hp'. injection Hp' as <-. left. intros a.
      unfold effective_auth. apply orb_prop in Ec as [[He Hm]%andb_prop|Em%Z.eqb_eq].
      * apply bool_decide_eq_true in Hm as [msk ->]. rewrite He. case_match; [done|]. by intros [= <-].
      * repeat case_match; try done; by intros [= <-].
    + intros u r' G. apply wp_ret. by apply grows_step.
  - apply (wp_mono _ _ (λ _ r', later nm r r')); [|intros u r' L; eapply later_step; [exact L|apply step_refl, L]].
    revert r I Hs Hi Ec. intros r I _ _ _. assert (Later nm (if negb (id_type (at_peerauth r) =? 0) then
      data ← (if negb (id_type cert =? 0) then match id_buf cert with None => fail Fnull | Some d => mret (Some d) end else mret None);
      _ ← upd_asa (λ sa, set_sa_stateflags (Z.ldiff (sa_stateflags sa) IKED_REQ_CERTVALID) sa);
      id ← gets (peer_id (sh_initiator (sa_hdr sa)));
      r ← ca_setcert id (if negb (id_type cert =? 0) then id_type cert else IKEV2_CERT_NONE) data;
      mret (negb (r =? -1)) else mret true)) as H by later_tac. by apply H.
Qed.

Definition sig_ok (m : iked_message) : Prop := ∀ d, id_buf (msg_auth m) = Some d → blen d < size_max.

Lemma recv_authenticate_wp m r :
  sig_ok m → auth_inv r → wp any (recv_authenticate env peer m) (λ _ r', step true (named m) r r') r.
Proof.
  intros Hm I. unfold recv_authenticate.
  assert (∀ {A} (x : A) r', later (named m) r r' → wp any (mret x) (λ (_ : A) r', step true (named m) r r') r') as Hend.
  { intros A x r' L. apply wp_ret. eapply later_step; [exact L|apply step_refl, L]. }
  apply wp_bind. eapply wp_mono; [by apply (later_recv_id m)|]. intros ok r1 L1. cbn beta in L1. destruct ok; cbn [negb]; [|by apply Hend].
  apply wp_bind. eapply wp_mono; [apply (later_safe (named m) (recv_certs m) (safe_calm _ _ _) (mute_calm _ _)), L1|].
  intros cert r2 L2. pose proof (later_trans _ _ _ _ L1 L2) as L02. destruct cert as [cert|]; [|by apply Hend].
  apply wp_bind. eapply wp_mono; [apply (later_safe (named m) (recv_proposals env m) _ _), L02|].
  intros ok r3 L3. pose proof (later_trans _ _ _ _ L02 L3) as L03. destruct ok; cbn [negb]; [|by apply Hend].
  apply wp_bind. eapply (wp_mono _ _ (λ _ r', later (named m) r3 r')).
  { destruct (negb _); [apply later_peerauth; [done|apply L03]|apply wp_ret, later_refl, L03]. }
  intros u r4 L4. pose proof (later_trans _ _ _ _ L03 L4) as L04. apply wp_bind.
  eapply wp_mono; [apply (later_safe (named m) (recv_cp m) (safe_calm _ _ _) (mute_calm _ _)), L04|].
  intros u' r5 L5. pose proof (later_trans _ _ _ _ L04 L5) as L05. apply wp_bind.
  eapply wp_mono; [apply (recv_verify_wp (named m)), L05|]. intros ok r6 S6. cbn beta in S6.
  pose proof (later_step _ _ _ _ _ L05 (step_plain true _ _ _ S6)) as S06. destruct ok; cbn [negb]; [|by apply wp_ret].
  apply wp_bind. eapply wp_mono; [apply (safe_ike_auth r6 (sp_inv _ _ _ _ S06)); done|]. intros ret r7 G. apply wp_ret.
  by eapply step_grows.
Qed.

Lemma recv_wp m r : sig_ok m → auth_inv r → wp any (ikev2_ike_auth_recv env peer m) (λ _ r', step true (named m) r r') r.
Proof.
  intros Hm I. unfold ikev2_ike_auth_recv. apply wp_bind. eapply wp_mono; [apply (later_safe (named m) (recv_state env m) _ _), I|].
  intros u r1 L1. cbn beta in L1. apply wp_bind. eapply wp_mono; [apply (later_recv_policy m), L1|]. intros ok r2 L2. cbn beta in L2.
  pose proof (later_trans _ _ _ _ L1 L2) as L02.
  assert (∀ r', later (named m) r r' → wp any (mret (-1, msg_error m) : X (Z * Z)) (λ _ r', step true (named m) r r') r') as Hend.
  { intros r' L. apply wp_ret. eapply later_step; [exact L|apply step_refl, L]. }
  destruct ok; cbn [negb]; [|by apply Hend]. unfold with_policy, the_policy. apply wp_bind, wp_gets.
  destruct (at_policy r2) as [i|]; [|done]. apply wp_bind. destruct (sc_policies env !! i) as [p|]; [|done]. apply wp_ret.
  destruct (_ && _).
  - apply wp_bind. eapply wp_mono; [apply (later_take_peerid m), L02|]. intros u3 r3 L3. pose proof (later_trans _ _ _ _ L02 L3) as L03.
    apply wp_bind. eapply wp_mono; [apply (later_safe (named m) (ikev2_send_auth_failed env peer) _ _), L03|].
    intros u4 r4 L4. apply Hend. by eapply later_trans.
  - eapply wp_mono; [apply recv_authenticate_wp, L02; done|]. intros x r3 S. by eapply later_step.
Qed.

Lemma resp_recv_wp m r : sig_ok m → auth_inv r → wp any (resp_recv_auth env peer m) (λ _ r', step true (named m) r r') r.
Proof.
  intros Hm I. unfold resp_recv_auth. destruct (at_sa r) as [sa|] eqn:Hs; [|by unfold wp, with_asa, mbind, M_bind, gets; rewrite Hs].
  apply (wp_with_asa _ _ _ r sa); [done|].
  assert (∀ (x : X unit), Safe Free x → wp any x (λ _ r', step true (named m) r r') r) as Hsafe.
  { intros x Hx. eapply wp_mono; [by apply Hx|]. intros u r'. by apply grows_step. }
  destruct (negb _); [apply Hsafe; safe_tac|]. destruct (eam_found _); [apply Hsafe; safe_tac|].
  apply wp_bind. eapply wp_mono; [by apply recv_wp|]. intros [ret err] r1 S1. cbn beta in S1. cbn [fst snd].
  destruct (negb _); [|by apply wp_ret]. assert (Safe Free (_ ← ikev2_send_error env peer (set_msg_error err m) IKEV2_EXCHANGE_IKE_AUTH;
    x_state IKEV2_STATE_CLOSED)) as Hx by safe_tac.
  eapply wp_mono; [apply (Hx r1 (sp_inv _ _ _ _ S1)); done|]. intros u r2 G. by eapply step_grows.
Qed.
Lemma init_recv_wp m r : sig_ok m → auth_inv r → wp any (init_recv_auth env peer m) (λ _ r', step true (named m) r r') r.
Proof.
  intros Hm I. unfold init_recv_auth.
  assert (wp any (x_state IKEV2_STATE_CLOSED) (λ _ r', step true (named m) r r') r) as Hclose.
  { eapply wp_mono; [apply (safe_state Free IKEV2_STATE_CLOSED ltac:(done) r I); done|]. intros u r'. by apply grows_step. }
  destruct (has_bit _ _); [done|]. destruct (has_bit _ _); [done|]. apply wp_bind. eapply wp_mono; [by apply recv_wp|].
  intros x r' S. by apply wp_ret.
Qed.

(** The invariant with what an established SA has. *)
Record trust_inv (r : astate) : Prop := {
  ti_inv : auth_inv r;
  ti_evidence : is_est r → evidence r;
  ti_complete : initiator0 = false → is_est r → completed r }.

Lemma evidence_later r r' l :
  evidence r → at_log r' = at_log r ++ l → at_policy r' = at_policy r ∨ at_policy r' = None → evidence r'.
Proof.
  intros [[v Hv] H] El Hp. split; [exists v; rewrite El; set_solver|]. intros i p Hi Hpp.
  destruct Hp as [Hp|Hp]; [|congruence]. rewrite Hp in Hi. destruct (H i p Hi Hpp) as [H1 H2]. rewrite El. split.
  - intros He. destruct (H1 He) as (n & m & ?). exists n, m. set_solver.
  - intros He Hm. destruct (H2 He Hm) as (t & c & ?). exists t, c. set_solver.
Qed.
Lemma step_trust nm r r' : trust_inv r → (initiator0 = false → ¬ is_est r) → step true nm r r' → trust_inv r'.
Proof.
  intros [I E C] Hne [I' (l & El) E' P' _ _]. constructor; [done| |].
  - intros H. destruct (E' H) as [H0|(_ & sa & Hs & Hc)]; [|by eapply inv_evidence].
    destruct initiator0 eqn:Hi; [|by destruct Hne]. eapply evidence_later; eauto.
  - intros Hi H. destruct (E' H) as [H0|(_ & sa & Hs & Hc)]; [by destruct Hne|]. intros sa' Hs'. rewrite Hs in Hs'. by injection Hs' as <-.
Qed.
Lemma grows_trust r r' : trust_inv r → grows true r r' → trust_inv r'.
Proof.
  intros [I E C] G. pose proof (grows_inv _ _ _ G I) as I'. destruct (gr_log _ _ _ G) as (l & El & _).
  assert (is_est r' → is_est r ∨ ∃ sa, at_sa r' = Some sa ∧ complete sa) as E'.
  { intros H. destruct (sp_est _ _ _ _ (grows_step true false r r' I G) H) as [?|[_ ?]]; auto. }
  constructor; [done| |].
  - intros H. destruct (E' H) as [H0|(sa & Hs & Hc)]; [|by eapply inv_evidence].
    eapply evidence_later; [by apply E|exact El|left; exact (gr_policy _ _ _ G)].
  - intros Hi H. destruct (E' H) as [H0|(sa & Hs & Hc)]; [eapply grows_completed; eauto|].
    intros sa' Hs'. rewrite Hs in Hs'. by injection Hs' as <-.
Qed.

(** The verifications so far stay those of the identity, unless the input
    claims another. *)
Definition faithful (claim : bool) (r r' : astate) : Prop :=
  (bound r → (claim = true → no_verified r) → bound r') ∧
  (claim = false → peer_id initiator0 r' = peer_id initiator0 r).

Lemma message_wp m r :
  sig_ok m → trust_inv r → wp any (recv_auth_message env peer m) (λ _ r', trust_inv r' ∧ faithful (named m) r r') r.
Proof.
  intros Hm T. pose proof (ti_inv r T) as I. unfold recv_auth_message.
  destruct (at_sa r) as [sa|] eqn:Hs; [|by unfold wp, with_asa, mbind, M_bind, gets; rewrite Hs].
  destruct (inv_prf _ _ I Hs) as [_ Ei]. apply (wp_with_asa _ _ _ r sa); [done|]. rewrite Ei. assert (trust_inv r ∧ faithful (named m) r r) as Hrefl by (by split; [|split]).
  destruct initiator0 eqn:Hi.
  - destruct (_ || _); [by apply wp_ret|]. eapply wp_mono; [by apply init_recv_wp|]. intros u r' S. cbn beta in S. split; [|split; apply S].
    apply (step_trust (named m) r); [done|by rewrite Hi|done].
  - destruct (resp_ike_auth_ok sa) eqn:Hok; [|by apply wp_ret]. eapply wp_mono; [by apply resp_recv_wp|].
    intros u r' S. cbn beta in S. split; [|split; apply S]. apply (step_trust (named m) r); [done| |done].
    intros _ He. apply andb_prop in Hok as [_ Hok]. pose proof (ti_complete r T Hi He sa Hs) as Hc.
    destruct He as (sa' & Hs' & E). rewrite Hs in Hs'. injection Hs' as <-. unfold sa_stateok in Hok. rewrite E in Hok.
    unfold complete in Hc. cbn in Hok. rewrite Hc, Z.eqb_refl in Hok. done.
Qed.

(** ** Answers of the certificate process *)

Lemma set_cert_calm set type data empty : (∀ id r, calm r (set id r)) → Calm (set_cert set type data empty).
Proof. intros H. unfold set_cert. repeat first [apply calm_modify; intros; apply H | calm_step]. Qed.

Lemma peer_cert_wp type data r :
  wp any (set_cert (if initiator0 then set_at_rcert else set_at_icert) type data true)
    (λ ok r', calm r r' ∧ (ok = true → id_type (peer_cert initiator0 r') = type)) r.
Proof.
  set (set := if initiator0 then set_at_rcert else set_at_icert).
  assert (∀ id r, calm r (set id r)) as Hc by (intros id r0; unfold set; destruct initiator0; revert r0; calm_fields).
  assert (∀ id r, peer_cert initiator0 (set id r) = id) as Hp by (intros id r0; unfold set; by destruct initiator0).
  clearbody set. pose proof (set_cert_calm set type data true Hc r) as H. unfold wp.
  destruct (set_cert _ _ _ _ r) as [[ok r']|] eqn:E; [|done]. split; [exact (H _ _ eq_refl)|]. intros ->.
  unfold set_cert, mbind, M_bind, modify in E. destruct (_ =? 0); [injection E as <-; by rewrite Hp|].
  destruct (on_nd _ _) as [[o r1]|]; [|done]. destruct o as [b|]; [|done]. destruct (on_nd _ _) as [[d r2]|]; [|done].
  injection E as <-. by rewrite Hp.
Qed.

Lemma vouched_grows est type cert r : grows est r (set_at_log (at_log r ++ [Vouched type cert]) r).
Proof.
  constructor; try done.
  - eexists. split; [done|]. intros e He. by apply list_elem_of_singleton in He as ->.
  - auto.
  - intros sa' Hs. exists sa'. split; [done|]. split_and!; auto.
Qed.

#[global] Instance safe_certvalid valid type data : Safe Free (dispatch_certvalid env peer valid type data).
Proof.
  intros r I _. unfold dispatch_certvalid. destruct (at_sa r) as [sa|] eqn:Hs; [|by unfold wp, with_asa, mbind, M_bind, gets; rewrite Hs].
  destruct (inv_prf _ _ I Hs) as [_ Ei]. apply (wp_with_asa _ _ _ r sa); [done|]. destruct (_ <? _); [apply wp_ret, grows_refl|].
  rewrite Ei. apply wp_bind. eapply wp_mono; [apply peer_cert_wp|]. intros ok r1 [C1 Ht].
  pose proof (calm_grows true _ _ C1) as G1. pose proof (grows_inv _ _ _ G1 I) as I1. destruct ok; cbn [negb]; [|by apply wp_ret].
  destruct valid; [|apply (safe_end Free); [safe_tac|done..]].
  apply wp_bind, wp_gets, wp_bind, wp_modify. set (r2 := set_at_log _ _).
  pose proof (grows_trans _ _ _ _ G1 (vouched_grows true type (id_buf (peer_cert initiator0 r1)) r1)) as G2. fold r2 in G2.
  pose proof (grows_inv _ _ _ G2 I) as I2. apply wp_bind, wp_gets, wp_bind.
  assert (Vouched type (id_buf (peer_cert initiator0 r1)) ∈ at_log r2) as Hv by (cbn; set_solver).
  apply (wp_mono _ _ (λ _ r', grows true r2 r')).
  { destruct (negb _); [|apply wp_ret, grows_refl]. apply auth_verify_wp; [done|]. intros i p _ _. right.
    change (peer_cert initiator0 r2) with (peer_cert initiator0 r1). by rewrite Ht. }
  intros ret r3 G3. pose proof (grows_trans _ _ _ _ G2 G3) as G03. destruct (negb _); [by apply wp_ret|].
  apply wp_bind. eapply wp_mono.
  { apply (flags_wp true 1 r3); [done|]. destruct (gr_log _ _ _ G3) as (l & -> & _). eexists _, _. apply elem_of_app. left. exact Hv. }
  intros u r4 G4. pose proof (grows_trans _ _ _ _ G03 G4) as G04. apply (safe_end Free); [safe_tac|by eapply grows_inv|done..].
Qed.
#[global] Instance safe_local_cert type data : Safe Free (dispatch_local_cert env peer type data).
Proof.
  unfold dispatch_local_cert. safe_tac. apply safe_calm, set_cert_calm. intros id. destruct (sh_initiator _); calm_fields.
Qed.
#[global] Instance safe_scert type data : Safe Free (dispatch_scert type data).
Proof.
  unfold dispatch_scert. safe_tac. apply safe_calm, set_cert_calm. intros id. calm_fields.
Qed.
#[global] Instance safe_dispatch_auth type data : Safe Free (dispatch_auth env peer type data).
Proof.
  unfold dispatch_auth. safe_tac. apply safe_calm, set_cert_calm. intros id. calm_fields.
Qed.

(** ** Runs *)

Definition input_ok (i : auth_input) : Prop := match i with InMessage m => sig_ok m | _ => True end.
Definition claims (i : auth_input) : bool := match i with InMessage m => named m | _ => false end.

Lemma input_wp i r :
  input_ok i → trust_inv r →
  wp any (handle_input env peer i) (λ _ r', trust_inv r' ∧ faithful (claims i) r r') r.
Proof.
  intros Hi T. assert (∀ x : X unit, Safe Free x → wp any x (λ _ r', trust_inv r' ∧ faithful false r r') r) as H.
  { intros x Hx. eapply wp_mono; [apply (Hx r (ti_inv r T)); done|]. intros u r' G.
    split; [exact (grows_trust _ _ T G)|]. split; [intros Hb _; exact (grows_bound _ _ _ G Hb)|].
    intros _. unfold peer_id. by rewrite (gr_iid _ _ _ G), (gr_rid _ _ _ G). }
  destruct i; [by apply message_wp|apply H, _..].
Qed.
Lemma inputs_wp l r : Forall input_ok l → trust_inv r → wp any (handle_inputs env peer l) (λ _ r', trust_inv r') r.
Proof.
  revert r. induction l as [|i l IH]; intros r Hl T; [by apply wp_ret|]. inversion Hl; subst. apply wp_bind.
  eapply wp_mono; [by apply input_wp|]. intros u r' [T' _]. by apply IH.
Qed.

(** Without an identity nothing is verified. *)
Lemma no_id_no_verified r : auth_inv r → bound r → id_type (peer_id initiator0 r) = 0 → no_verified r.
Proof.
  intros I Hb Hid v Hv. destruct (Hb v Hv) as [E _]. destruct (iv_log r I _ Hv) as (? & ? & ? & ? & ? & _ & _ & Hne & _). by rewrite E in Hne.
Qed.
Lemma bound_wp l r :
  Forall input_ok l → trust_inv r → bound r → (length (filter claims l) ≤ 1)%nat →
  (filter claims l ≠ [] → id_type (peer_id initiator0 r) = 0) →
  wp any (handle_inputs env peer l) (λ _ r', trust_inv r' ∧ bound r') r.
Proof.
  revert r. induction l as [|i l IH]; intros r Hl T Hb Hc Hid; [by apply wp_ret|]. inversion Hl; subst. apply wp_bind.
  eapply wp_mono; [by apply input_wp|]. intros u r' [T' [Hb' Hi']]. rewrite filter_cons in Hc, Hid. apply IH; [done..| | |].
  - apply Hb'; [done|]. intros Hcl. apply no_id_no_verified; [apply T|done|]. apply Hid. by rewrite decide_True by (by rewrite Hcl).
  - case_decide; simpl in Hc; lia.
  - intros Hne. destruct (claims i) eqn:Hcl.
    + rewrite decide_True in Hc by done. simpl in Hc. by destruct (filter claims l); [|simpl in Hc; lia].
    + rewrite Hi' by done. by apply Hid.
Qed.
End invariant.
