(* ===== verification/AuthTrust.v ===== *)
(** * An established SA and its peer

    The theorems on IKE_AUTH: what an established SA says about its peer, and
    two inputs for which the handlers do not do what they are meant to. *)

From S2P Require Import Prelude Tree Types SaState Proposals Negotiate Ibuf Build Parse ParseSk Policy Queue Crypto.
From S2P Require Import Samples Encrypt Send Protect Keys Chap Dsa Payload Auth Ident IkeAuth AuthFrame AuthSafe.

(** An SA after IKE_SA_INIT: keys are there, nothing is checked, and it
    requires what [sa_new] asks for. *)
Record fresh_sa (env : aenv) (sa0 : iked_sa) (r : astate) : Prop := {
  fs_sa : at_sa r = Some sa0;
  fs_log : at_log r = [];
  fs_flags : Z.land (sa_stateflags sa0) (Z.lor IKED_REQ_CERTVALID (Z.lor IKED_REQ_AUTHVALID IKED_REQ_EAPVALID)) = 0;
  fs_state : sa_state sa0 ≠ IKEV2_STATE_ESTABLISHED;
  fs_policy : ∃ i p, at_policy r = Some i ∧ sc_policies env !! i = Some p ∧
    sa_statevalid sa0 = sa_statevalid (set_requires (sh_initiator (sa_hdr sa0)) (ap_auth p) sa0);
  fs_eap : at_eapmsk r = None;
  fs_auth : id_buf (at_peerauth r) = None;
  fs_kex : ∃ prf nonce prfkey buf, sa_prf sa0 = Some prf ∧ prf_ok prf ∧
    peer_parts sa0 = Some (nonce, prfkey, buf) ∧ blen nonce < size_max }.

Lemma checks_clear flags n :
  Z.land flags (Z.lor IKED_REQ_CERTVALID (Z.lor IKED_REQ_AUTHVALID IKED_REQ_EAPVALID)) = 0 →
  Z.testbit flags n = true → ∀ log, supports log n.
Proof.
  intros H Hn log. apply (f_equal (λ z, Z.testbit z n)) in H. rewrite Z.land_spec, Hn, Z.bits_0 in H.
  unfold supports. repeat (case_match; [by exfalso; match goal with E : (n =? _) = true |- _ => apply Z.eqb_eq in E as -> end|]). done.
Qed.
Lemma needs_set initiator a sa : needs a (sa_statevalid (set_requires initiator a sa)).
Proof.
  unfold needs, set_requires, policy_requires. destruct initiator; cbn -[Z.testbit Z.lor Z.land];
    destruct (Z.eqb_spec (auth_eap a) 0), (Z.eqb_spec (auth_method a) IKEV2_AUTH_SHARED_KEY_MIC); cbn [negb]; by split_and!.
Qed.

Section trust.
Context `{EX : External, EL : !ExternalLaws, EN : !Encrypter, PK : Pkeys, PL : !PkeysLaws}.
Context `{NM : Names, DG : Digests, CH : Children, CL : !ChildrenLaws}.

Lemma fresh_trust env sa0 r : fresh_sa env sa0 r → trust_inv env sa0 r.
Proof.
  intros [Hs Hl Hf Hst (i & p & Hi & Hp & Hv) He Ha _].
  assert (¬ is_est r) as Hne by (intros (sa & Hs' & E); rewrite Hs in Hs'; by injection Hs' as <-).
  constructor; [constructor|done|done].
  - intros sa. rewrite Hs. by intros [= <-].
  - intros e. rewrite Hl. set_solver.
  - intros sa n. rewrite Hs. intros [= <-] Hn. by apply (checks_clear (sa_stateflags sa0)).
  - intros sa. rewrite Hs. intros [= <-]. rewrite Hv. apply needs_set.
  - intros sa j q. rewrite Hs, Hi. intros [= <-] [= <-]. rewrite Hp. intros [= <-]. rewrite Hv. apply needs_set.
  - by rewrite He.
  - by rewrite Ha.
Qed.

(** C4: an SA is established only for an authenticated peer. Whatever IKE_AUTH
    messages arrive and whatever the certificate process answers, in any
    order: when the SA is established, a signature of the peer was verified
    over the octets of RFC 7296 (the peer's first message, this end's nonce
    and the identity it claimed), with a key that comes from the policy, from
    EAP or from a certificate found valid; if the policy asks for EAP, a
    configured user answered a challenge with the password, and if it asks
    for public keys, a certificate was found valid. *)
Theorem established_authenticated env peer sa0 r l r' sa :
  fresh_sa env sa0 r → Forall input_ok l → handle_inputs env peer l r = Ok (tt, r') →
  at_sa r' = Some sa → sa_state sa = IKEV2_STATE_ESTABLISHED →
  (∃ v, Verified v ∈ at_log r' ∧ genuine env sa0 (at_log r') (Verified v)) ∧
  ∀ i p, at_policy r' = Some i → sc_policies env !! i = Some p →
    (auth_eap (ap_auth p) ≠ 0 → ∃ name msk, EapUser name msk ∈ at_log r' ∧ genuine env sa0 (at_log r') (EapUser name msk)) ∧
    (auth_eap (ap_auth p) = 0 → auth_method (ap_auth p) ≠ IKEV2_AUTH_SHARED_KEY_MIC →
      ∃ type cert, Vouched type cert ∈ at_log r').
Proof.
  intros Hf Hl Hrun Hs Hst. pose proof (fs_kex _ _ _ Hf) as (prf & nonce & prfkey & buf & Hprf & Hok & Hparts & Hn).
  pose proof (inputs_wp env peer sa0 prf nonce prfkey buf Hprf Hok Hparts Hn l r Hl (fresh_trust _ _ _ Hf)) as H.
  unfold wp in H. rewrite Hrun in H. destruct H as [I E _]. destruct (E ltac:(by exists sa)) as [[v Hv] H]. split.
  - exists v. split; [done|]. by apply (iv_log _ _ _ I).
  - intros i p Hi Hp. destruct (H i p Hi Hp) as [H1 H2]. split; [|done]. intros He. destruct (H1 He) as (name & msk & Hm).
    exists name, msk. split; [done|]. by apply (iv_log _ _ _ I).
Qed.

(** C5: and the peer is who it claims to be, as long as it claims one
    identity: when at most one of the messages has an identity payload, the
    identity of an established SA is the one that was verified, under the
    policy of the SA. *)
Theorem established_identity env peer sa0 r l r' sa :
  fresh_sa env sa0 r → id_type (peer_id (sh_initiator (sa_hdr sa0)) r) = 0 →
  Forall input_ok l → (length (filter claims l) ≤ 1)%nat → handle_inputs env peer l r = Ok (tt, r') →
  at_sa r' = Some sa → sa_state sa = IKEV2_STATE_ESTABLISHED →
  ∃ v, Verified v ∈ at_log r' ∧ genuine env sa0 (at_log r') (Verified v) ∧
    v_id v = peer_id (sh_initiator (sa_hdr sa0)) r' ∧ ∀ i, at_policy r' = Some i → v_policy v = Some i.
Proof.
  intros Hf Hid Hl Hc Hrun Hs Hst. pose proof (fs_kex _ _ _ Hf) as (prf & nonce & prfkey & buf & Hprf & Hok & Hparts & Hn).
  pose proof (bound_wp env peer sa0 prf nonce prfkey buf Hprf Hok Hparts Hn l r Hl (fresh_trust _ _ _ Hf)) as H.
  assert (bound sa0 r) as Hb by (intros v; rewrite (fs_log _ _ _ Hf); set_solver).
  specialize (H Hb Hc (λ _, Hid)). unfold wp in H. rewrite Hrun in H. destruct H as [[I E _] Hb'].
  destruct (E ltac:(by exists sa)) as [[v Hv] _]. exists v. split; [done|]. split; [by apply (iv_log _ _ _ I)|]. exact (Hb' v Hv).
Qed.
(** ** The two ends *)

(** Both ends of an SA: the same PRF, nonces, keys and messages, the same
    identities, opposite roles. *)
Record ends_agree (r r' : astate) (sa sa' : iked_sa) : Prop := {
  ea_kex : (sa_prf sa', (sa_inonce sa', sa_rnonce sa'), (sa_key_iprf sa', sa_key_rprf sa'), (sa_1stmsg sa', sa_2ndmsg sa')) =
           (sa_prf sa, (sa_inonce sa, sa_rnonce sa), (sa_key_iprf sa, sa_key_rprf sa), (sa_1stmsg sa, sa_2ndmsg sa));
  ea_role : sh_initiator (sa_hdr sa') = negb (sh_initiator (sa_hdr sa));
  ea_iid : at_iid r' = at_iid r;
  ea_rid : at_rid r' = at_rid r }.

(** The octets that [x_msg_auth] computes. *)
Lemma msg_auth_value r sa prf response d r' :
  at_sa r = Some sa → sa_prf sa = Some prf → prf_ok prf →
  (∀ n id k b, auth_parts sa (at_iid r) (at_rid r) response = Some (n, id, k, b) → blen n < size_max) →
  x_msg_auth response r = Ok (Some d, r') →
  (∃ n, r' = set_at_nd n r ∧ nd_sa n = Some sa ∧ (nd_alloc (at_nd r) = [] → nd_alloc n = [])) ∧
  ∃ n id k b idb, auth_parts sa (at_iid r) (at_rid r) response = Some (n, id, k, b) ∧ id_buf id = Some idb ∧
    d = signed_octets prf n k b idb.
Proof.
  intros Hs Hprf Hok Hn. unfold x_msg_auth, with_asa, mbind, M_bind, gets. rewrite Hs. unfold on_nd at 1.
  destruct (ikev2_msg_auth _ _ _ _ (at_nd r)) as [[o n]|] eqn:Em; [|done]. destruct o as [bf|]; [|done].
  destruct (auth_parts sa (at_iid r) (at_rid r) response) as [[[[n0 id] k] b]|] eqn:Ea.
  2:{ unfold ikev2_msg_auth in Em. by rewrite Ea in Em. }
  destruct (id_buf id) as [idb|] eqn:Eb; [|by pose proof (msg_auth_no_id _ _ _ _ _ _ _ _ _ _ _ Ea Eb Em)].
  pose proof (msg_auth_spec any _ _ _ _ _ _ _ _ _ _ (at_nd r) Ea Hprf Hok Eb (Hn _ _ _ _ eq_refl)) as H. unfold wp in H. rewrite Em in H.
  destruct H as ((l & -> & Hl) & Ho & _). unfold on_nd, n_content, lift. rewrite (holds_data _ _ (Ho _ eq_refl)).
  intros [= <- <-]. split; [|by eexists n0, id, k, b, idb]. eexists. split; [by destruct r|]. unfold at_sa in Hs. by split.
Qed.

(** C38: an answer without a challenge stops the responder. A policy asks for
    EAP, the SA waits for it and has sent no challenge yet: an EAP message
    with an MS-CHAP answer that names a configured user makes the responder
    read the challenge through a null pointer. The user need not answer
    correctly. *)
Theorem eap_answer_unasked env peer m r sa i p name usr :
  at_sa r = Some sa → sh_initiator (sa_hdr sa) = false → resp_ike_auth_ok sa = true →
  sa_stateok sa IKEV2_STATE_SA_INIT = true → sa_stateok sa IKEV2_STATE_EAP = true →
  at_policy r = Some i → sc_policies env !! i = Some p → auth_eap (ap_auth p) = EAP_TYPE_MSCHAP_V2 →
  id_buf (at_eap r) = None → nd_alloc (at_nd r) = [] →
  eam_found (msg_eap m) = true → eam_state (msg_eap m) = EAP_STATE_MSCHAPV2_CHALLENGE →
  eam_user (msg_eap m) = Some name → user_lookup env name = Some usr →
  recv_auth_message env peer m r = Fault Fnull.
Proof.
  intros Hs Hi Hok Hinit Heap Hp Hpp He Hch Ha Hf Hst Hu Hl.
  assert (∀ A (k : iked_sa → X A), with_asa k r = k sa r) as Hwa by (intros; unfold with_asa, mbind, M_bind, gets; by rewrite Hs).
  assert (∀ A (k : auth_policy → X A), with_policy env k r = k p r) as Hwp.
  { intros. unfold with_policy, the_policy, mbind, M_bind, gets. by rewrite Hp, Hpp. }
  assert (ikev2_resp_ike_eap env peer m r = Fault Fnull) as E.
  { unfold ikev2_resp_ike_eap. rewrite Hwa, Heap. cbn [negb]. rewrite Hwp, He, Z.eqb_refl.
    unfold ikev2_resp_ike_eap_mschap. rewrite Hwa, Hst. change (_ =? EAP_STATE_IDENTITY) with false. rewrite Z.eqb_refl. unfold mbind, M_bind, gets. rewrite Hu, Hl.
    unfold mschap_answer, x_alloc, on_nd, n_alloc, mbind, M_bind. rewrite Ha. cbn. by rewrite Hch. }
  unfold recv_auth_message. rewrite Hwa, Hi, Hok. unfold resp_recv_auth. rewrite Hwa, Hinit, Hf. cbn [negb].
  unfold mbind, M_bind. by rewrite E.
Qed.
End trust.

(** ** Two identities in one exchange *)

(** A MAC that shows its key, one host name, and child SAs that always come
    up. *)
#[local] Instance demo_ext : External := {|
  ext_id_name _ := []; ext_asn1_name _ := None; ext_print_addr _ := [];
  ext_sha1 _ := zeros 20;
  ext_mac h key m := take (Z.to_nat (hash_length_f h)) (key ++ m ++ zeros (hash_length_f h));
  ext_decrypt _ _ _ _ _ ct := Some ct |}.
#[local] Existing Instance demo_encrypter.
#[local] Instance demo_pkeys : Pkeys := {|
  pkey := Empty_set; EVP_PKEY_id _ := 0; EVP_PKEY_bits _ := 0; EVP_PKEY_size _ := 0;
  d2i_X509 _ := None; d2i_RSAPrivateKey _ := None; d2i_RSAPublicKey _ := None; d2i_ECPrivateKey _ := None;
  d2i_EC_PUBKEY _ := None; EVP_DigestInit _ _ := false; EVP_PKEY_CTX_set_pss _ := true;
  EVP_DigestSign _ _ _ _ _ := None; EVP_DigestVerify _ _ _ _ _ := false; d2i_ECDSA_SIG _ := None;
  i2d_ECDSA_SIG _ := None; key_pair _ _ := False |}.
#[local] Instance demo_names : Names := {| gethostname := None; inet_pton _ _ := None; x509_name _ := None |}.
#[local] Instance demo_digests : Digests := {| md4 _ := zeros 16; md5 _ := zeros 16; sha1 _ := zeros 20;
  DES_set_odd_parity k := k; DES_ecb_encrypt _ x := x |}.
#[local] Instance demo_children : Children := {|
  ikev2_cp_setaddr _ := mret 0; ikev2_childsa_negotiate := mret 0; ikev2_childsa_enable := mret 0;
  ikev2_childsa_delete := mret tt; ipsec_sa_init _ := Some 1; udp_encap := mret 0; note_established := mret tt |}.

Definition demo_prf : iked_hash := mk_hash 5 32 0 false IKEV2_XFORMTYPE_PRF 0.
Definition demo_text (b : byte) : bytes := [b].
Definition demo_esp : iked_proposal := config_build 1 3 [(IKEV2_XFORMTYPE_ENCR, 20, 128, 128); (5, 0, 0, 0)].

(** Policies for two peers that share different secrets with this end. *)
Definition demo_peer_policy (name secret : byte) : auth_policy :=
  mk_ap (mk_policy 0 0 (mk_iked_addr 0 (mk_sockaddr 0 0 []) 0 false 0) (mk_static_id IKEV2_ID_FQDN [name])
           (mk_iked_addr 0 (mk_sockaddr 0 0 []) 0 false 0) (mk_static_id IKEV2_ID_FQDN (demo_text x68)) [demo_esp] Null 0 [0; 0; 0; 0]%nat)
    (mk_auth IKEV2_AUTH_SHARED_KEY_MIC 0 [secret]) 0 [] [] [].
Definition demo_env : aenv := mk_aenv [demo_peer_policy x61 x01; demo_peer_policy x62 x02] None 0 None [] 0.

Definition demo_id (name : byte) : iked_id := mk_id IKEV2_ID_FQDN 4 (Some [bZ IKEV2_ID_FQDN; x00; x00; x00; name]).
Definition demo_fresh : iked_sa :=
  set_sa_state IKEV2_STATE_SA_INIT (set_sa_prf (Some demo_prf) (set_sa_1stmsg (Some [x31]) (set_sa_2ndmsg (Some [x32])
    (set_sa_inonce (Some [x33]) (set_sa_rnonce (Some [x34]) (set_sa_key_iprf (Some [x35]) (set_sa_key_rprf (Some [x36])
    (set_requires false (mk_auth IKEV2_AUTH_SHARED_KEY_MIC 0 [x01]) (demo_end false))))))))).

Definition demo_start : astate :=
  mk_astate (demo_node demo_fresh []) id_zero (demo_id x68) id_zero id_zero [id_zero; id_zero; id_zero] id_zero id_zero
    id_zero None None (Some 0%nat) (mk_cp_info 0 None None None None) 0 (0, 0) false [] [].

Definition demo_secret (secret : byte) : bytes := ext_mac demo_prf [secret] IKEV2_KEYPAD.
Definition demo_octets (name : byte) : bytes :=
  signed_octets demo_prf [x34] [x35] [x31] [bZ IKEV2_ID_FQDN; x00; x00; x00; name].
Definition demo_auth (name : byte) (props : list iked_proposal) (sig : bytes) : iked_message :=
  set_msg_proposals props (set_msg_auth (mk_id IKEV2_AUTH_SHARED_KEY_MIC 4 (Some sig)) (set_msg_peerid (demo_id name) (sample_msg []))).

(** The first message is from a peer that knows its secret and leaves out the
    proposals; the second claims another identity with a made-up signature. *)
Definition demo_honest : iked_message := demo_auth x61 [] (ext_mac demo_prf (demo_secret x01) (demo_octets x61)).
Definition demo_forged : iked_message := demo_auth x62 [demo_esp] (zeros 32).

Definition demo_addr4 : sockaddr := mk_sockaddr AF_INET 500 [].
#[local] Notation demo_run l := (handle_inputs demo_env demo_addr4 l demo_start).

(** The state, the identity and the policy, and what was verified. *)
Definition summary (o : out (unit * astate)) : option (option Z * iked_id * option nat * list (option (iked_id * option nat))) :=
  match o with
  | Ok (_, r) => Some (sa_state <$> at_sa r, at_iid r, at_policy r,
      map (λ e, match e with Verified v => Some (v_id v, v_policy v) | _ => None end) (at_log r))
  | Fault _ => None
  end.

Lemma summary_run o st id pol log :
  summary o = Some (Some st, id, pol, log) → ∃ r' sa, o = Ok (tt, r') ∧ at_sa r' = Some sa ∧ sa_state sa = st ∧
    at_iid r' = id ∧ at_policy r' = pol ∧ ∀ v, Verified v ∈ at_log r' → Some (v_id v, v_policy v) ∈ log.
Proof.
  unfold summary. destruct o as [[[] r']|]; [|done]. intros [= Hs <- <- <-]. destruct (at_sa r') as [sa|] eqn:E; [|done].
  injection Hs as <-. exists r', sa. split_and!; try done. intros v Hv.
  exact (list_elem_of_fmap_2 (λ e, match e with Verified v => Some (v_id v, v_policy v) | _ => None end) _ _ Hv).
Qed.

Lemma demo_fresh_sa : fresh_sa demo_env demo_fresh demo_start.
Proof.
  constructor; try done.
  - by exists 0%nat, (demo_peer_policy x61 x01).
  - by eexists demo_prf, _, _, _.
Qed.

#[local] Instance demo_ext_laws : ExternalLaws.
Proof.
  constructor; [done| |by intros * [= ->]]. intros h key m Hh. cbn [ext_mac demo_ext]. unfold blen. rewrite length_take, !length_app.
  pose proof (blen_zeros (hash_length_f h) Hh) as E. unfold blen in E. lia.
Defined.
#[local] Instance demo_pkeys_laws : PkeysLaws.
Proof. by constructor; intros []. Defined.
#[local] Instance demo_children_laws : ChildrenLaws.
Proof. constructor; intros; apply _. Defined.

Lemma demo_forged_summary : summary (demo_run [InMessage demo_honest; InMessage demo_forged]) =
  Some (Some IKEV2_STATE_ESTABLISHED, demo_id x62, Some 1%nat, [Some (demo_id x61, Some 0%nat)]).
Proof. vm_compute. reflexivity. Qed.

(** C18: a peer that is authenticated under one identity gets an SA for
    another. The responder ignores that the verification failed, and the
    check of the first message still counts: a peer that knows the secret of
    its own policy sends a correct AUTH without proposals, then claims the
    identity of somebody else, for which another policy and another secret
    apply, with proposals and with zeros for a signature. The SA is
    established with the second identity under the second policy, and the
    only verification there was is that of the first. *)
Theorem forged_identity_established :
  fresh_sa demo_env demo_fresh demo_start ∧
  ¬ signature IKEV2_AUTH_SHARED_KEY_MIC demo_prf (demo_secret x02) None (demo_octets x62) (zeros 32) ∧
  ∃ r' sa, handle_inputs demo_env demo_addr4 [InMessage demo_honest; InMessage demo_forged] demo_start = Ok (tt, r') ∧
    at_sa r' = Some sa ∧ sa_state sa = IKEV2_STATE_ESTABLISHED ∧
    at_iid r' = demo_id x62 ∧ at_policy r' = Some 1%nat ∧
    ∀ v, Verified v ∈ at_log r' → v_id v = demo_id x61 ∧ v_policy v = Some 0%nat.
Proof.
  split; [apply demo_fresh_sa|]. split; [by vm_compute|].
  destruct (summary_run _ _ _ _ _ demo_forged_summary) as (r' & sa & E & Hs & Hst & Hid & Hp & Hv).
  exists r', sa. split; [exact E|]. split; [exact Hs|]. split; [exact Hst|]. split; [exact Hid|]. split; [exact Hp|].
  intros v H%Hv. apply list_elem_of_singleton in H. injection H as E1 E2. exact (conj E1 E2).
Qed.

(** A correct message with proposals. *)
Definition demo_whole : iked_message := demo_auth x61 [demo_esp] (ext_mac demo_prf (demo_secret x01) (demo_octets x61)).
Lemma demo_whole_summary : summary (demo_run [InMessage demo_whole]) =
  Some (Some IKEV2_STATE_ESTABLISHED, demo_id x61, Some 0%nat, [Some (demo_id x61, Some 0%nat)]).
Proof. vm_compute. reflexivity. Qed.
Lemma demo_whole_run : ∃ r' sa, demo_run [InMessage demo_whole] = Ok (tt, r') ∧ at_sa r' = Some sa ∧ sa_state sa = IKEV2_STATE_ESTABLISHED.
Proof.
  destruct (summary_run _ _ _ _ _ demo_whole_summary) as (r' & sa & E & Hs & Hst & _). exists r', sa. exact (conj E (conj Hs Hst)).
Qed.
Lemma demo_whole_ok : Forall input_ok [InMessage demo_whole].
Proof. constructor; [|done]. intros d [= <-]. by vm_compute. Qed.

Lemma established_authenticated_witness :
  ∃ r', handle_inputs demo_env demo_addr4 [InMessage demo_whole] demo_start = Ok (tt, r') ∧
    ∃ v, Verified v ∈ at_log r' ∧ genuine demo_env demo_fresh (at_log r') (Verified v).
Proof.
  destruct demo_whole_run as (r' & sa & E & Hs & Hst). exists r'. split; [exact E|].
  exact (proj1 (established_authenticated demo_env demo_addr4 demo_fresh demo_start [InMessage demo_whole] r' sa
    demo_fresh_sa demo_whole_ok E Hs Hst)).
Defined.

Lemma established_identity_witness :
  ∃ r', handle_inputs demo_env demo_addr4 [InMessage demo_whole] demo_start = Ok (tt, r') ∧
    ∃ v, Verified v ∈ at_log r' ∧ genuine demo_env demo_fresh (at_log r') (Verified v) ∧
      v_id v = peer_id (sh_initiator (sa_hdr demo_fresh)) r' ∧ ∀ i, at_policy r' = Some i → v_policy v = Some i.
Proof.
  destruct demo_whole_run as (r' & sa & E & Hs & Hst). exists r'. split; [exact E|].
  apply (established_identity demo_env demo_addr4 demo_fresh demo_start [InMessage demo_whole] r' sa);
    [apply demo_fresh_sa|reflexivity|apply demo_whole_ok|vm_compute; lia|exact E|exact Hs|exact Hst].
Defined.

(** The responder waits for EAP after a first message without AUTH. *)
Definition demo_eap_policy : auth_policy :=
  mk_ap (ap_pol (demo_peer_policy x61 x01)) (mk_auth IKEV2_AUTH_RSA_SIG EAP_TYPE_MSCHAP_V2 []) 0 [] [] [].
Definition demo_eap_env : aenv := mk_aenv [demo_eap_policy] None 4 (Some []) [([x75], [x70])] 0.
Definition demo_eap_start : astate :=
  set_at_nd (demo_node (set_requires false (ap_auth demo_eap_policy) demo_fresh) []) demo_start.
Definition demo_eap_first : iked_message := set_msg_peerid (demo_id x61) (set_msg_proposals [demo_esp] (sample_msg [])).
Definition demo_eap_answer : iked_message :=
  set_msg_eap (mk_eap_msg None (Some [x75]) EAP_TYPE_MSCHAP_V2 1 1 false true true (zeros 16) (zeros 24) EAP_STATE_MSCHAPV2_CHALLENGE)
    (sample_msg []).

Definition eap_summary (o : out (unit * astate)) : bool :=
  match o with
  | Ok (_, r) =>
      match at_sa r with
      | Some sa => negb (sh_initiator (sa_hdr sa)) && resp_ike_auth_ok sa && sa_stateok sa IKEV2_STATE_SA_INIT &&
          sa_stateok sa IKEV2_STATE_EAP && bool_decide (at_policy r = Some 0%nat) && bool_decide (id_buf (at_eap r) = None) &&
          bool_decide (nd_alloc (at_nd r) = [])
      | None => false
      end
  | Fault _ => false
  end.
#[local] Notation demo_eap_run := (handle_inputs demo_eap_env demo_addr4 [InMessage demo_eap_first] demo_eap_start).
Lemma demo_eap_waits : eap_summary demo_eap_run = true.
Proof. vm_compute. reflexivity. Qed.

Lemma eap_answer_unasked_witness :
  ∃ r, handle_inputs demo_eap_env demo_addr4 [InMessage demo_eap_first] demo_eap_start = Ok (tt, r) ∧
    recv_auth_message demo_eap_env demo_addr4 demo_eap_answer r = Fault Fnull.
Proof.
  pose proof demo_eap_waits as H. unfold eap_summary in H. destruct demo_eap_run as [[[] r]|]; [|discriminate H].
  destruct (at_sa r) as [sa|] eqn:Hs; [|discriminate H]. repeat (apply andb_prop in H as [H ?]).
  exists r. split; [reflexivity|].
  apply (eap_answer_unasked demo_eap_env demo_addr4 demo_eap_answer r sa 0 demo_eap_policy [x75] ([x75], [x70]));
    try reflexivity; try assumption; try (by apply negb_true_iff); by eapply bool_decide_eq_true_1.
Defined.

(** An initiator and a responder with the same secret. *)
Definition demo_known (initiator : bool) : astate :=
  set_at_iid (demo_id x61) (set_at_nd (demo_node (set_sa_hdr (mk_sahdr 1 2 initiator) demo_fresh) []) demo_start).
Definition demo_psk : iked_auth := mk_auth IKEV2_AUTH_SHARED_KEY_MIC 0 [x01].

Definition signed (o : out (option bytes * astate)) : bool :=
  match o with
  | Ok (Some d, r1) =>
      match ikev2_msg_authsign demo_psk d r1 with
      | Ok (ret, r2) => (ret =? 0) && match id_buf (at_localauth r2) with Some sig => blen sig =? 32 | None => false end
      | Fault _ => false
      end
  | _ => false
  end.
Lemma demo_signed : signed (x_msg_auth false (demo_known true)) = true.
Proof. vm_compute. reflexivity. Qed.
Lemma demo_octets_known : signed (x_msg_auth false (demo_known false)) = true.
Proof. vm_compute. reflexivity. Qed.

Lemma demo_prf_ok : prf_ok demo_prf.
Proof. by constructor. Qed.

